(* ===== verification/_CoqProject ===== *)
-Q . S2P
Prelude.v
PyStr.v
Errors.v
Sharding.v
Config.v
Floats.v
Limits.v
Crc32.v
Keys.v
Runtime.v
Policies.v
Metrics.v
Serde.v
Engine.v
ClientSpec.v
Concrete.v
Store.v
GetFacts.v
Reads.v
Observations.v
PutFacts.v
KeyOps.v
Interleave.v
Threads.v
Ownership.v
WellFormed.v
BatchPut.v
BatchGet.v
CacheRefinement.v
Concurrency.v
Gather.v
ClientHolder.v
Backends.v
L2Entry.v
Connector.v
GatherReads.v
StoragePlugin.v
StorageTasks.v
ParallelChunks.v
Buffers.v
Nodes.v
StorageApi.v
L2Plugin.v
L2Locks.v
L2Events.v
L2Tasks.v
L2Refinement.v
Listing.v
InFlight.v
NativeConnector.v
Hex.v
NativeKeys.v
NativeClient.v
NativeLifecycle.v
NativeBuild.v
Scripts.v
