(* ===== verification/Prelude.v ===== *)
(** * A verification development for lmcache-aerospike

    lmcache-aerospike (the Python package [src/src/lmcache_aerospike]) keeps KV-cache chunks of
    LMCache in an Aerospike cluster.  A cache key owns one meta record and, when its payload does
    not fit in one record, a number of segment records.  This development translates the package
    to Rocq definitions and proves what makes it correct.

    ** The program and the files

    - [Sharding] ([sharding.py]): how a payload is cut into segments.  [Limits] ([limits.py]): the
      record size limit of the server and the segment limits resolved from it.  [Config]
      ([config.py]): parsing and validation of the configuration, over [PyStr] (Python's string
      operations).  [Policies] ([policies.py]): the policy dicts handed to the client.
    - [Keys] ([keys.py], [object_keys.py]): record keys, conversion of object keys.  [Errors]
      ([errors.py]): exceptions, their classification and mapping.  [Crc32]: [zlib.crc32].
    - [Runtime]: effects.  A method with effects is a [prog], a tree of events: calls of the client,
      accesses to a [MemoryObj], the clock, observations.  [run] executes a tree in a [world]
      (cluster, heap of objects, time, observations), [step] executes one event.
      [Metrics] ([metrics.py]): the operation timer and the collectors.
    - [Serde] ([serde.py]) and [Engine] ([engine.py], class [AerospikeStorageEngine]): the bins of a
      meta record, the assembly of a payload, and every operation of the engine under its name.
      Python's [exists] is [exists_].
    - [ClientHolder] ([client.py]): the registry of shared clients as a state.  [Backends]
      ([adapter.py] and the constructors and [close] of the three backends).  [L2Entry]
      ([__init__.py], the parameters and construction of the L2 plugin), over [Floats] (binary64
      numbers as far as the capacity needs them).
    - [Connector] ([connector.py]), [StoragePlugin] ([storage_plugin.py]), [L2Plugin] and
      [ParallelChunks] ([l2_plugin.py]): the clients of the engine, one call at a time.  Many calls
      at a time: [Gather] and [GatherReads] (the gathered puts and reads of the connector), [InFlight] (its semaphore and gauge),
      [StorageTasks] (put tasks under any number of jobs), [StorageApi] (the storage plugin as one
      object with all its calls), [L2Tasks] (task ids, jobs and results under any history of calls),
      [L2Locks] (the lock table under threads), [L2Events] (results and their notifiers).  [Listing]:
      [list] and [ping] of the connector.
    - The native connector: [NativeConnector] ([native_connector.py] and the signature in
      [csrc/aerospike/pybind.cpp]), [NativeKeys] and [NativeClient] ([csrc/aerospike/connector.cpp]: hosts,
      keys, limits and planner; the single operations) and [NativeLifecycle] (construction, policies,
      [close]), over [Hex] (hexadecimal text).
      [NativeBuild] ([setup.py]): where the extension's headers and libraries are looked for.
    - [Scripts] ([scripts/*.py], [benchmarks/l2/bootstrap.py]): what a script prints and how it ends.

    A cache key is of any type [CK] with an injective [to_string]; the L2 files use
    [CacheEngineKey].

    ** What the code relies on

    Code outside the repository is a parameter.  [Runtime.Env]: the constants of the [aerospike]
    module, allocation, [RemoteMetadata] and [torch.frombuffer].  [Runtime.AerospikeClient]: the
    operations of [aerospike.Client]; [ClientSpec] states what they do when they return and when
    they raise, for any cluster state, and what a [healthy] cluster is.  A failed write may or
    may not have been applied.  [GetFacts.EngineHooks] is the interface between the engine and
    the two functions its owner hands over.  [Concrete] instantiates all of them by executable
    functions, with a script of faults; the witnesses run there.

    ** The abstract cache

    [Store.entry] maps a cache key to the payload a reader would assemble from the records (or to
    none); [Store.owns] says which records belong to a key.  The operations are specified on it:
    [put] inserts, [get] looks up, [remove] deletes, pinning leaves it alone.

    [CacheRefinement] states the same as one specification: a finite map with eleven operations,
    the batches and [unpin] included, which the engine on a healthy cluster refines, answer by
    answer.  Two clients of the engine refine machines built on that map: [StorageApi] (the map and
    the keys still to be put, with background jobs that store one object at a time) and
    [L2Refinement] (the map, a multiset of locks, and results that wait to be asked for).
    [Buffers] says which objects these calls fill and which they leave alone.

    ** The theorems

    - Entries: [PutFacts] (round trip, refinement of insertion on a healthy cluster, all-or-nothing
      under faults), [Reads] and [GetFacts] (what [get] returns is the entry; hits are exact; buffers are
      released), [KeyOps] (lookups, pinning, removal), [BatchPut] and [BatchGet] (the batched
      operations), [CacheRefinement] (every sequence of operations), [Nodes] (what one process puts,
      another with its own configuration reads; what an old checksum does to that), [Observations]
      (what each operation reports to the metrics, and how that relates to its result).
    - Concurrency: [Interleave] (threads taking turns event by event, a rely-guarantee judgement),
      [Threads] (the same for any events on any state: the Owicki-Gries rule, threads on different
      places), [Ownership] (threads that allocate an object on the way: one proof for [get]),
      [WellFormed] (the shape of the stored records is an invariant of all operations under every
      schedule), [Concurrency] (a first put against a concurrent [get], into a given buffer or a new object, or a
      crash of the writer;
      a run that shows overwriting is not atomic), [Gather] (puts of distinct keys side by side),
      [GatherReads] (reads side by side, each with the object it allocates),
      [InFlight] (the bound on calls, no deadlock), [L2Tasks] (exactly-once results, completion),
      [StorageTasks] (an account of every key in the put-task set), [L2Locks] (jobs on different keys are
      serializable, lookups that share keys never lose a lock, what jobs that share keys can break),
      [L2Events] (no result waits behind a silent descriptor).
    - Backends: [ClientHolder], [Backends] and [L2Entry] (references to shared clients),
      [Connector], [StoragePlugin], [L2Plugin] (batches, put tasks, locks), [ParallelChunks] (results
      in order for every completion order), [Listing] (which keys are listed).
    - Native: [NativeConnector] (which calls reach the C++ constructor, with what, and which of its
      checks decides the error of the others), [NativeKeys] (both connectors plan, name records and read host lists alike; no
      wrap-around), [NativeClient] (both connectors read what either wrote; deletion),
      [NativeLifecycle] (the client is closed exactly once, except after a refused record cap),
      [NativeBuild] (every outcome of the build, independence of the listing order).
    - Scripts: [Scripts] (when each check passes, what the truncation asks of the cluster).
    - Pure parts: [Sharding], [Limits], [Config], [Keys], [Crc32], [Policies], [Floats].

    ** Bounds and fuel

    Integers are those of Python (unbounded), with the masks of the code written out; the CRC
    works on 32-bit states, and the native planner and keys on 32- and 64-bit integers with their
    wrap-around.  Of the functions that model code [chunks] takes fuel (the length of the list,
    enough by [chunks_concat]); their other loops are structural.  Batches are cut by 32, in the engine and
    in the L2 plugin.  A schedule is a list of turns of any length; the theorems on termination count
    the turns that are needed.

    ** What is not modelled

    Durations and the buckets of the Prometheus histograms; log lines; thread pools and the asyncio
    event loop, beyond the interleavings named above.  [L2Tasks] and [L2Refinement] let a job of the
    L2 plugin take effect when it ends, its chunks one after the other in any order; [L2Locks] shows
    for the lock table what that leaves out.
    LMCache code is a parameter throughout: the allocator, the event notifiers, the base classes of
    the plugins, and the worker queue of the C++ connector.  The load generators under
    [benchmarks/] only time calls of the modelled operations and are left out. *)

From stdpp Require Export base tactics list gmap strings pretty.
From Stdlib Require Export ZArith Lia.
From Stdlib Require Strings.Byte.
From Stdlib Require Export Strings.Ascii.

#[export] Set Default Goal Selector "!".

Declare Scope model_scope.
Delimit Scope model_scope with model.
#[global] Open Scope model_scope.
#[global] Open Scope Z_scope.

(** ** Results

    A fallible pure computation returns a sum whose left side is the raised
    exception.  [let?] sequences two of them and stops at the first exception. *)
Notation "'let?' x := e 'in' k" :=
  (match e with inl er => inl er | inr x => k end)
  (at level 10, x pattern, e at level 200, k at level 200) : model_scope.

(** ** Proof automation *)

Create HintDb model discriminated.
Create Rewrite HintDb model_rw.
#[export] Hint Constants Opaque : model.
#[export] Hint Variables Transparent : model.

(** Case analysis on the first [match] or [if] found in the goal or in a hypothesis. *)
Ltac break_match_goal :=
  match goal with
  | |- context [ match ?e with _ => _ end ] =>
      lazymatch e with
      | context [ match _ with _ => _ end ] => fail
      | _ => destruct e eqn:?
      end
  end.

Ltac break_match_hyp H :=
  match type of H with
  | context [ match ?e with _ => _ end ] =>
      lazymatch e with
      | context [ match _ with _ => _ end ] => fail
      | _ => destruct e eqn:?
      end
  end.

Ltac break_all H := repeat (break_match_hyp H; simplify_eq).

(** Reflect the boolean comparisons of the code into propositions. *)
Ltac zbool :=
  repeat match goal with
  | H : (_ <=? _) = true |- _ => apply Z.leb_le in H
  | H : (_ <=? _) = false |- _ => apply Z.leb_gt in H
  | H : (_ <? _) = true |- _ => apply Z.ltb_lt in H
  | H : (_ <? _) = false |- _ => apply Z.ltb_ge in H
  | H : (_ >? _) = true |- _ => rewrite Z.gtb_ltb in H; apply Z.ltb_lt in H
  | H : (_ >? _) = false |- _ => rewrite Z.gtb_ltb in H; apply Z.ltb_ge in H
  | H : (_ =? _) = true |- _ => apply Z.eqb_eq in H
  | H : (_ =? _) = false |- _ => apply Z.eqb_neq in H
  | H : (_ && _)%bool = true |- _ => apply andb_true_iff in H as [??]
  | H : (_ && _)%bool = false |- _ => apply andb_false_iff in H
  | H : (_ || _)%bool = true |- _ => apply orb_true_iff in H
  | H : (_ || _)%bool = false |- _ => apply orb_false_iff in H as [??]
  | H : negb _ = true |- _ => apply negb_true_iff in H
  | H : negb _ = false |- _ => apply negb_false_iff in H
  end.

(** ** Lists: slices and chunks *)

(** Python's [l[start : start + n]] for natural bounds. *)
Definition slice {A} (start n : nat) (l : list A) : list A := take n (drop start l).

(** [[l[i : i + n] for i in range(0, len(l), n)]], with fuel bounding the number of slices:
    [length l] slices are enough when [0 < n]. *)
Fixpoint chunks_fuel {A} (fuel n : nat) (l : list A) : list (list A) :=
  match fuel, l with
  | _, [] => []
  | O, _ => []
  | S fuel, _ => take n l :: chunks_fuel fuel n (drop n l)
  end.

Definition chunks {A} (n : nat) (l : list A) : list (list A) := chunks_fuel (length l) n l.

(** How many elements of a list satisfy a test. *)
Fixpoint count {A} (p : A -> bool) (l : list A) : nat :=
  match l with [] => 0 | x :: l => Nat.b2n (p x) + count p l end.

Lemma count_app {A} (p : A -> bool) l1 l2 : count p (l1 ++ l2) = (count p l1 + count p l2)%nat.
Proof. induction l1 as [|x l1 IH]; [done|]. cbn [app count]. lia. Qed.

Lemma count_delete {A} (p : A -> bool) i x : forall l,
  l !! i = Some x -> count p l = (Nat.b2n (p x) + count p (delete i l))%nat.
Proof.
  induction i as [|i IH]; intros [|y l] Hi; try done; simpl in *; [by injection Hi as ->|].
  rewrite (IH l Hi). lia.
Qed.

Lemma count_insert {A} (p : A -> bool) i x y : forall l,
  l !! i = Some x -> (count p (<[i := y]> l) + Nat.b2n (p x) = count p l + Nat.b2n (p y))%nat.
Proof.
  induction i as [|i IH]; intros [|z l] Hi; try done; simpl in *; [injection Hi as ->; lia|].
  specialize (IH l Hi). lia.
Qed.

Lemma count_pos {A} (p : A -> bool) x l : x ∈ l -> p x = true -> (0 < count p l)%nat.
Proof. induction 1 as [|x y l _ IH]; intros Hp; cbn [count]; [by rewrite Hp; simpl; lia|specialize (IH Hp); lia]. Qed.

Lemma count_zero {A} (p : A -> bool) l : (forall x, x ∈ l -> p x = false) -> count p l = 0%nat.
Proof.
  induction l as [|x l IH]; intros Hl; [done|]. cbn [count]. rewrite Hl by apply list_elem_of_here.
  apply IH. intros y Hy. by apply Hl, list_elem_of_further.
Qed.

Section lists.
Context {A B : Type}.
Implicit Types (l : list A) (n : nat).

Lemma chunks_fuel_concat n fuel l :
  (0 < n)%nat -> (length l <= fuel)%nat -> concat (chunks_fuel fuel n l) = l.
Proof.
  intros Hn. revert l. induction fuel as [|fuel IH]; intros [|x l] Hf; simpl in *; try done; [lia|].
  destruct n as [|n]; [lia|]. simpl. f_equal.
  rewrite IH, take_drop; [done|]. rewrite length_drop. lia.
Qed.

(** Splitting into chunks loses nothing and keeps the order. *)
Lemma chunks_concat n l : (0 < n)%nat -> concat (chunks n l) = l.
Proof. intros. by apply chunks_fuel_concat. Qed.

Lemma chunks_fuel_length n fuel l :
  (0 < n)%nat -> (length l <= fuel)%nat -> length (chunks_fuel fuel n l) = ((length l + (n - 1)) / n)%nat.
Proof.
  intros Hn. revert l. induction fuel as [|fuel IH]; intros [|x l] Hf; cbn [chunks_fuel length] in *;
    try (symmetry; apply Nat.div_small; lia).
  rewrite IH; rewrite length_drop; cbn [length]; [|lia]. destruct (Nat.le_gt_cases (S (length l)) n) as [Hle|Hgt].
  - replace (S (length l) - n)%nat with 0%nat by lia.
    rewrite (Nat.div_small (0 + (n - 1))) by lia. apply (Nat.div_unique _ _ _ (length l)); lia.
  - replace (S (length l) + (n - 1))%nat with ((S (length l) - n + (n - 1)) + 1 * n)%nat by lia.
    rewrite Nat.div_add by lia. lia.
Qed.

(** How many chunks there are. *)
Lemma length_chunks n l : (0 < n)%nat -> length (chunks n l) = ((length l + (n - 1)) / n)%nat.
Proof. intros. by apply chunks_fuel_length. Qed.

Lemma chunks_fuel_bound n fuel l c :
  c ∈ chunks_fuel fuel n l -> (length c <= n)%nat /\ ((0 < n)%nat -> c <> []).
Proof.
  revert l. induction fuel as [|fuel IH]; intros [|x l]; simpl;
    rewrite ?elem_of_nil; try done.
  rewrite elem_of_cons. intros [->|Hc]; [|eauto].
  split; [rewrite length_take; lia|]. destruct n; [lia|done].
Qed.

Lemma chunks_bound n l c :
  c ∈ chunks n l -> (length c <= n)%nat /\ ((0 < n)%nat -> c <> []).
Proof. apply chunks_fuel_bound. Qed.

Lemma NoDup_concat_elem {D} (ls : list (list D)) c : NoDup (concat ls) -> c ∈ ls -> NoDup c.
Proof.
  induction ls as [|d ls IH]; simpl; [by rewrite elem_of_nil|].
  intros (Hd & _ & Hls)%NoDup_app. rewrite elem_of_cons. intros [->|Hc]; auto.
Qed.

Lemma fmap_concat (f : A -> B) (ls : list (list A)) : f <$> concat ls = concat ((fun l => f <$> l) <$> ls).
Proof. induction ls as [|c ls IH]; simpl; [done|]. by rewrite fmap_app, IH. Qed.

(** The chunks of a list without repetition (of [f]) have none. *)
Lemma chunks_NoDup (f : A -> B) n l c :
  (0 < n)%nat -> NoDup (f <$> l) -> c ∈ chunks n l -> NoDup (f <$> c).
Proof.
  intros Hn Hnd Hc. rewrite <- (chunks_concat n l), fmap_concat in Hnd by done.
  apply (NoDup_concat_elem _ _ Hnd). by apply (list_elem_of_fmap_2 (fun l => f <$> l)).
Qed.

Lemma slice_full l : slice 0 (length l) l = l.
Proof. unfold slice. by rewrite drop_0, take_ge. Qed.

Lemma length_slice start n l :
  length (slice start n l) = Nat.min n (length l - start).
Proof. unfold slice. by rewrite length_take, length_drop. Qed.
End lists.

Lemma seqZ_one (m : Z) : seqZ m 1 = [m].
Proof. done. Qed.

Lemma elem_of_concat {A} (ls : list (list A)) l x : l ∈ ls -> x ∈ l -> x ∈ concat ls.
Proof.
  induction ls as [|c ls IH]; [by intros ?%not_elem_of_nil|]. simpl. rewrite elem_of_cons, elem_of_app.
  intros [->|Hl] Hx; auto.
Qed.

Lemma Forall2_impl_elem {A B} (R R' : A -> B -> Prop) (l : list A) (k : list B) :
  Forall2 R l k -> (forall x y, x ∈ l -> R x y -> R' x y) -> Forall2 R' l k.
Proof.
  induction 1 as [|x y l k Hxy Hlk IH]; intros Himp; constructor.
  - apply Himp; [by left|done].
  - apply IH. intros x' y' Hx'. apply Himp. by right.
Qed.

#[export] Hint Resolve chunks_concat : model.

Lemma NoDup_take {A} n (l : list A) : NoDup l -> NoDup (take n l).
Proof. intros Hnd. eapply sublist_NoDup; [exact Hnd|apply sublist_take]. Qed.
