(* ===== verification/PyStr.v ===== *)
(** * Python's [str] operations used by the package

    A [str] is a [string] whose characters stand for the code points below 256 (Latin-1).
    The operations are those of Python 3 on that range: [strip], [lower], [split],
    [rsplit(sep, 1)], [startswith], [endswith], [int(s)] and [str(n)] for integers. *)

From S2P Require Import Prelude.

#[global] Arguments String.append !_ _ / : simpl nomatch.

(** ** Characters *)

Definition code (c : ascii) : Z := Z.of_nat (Ascii.nat_of_ascii c).
Definition chr (z : Z) : ascii := Ascii.ascii_of_nat (Z.to_nat z).

(** [str.isspace] on one character. *)
Definition is_space (c : ascii) : bool :=
  let z := code c in
  ((9 <=? z) && (z <=? 13)) || ((28 <=? z) && (z <=? 32)) || (z =? 133) || (z =? 160).

Definition lower_char (c : ascii) : ascii :=
  let z := code c in
  if ((65 <=? z) && (z <=? 90)) || ((192 <=? z) && (z <=? 222) && negb (z =? 215))
  then chr (z + 32) else c.

(** The value of a decimal digit. *)
Definition digit (c : ascii) : option Z :=
  let z := code c in
  if (48 <=? z) && (z <=? 57) then Some (z - 48) else None.

(** ** Stripping and case *)

Fixpoint lstrip (s : string) : string :=
  match s with
  | String c s' => if is_space c then lstrip s' else s
  | EmptyString => ""
  end.

Fixpoint rstrip (s : string) : string :=
  match s with
  | EmptyString => ""
  | String c s' =>
      match rstrip s' with
      | EmptyString => if is_space c then "" else String c ""
      | r => String c r
      end
  end.

Definition strip (s : string) : string := rstrip (lstrip s).

Fixpoint lower (s : string) : string :=
  match s with
  | EmptyString => ""
  | String c s' => String (lower_char c) (lower s')
  end.

(** ** Searching and splitting *)

Fixpoint contains_char (c : ascii) (s : string) : bool :=
  match s with
  | EmptyString => false
  | String a s' => Ascii.eqb a c || contains_char c s'
  end.

Fixpoint startswith (s pre : string) : bool :=
  match pre, s with
  | EmptyString, _ => true
  | String p pre', String a s' => Ascii.eqb a p && startswith s' pre'
  | String _ _, EmptyString => false
  end.

Fixpoint endswith (s suf : string) : bool :=
  String.eqb s suf ||
  match s with
  | EmptyString => false
  | String _ s' => endswith s' suf
  end.

(** [s[n:]] and [s[:-n]] for a natural [n] (not 0 for the latter). *)
Fixpoint drop_chars (n : nat) (s : string) : string :=
  match n, s with
  | S n', String _ s' => drop_chars n' s'
  | _, _ => s
  end.

Fixpoint take_chars (n : nat) (s : string) : string :=
  match n, s with
  | S n', String a s' => String a (take_chars n' s')
  | _, _ => ""
  end.

Definition drop_last (n : nat) (s : string) : string := take_chars (String.length s - n) s.

(** [s.split(c)]: never the empty list. *)
Fixpoint split (c : ascii) (s : string) : list string :=
  match s with
  | EmptyString => [""]
  | String a s' =>
      if Ascii.eqb a c then "" :: split c s'
      else match split c s' with
           | p :: ps => String a p :: ps
           | [] => [String a ""]
           end
  end.

(** [s.split(c, 1)], [None] when [c] does not occur: the text before and after the first [c]. *)
Fixpoint split_first (c : ascii) (s : string) : option (string * string) :=
  match s with
  | EmptyString => None
  | String a s' =>
      if Ascii.eqb a c then Some ("", s')
      else match split_first c s' with
           | Some (p, q) => Some (String a p, q)
           | None => None
           end
  end.

(** [s.rsplit(c, 1)], [None] when [c] does not occur: the text before and after the last [c]. *)
Fixpoint split_last (c : ascii) (s : string) : option (string * string) :=
  match s with
  | EmptyString => None
  | String a s' =>
      match split_last c s' with
      | Some (p, q) => Some (String a p, q)
      | None => if Ascii.eqb a c then Some ("", s') else None
      end
  end.

(** ** Integers *)

(** Decimal digits with single underscores between digits; [acc] is the value read so far,
    [n] the number of digits read, [after_digit] whether the previous character was a digit. *)
Fixpoint read_digits (acc : Z) (n : nat) (after_digit : bool) (s : string) : option (Z * nat) :=
  match s with
  | EmptyString => if after_digit then Some (acc, n) else None
  | String c s' =>
      match digit c with
      | Some d => read_digits (10 * acc + d) (S n) true s'
      | None =>
          if Ascii.eqb c "_" && after_digit then
            match s' with
            | String c' _ =>
                match digit c' with
                | Some _ => read_digits acc n false s'
                | None => None
                end
            | EmptyString => None
            end
          else None
      end
  end.

(** The interpreter's default limit on the digits of an integer string. *)
Definition int_max_str_digits : nat := 4300.

Definition read_nat (s : string) : option Z :=
  match read_digits 0 0 false s with
  | Some (z, n) => if (int_max_str_digits <? n)%nat then None else Some z
  | None => None
  end.

(** [int(s)] for a string; [None] is [ValueError]. *)
Definition int_of_string (s : string) : option Z :=
  match strip s with
  | String "-" s' => Z.opp <$> read_nat s'
  | String "+" s' => read_nat s'
  | s' => read_nat s'
  end.

(** [str(n)], as in an f-string. *)
Definition string_of_int (z : Z) : string := pretty z.

(** ** Lemmas *)

Definition is_digit (c : ascii) : bool := bool_decide (is_Some (digit c)).

Fixpoint all_chars (P : ascii -> bool) (s : string) : bool :=
  match s with
  | EmptyString => true
  | String c s' => P c && all_chars P s'
  end.

Lemma all_chars_app P s t : all_chars P (s +:+ t) = (all_chars P s && all_chars P t)%bool.
Proof. induction s as [|c s IH]; simpl; [done|]. by rewrite IH, andb_assoc. Qed.

Lemma contains_char_app c s t :
  contains_char c (s +:+ t) = (contains_char c s || contains_char c t)%bool.
Proof. induction s as [|a s IH]; simpl; [done|]. by rewrite IH, orb_assoc. Qed.

Lemma string_app_nil_r (s : string) : s +:+ "" = s.
Proof. induction s as [|c s IH]; simpl; by rewrite ?IH. Qed.

Lemma string_app_assoc (s t u : string) : (s +:+ t) +:+ u = s +:+ (t +:+ u).
Proof. induction s as [|c s IH]; simpl; by rewrite ?IH. Qed.

Lemma string_length_app s t : String.length (s +:+ t) = (String.length s + String.length t)%nat.
Proof. induction s as [|c s IH]; simpl; by rewrite ?IH. Qed.

Lemma string_eqb_app_suffix s t : String.eqb (s +:+ t) t = true -> s = "".
Proof.
  intros H%String.eqb_eq. apply (f_equal String.length) in H.
  rewrite string_length_app in H. destruct s; [done|simpl in H; lia].
Qed.

(** The last occurrence of a separator is found whatever precedes it. *)
Lemma split_last_spec c p q :
  contains_char c q = false -> split_last c (p +:+ String c q) = Some (p, q).
Proof.
  intros Hq. assert (Hn : split_last c q = None).
  { clear p. induction q as [|a q IH]; simpl in *; [done|].
    apply orb_false_iff in Hq as [Ha Hq]. by rewrite IH, Ha. }
  induction p as [|a p IH]; simpl.
  - by rewrite Hn, Ascii.eqb_refl.
  - by rewrite IH.
Qed.

Lemma split_last_inj c p q p' q' :
  contains_char c q = false -> contains_char c q' = false ->
  p +:+ String c q = p' +:+ String c q' -> p = p' /\ q = q'.
Proof.
  intros Hq Hq' He. pose proof (split_last_spec c p q Hq) as H1.
  rewrite He, split_last_spec in H1 by done. by simplify_eq.
Qed.

Lemma endswith_app s suf : endswith (s +:+ suf) suf = true.
Proof.
  induction s as [|c s IH]; simpl.
  - destruct suf; simpl; by rewrite ?Ascii.eqb_refl, ?String.eqb_refl.
  - by rewrite IH, orb_true_r.
Qed.

Lemma endswith_spec s suf : endswith s suf = true <-> exists p, s = p +:+ suf.
Proof.
  split; [|intros [p ->]; apply endswith_app].
  induction s as [|c s IH]; cbn [endswith].
  - rewrite orb_false_r. intros ->%String.eqb_eq. by exists "".
  - intros [->%String.eqb_eq|H]%orb_true_iff; [by exists ""|].
    destruct (IH H) as [p ->]. by exists (String c p).
Qed.

Lemma take_chars_app s t : take_chars (String.length s) (s +:+ t) = s.
Proof. induction s as [|c s IH]; simpl; [by destruct t|]. by rewrite IH. Qed.

(** [(s + suf)[:-len(suf)] = s]. *)
Lemma drop_last_app s suf : drop_last (String.length suf) (s +:+ suf) = s.
Proof.
  unfold drop_last. rewrite string_length_app.
  replace (_ - _)%nat with (String.length s) by lia. apply take_chars_app.
Qed.

Lemma startswith_app pre s : startswith (pre +:+ s) pre = true.
Proof. induction pre as [|c p IH]; simpl; [by destruct s|]. by rewrite Ascii.eqb_refl. Qed.

Lemma drop_chars_app pre s : drop_chars (String.length pre) (pre +:+ s) = s.
Proof. induction pre as [|c p IH]; simpl; [by destruct s|done]. Qed.

Lemma split_no_sep c p : contains_char c p = false -> split c p = [p].
Proof.
  induction p as [|a p IH]; simpl; [done|].
  intros [Ha Hp]%orb_false_iff. by rewrite Ha, IH.
Qed.

Lemma split_cons c p rest :
  contains_char c p = false -> split c (p +:+ String c rest) = p :: split c rest.
Proof.
  induction p as [|a p IH]; simpl.
  - by rewrite Ascii.eqb_refl.
  - intros [Ha Hp]%orb_false_iff. by rewrite Ha, IH.
Qed.

(** A string is its own [strip] exactly when both ends are. *)
Lemma lstrip_app s t : s <> "" -> lstrip s = s -> lstrip (s +:+ t) = s +:+ t.
Proof.
  destruct s as [|c s]; [done|]. simpl. intros _. destruct (is_space c); [|done].
  intros H. exfalso. assert (Hl : forall u, (String.length (lstrip u) <= String.length u)%nat).
  { induction u as [|a u IHu]; simpl; [lia|]. destruct (is_space a); simpl; lia. }
  specialize (Hl s). rewrite H in Hl. simpl in Hl. lia.
Qed.

Lemma rstrip_app s t : t <> "" -> rstrip t = t -> rstrip (s +:+ t) = s +:+ t.
Proof.
  intros Hne Ht. induction s as [|c s IH]; simpl; [done|]. rewrite IH.
  destruct s; simpl; [|done]. by destruct t.
Qed.

Lemma strip_app3 s t u :
  s <> "" -> lstrip s = s -> u <> "" -> rstrip u = u ->
  strip (s +:+ t +:+ u) = s +:+ t +:+ u.
Proof.
  intros Hs Hls Hu Hru. unfold strip. rewrite lstrip_app by done.
  rewrite <- string_app_assoc. by apply rstrip_app.
Qed.

(** ** Printing and reading back integers *)

Lemma digit_pretty_char (x : N) :
  (x < 10)%N -> digit (pretty_N_char x) = Some (Z.of_N x).
Proof.
  intros Hx. destruct x as [|p]; [done|].
  do 4 (destruct p as [p|p|]; try done; try lia).
Qed.

Lemma read_digits_pretty_go x s n b k :
  (0 < x)%N -> (x < 10 ^ N.of_nat k)%N ->
  exists m, (m <= n + k)%nat /\
    read_digits 0 n b (pretty_N_go x s) = read_digits (Z.of_N x) m true s.
Proof.
  revert s n b k. induction (N.lt_wf_0 x) as [x _ IH]; intros s n b k Hx Hk.
  rewrite pretty_N_go_step by done.
  assert (Hm : (x mod 10 < 10)%N) by (apply N.mod_lt; lia).
  destruct k as [|k]; [simpl in Hk; lia|].
  destruct (decide (x < 10)%N) as [Hs|Hs].
  - rewrite N.div_small, pretty_N_go_0 by done. simpl.
    rewrite digit_pretty_char, N.mod_small by done.
    exists (S n). split; [lia|]. f_equal; lia.
  - destruct (IH (x / 10)%N) with (s := String (pretty_N_char (x mod 10)) s) (n := n)
      (b := b) (k := k) as (m & Hmk & Hgo).
    + apply N.div_lt; lia.
    + apply N.div_str_pos; lia.
    + apply N.Div0.div_lt_upper_bound.
      rewrite <- N.pow_succ_r', <- Nat2N.inj_succ. done.
    + exists (S m). split; [lia|]. rewrite Hgo. simpl. rewrite digit_pretty_char by done.
      f_equal; pose proof (N.div_mod' x 10); lia.
Qed.

Lemma pretty_char_is_digit x : (x < 10)%N -> is_digit (pretty_N_char x) = true.
Proof. intros. unfold is_digit. by rewrite digit_pretty_char, bool_decide_true by eauto. Qed.

Lemma pretty_go_digits x s :
  all_chars is_digit s = true -> all_chars is_digit (pretty_N_go x s) = true.
Proof.
  revert s. induction (N.lt_wf_0 x) as [x _ IH]; intros s Hs.
  destruct (decide (0 < x)%N) as [Hx|Hx].
  - rewrite pretty_N_go_step by done. apply IH; [apply N.div_lt; lia|].
    simpl. rewrite pretty_char_is_digit; [done|]. apply N.mod_lt; lia.
  - replace x with 0%N by lia. by rewrite pretty_N_go_0.
Qed.

Lemma pretty_N_digits (x : N) : all_chars is_digit (pretty x) = true.
Proof. unfold pretty, pretty_N. case_decide; [done|]. by apply pretty_go_digits. Qed.

Lemma pretty_go_ne x s : s <> "" -> pretty_N_go x s <> "".
Proof.
  revert s. induction (N.lt_wf_0 x) as [x _ IH]; intros s Hs.
  destruct (decide (0 < x)%N).
  - rewrite pretty_N_go_step by done. apply IH; [apply N.div_lt; lia|done].
  - replace x with 0%N by lia. by rewrite pretty_N_go_0.
Qed.

(** The digits of a non-negative integer: a non-empty string of digit characters. *)
Lemma string_of_int_digits z :
  0 <= z -> all_chars is_digit (string_of_int z) = true /\ string_of_int z <> "".
Proof.
  intros Hz. destruct z as [|p|p]; [done| |lia].
  unfold string_of_int, pretty, pretty_Z. split; [apply (pretty_N_digits (N.pos p))|].
  change (pretty (N.pos p) <> ""). unfold pretty, pretty_N. case_decide; [done|].
  rewrite pretty_N_go_step by lia. by apply pretty_go_ne.
Qed.

Lemma digit_not_sep c : is_digit c = true -> is_space c = false /\ c <> "|"%char /\ c <> "-"%char
  /\ c <> "+"%char /\ c <> "m"%char.
Proof.
  unfold is_digit, digit, is_space. rewrite bool_decide_eq_true.
  destruct ((48 <=? code c) && (code c <=? 57))%bool eqn:E; [|by intros [? ?]].
  intros _. zbool. split_and!.
  - repeat (apply orb_false_iff; split); try apply andb_false_iff; lia.
  - by intros ->.
  - by intros ->.
  - by intros ->.
  - by intros ->.
Qed.

Lemma rstrip_digits s : all_chars is_digit s = true -> rstrip s = s.
Proof.
  induction s as [|c s IH]; simpl; [done|]. intros [Hc Hs]%andb_true_iff.
  rewrite IH by done. destruct s; [|done].
  by rewrite (proj1 (digit_not_sep _ Hc)).
Qed.

Lemma strip_digits s : all_chars is_digit s = true -> strip s = s.
Proof.
  intros H. unfold strip. destruct s as [|c s]; [done|]. simpl.
  pose proof H as [Hc _]%andb_true_iff. rewrite (proj1 (digit_not_sep _ Hc)). by apply rstrip_digits.
Qed.

Lemma no_sep_digits sep s :
  is_digit sep = false -> all_chars is_digit s = true -> contains_char sep s = false.
Proof.
  intros Hsep. induction s as [|c s IH]; simpl; [done|]. intros [Hc Hs]%andb_true_iff.
  rewrite IH by done. destruct (Ascii.eqb_spec c sep) as [->|]; [congruence|done].
Qed.

Lemma read_nat_pretty (x : N) k :
  (k <= int_max_str_digits)%nat -> (x < 10 ^ N.of_nat k)%N ->
  read_nat (pretty x) = Some (Z.of_N x).
Proof.
  intros Hk Hx. unfold read_nat, pretty, pretty_N. case_decide as H0; [by subst|].
  destruct (read_digits_pretty_go x "" 0 false k) as (m & Hm & ->); [lia|done|].
  simpl. destruct (Nat.ltb_spec int_max_str_digits m); [lia|done].
Qed.

(** [int(str(z)) == z], below the interpreter's limit on the number of digits. *)
Lemma int_of_string_of_int z k :
  (k <= int_max_str_digits)%nat -> Z.abs z < 10 ^ Z.of_nat k ->
  int_of_string (string_of_int z) = Some z.
Proof.
  intros Hk Hz. unfold int_of_string.
  assert (Hb : forall p, Z.pos p < 10 ^ Z.of_nat k -> read_nat (pretty (N.pos p)) = Some (Z.pos p)).
  { intros p Hp. rewrite (read_nat_pretty (N.pos p) k Hk); [done|]. lia. }
  destruct z as [|p|p].
  - done.
  - destruct (string_of_int_digits (Z.pos p)) as [Hd Hne]; [lia|].
    rewrite strip_digits by done.
    destruct (string_of_int (Z.pos p)) as [|c s] eqn:Es; [done|].
    pose proof Hd as [Hc _]%andb_true_iff.
    destruct (digit_not_sep _ Hc) as (_ & _ & Hm & Hp & _).
    assert (read_nat (String c s) = Some (Z.pos p)) as Hr.
    { rewrite <- Es. apply Hb. lia. }
    destruct c as [[] [] [] [] [] [] [] []]; done.
  - assert (strip (string_of_int (Z.neg p)) = String "-" (pretty (N.pos p))) as ->.
    { assert (string_of_int (Z.neg p) = String "-" (pretty (N.pos p))) as -> by done.
      unfold strip. cbn [lstrip]. assert (is_space "-" = false) as -> by done.
      cbn [rstrip]. pose proof (strip_digits _ (pretty_N_digits (N.pos p))) as Hs.
      destruct (string_of_int_digits (Z.pos p)) as [Hd Hne]; [lia|].
      change (string_of_int (Z.pos p)) with (pretty (N.pos p)) in *.
      unfold strip in Hs.
      assert (lstrip (pretty (N.pos p)) = pretty (N.pos p)) as Hl.
      { destruct (pretty (N.pos p)) as [|c s]; [done|]. simpl.
        pose proof Hd as [Hc _]%andb_true_iff. by rewrite (proj1 (digit_not_sep _ Hc)). }
      rewrite Hl in Hs. rewrite Hs. by destruct (pretty (N.pos p)). }
    cbn. rewrite Hb by lia. done.
Qed.

#[export] Hint Resolve endswith_app startswith_app : model.
