(* ===== verification/Errors.v ===== *)
(** * Exceptions and their classification ([errors.py])

    The exceptions of the client library are records: their [code] attribute and the classes
    of [aerospike.exception] they are instances of (the class hierarchy itself belongs to the
    library).  The message text of an exception is not modelled; [detail] keeps the operation
    name or configuration key the message starts with. *)

From S2P Require Import Prelude.

(** The classes of [aerospike.exception] the package names. *)
Inductive ax_class :=
| AerospikeError | RecordNotFound | RecordTooBig | TimeoutError | ConnectionError
| ClientError | ForbiddenError | DeviceOverload | BatchQueueFullError | RecordBusy
| RecordKeyMismatch.

#[global] Instance ax_class_eq_dec : EqDecision ax_class.
Proof. solve_decision. Defined.

Record ax_error := mk_ax { ax_code : option Z; ax_isa : list ax_class }.

#[global] Instance ax_error_eq_dec : EqDecision ax_error.
Proof. solve_decision. Defined.

(** The connector's own exceptions; each one is a direct subclass of the first. *)
Inductive conn_class :=
| AerospikeConnectorError | AerospikeConfigError | AerospikeConnectionError
| AerospikeRecordTooBigError | AerospikeTTLConfigError | AerospikeBusyError
| AerospikeNamespaceProbeError | AerospikeServerLimitError | AerospikeInternalError
| AerospikeUnknownError.

#[global] Instance conn_class_eq_dec : EqDecision conn_class.
Proof. solve_decision. Defined.

(** The built-in exceptions the code raises or lets through. *)
Inductive py_class :=
| ValueError | TypeError | KeyError | OverflowError | ZeroDivisionError | RuntimeError
| ImportError | AssertionError | IndexError | AttributeError.

#[global] Instance py_class_eq_dec : EqDecision py_class.
Proof. solve_decision. Defined.

Inductive exc :=
| Conn (c : conn_class) (detail : string)
| Ax (e : ax_error)
| BatchResult (code : Z)   (* engine._BatchResultError *)
| Py (c : py_class).

#[global] Instance exc_eq_dec : EqDecision exc.
Proof. solve_decision. Defined.

Abbreviation result A := (exc + A)%type.

(** [isinstance(exc, ax.<c>)]: false for everything that is not a client exception. *)
Definition isinstance (e : exc) (c : ax_class) : bool :=
  match e with Ax a => bool_decide (c ∈ ax_isa a) | _ => false end.

(** [except (c1, c2, ...)] over the connector's exceptions. *)
Definition is_conn (e : exc) (cs : list conn_class) : bool :=
  match e with Conn c _ => bool_decide (c ∈ cs) | _ => false end.

(** [getattr(exc, "code", None)]. *)
Definition exc_code (e : exc) : option Z :=
  match e with Ax a => ax_code a | BatchResult c => Some c | _ => None end.

Definition AEROSPIKE_ERR_FAIL_FORBIDDEN : Z := 22.
Definition AEROSPIKE_ERR_KEY_BUSY : Z := 14.

Inductive bucket :=
| busy | forbidden_ttl | not_found | too_big | timeout | connection | key_mismatch | unknown.

#[global] Instance bucket_eq_dec : EqDecision bucket.
Proof. solve_decision. Defined.

Definition code_is (e : exc) (z : Z) : bool := bool_decide (exc_code e = Some z).

Definition classify (e : exc) : bucket :=
  if code_is e AEROSPIKE_ERR_KEY_BUSY then busy
  else if code_is e AEROSPIKE_ERR_FAIL_FORBIDDEN then forbidden_ttl
  else if isinstance e RecordNotFound then not_found
  else if isinstance e RecordTooBig then too_big
  else if isinstance e TimeoutError then timeout
  else if isinstance e ConnectionError || isinstance e ClientError then connection
  else if code_is e AEROSPIKE_ERR_FAIL_FORBIDDEN || isinstance e ForbiddenError then forbidden_ttl
  else if isinstance e DeviceOverload || isinstance e BatchQueueFullError
          || isinstance e RecordBusy || code_is e AEROSPIKE_ERR_KEY_BUSY then busy
  else if isinstance e RecordKeyMismatch then key_mismatch
  else if isinstance e AerospikeError then unknown
  else unknown.

Definition map_aerospike_error (op_name : string) (e : exc) : exc :=
  match classify e with
  | not_found => Conn AerospikeConnectorError op_name
  | too_big => Conn AerospikeRecordTooBigError op_name
  | timeout => Conn AerospikeConnectorError op_name
  | connection => Conn AerospikeConnectionError op_name
  | forbidden_ttl => Conn AerospikeTTLConfigError op_name
  | busy => Conn AerospikeBusyError op_name
  | key_mismatch => Conn AerospikeInternalError op_name
  | unknown =>
      if isinstance e AerospikeError then Conn AerospikeUnknownError op_name
      else Conn AerospikeUnknownError op_name
  end.

(** ** Floor division, as Python's [//] on integers *)

Definition floordiv (a b : Z) : result Z :=
  if b =? 0 then inl (Py ZeroDivisionError) else inr (a / b).

(** [-(-a // b)]. *)
Definition ceildiv (a b : Z) : result Z :=
  let? q := floordiv (- a) b in inr (- q).

(** ** Properties *)

(** The busy and forbidden result codes decide before any class is looked at. *)
Lemma classify_code_first e :
  (exc_code e = Some AEROSPIKE_ERR_KEY_BUSY -> classify e = busy) /\
  (exc_code e = Some AEROSPIKE_ERR_FAIL_FORBIDDEN -> classify e = forbidden_ttl).
Proof. unfold classify, code_is. split; intros ->; done. Qed.

Lemma classify_batch_result z :
  classify (BatchResult z) =
    if z =? 14 then busy else if z =? 22 then forbidden_ttl else unknown.
Proof.
  unfold classify, code_is, isinstance; simpl.
  destruct (Z.eqb_spec z 14) as [->|H14]; [done|].
  destruct (Z.eqb_spec z 22) as [->|H22]; [done|].
  rewrite !bool_decide_false by (intros [=]; done). done.
Qed.

Lemma map_aerospike_error_conn op e :
  exists c, map_aerospike_error op e = Conn c op /\
    c ∉ [AerospikeConfigError; AerospikeNamespaceProbeError; AerospikeServerLimitError].
Proof.
  unfold map_aerospike_error.
  destruct (classify e); try (eexists; split; [reflexivity|by apply (bool_decide_unpack _)]).
  destruct (isinstance e AerospikeError); eexists;
    (split; [reflexivity|by apply (bool_decide_unpack _)]).
Qed.

Lemma isinstance_map op e c : isinstance (map_aerospike_error op e) c = false.
Proof. destruct (map_aerospike_error_conn op e) as (k & -> & _). done. Qed.

Lemma ceildiv_spec a b q :
  0 < b -> ceildiv a b = inr q <-> (q - 1) * b < a <= q * b.
Proof.
  intros Hb. unfold ceildiv, floordiv.
  destruct (Z.eqb_spec b 0); [lia|].
  pose proof (Z.div_mod (- a) b) as Hd. pose proof (Z.mod_pos_bound (- a) b Hb) as Hm.
  split.
  - intros [= <-]. nia.
  - intros Hq. f_equal. nia.
Qed.

#[export] Hint Rewrite isinstance_map : model_rw.
