(* ===== verification/Sharding.v ===== *)
(** * The segment planner ([sharding.py]) *)

From S2P Require Import Prelude Errors.

Record ShardPlan := mkShardPlan { nseg : Z; seg_b : Z }.

#[global] Instance ShardPlan_eq_dec : EqDecision ShardPlan.
Proof. solve_decision. Defined.

Definition plan (payload_bytes target_segment_bytes max_segment_bytes min_segment_bytes
                 single_record_threshold_bytes : Z) : result ShardPlan :=
  if payload_bytes =? 0 then inr (mkShardPlan 1 0)
  else if target_segment_bytes >? max_segment_bytes then
    inl (Conn AerospikeConfigError "target_segment_bytes")
  else if (payload_bytes <=? single_record_threshold_bytes) &&
          (payload_bytes <=? max_segment_bytes) then
    inr (mkShardPlan 1 payload_bytes)
  else
    let? nseg := ceildiv payload_bytes target_segment_bytes in
    let? seg_b := ceildiv payload_bytes nseg in
    if seg_b >? max_segment_bytes then inl (Conn AerospikeConfigError "segment size")
    else if (seg_b <? min_segment_bytes) && (payload_bytes <=? max_segment_bytes) then
      inr (mkShardPlan 1 payload_bytes)
    else inr (mkShardPlan nseg seg_b).

(** One iteration of the loop of [slice_lengths]: the lengths so far and [remaining]. *)
Definition slice_step (shard : ShardPlan) (acc : list Z * Z) (i : Z) : list Z * Z :=
  let '(lengths, remaining) := acc in
  if i =? nseg shard - 1 then (lengths ++ [remaining], remaining)
  else (lengths ++ [seg_b shard], remaining - seg_b shard).

Definition slice_lengths (payload_bytes : Z) (shard : ShardPlan) : list Z :=
  if nseg shard =? 1 then [payload_bytes]
  else fst (foldl (slice_step shard) ([], payload_bytes) (seqZ 0 (nseg shard))).

(** ** Well-formed plans *)

(** What the rest of the package needs of a plan for [p] bytes: [nseg] consecutive pieces of
    [seg_b] bytes cover the payload, and the last piece is not empty unless the payload is. *)
Record plan_ok (p : Z) (s : ShardPlan) : Prop := {
  plan_pos : 1 <= nseg s;
  plan_cover : p <= nseg s * seg_b s;
  plan_tight : 0 < p -> (nseg s - 1) * seg_b s < p;
  plan_seg_nonneg : 0 <= seg_b s;
  plan_single : nseg s = 1 -> seg_b s = p
}.

#[export] Hint Resolve plan_pos plan_cover plan_tight plan_seg_nonneg : model.

(** The parameters the planner is called with after configuration and server discovery. *)
Definition limits_ok (target max : Z) : Prop := 0 < target <= max.

Section plan.
Context (p target max min single : Z).
Hypothesis Hp : 0 <= p.

(** In the sharding branch the segment size is at most the target. *)
Lemma plan_sharded n s :
  0 < target -> 0 < p -> ceildiv p target = inr n -> ceildiv p n = inr s ->
  1 <= n /\ 0 < s <= target /\ p <= n * s /\ (n - 1) * s < p /\ (n = 1 -> s = p).
Proof.
  intros Ht H0 Hn Hs. apply ceildiv_spec in Hn; [|done].
  assert (1 <= n) by nia. apply ceildiv_spec in Hs; [|lia].
  assert (s <= target) by nia. nia.
Qed.

Lemma plan_sound shard :
  0 < target -> plan p target max min single = inr shard ->
  plan_ok p shard /\ (0 < p -> 0 < seg_b shard <= max).
Proof.
  intros Ht. unfold plan. destruct (Z.eqb_spec p 0) as [->|Hnz].
  { intros [= <-]. split; [split; simpl; lia|lia]. }
  destruct (target >? max) eqn:?; [done|]. zbool.
  destruct ((p <=? single) && (p <=? max))%bool eqn:E1.
  { intros [= <-]. zbool. split; [split; simpl; lia|simpl; lia]. }
  destruct (ceildiv p target) as [|n] eqn:En; [done|].
  destruct (ceildiv p n) as [|s] eqn:Es; [done|].
  pose proof (plan_sharded n s Ht ltac:(lia) En Es) as (? & ? & ? & ? & ?).
  destruct (s >? max) eqn:?; [done|]. zbool.
  destruct ((s <? min) && (p <=? max))%bool eqn:E2; intros [= <-]; zbool;
    (split; [split; simpl; nia|simpl; lia]).
Qed.

Lemma plan_total : limits_ok target max -> exists shard, plan p target max min single = inr shard.
Proof.
  intros [Ht Hm]. unfold plan. destruct (Z.eqb_spec p 0) as [->|Hnz]; [eauto|].
  destruct (target >? max) eqn:?; zbool; [lia|].
  destruct ((p <=? single) && (p <=? max))%bool eqn:E1; [eauto|].
  destruct (ceildiv p target) as [|n] eqn:En.
  { unfold ceildiv, floordiv in En. destruct (Z.eqb_spec target 0); [lia|done]. }
  assert (1 <= n) by (apply ceildiv_spec in En; nia).
  destruct (ceildiv p n) as [|s] eqn:Es.
  { unfold ceildiv, floordiv in Es. destruct (Z.eqb_spec n 0); [lia|done]. }
  pose proof (plan_sharded n s Ht ltac:(lia) En Es) as (? & ? & ? & ? & ?).
  destruct (s >? max) eqn:?; zbool; [lia|].
  destruct ((s <? min) && (p <=? max))%bool; eauto.
Qed.
End plan.

(** ** The loop of [slice_lengths] *)

(** After [k] full iterations the list holds [k] copies of [seg_b]. *)
Lemma slice_loop_prefix shard p k :
  (Z.of_nat k <= nseg shard - 1) ->
  foldl (slice_step shard) ([], p) (seqZ 0 (Z.of_nat k)) =
    (replicate k (seg_b shard), p - Z.of_nat k * seg_b shard).
Proof.
  induction k as [|k IH]; intros Hk; [simpl; f_equal; lia|].
  rewrite Nat2Z.inj_succ, <- Z.add_1_r, seqZ_app, foldl_app, IH, seqZ_one by lia.
  cbn [foldl]. unfold slice_step.
  rewrite (proj2 (Z.eqb_neq _ _)) by lia.
  apply pair_equal_spec. split; [by rewrite replicate_S_end|lia].
Qed.

Lemma slice_lengths_eq p shard :
  1 <= nseg shard ->
  slice_lengths p shard =
    replicate (Z.to_nat (nseg shard - 1)) (seg_b shard) ++
    [p - (if nseg shard =? 1 then 0 else (nseg shard - 1) * seg_b shard)].
Proof.
  intros Hn. unfold slice_lengths. destruct (Z.eqb_spec (nseg shard) 1) as [->|Hne].
  { simpl. f_equal. lia. }
  replace (nseg shard) with (Z.of_nat (Z.to_nat (nseg shard - 1)) + 1) at 1 by lia.
  rewrite seqZ_app, foldl_app, slice_loop_prefix, seqZ_one by lia.
  cbn [foldl]. unfold slice_step.
  rewrite (proj2 (Z.eqb_eq _ _)) by lia. cbn [fst]. do 2 f_equal. lia.
Qed.

(** ** Properties *)

Definition sumZ (l : list Z) : Z := foldr Z.add 0 l.

Lemma sumZ_app l k : sumZ (l ++ k) = sumZ l + sumZ k.
Proof. induction l as [|x l IH]; simpl; [done|]. unfold sumZ in *. simpl. rewrite IH. lia. Qed.

Lemma sumZ_replicate n x : sumZ (replicate n x) = Z.of_nat n * x.
Proof. induction n as [|n IH]; simpl; [done|]. unfold sumZ in *. rewrite IH. lia. Qed.

(** C29: For positive limits whose target does not exceed the maximum, [plan] always returns a
    plan for a payload of [p] bytes.  The plan covers the payload with no empty last piece,
    every segment fits the maximum, and a plan of several segments is used only above the
    single-record limits, with the least number of segments of at most the target size. *)
Theorem plan_correct (p target max min single : Z) :
  0 <= p -> limits_ok target max ->
  exists shard, plan p target max min single = inr shard /\ plan_ok p shard /\
    seg_b shard <= max /\ (0 < p -> 0 < seg_b shard) /\
    (1 < nseg shard ->
       (single < p \/ max < p) /\ (min <= seg_b shard \/ max < p) /\
       seg_b shard <= target /\
       forall n, 0 < n -> p <= n * target -> nseg shard <= n).
Proof.
  intros Hp Hl. destruct (plan_total p target max min single Hp Hl) as [shard Hs].
  destruct Hl as [Ht Hm].
  exists shard. destruct (plan_sound p target max min single Hp shard Ht Hs) as [Hok Hb].
  split_and!; [done|done| |lia|].
  { destruct (decide (0 < p)); [lia|]. assert (p = 0) as -> by lia.
    unfold plan in Hs. simpl in Hs. injection Hs as <-. simpl. lia. }
  intros Hn. revert Hs. unfold plan.
  destruct (Z.eqb_spec p 0) as [->|Hnz]; [intros [= <-]; simpl in Hn; lia|].
  destruct (target >? max) eqn:?; [done|].
  destruct ((p <=? single) && (p <=? max))%bool eqn:E1; [intros [= <-]; simpl in Hn; lia|].
  destruct (ceildiv p target) as [|n] eqn:En; [done|].
  destruct (ceildiv p n) as [|s] eqn:Es; [done|].
  pose proof (plan_sharded p target Hp n s Ht ltac:(lia) En Es) as (? & ? & ? & ? & ?).
  destruct (s >? max) eqn:?; [done|].
  destruct ((s <? min) && (p <=? max))%bool eqn:E2; intros [= <-]; [simpl in Hn; lia|].
  simpl in *. apply ceildiv_spec in En; [|done].
  zbool. split_and!; [destruct E1; zbool; lia|destruct E2; zbool; lia|lia|].
  intros m Hm0 Hcov. nia.
Qed.

Lemma plan_correct_witness :
  exists shard, plan 4194305 4194304 8323072 65536 4194304 = inr shard /\ nseg shard = 2.
Proof.
  destruct (plan_correct 4194305 4194304 8323072 65536 4194304) as (shard & Hs & _).
  - lia.
  - split; lia.
  - exists shard. split; [exact Hs|]. vm_compute in Hs. by injection Hs as <-.
Defined.

(** The lengths computed by [slice_lengths] for a well-formed plan are [nseg] in number,
    add up to the payload, and each is at most [seg_b]; none is empty when the payload is not. *)
Theorem slice_lengths_partition (p : Z) (shard : ShardPlan) :
  0 <= p -> plan_ok p shard ->
  Z.of_nat (length (slice_lengths p shard)) = nseg shard /\
  sumZ (slice_lengths p shard) = p /\
  Forall (fun n => n <= seg_b shard /\ (0 < p -> 0 < n)) (slice_lengths p shard).
Proof.
  intros Hp [Hpos Hcov Htight Hnn Hsingle].
  rewrite slice_lengths_eq by done. destruct (Z.eqb_spec (nseg shard) 1) as [E|E].
  - rewrite E in *. simpl. split_and!; [done|unfold sumZ; simpl; lia|].
    repeat constructor; lia.
  - rewrite length_app, length_replicate, sumZ_app, sumZ_replicate. simpl.
    split_and!; [lia|unfold sumZ; simpl; lia|].
    assert (0 < p -> 0 < seg_b shard) by nia.
    apply Forall_app. split.
    + apply Forall_replicate. lia.
    + repeat constructor; [nia|]. intros. lia.
Qed.

Lemma slice_lengths_partition_witness :
  plan_ok 3000 (mkShardPlan 3 1000) /\ sumZ (slice_lengths 3000 (mkShardPlan 3 1000)) = 3000.
Proof.
  assert (H : plan_ok 3000 (mkShardPlan 3 1000)) by (split; simpl; lia).
  split; [exact H|]. apply (slice_lengths_partition 3000 (mkShardPlan 3 1000)); [lia|exact H].
Defined.
