(* ===== verification/Config.v ===== *)
(** * Configuration parsing ([config.py])

    Python values of type [Any] are the constructors of [pyval]; a float keeps what the code
    observes of it, its truncation and its [str].  A dictionary with string keys is a [gmap]. *)

From S2P Require Import Prelude PyStr Errors.

Inductive pyfloat :=
| Finite (trunc : Z) (repr : string)
| Infinite (negative : bool)
| NaN.

Inductive pyval :=
| VNone | VBool (b : bool) | VInt (z : Z) | VFloat (f : pyfloat) | VStr (s : string)
| VObj (repr : string).   (* a list, a dict, ...: no conversion to int *)

(** [str(v)]. *)
Definition py_str (v : pyval) : string :=
  match v with
  | VNone => "None"
  | VBool true => "True"
  | VBool false => "False"
  | VInt z => string_of_int z
  | VFloat (Finite _ r) => r
  | VFloat (Infinite false) => "inf"
  | VFloat (Infinite true) => "-inf"
  | VFloat NaN => "nan"
  | VStr s => s
  | VObj r => r
  end.

(** [int(v)]. *)
Definition py_int (v : pyval) : result Z :=
  match v with
  | VBool b => inr (Z.b2z b)
  | VInt z => inr z
  | VFloat (Finite t _) => inr t
  | VFloat (Infinite _) => inl (Py OverflowError)
  | VFloat NaN => inl (Py ValueError)
  | VStr s => match int_of_string s with Some z => inr z | None => inl (Py ValueError) end
  | VNone | VObj _ => inl (Py TypeError)
  end.

Definition config_error {A} (fq_key : string) : result A := inl (Conn AerospikeConfigError fq_key).

Definition mem_str (s : string) (l : list string) : bool := existsb (String.eqb s) l.

Definition _COMMIT_LEVELS : list string := ["all"; "master"].
Definition _REPLICAS : list string := ["master"; "any"; "sequence"; "prefer_rack"].

Definition _DEFAULT_TARGET_SEGMENT_BYTES : Z := 4 * 1024 * 1024.
Definition _DEFAULT_MIN_SEGMENT_BYTES : Z := 64 * 1024.
Definition _DEFAULT_TTL_SECONDS : Z := 86400.

Definition _parse_bool (value : pyval) (fq_key : string) : result bool :=
  match value with
  | VBool b => inr b
  | VStr s =>
      let lowered := lower (strip s) in
      if mem_str lowered ["true"; "1"; "yes"; "on"] then inr true
      else if mem_str lowered ["false"; "0"; "no"; "off"] then inr false
      else config_error fq_key
  | _ => config_error fq_key
  end.

(** [except (TypeError, ValueError)]: an [OverflowError] passes through. *)
Definition _parse_int (value : pyval) (fq_key : string) : result Z :=
  match value with
  | VBool _ => config_error fq_key
  | _ =>
      match py_int value with
      | inl (Py TypeError) | inl (Py ValueError) => config_error fq_key
      | r => r
      end
  end.

(** The loop of [_parse_hosts] over the comma-separated parts. *)
Fixpoint parse_host_parts (fq_key : string) (parts : list string) : result (list (string * Z)) :=
  match parts with
  | [] => inr []
  | part :: parts =>
      let part := strip part in
      if String.eqb part "" then parse_host_parts fq_key parts
      else match split_last ":" part with
           | None => config_error fq_key
           | Some (host, port_s) =>
               let host := strip host in
               if String.eqb host "" then config_error fq_key
               else match int_of_string port_s with
                    | None => config_error fq_key
                    | Some port =>
                        if (port <=? 0) || (port >? 65535) then config_error fq_key
                        else let? hosts := parse_host_parts fq_key parts in
                             inr ((host, port) :: hosts)
                    end
           end
  end.

Definition _parse_hosts (value : pyval) (fq_key : string) : result (list (string * Z)) :=
  match value with
  | VStr s =>
      if String.eqb (strip s) "" then config_error fq_key
      else let? hosts := parse_host_parts fq_key (split "," s) in
           match hosts with
           | [] => config_error fq_key
           | _ => inr hosts
           end
  | _ => config_error fq_key
  end.

Record AerospikeConfig := mkAerospikeConfig {
  plugin_name : string;
  hosts : list (string * Z);
  namespace : string;
  set_name : string;
  target_segment_bytes : Z;
  max_segment_bytes : option Z;
  min_segment_bytes : Z;
  single_record_threshold_bytes : option Z;
  default_ttl_seconds : Z;
  read_timeout_ms : Z;
  write_timeout_ms : Z;
  batch_max_in_flight : Z;
  executor_threads : Z;
  enable_list : bool;
  enable_crc32 : bool;
  commit_level : string;
  replica : string;
  send_key : bool;
  username : string;
  password : string;
  tls_name : string
}.

Abbreviation dict := (gmap string pyval).

(** [AerospikeConfig.key]. *)
Definition config_key (plugin_name name : string) : string :=
  "remote_storage_plugin." +:+ plugin_name +:+ "." +:+ name.

(** [prefix = config_prefix or ...] with its final dot. *)
Definition resolve_prefix (config_prefix : option string) (plugin_name : string) : string :=
  let prefix :=
    match config_prefix with
    | Some p => if String.eqb p "" then "remote_storage_plugin." +:+ plugin_name +:+ "." else p
    | None => "remote_storage_plugin." +:+ plugin_name +:+ "."
    end in
  if endswith prefix "." then prefix else prefix +:+ ".".

(** The inner function [lookup]: the first of the names present, [None] for a missing key
    and for a stored [None]. *)
Fixpoint lookup_first (data : dict) (prefix : string) (keys : list string) : option pyval :=
  match keys with
  | [] => None
  | k :: keys =>
      match data !! (prefix +:+ k) with
      | Some VNone => None
      | Some v => Some v
      | None => lookup_first data prefix keys
      end
  end.

(** [default if raw is None else parse(raw, prefix + name)]. *)
Definition parse_or {A} (default : A) (parse : pyval -> string -> result A)
    (raw : option pyval) (fq_key : string) : result A :=
  match raw with None => inr default | Some v => parse v fq_key end.

Definition parse_opt_int (v : pyval) (fq_key : string) : result (option Z) :=
  let? z := _parse_int v fq_key in inr (Some z).

Definition str_or (default : string) (raw : option pyval) : string :=
  match raw with None => default | Some v => py_str v end.

Definition lower_str_or (default : string) (raw : option pyval) : string :=
  match raw with None => default | Some v => lower (strip (py_str v)) end.

(** Reading every field, in the order of the code; nothing is checked beyond the type. *)
Definition read_fields (data : dict) (prefix plugin_name : string) : result AerospikeConfig :=
  let lookup (short_name : string) (aliases : list string) :=
    lookup_first data prefix (short_name :: aliases) in
  let fq (name : string) := prefix +:+ name in
  match lookup "hosts" [] with
  | None => config_error (fq "hosts")
  | Some hosts_raw =>
    let? hosts := _parse_hosts hosts_raw (fq "hosts") in
    let namespace_s := str_or "lmcache" (lookup "namespace" []) in
    let set_name_s := str_or "kv_chunks" (lookup "set" ["set_name"]) in
    let? target := parse_or _DEFAULT_TARGET_SEGMENT_BYTES _parse_int
                     (lookup "target_segment_bytes" []) (fq "target_segment_bytes") in
    let? max := parse_or None parse_opt_int
                  (lookup "max_segment_bytes" []) (fq "max_segment_bytes") in
    let? min := parse_or _DEFAULT_MIN_SEGMENT_BYTES _parse_int
                  (lookup "min_segment_bytes" []) (fq "min_segment_bytes") in
    let? single := parse_or None parse_opt_int
                     (lookup "single_record_threshold_bytes" [])
                     (fq "single_record_threshold_bytes") in
    let? ttl := parse_or _DEFAULT_TTL_SECONDS _parse_int
                  (lookup "default_ttl_seconds" []) (fq "default_ttl_seconds") in
    let? read_to := parse_or 1000 _parse_int
                      (lookup "read_timeout_ms" []) (fq "read_timeout_ms") in
    let? write_to := parse_or 2000 _parse_int
                       (lookup "write_timeout_ms" []) (fq "write_timeout_ms") in
    let? batch := parse_or 64 _parse_int
                    (lookup "batch_max_in_flight" []) (fq "batch_max_in_flight") in
    let? exec := parse_or 16 _parse_int
                   (lookup "executor_threads" []) (fq "executor_threads") in
    let? enable_list := parse_or false _parse_bool (lookup "enable_list" []) (fq "enable_list") in
    let? enable_crc32 := parse_or false _parse_bool
                           (lookup "enable_crc32" []) (fq "enable_crc32") in
    let commit_level := lower_str_or "all" (lookup "commit_level" []) in
    let replica := lower_str_or "sequence" (lookup "replica" []) in
    let? send_key := parse_or false _parse_bool (lookup "send_key" []) (fq "send_key") in
    inr (mkAerospikeConfig plugin_name hosts namespace_s set_name_s target max min single ttl
           read_to write_to batch exec enable_list enable_crc32 commit_level replica send_key
           (str_or "" (lookup "username" [])) (str_or "" (lookup "password" []))
           (str_or "" (lookup "tls_name" [])))
  end.

(** The first name whose value is not positive raises. *)
Fixpoint check_positive (prefix : string) (fields : list (string * Z)) : result unit :=
  match fields with
  | [] => inr tt
  | (name, val) :: fields =>
      if val <=? 0 then config_error (prefix +:+ name) else check_positive prefix fields
  end.

Definition not_positive (v : option Z) : bool :=
  match v with Some z => z <=? 0 | None => false end.

Definition validate (prefix : string) (cfg : AerospikeConfig) : result unit :=
  if negb (mem_str (commit_level cfg) _COMMIT_LEVELS) then config_error (prefix +:+ "commit_level")
  else if negb (mem_str (replica cfg) _REPLICAS) then config_error (prefix +:+ "replica")
  else
    let? _ := check_positive prefix
      [ ("target_segment_bytes", target_segment_bytes cfg);
        ("min_segment_bytes", min_segment_bytes cfg);
        ("read_timeout_ms", read_timeout_ms cfg);
        ("write_timeout_ms", write_timeout_ms cfg);
        ("batch_max_in_flight", batch_max_in_flight cfg);
        ("executor_threads", executor_threads cfg) ] in
    if not_positive (max_segment_bytes cfg) then config_error (prefix +:+ "max_segment_bytes")
    else if not_positive (single_record_threshold_bytes cfg) then
      config_error (prefix +:+ "single_record_threshold_bytes")
    else inr tt.

Definition from_extra_config (extra_config : option dict) (plugin_name : string)
    (config_prefix : option string) : result AerospikeConfig :=
  let data := default ∅ extra_config in
  let prefix := resolve_prefix config_prefix plugin_name in
  let? cfg := read_fields data prefix plugin_name in
  let? _ := validate prefix cfg in
  inr cfg.

Definition from_storage_plugin_config (extra_config : option dict) (plugin_name : string)
    : result AerospikeConfig :=
  from_extra_config extra_config plugin_name (Some ("storage_plugin." +:+ plugin_name)).

Definition from_adapter_params (params : option dict) (plugin_name : string)
    : result AerospikeConfig :=
  let data := default ∅ params in
  let remapped := kmap (config_key plugin_name) data in
  from_extra_config (Some remapped) plugin_name None.

(** ** Lemmas *)

#[global] Instance config_key_inj n : Inj (=) (=) (config_key n).
Proof.
  intros a b H. unfold config_key in H.
  repeat (apply (inj (String.append _)) in H). done.
Qed.

Lemma endswith_dot_prefix n : endswith ("remote_storage_plugin." +:+ n +:+ ".") "." = true.
Proof. apply endswith_spec. exists ("remote_storage_plugin." +:+ n). by rewrite string_app_assoc. Qed.

Lemma resolve_prefix_default n :
  resolve_prefix None n = "remote_storage_plugin." +:+ n +:+ ".".
Proof. unfold resolve_prefix. by rewrite endswith_dot_prefix. Qed.

Lemma resolve_prefix_dot p n : exists q, resolve_prefix p n = q +:+ ".".
Proof.
  unfold resolve_prefix. destruct (endswith _ ".") eqn:E; [|eauto].
  by apply endswith_spec in E.
Qed.

(** Two dictionaries agree on the keys below a prefix. *)
Definition agree_below (prefix : string) (d d' : dict) : Prop :=
  forall k, d !! (prefix +:+ k) = d' !! (prefix +:+ k).

#[global] Instance agree_below_equiv prefix : Equivalence (agree_below prefix).
Proof.
  split.
  - by intros d k.
  - intros d d' H k. symmetry. apply H.
  - intros a b c H1 H2 k. by rewrite H1.
Qed.

#[global] Instance lookup_first_proper prefix :
  Proper (agree_below prefix ==> eq ==> eq) (fun d => lookup_first d prefix).
Proof.
  intros d d' Hd keys ? <-. induction keys as [|k keys IH]; simpl; [done|].
  by rewrite Hd, IH.
Qed.

#[global] Instance read_fields_proper prefix n :
  Proper (agree_below prefix ==> eq) (fun d => read_fields d prefix n).
Proof.
  intros d d' Hd.
  assert (H : forall keys, lookup_first d prefix keys = lookup_first d' prefix keys).
  { intros keys. by apply lookup_first_proper. }
  unfold read_fields. by rewrite !H.
Qed.

Lemma from_extra_config_agree d d' n p :
  agree_below (resolve_prefix p n) d d' ->
  from_extra_config (Some d) n p = from_extra_config (Some d') n p.
Proof. intros H. unfold from_extra_config. simpl. by rewrite (read_fields_proper _ n d d' H). Qed.

Lemma check_positive_inv prefix fields :
  check_positive prefix fields = inr tt <-> Forall (fun f => 0 < snd f) fields.
Proof.
  induction fields as [|[name v] fields IH]; simpl; [done|].
  rewrite Forall_cons, <- IH. simpl. destruct (v <=? 0) eqn:E; zbool.
  - split; [done|]. intros [? ?]. lia.
  - split; [auto|by intros [_ ?]].
Qed.

Lemma mem_str_spec s l : mem_str s l = true <-> s ∈ l.
Proof.
  unfold mem_str. rewrite existsb_exists, list_elem_of_In. split.
  - by intros (x & Hx & ->%String.eqb_eq).
  - intros. exists s. by rewrite String.eqb_refl.
Qed.

(** The value of a result, forgetting which exception it is. *)
Definition value {A} (r : result A) : option A :=
  match r with inr a => Some a | inl _ => None end.

Lemma value_bind {A B} (r r' : result A) (f f' : A -> result B) :
  value r = value r' -> (forall a, value (f a) = value (f' a)) ->
  value (let? x := r in f x) = value (let? x := r' in f' x).
Proof. destruct r, r'; simpl; intros [=] Hf; subst; [done|apply Hf]. Qed.

Lemma value_parse_int v k k' : value (_parse_int v k) = value (_parse_int v k').
Proof. unfold _parse_int. destruct v; try done; repeat case_match; done. Qed.

Lemma value_parse_opt_int v k k' : value (parse_opt_int v k) = value (parse_opt_int v k').
Proof. apply value_bind; [apply value_parse_int|done]. Qed.

Lemma value_parse_bool v k k' : value (_parse_bool v k) = value (_parse_bool v k').
Proof. unfold _parse_bool. destruct v; try done; repeat case_match; done. Qed.

Lemma value_parse_host_parts k k' parts :
  value (parse_host_parts k parts) = value (parse_host_parts k' parts).
Proof.
  induction parts as [|p parts IH]; simpl; [done|].
  destruct (String.eqb _ _); [exact IH|]. destruct (split_last _ _) as [[h ps]|]; [|done].
  destruct (String.eqb _ _); [done|]. destruct (int_of_string ps) as [port|]; [|done].
  destruct ((_ <=? _) || _)%bool; [done|]. by apply value_bind.
Qed.

Lemma value_parse_hosts v k k' : value (_parse_hosts v k) = value (_parse_hosts v k').
Proof.
  destruct v; try done. simpl. case_match; [done|].
  apply value_bind; [apply value_parse_host_parts|]. by intros [].
Qed.

Lemma value_parse_or {A} (d : A) parse raw k k' :
  (forall v, value (parse v k) = value (parse v k')) ->
  value (parse_or d parse raw k) = value (parse_or d parse raw k').
Proof. intros H. destruct raw; [apply H|done]. Qed.

Lemma value_validate p p' cfg : value (validate p cfg) = value (validate p' cfg).
Proof.
  unfold validate. do 2 (case_match; [done|]). apply value_bind.
  - generalize [("target_segment_bytes", target_segment_bytes cfg);
                ("min_segment_bytes", min_segment_bytes cfg);
                ("read_timeout_ms", read_timeout_ms cfg);
                ("write_timeout_ms", write_timeout_ms cfg);
                ("batch_max_in_flight", batch_max_in_flight cfg);
                ("executor_threads", executor_threads cfg)].
    intros l. induction l as [|[name v] l IH]; simpl; [done|]. by destruct (v <=? 0).
  - intros _. by repeat case_match.
Qed.

Lemma lookup_first_transport p p' d d' keys :
  (forall k, d !! (p +:+ k) = d' !! (p' +:+ k)) ->
  lookup_first d p keys = lookup_first d' p' keys.
Proof. intros H. induction keys as [|k keys IH]; simpl; [done|]. by rewrite H, IH. Qed.

Lemma value_read_fields p p' d d' n :
  (forall k, d !! (p +:+ k) = d' !! (p' +:+ k)) ->
  value (read_fields d p n) = value (read_fields d' p' n).
Proof.
  intros H. unfold read_fields.
  assert (Hl : forall keys, lookup_first d p keys = lookup_first d' p' keys).
  { intros. by apply lookup_first_transport. }
  rewrite !Hl. case_match; [|done].
  apply value_bind; [apply value_parse_hosts|intros ?].
  repeat (apply value_bind;
    [apply value_parse_or; intros;
     first [apply value_parse_int | apply value_parse_opt_int | apply value_parse_bool]
    |intros ?]).
  done.
Qed.

Lemma singleton_shift (p k k' : string) (v : pyval) :
  ({[p +:+ k' := v]} : dict) !! (p +:+ k) = ({[k' := v]} : dict) !! k.
Proof.
  destruct (decide (k = k')) as [->|Hne]; [by rewrite !lookup_singleton_eq|].
  rewrite !lookup_singleton_ne; [done|congruence|]. intros H%(inj (String.append p)). congruence.
Qed.

(** ** Properties *)

Definition host_ok (h : string * Z) : Prop := h.1 <> "" /\ 0 < h.2 <= 65535.

(** What every accepted configuration satisfies. *)
Record config_ok (cfg : AerospikeConfig) : Prop := {
  ok_hosts : hosts cfg <> [] /\ Forall host_ok (hosts cfg);
  ok_commit : commit_level cfg ∈ _COMMIT_LEVELS;
  ok_replica : replica cfg ∈ _REPLICAS;
  ok_target : 0 < target_segment_bytes cfg;
  ok_min : 0 < min_segment_bytes cfg;
  ok_read : 0 < read_timeout_ms cfg;
  ok_write : 0 < write_timeout_ms cfg;
  ok_batch : 0 < batch_max_in_flight cfg;
  ok_exec : 0 < executor_threads cfg;
  ok_max : forall z, max_segment_bytes cfg = Some z -> 0 < z;
  ok_single : forall z, single_record_threshold_bytes cfg = Some z -> 0 < z
}.

#[export] Hint Resolve ok_target ok_min ok_max ok_single : model.

Lemma not_positive_spec v : not_positive v = false <-> forall z, v = Some z -> 0 < z.
Proof.
  destruct v as [z|]; simpl; [|by split].
  rewrite Z.leb_gt. split; [by intros ? ? [= <-]|]. intros H. by apply H.
Qed.

Lemma parse_host_parts_ok k parts hs : parse_host_parts k parts = inr hs -> Forall host_ok hs.
Proof.
  revert hs. induction parts as [|p parts IH]; intros hs; simpl; [by intros [= <-]|].
  destruct (String.eqb_spec (strip p) ""); [apply IH|].
  destruct (split_last _ _) as [[h ps]|]; [|done].
  destruct (String.eqb_spec (strip h) ""); [done|].
  destruct (int_of_string ps) as [port|]; [|done].
  destruct ((port <=? 0) || (port >? 65535))%bool eqn:E; [done|]. zbool.
  destruct (parse_host_parts k parts) as [|hs'] eqn:Ep; [done|]. intros [= <-].
  constructor; [|by apply IH]. split; simpl; [done|lia].
Qed.

Lemma parse_hosts_ok v k hs : _parse_hosts v k = inr hs -> hs <> [] /\ Forall host_ok hs.
Proof.
  destruct v; try done. simpl. destruct (String.eqb _ _); [done|].
  destruct (parse_host_parts _ _) as [|hs'] eqn:E; [done|].
  apply parse_host_parts_ok in E. destruct hs'; [done|]. by intros [= <-].
Qed.

Lemma read_fields_hosts d p n cfg :
  read_fields d p n = inr cfg -> hosts cfg <> [] /\ Forall host_ok (hosts cfg).
Proof.
  unfold read_fields. destruct (lookup_first _ _ _); [|done].
  destruct (_parse_hosts _ _) as [|hs] eqn:E; [done|]. apply parse_hosts_ok in E.
  repeat (match goal with |- context [parse_or ?a ?b ?c ?d] =>
    destruct (parse_or a b c d); [done|] end).
  by intros [= <-].
Qed.

Lemma validate_spec p cfg :
  (hosts cfg <> [] /\ Forall host_ok (hosts cfg)) ->
  validate p cfg = inr tt <-> config_ok cfg.
Proof.
  intros Hh. unfold validate. split.
  - destruct (mem_str _ _COMMIT_LEVELS) eqn:E1; [|done].
    destruct (mem_str _ _REPLICAS) eqn:E2; [|done]. simpl negb. cbv iota.
    destruct (check_positive _ _) as [|[]] eqn:E3; [done|].
    destruct (not_positive (max_segment_bytes cfg)) eqn:E4; [done|].
    destruct (not_positive (single_record_threshold_bytes cfg)) eqn:E5; [done|]. intros _.
    apply mem_str_spec in E1, E2. apply check_positive_inv in E3.
    rewrite !Forall_cons in E3. simpl in E3. destruct_and!.
    split; try done; by apply not_positive_spec.
  - intros [? E1%mem_str_spec E2%mem_str_spec ?????? E4%not_positive_spec E5%not_positive_spec].
    rewrite E1, E2, E4, E5. simpl negb. cbv iota.
    rewrite (proj2 (check_positive_inv _ _)); [done|]. by repeat constructor.
Qed.

(** C31: [from_extra_config] returns a configuration exactly when the fields read from the
    dictionary are well-formed, and then returns those fields: hosts are non-empty with ports in
    1..65535, sizes, timeouts and pool sizes are positive, and the commit level and replica
    policy are among the known ones. *)
Theorem from_extra_config_valid (extra : dict) (name : string) (config_prefix : option string)
    (cfg : AerospikeConfig) :
  from_extra_config (Some extra) name config_prefix = inr cfg <->
  read_fields extra (resolve_prefix config_prefix name) name = inr cfg /\ config_ok cfg.
Proof.
  unfold from_extra_config. simpl. split.
  - destruct (read_fields _ _ _) as [|c] eqn:E; [done|]. pose proof (read_fields_hosts _ _ _ _ E).
    destruct (validate _ c) as [|[]] eqn:Ev; [done|]. intros [= <-].
    split; [done|]. by eapply validate_spec.
  - intros [E Hok]. rewrite E. pose proof (read_fields_hosts _ _ _ _ E).
    by rewrite (proj2 (validate_spec _ _ H)).
Qed.

Lemma resolve_prefix_storage name :
  endswith ("storage_plugin." +:+ name) "." = false ->
  resolve_prefix (Some ("storage_plugin." +:+ name)) name = "storage_plugin." +:+ name +:+ ".".
Proof.
  intros E. unfold resolve_prefix.
  assert (String.eqb ("storage_plugin." +:+ name) "" = false) as -> by done.
  by rewrite E, string_app_assoc.
Qed.

(** The configuration depends only on the values stored under the plugin's prefix and not
    on the entry point: [from_adapter_params] on flat parameters, [from_extra_config] and
    [from_storage_plugin_config] on prefixed keys return the same configuration, or all fail. *)
Theorem config_entry_points_agree (name : string) (params remote storage : dict) :
  endswith ("storage_plugin." +:+ name) "." = false ->
  (forall k, remote !! (("remote_storage_plugin." +:+ name +:+ ".") +:+ k) = params !! k) ->
  (forall k, storage !! (("storage_plugin." +:+ name +:+ ".") +:+ k) = params !! k) ->
  value (from_adapter_params (Some params) name) =
    value (from_extra_config (Some remote) name None) /\
  value (from_storage_plugin_config (Some storage) name) =
    value (from_extra_config (Some remote) name None).
Proof.
  intros Hn Hr Hs.
  assert (Hv : forall p p' d d',
    (forall k, d !! (resolve_prefix p name +:+ k) = d' !! (resolve_prefix p' name +:+ k)) ->
    value (from_extra_config (Some d) name p) = value (from_extra_config (Some d') name p')).
  { intros p p' d d' H. unfold from_extra_config. simpl.
    apply value_bind; [by apply value_read_fields|]. intros c.
    apply value_bind; [apply value_validate|done]. }
  split; apply Hv; intros k; rewrite ?resolve_prefix_default, ?resolve_prefix_storage, Hr by done.
  - replace (("remote_storage_plugin." +:+ name +:+ ".") +:+ k) with (config_key name k)
      by (unfold config_key; by rewrite !string_app_assoc).
    exact (lookup_kmap (config_key name) params k).
  - apply Hs.
Qed.

Lemma config_entry_points_agree_witness :
  let v := VStr "127.0.0.1:3000" in
  value (from_adapter_params (Some {["hosts" := v]}) "aerospike") =
  value (from_extra_config (Some {["remote_storage_plugin.aerospike.hosts" := v]})
           "aerospike" None).
Proof.
  intros v.
  refine (proj1 (config_entry_points_agree "aerospike" {["hosts" := v]}
           {["remote_storage_plugin.aerospike.hosts" := v]}
           {["storage_plugin.aerospike.hosts" := v]} _ _ _)).
  - reflexivity.
  - intros k. change "remote_storage_plugin.aerospike.hosts"
      with (("remote_storage_plugin." +:+ "aerospike" +:+ ".") +:+ "hosts").
    apply singleton_shift.
  - intros k. change "storage_plugin.aerospike.hosts"
      with (("storage_plugin." +:+ "aerospike" +:+ ".") +:+ "hosts").
    apply singleton_shift.
Defined.

(** [",".join(f"{host}:{port}" for host, port in hosts)]: the text form of a host list. *)
Definition render_host (h : string * Z) : string := h.1 +:+ ":" +:+ string_of_int h.2.

Fixpoint render_hosts (hs : list (string * Z)) : string :=
  match hs with
  | [] => ""
  | [h] => render_host h
  | h :: hs => render_host h +:+ String "," (render_hosts hs)
  end.

(** A host name that survives the parser: no comma, no white space at either end. *)
Definition host_clean (h : string * Z) : Prop :=
  h.1 <> "" /\ lstrip h.1 = h.1 /\ strip h.1 = h.1 /\ contains_char "," h.1 = false /\
  0 < h.2 <= 65535.

Lemma render_host_parse fq h :
  host_clean h ->
  parse_host_parts fq [render_host h] = inr [h] /\ contains_char "," (render_host h) = false /\
  strip (render_host h) = render_host h /\ render_host h <> "".
Proof.
  destruct h as [h p]. intros (Hne & Hl & Hs & Hc & Hp). simpl in *.
  destruct (string_of_int_digits p) as [Hd Hdn]; [lia|].
  assert (Hstrip : strip (render_host (h, p)) = render_host (h, p)).
  { unfold render_host. simpl. apply (strip_app3 h ":" (string_of_int p)); try done. by apply rstrip_digits. }
  assert (Hne' : render_host (h, p) <> "") by (unfold render_host; simpl; by destruct h).
  assert (Hcomma : contains_char "," (render_host (h, p)) = false).
  { unfold render_host. simpl. rewrite !contains_char_app, Hc. simpl. by apply no_sep_digits. }
  split_and!; try done. simpl. rewrite Hstrip.
  destruct (String.eqb_spec (render_host (h, p)) ""); [done|].
  assert (split_last ":" (render_host (h, p)) = Some (h, string_of_int p)) as ->.
  { apply (split_last_spec ":" h (string_of_int p)). by apply no_sep_digits. }
  rewrite Hs. destruct (String.eqb_spec h ""); [done|].
  rewrite (int_of_string_of_int p 5); [|by apply Nat.leb_le|lia].
  destruct ((p <=? 0) || (p >? 65535))%bool eqn:E; [zbool; destruct E; zbool; lia|done].
Qed.

Lemma parse_host_parts_cons fq part parts hs :
  parse_host_parts fq [part] = inr hs ->
  parse_host_parts fq (part :: parts) =
    let? rest := parse_host_parts fq parts in inr (hs ++ rest).
Proof.
  simpl. destruct (String.eqb (strip part) "").
  { intros [= <-]. by destruct (parse_host_parts fq parts). }
  destruct (split_last _ _) as [[h ps]|]; [|done]. destruct (String.eqb _ _); [done|].
  destruct (int_of_string ps); [|done]. destruct (_ || _)%bool; [done|]. by intros [= <-].
Qed.

(** Host lists round-trip: parsing the comma-separated [host:port] text of a non-empty list
    of clean hosts with ports in 1..65535 gives the list back. *)
Theorem parse_hosts_roundtrip (hs : list (string * Z)) (fq : string) :
  hs <> [] -> Forall host_clean hs -> _parse_hosts (VStr (render_hosts hs)) fq = inr hs.
Proof.
  intros Hne Hall. unfold _parse_hosts.
  assert (Hparts : parse_host_parts fq (split "," (render_hosts hs)) = inr hs).
  { clear Hne. induction Hall as [|h hs Hh Hall IH]; [done|].
    destruct (render_host_parse fq h Hh) as (Hp & Hc & _).
    destruct hs as [|h' hs].
    - simpl render_hosts. by rewrite split_no_sep.
    - change (render_hosts (h :: h' :: hs))
        with (render_host h +:+ String "," (render_hosts (h' :: hs))).
      rewrite split_cons by done. rewrite (parse_host_parts_cons _ _ _ _ Hp), IH. done. }
  destruct (String.eqb_spec (strip (render_hosts hs)) "") as [E|_].
  - exfalso. destruct hs as [|h hs]; [done|]. apply Forall_cons in Hall as [Hh _].
    destruct (render_host_parse fq h Hh) as (_ & _ & Hst & Hn).
    assert (He : exists t, render_hosts (h :: hs) = render_host h +:+ t).
    { destruct hs; [exists ""; by rewrite string_app_nil_r|by eexists]. }
    destruct He as [t Ht]. rewrite Ht in E. unfold strip in E.
    destruct h as [n p]. destruct Hh as (Hnn & Hl & _). simpl in *.
    unfold render_host in E. simpl in E. rewrite !string_app_assoc, lstrip_app in E by done.
    assert (Hr : forall s u, rstrip (s +:+ String ":" u) <> "").
    { intros s u. induction s as [|c s IH]; simpl.
      - destruct (rstrip u); done.
      - destruct (rstrip (s +:+ String ":" u)); [done|by destruct s]. }
    by apply Hr in E.
  - rewrite Hparts. by destruct hs.
Qed.

Lemma parse_hosts_roundtrip_witness :
  _parse_hosts (VStr "10.0.0.1:3000,[::1]:4000") "hosts" = inr [("10.0.0.1", 3000); ("[::1]", 4000)].
Proof.
  apply (parse_hosts_roundtrip [("10.0.0.1", 3000); ("[::1]", 4000)] "hosts").
  - discriminate.
  - repeat constructor; simpl; (discriminate || reflexivity || lia).
Defined.
