(* ===== verification/Floats.v ===== *)
(** * Python floats as far as the package computes with them

    [float(v)], the product with a power of two and [int(f)], on binary64 numbers.  A number is
    [m * 2^e]; the sign of zero is not kept.  A decimal literal is rounded to the nearest binary64,
    ties to even. *)

From S2P Require Import Prelude PyStr Errors Config.

Inductive float64 := F64 (m e : Z) | FInf (negative : bool) | FNaN.

(** The integer nearest to [a / b], ties to even. *)
Definition half_even (a b : Z) : Z :=
  let q := a / b in
  let r := a mod b in
  if 2 * r <? b then q else if b <? 2 * r then q + 1 else if Z.even q then q else q + 1.

(** [floor(log2(num / den))] *)
Definition ratio_log2 (num den : Z) : Z :=
  let d := Z.log2 num - Z.log2 den in
  if num * 2 ^ Z.max 0 (- d) <? den * 2 ^ Z.max 0 d then d - 1 else d.

(** The binary64 nearest to [num / den] for [num >= 0], [None] above the largest one. *)
Definition nearest (num den : Z) : option (Z * Z) :=
  if num =? 0 then Some (0, 0)
  else
    let e := Z.max (-1074) (ratio_log2 num den - 52) in
    let m := half_even (num * 2 ^ Z.max 0 (- e)) (den * 2 ^ Z.max 0 e) in
    if 1024 <=? Z.log2 m + e then None else Some (m, e).

(** [float(n)] for an integer. *)
Definition float_of_int (z : Z) : result float64 :=
  match nearest (Z.abs z) 1 with
  | Some (m, e) => inr (F64 (Z.sgn z * m) e)
  | None => inl (Py OverflowError)
  end.

(** Digits with underscores between them, or nothing: their value and number. *)
Definition digits_or_none (s : string) : option (Z * nat) :=
  if String.eqb s "" then Some (0, 0%nat) else read_digits 0 0 false s.

Definition signed (s : string) : bool * string :=
  match s with String "-" s' => (true, s') | String "+" s' => (false, s') | _ => (false, s) end.

(** A decimal literal in lower case without sign: numerator and denominator. *)
Definition decimal (s : string) : option (Z * Z) :=
  let '(mantissa, exponent) := match split_first "e" s with Some (p, q) => (p, Some q) | None => (s, None) end in
  let '(whole, frac) := match split_first "." mantissa with Some p => p | None => (mantissa, "") end in
  match digits_or_none whole, digits_or_none frac with
  | Some (w, nw), Some (f, nf) =>
      if ((nw + nf) =? 0)%nat then None
      else
        match exponent with
        | None => Some (w * 10 ^ Z.of_nat nf + f, 10 ^ Z.of_nat nf)
        | Some x =>
            let '(neg, ds) := signed x in
            match read_digits 0 0 false ds with
            | Some (n, _) =>
                let n := if (neg : bool) then - n else n in
                Some ((w * 10 ^ Z.of_nat nf + f) * 10 ^ Z.max 0 n, 10 ^ Z.of_nat nf * 10 ^ Z.max 0 (- n))
            | None => None
            end
        end
  | _, _ => None
  end.

(** [float(s)]; [None] is [ValueError]. *)
Definition float_of_string (s : string) : option float64 :=
  let '(neg, body) := signed (lower (strip s)) in
  if mem_str body ["inf"; "infinity"] then Some (FInf neg)
  else if String.eqb body "nan" then Some FNaN
  else
    match decimal body with
    | None => None
    | Some (num, den) =>
        match nearest num den with
        | Some (m, e) => Some (F64 (if (neg : bool) then - m else m) e)
        | None => Some (FInf neg)
        end
    end.

(** [float(v)]; the [repr] of a float reads back as the same float. *)
Definition py_float (v : pyval) : result float64 :=
  match v with
  | VBool b => float_of_int (Z.b2z b)
  | VInt z => float_of_int z
  | VFloat (Infinite neg) => inr (FInf neg)
  | VFloat NaN => inr FNaN
  | VFloat (Finite _ s) | VStr s =>
      match float_of_string s with Some f => inr f | None => inl (Py ValueError) end
  | VNone | VObj _ => inl (Py TypeError)
  end.

(** [f * 2**k] for [k >= 0]: exact, unless it overflows. *)
Definition times_pow2 (k : Z) (f : float64) : float64 :=
  match f with
  | F64 m e => if (m =? 0) then F64 0 0
               else if 1024 <=? Z.log2 (Z.abs m) + e + k then FInf (m <? 0) else F64 m (e + k)
  | _ => f
  end.

(** [int(f)] *)
Definition int_of_float (f : float64) : result Z :=
  match f with
  | F64 m e => inr (Z.quot (m * 2 ^ Z.max 0 e) (2 ^ Z.max 0 (- e)))
  | FInf _ => inl (Py OverflowError)
  | FNaN => inl (Py ValueError)
  end.

(** ** Rounding *)

Lemma half_even_bound a b : 0 < b -> 2 * Z.abs (half_even a b * b - a) <= b.
Proof.
  intros Hb. unfold half_even. pose proof (Z.div_mod a b ltac:(lia)) as Hd.
  pose proof (Z.mod_pos_bound a b Hb) as Hr. set (q := a / b) in *. set (r := a mod b) in *.
  destruct (Z.ltb_spec (2 * r) b); [nia|]. destruct (Z.ltb_spec b (2 * r)); [nia|].
  destruct (Z.even q); nia.
Qed.

(** Rounding is off by at most half a unit of the last place. *)
Lemma nearest_error num den m e : 0 <= num -> 0 < den -> nearest num den = Some (m, e) ->
  2 * Z.abs (m * (den * 2 ^ Z.max 0 e) - num * 2 ^ Z.max 0 (- e)) <= den * 2 ^ Z.max 0 e.
Proof.
  intros Hn Hd. unfold nearest. destruct (Z.eqb_spec num 0) as [->|Hne].
  { intros [= <- <-]. cbn. lia. }
  destruct (1024 <=? _); [done|]. intros [= <- <-]. apply half_even_bound.
  pose proof (Z.pow_pos_nonneg 2 (Z.max 0 (Z.max (-1074) (ratio_log2 num den - 52))) ltac:(lia) ltac:(lia)). nia.
Qed.

Lemma ratio_log2_int z : 0 < z -> ratio_log2 z 1 = Z.log2 z.
Proof.
  intros Hz. unfold ratio_log2. pose proof (Z.log2_nonneg z). change (Z.log2 1) with 0.
  rewrite Z.sub_0_r, (Z.max_l 0 (- Z.log2 z)), (Z.max_r 0) by lia.
  destruct (Z.ltb_spec (z * 2 ^ 0) (1 * 2 ^ Z.log2 z)); [|done].
  pose proof (Z.log2_spec z Hz) as [? _]. rewrite Z.pow_0_r in *. lia.
Qed.

(** Integers below 2^53 are exact. *)
Lemma nearest_int z : 0 < z < 2 ^ 53 ->
  nearest z 1 = Some (z * 2 ^ (52 - Z.log2 z), Z.log2 z - 52).
Proof.
  intros Hz. unfold nearest. rewrite (proj2 (Z.eqb_neq z 0)), ratio_log2_int by lia.
  pose proof (Z.log2_nonneg z). assert (Hl : Z.log2 z < 53) by (apply Z.log2_lt_pow2; lia).
  rewrite (Z.max_r (-1074)) by lia. cbv zeta. rewrite (Z.max_r 0 (- _)), (Z.max_l 0 (_ - 52)) by lia.
  replace (- (Z.log2 z - 52)) with (52 - Z.log2 z) by lia. rewrite Z.pow_0_r, Z.mul_1_r.
  assert (He : half_even (z * 2 ^ (52 - Z.log2 z)) 1 = z * 2 ^ (52 - Z.log2 z)).
  { unfold half_even. by rewrite Z.div_1_r, Z.mod_1_r. }
  rewrite He, Z.log2_mul_pow2 by lia. rewrite (proj2 (Z.leb_gt _ _)) by lia. done.
Qed.

Lemma int_of_scaled z k : 0 <= z < 2 ^ 53 -> 0 <= k <= 900 ->
  exists f, float_of_int z = inr f /\ int_of_float (times_pow2 k f) = inr (z * 2 ^ k).
Proof.
  intros Hz Hk. unfold float_of_int. rewrite Z.abs_eq by lia.
  destruct (Z.eq_dec z 0) as [->|Hne]; [by eexists|].
  rewrite nearest_int by lia. eexists. split; [done|]. rewrite Z.sgn_pos, Z.mul_1_l by lia.
  assert (Hl : Z.log2 z < 53) by (apply Z.log2_lt_pow2; lia). pose proof (Z.log2_nonneg z).
  pose proof (Z.pow_pos_nonneg 2 (52 - Z.log2 z) ltac:(lia) ltac:(lia)).
  unfold times_pow2. rewrite (proj2 (Z.eqb_neq _ 0)) by nia.
  rewrite Z.abs_eq, Z.log2_mul_pow2 by nia. rewrite (proj2 (Z.leb_gt _ _)) by lia.
  unfold int_of_float. f_equal. set (d := Z.log2 z - 52 + k).
  destruct (Z.le_ge_cases 0 d).
  - rewrite (Z.max_r 0 d), (Z.max_l 0 (- d)), Z.pow_0_r, Z.quot_1_r by lia.
    rewrite <- Z.mul_assoc, <- Z.pow_add_r by lia. f_equal. f_equal. lia.
  - rewrite (Z.max_l 0 d), (Z.max_r 0 (- d)), Z.pow_0_r, Z.mul_1_r by lia.
    replace (52 - Z.log2 z) with (k + (- d)) by lia. rewrite Z.pow_add_r, Z.mul_assoc by lia.
    apply Z.quot_mul. pose proof (Z.pow_pos_nonneg 2 (- d) ltac:(lia) ltac:(lia)). lia.
Qed.

Example float_examples :
  float_of_string " 1_0.5e-1 " = Some (F64 4728779608739021 (-52)) /\ float_of_string "1e400" = Some (FInf false) /\
  float_of_string "0.1" = Some (F64 7205759403792794 (-56)) /\ float_of_string "-Infinity" = Some (FInf true) /\
  float_of_string "1e" = None /\ float_of_string "._5" = None /\ float_of_string "5e-324" = Some (F64 1 (-1074)).
Proof. vm_compute. repeat split. Qed.
