(* ===== verification/Limits.v ===== *)
(** * Server record-size discovery and resolved limits ([limits.py])

    The reply of [client.info_random_node] is an input: a string, or the exception the call
    raised.  Log messages are not modelled. *)

From S2P Require Import Prelude PyStr Errors Sharding Config.

Definition SAFETY_MARGIN_BYTES : Z := 65536.
Definition _MIN_RECORD_BYTES : Z := 131072.
Definition _MAX_RECORD_BYTES : Z := 8388608.

Record ServerLimits := mkServerLimits {
  server_max_record_bytes : Z;
  source : string;
  nsup_period : Z
}.

Record ResolvedLimits := mkResolvedLimits {
  r_server_max_record_bytes : Z;
  r_effective_max_segment_bytes : Z;
  r_max_segment_bytes : Z;
  r_target_segment_bytes : Z;
  r_single_record_threshold_bytes : Z;
  r_min_segment_bytes : Z
}.

Definition tab : ascii := chr 9.

(** One iteration of the loop over the [key=value] parts. *)
Definition add_pair (pairs : gmap string string) (part : string) : gmap string string :=
  match split_first "=" part with
  | None => pairs
  | Some (key, value) => <[strip key := strip value]> pairs
  end.

Definition parse_namespace_info (response : string) : gmap string string :=
  let text := strip response in
  let text := match split_first tab text with Some (_, rest) => rest | None => text end in
  foldl add_pair ∅ (split ";" text).

(** [int(cfg[key])] with [ValueError] turned into the server-limit error. *)
Definition parse_limit (text key : string) : result Z :=
  match int_of_string text with
  | Some z => inr z
  | None => inl (Conn AerospikeServerLimitError key)
  end.

(** The two probes for the cap: [max-record-size] first, then [write-block-size]; a value that
    is not positive does not count. *)
Definition probe_cap (cfg : gmap string string) (key : string) (found : option (Z * string))
    : result (option (Z * string)) :=
  match found, cfg !! key with
  | None, Some text =>
      let? value := parse_limit text key in
      inr (if value >? 0 then Some (value, key) else None)
  | _, _ => inr found
  end.

Definition discover_limits (info : result string) : result ServerLimits :=
  match info with
  | inl e =>
      if isinstance e AerospikeError then inl (Conn AerospikeNamespaceProbeError "info")
      else inl e
  | inr response =>
      if String.eqb response "" then inl (Conn AerospikeNamespaceProbeError "empty info response")
      else
        let cfg := parse_namespace_info response in
        let? cap := probe_cap cfg "max-record-size" None in
        let? cap := probe_cap cfg "write-block-size" cap in
        match cap with
        | None => inl (Conn AerospikeServerLimitError "namespace info")
        | Some (cap, source) =>
            if (cap <? _MIN_RECORD_BYTES) || (cap >? _MAX_RECORD_BYTES) then
              inl (Conn AerospikeServerLimitError "record size cap")
            else
              let? nsup := parse_limit (default "0" (cfg !! "nsup-period")) "nsup-period" in
              inr (mkServerLimits cap source nsup)
        end
  end.

(** Python's [x or y] for an optional integer. *)
Definition or_default (x : option Z) (y : Z) : Z :=
  match x with Some z => if z =? 0 then y else z | None => y end.

Definition resolve_segment_limits (cfg : AerospikeConfig) (server : ServerLimits)
    : result ResolvedLimits :=
  if (default_ttl_seconds cfg >? 0) && (nsup_period server <=? 0) then
    inl (Conn AerospikeTTLConfigError "namespace")
  else
    let effective_max := server_max_record_bytes server - SAFETY_MARGIN_BYTES in
    let max_segment := Z.min (or_default (max_segment_bytes cfg) effective_max) effective_max in
    let target := Z.min (target_segment_bytes cfg) effective_max in
    let single_threshold :=
      Z.min (or_default (single_record_threshold_bytes cfg) target) effective_max in
    inr (mkResolvedLimits (server_max_record_bytes server) effective_max max_segment target
           single_threshold (min_segment_bytes cfg)).

(** [AerospikeStorageEngine.discover_and_resolve]. *)
Definition discover_and_resolve (info : result string) (cfg : AerospikeConfig)
    : result ResolvedLimits :=
  let? server := discover_limits info in
  resolve_segment_limits cfg server.

(** The planner called with the resolved limits, as the engine calls it. *)
Definition resolved_plan (r : ResolvedLimits) (payload_bytes : Z) : result ShardPlan :=
  plan payload_bytes (r_target_segment_bytes r) (r_max_segment_bytes r) (r_min_segment_bytes r)
       (r_single_record_threshold_bytes r).

(** ** Lemmas *)

Definition server_ok (s : ServerLimits) : Prop :=
  _MIN_RECORD_BYTES <= server_max_record_bytes s <= _MAX_RECORD_BYTES.

(** The operator's override, if any, does not undercut the clamped target. *)
Definition override_ok (cfg : AerospikeConfig) (s : ServerLimits) : Prop :=
  forall z, max_segment_bytes cfg = Some z ->
    Z.min (target_segment_bytes cfg) (server_max_record_bytes s - SAFETY_MARGIN_BYTES) <= z.

Lemma or_default_pos x y : (forall z, x = Some z -> 0 < z) -> 0 < y -> 0 < or_default x y.
Proof. intros Hx Hy. destruct x as [z|]; simpl; [|done]. destruct (Z.eqb_spec z 0); auto. Qed.

Lemma discover_limits_ok info s : discover_limits info = inr s -> server_ok s.
Proof.
  unfold discover_limits. destruct info as [e|resp]; [by destruct (isinstance e _)|].
  destruct (String.eqb resp ""); [done|].
  destruct (probe_cap _ _ None) as [|c1]; [done|]. destruct (probe_cap _ _ c1) as [|c2]; [done|].
  destruct c2 as [[cap src]|]; [|done].
  destruct ((cap <? _MIN_RECORD_BYTES) || (cap >? _MAX_RECORD_BYTES))%bool eqn:E; [done|].
  destruct (parse_limit _ _) as [|n]; [done|]. intros [= <-]. zbool. unfold server_ok. simpl. lia.
Qed.

Lemma resolve_inv cfg s r :
  resolve_segment_limits cfg s = inr r -> server_ok s -> config_ok cfg ->
  r_server_max_record_bytes r = server_max_record_bytes s /\
  r_effective_max_segment_bytes r = server_max_record_bytes s - SAFETY_MARGIN_BYTES /\
  0 < r_target_segment_bytes r <= r_effective_max_segment_bytes r /\
  0 < r_max_segment_bytes r <= r_effective_max_segment_bytes r /\
  0 < r_single_record_threshold_bytes r <= r_effective_max_segment_bytes r /\
  r_min_segment_bytes r = min_segment_bytes cfg.
Proof.
  unfold resolve_segment_limits, server_ok, SAFETY_MARGIN_BYTES, _MIN_RECORD_BYTES.
  destruct (_ && _)%bool; [done|]. intros [= <-] Hs Hc. simpl.
  pose proof (ok_target _ Hc).
  set (eff := server_max_record_bytes s - 65536).
  assert (0 < eff) by (unfold eff; lia).
  assert (0 < Z.min (target_segment_bytes cfg) eff) by lia.
  assert (0 < or_default (max_segment_bytes cfg) eff)
    by (apply or_default_pos; [apply (ok_max _ Hc)|done]).
  assert (0 < or_default (single_record_threshold_bytes cfg) (Z.min (target_segment_bytes cfg) eff))
    by (apply or_default_pos; [apply (ok_single _ Hc)|done]).
  split_and!; lia.
Qed.

Lemma override_ok_target cfg s r :
  resolve_segment_limits cfg s = inr r -> config_ok cfg -> override_ok cfg s ->
  r_target_segment_bytes r <= r_max_segment_bytes r.
Proof.
  unfold resolve_segment_limits, override_ok, SAFETY_MARGIN_BYTES.
  destruct (_ && _)%bool; [done|]. intros [= <-] Hc Ho. simpl.
  destruct (max_segment_bytes cfg) as [z|] eqn:E; simpl; [|lia].
  pose proof (ok_max _ Hc z E). specialize (Ho z eq_refl).
  destruct (Z.eqb_spec z 0); lia.
Qed.

(** ** Properties *)

(** C30: End to end from the server's reply to the planner: for a valid configuration whose
    [max_segment_bytes] does not undercut the target, every payload gets a plan, and the
    payload of each record it asks for leaves the 64 KiB margin free below the size cap that
    the namespace reported, itself within 128 KiB..8 MiB. *)
Theorem resolved_plan_fits_server (info : result string) (cfg : AerospikeConfig)
    (server : ServerLimits) (r : ResolvedLimits) (payload : Z) :
  discover_limits info = inr server -> resolve_segment_limits cfg server = inr r ->
  config_ok cfg -> override_ok cfg server -> 0 <= payload ->
  exists shard, resolved_plan r payload = inr shard /\ plan_ok payload shard /\
    seg_b shard + SAFETY_MARGIN_BYTES <= server_max_record_bytes server <= _MAX_RECORD_BYTES.
Proof.
  intros Hd Hr Hc Ho Hp. pose proof (discover_limits_ok _ _ Hd) as Hs.
  destruct (resolve_inv _ _ _ Hr Hs Hc) as (Hcap & Heff & Ht & Hm & Hsg & _).
  pose proof (override_ok_target _ _ _ Hr Hc Ho).
  destruct (plan_total payload (r_target_segment_bytes r) (r_max_segment_bytes r)
    (r_min_segment_bytes r) (r_single_record_threshold_bytes r) Hp) as [shard Hsh];
    [split; lia|].
  pose proof Hsh as Hsh'. apply plan_sound in Hsh' as [Hok Hb]; [|lia|lia].
  exists shard. split_and!; [done|done| |apply Hs].
  destruct (decide (0 < payload)); [lia|].
  assert (payload = 0) as -> by lia. unfold plan in Hsh. injection Hsh as <-. simpl.
  unfold SAFETY_MARGIN_BYTES in *. lia.
Qed.

Definition default_config : AerospikeConfig :=
  mkAerospikeConfig "aerospike" [("127.0.0.1", 3000)] "lmcache" "kv_chunks" 4194304 None 65536 None
    86400 1000 2000 64 16 false false "all" "sequence" false "" "" "".

Lemma default_config_ok : config_ok default_config.
Proof.
  split; simpl; try lia; try done.
  - split; [done|]. repeat constructor; simpl; done.
  - apply mem_str_spec. done.
  - apply mem_str_spec. done.
Qed.

Lemma resolved_plan_fits_server_witness :
  exists shard,
    resolved_plan (mkResolvedLimits 1048576 983040 983040 983040 983040 65536) 3000000 = inr shard /\
    nseg shard = 4.
Proof.
  destruct (resolved_plan_fits_server (inr "ns	max-record-size=1048576;nsup-period=120")
    default_config (mkServerLimits 1048576 "max-record-size" 120)
    (mkResolvedLimits 1048576 983040 983040 983040 983040 65536) 3000000)
    as (shard & Hs & _).
  - vm_compute. reflexivity.
  - vm_compute. reflexivity.
  - exact default_config_ok.
  - intros z. discriminate.
  - lia.
  - exists shard. split; [exact Hs|]. vm_compute in Hs. injection Hs as <-. reflexivity.
Defined.

(** [discover_limits] on every reply: a client error and an empty reply are probe errors;
    otherwise the cap is [max-record-size] when it is present and positive, else
    [write-block-size] when positive; a missing, unparsable or out-of-range cap and an
    unparsable [nsup-period] are server-limit errors, and nothing else is. *)
Theorem discover_limits_spec (response : string) :
  let cfg := parse_namespace_info response in
  let reads key := match cfg !! key with
                   | None => Some None
                   | Some t => match int_of_string t with
                               | None => None
                               | Some z => Some (if 0 <? z then Some z else None)
                               end
                   end in
  let in_range z := (_MIN_RECORD_BYTES <=? z) && (z <=? _MAX_RECORD_BYTES) in
  let nsup := int_of_string (default "0" (cfg !! "nsup-period")) in
  let finish z src := match nsup with
                      | Some n => if in_range z then Some (mkServerLimits z src n) else None
                      | None => None
                      end in
  response <> "" ->
  value (discover_limits (inr response)) =
    match reads "max-record-size" with
    | None => None
    | Some (Some z) => finish z "max-record-size"
    | Some None =>
        match reads "write-block-size" with
        | Some (Some z) => finish z "write-block-size"
        | _ => None
        end
    end /\
  (forall e, discover_limits (inr response) = inl e ->
     exists d, e = Conn AerospikeServerLimitError d).
Proof.
  intros cfg reads in_range nsup finish Hne. unfold discover_limits.
  destruct (String.eqb_spec response ""); [done|]. fold cfg.
  assert (Hfin : forall z src,
    let r := (if (z <? _MIN_RECORD_BYTES) || (z >? _MAX_RECORD_BYTES) then
                inl (Conn AerospikeServerLimitError "record size cap")
              else let? n := parse_limit (default "0" (cfg !! "nsup-period")) "nsup-period" in
                   inr (mkServerLimits z src n)) in
    value r = finish z src /\
    (forall e, r = inl e -> exists d, e = Conn AerospikeServerLimitError d)).
  { intros z src. unfold finish, in_range, parse_limit, nsup.
    rewrite Z.ltb_antisym, Z.gtb_ltb, (Z.ltb_antisym z).
    destruct (_MIN_RECORD_BYTES <=? z), (z <=? _MAX_RECORD_BYTES); simpl;
      destruct (int_of_string _); simpl; (split; [done|intros ? [= <-]; eauto]) || done. }
  unfold reads, probe_cap, parse_limit.
  destruct (cfg !! "max-record-size") as [t|].
  - destruct (int_of_string t) as [z|]; [|split; [done|intros ? [= <-]; eauto]].
    rewrite Z.gtb_ltb. destruct (0 <? z); [apply Hfin|].
    destruct (cfg !! "write-block-size") as [t'|]; [|split; [done|intros ? [= <-]; eauto]].
    destruct (int_of_string t') as [z'|]; [|split; [done|intros ? [= <-]; eauto]].
    rewrite Z.gtb_ltb. destruct (0 <? z'); [apply Hfin|split; [done|intros ? [= <-]; eauto]].
  - destruct (cfg !! "write-block-size") as [t'|]; [|split; [done|intros ? [= <-]; eauto]].
    destruct (int_of_string t') as [z'|]; [|split; [done|intros ? [= <-]; eauto]].
    rewrite Z.gtb_ltb. destruct (0 <? z'); [apply Hfin|split; [done|intros ? [= <-]; eauto]].
Qed.

Lemma discover_limits_spec_witness :
  value (discover_limits (inr "write-block-size=1048576;nsup-period=120")) =
    Some (mkServerLimits 1048576 "write-block-size" 120).
Proof.
  rewrite (proj1 (discover_limits_spec "write-block-size=1048576;nsup-period=120"
    ltac:(discriminate))).
  vm_compute. reflexivity.
Defined.

(** A configured [max_segment_bytes] below the (clamped) target passes every start-up check,
    and from then on the planner rejects every non-empty payload with a configuration error. *)
Theorem override_below_target_rejects_all (cfg : AerospikeConfig) (server : ServerLimits)
    (r : ResolvedLimits) (z payload : Z) :
  resolve_segment_limits cfg server = inr r -> config_ok cfg -> server_ok server ->
  max_segment_bytes cfg = Some z ->
  z < Z.min (target_segment_bytes cfg) (server_max_record_bytes server - SAFETY_MARGIN_BYTES) ->
  payload <> 0 ->
  resolved_plan r payload = inl (Conn AerospikeConfigError "target_segment_bytes").
Proof.
  unfold resolve_segment_limits, SAFETY_MARGIN_BYTES. destruct (_ && _)%bool; [done|].
  intros [= <-] Hc Hs Hz Hlt Hp. pose proof (ok_max _ Hc z Hz).
  unfold resolved_plan, plan. simpl. rewrite Hz. simpl.
  destruct (Z.eqb_spec payload 0); [done|]. destruct (Z.eqb_spec z 0); [lia|].
  rewrite Z.gtb_ltb, (proj2 (Z.ltb_lt _ _)) by lia. done.
Qed.

Definition small_override_config : AerospikeConfig :=
  mkAerospikeConfig "aerospike" [("h", 3000)] "lmcache" "kv_chunks" 4194304 (Some 1048576) 65536
    None 86400 1000 2000 64 16 false false "all" "sequence" false "" "" "".

Lemma override_below_target_rejects_all_witness :
  from_extra_config
    (Some (<["remote_storage_plugin.aerospike.hosts" := VStr "h:3000"]>
          {["remote_storage_plugin.aerospike.max_segment_bytes" := VInt 1048576]}))
    "aerospike" None = inr small_override_config /\
  resolved_plan (mkResolvedLimits 8388608 8323072 1048576 4194304 4194304 65536) 100 =
    inl (Conn AerospikeConfigError "target_segment_bytes").
Proof.
  split; [vm_compute; reflexivity|].
  apply (override_below_target_rejects_all small_override_config
           (mkServerLimits 8388608 "max-record-size" 120) _ 1048576).
  - vm_compute. reflexivity.
  - split; simpl; try lia; try done;
      [split; [done|repeat constructor; simpl; done]|by apply mem_str_spec..|].
    intros z [= <-]. lia.
  - split; vm_compute; discriminate.
  - reflexivity.
  - vm_compute. reflexivity.
  - discriminate.
Defined.
