(* ===== verification/Crc32.v ===== *)
(** * [zlib.crc32] as the engine uses it

    [zlib.crc32(data) & 0xFFFFFFFF]: the reflected CRC-32 with polynomial 0xEDB88320, computed
    bit by bit on 32-bit states. *)

From S2P Require Import Prelude.

Abbreviation byte := Byte.byte.
Abbreviation bytes := (list Byte.byte).

#[global] Instance byte_eq_dec : EqDecision byte := Byte.byte_eq_dec.

Definition byte_val (b : byte) : Z := Z.of_N (Strings.Byte.to_N b).

Definition crc_poly : Z := 0xEDB88320.

Definition crc_bit (c : Z) : Z :=
  Z.lxor (Z.shiftr c 1) (if Z.testbit c 0 then crc_poly else 0).

(** The eight shift steps of one byte. *)
Definition crc_bits8 (c : Z) : Z := Nat.iter 8 crc_bit c.

Definition crc_byte (c : Z) (b : byte) : Z := crc_bits8 (Z.lxor c (byte_val b)).

Definition crc_run (c : Z) (data : bytes) : Z := foldl crc_byte c data.

Definition crc32 (data : bytes) : Z :=
  Z.land (Z.lxor (crc_run 0xFFFFFFFF data) 0xFFFFFFFF) 0xFFFFFFFF.

Example crc32_check_value :
  crc32 (Byte.x31 :: Byte.x32 :: Byte.x33 :: Byte.x34 :: Byte.x35 :: Byte.x36 :: Byte.x37
         :: Byte.x38 :: Byte.x39 :: []) = 0xCBF43926.
Proof. vm_compute. reflexivity. Qed.

(** ** 32-bit states *)

Definition word32 (c : Z) : Prop := 0 <= c < 2 ^ 32.

Lemma word32_bits c : word32 c <-> 0 <= c /\ forall n, 32 <= n -> Z.testbit c n = false.
Proof.
  split.
  - intros [H0 H]. split; [done|]. intros n Hn. destruct (decide (c = 0)) as [->|Hc].
    + apply Z.testbit_0_l.
    + apply Z.bits_above_log2; [done|]. enough (Z.log2 c < 32) by lia. apply Z.log2_lt_pow2; lia.
  - intros [H0 H]. split; [done|]. destruct (decide (c = 0)) as [->|Hc]; [done|].
    apply Z.log2_lt_pow2; [lia|]. destruct (Z.lt_ge_cases (Z.log2 c) 32) as [|Hge]; [done|].
    specialize (H _ Hge). rewrite Z.bit_log2 in H by lia. done.
Qed.

Lemma word32_lxor a b : word32 a -> word32 b -> word32 (Z.lxor a b).
Proof.
  rewrite !word32_bits. intros [Ha Hab] [Hb Hbb]. split; [by apply Z.lxor_nonneg; split|].
  intros n Hn. by rewrite Z.lxor_spec, Hab, Hbb.
Qed.

Lemma word32_byte b : word32 (byte_val b).
Proof.
  unfold byte_val, word32. pose proof (Strings.Byte.to_N_bounded b). split; [lia|].
  change (2 ^ 32) with 4294967296. lia.
Qed.

Lemma word32_poly : word32 crc_poly.
Proof. unfold word32, crc_poly. lia. Qed.

Lemma word32_crc_bit c : word32 c -> word32 (crc_bit c).
Proof.
  intros Hc. apply word32_lxor.
  - unfold word32 in *. rewrite Z.shiftr_div_pow2 by lia. change (2 ^ 1) with 2.
    split; [apply Z.div_pos; lia|]. apply Z.div_lt_upper_bound; lia.
  - destruct (Z.testbit c 0); [apply word32_poly|]. unfold word32. lia.
Qed.

Lemma word32_crc_byte c b : word32 c -> word32 (crc_byte c b).
Proof.
  intros Hc. unfold crc_byte, crc_bits8. generalize (word32_lxor _ _ Hc (word32_byte b)).
  generalize (Z.lxor c (byte_val b)). intros x. simpl. auto 20 using word32_crc_bit.
Qed.

Lemma word32_crc_run c data : word32 c -> word32 (crc_run c data).
Proof.
  unfold crc_run. revert c. induction data as [|b data IH]; intros c Hc; simpl; [done|].
  auto using word32_crc_byte.
Qed.

(** ** The step is injective on 32-bit states *)

(** Bit 31 of the result is bit 0 of the argument, because the polynomial has bit 31 set. *)
Lemma crc_bit_top c : word32 c -> Z.testbit (crc_bit c) 31 = Z.testbit c 0.
Proof.
  intros [_ Hc]%word32_bits. unfold crc_bit.
  rewrite Z.lxor_spec, Z.shiftr_spec, Hc by lia. by destruct (Z.testbit c 0).
Qed.

Lemma crc_bit_inj c c' : word32 c -> word32 c' -> crc_bit c = crc_bit c' -> c = c'.
Proof.
  intros Hc Hc' He. pose proof (crc_bit_top _ Hc) as H0. rewrite He, crc_bit_top in H0 by done.
  unfold crc_bit in He. rewrite H0 in He.
  apply Z.bits_inj'. intros n Hn. destruct (decide (n = 0)) as [->|Hz]; [done|].
  apply (f_equal (fun z => Z.testbit z (n - 1))) in He.
  rewrite !Z.lxor_spec, !Z.shiftr_spec in He by lia.
  replace (n - 1 + 1) with n in He by lia.
  by destruct (Z.testbit c n), (Z.testbit c' n), (Z.testbit _ (n - 1)).
Qed.

Lemma crc_iter_inj k c c' :
  word32 c -> word32 c' -> Nat.iter k crc_bit c = Nat.iter k crc_bit c' -> c = c'.
Proof.
  intros Hc Hc'. induction k as [|k IH]; simpl; [done|]. intros H. apply IH.
  assert (Hw : forall x, word32 x -> word32 (Nat.iter k crc_bit x)).
  { clear. intros x Hx. induction k; simpl; auto using word32_crc_bit. }
  apply crc_bit_inj; auto.
Qed.

Lemma lxor_cancel_l a b c : Z.lxor a b = Z.lxor a c -> b = c.
Proof.
  intros H. apply (f_equal (Z.lxor a)) in H. by rewrite <- !Z.lxor_assoc, !Z.lxor_nilpotent, !Z.lxor_0_l in H.
Qed.

Lemma byte_val_inj b b' : byte_val b = byte_val b' -> b = b'.
Proof.
  unfold byte_val. intros H%N2Z.inj. apply (f_equal Strings.Byte.of_N) in H.
  rewrite !Strings.Byte.of_to_N in H. by injection H.
Qed.

Lemma crc_bits8_inj c c' : word32 c -> word32 c' -> crc_bits8 c = crc_bits8 c' -> c = c'.
Proof. unfold crc_bits8. generalize 8%nat. intros k. apply crc_iter_inj. Qed.

Lemma crc_byte_inj_state c c' b : word32 c -> word32 c' -> crc_byte c b = crc_byte c' b -> c = c'.
Proof.
  intros Hc Hc'. unfold crc_byte. intros H.
  apply crc_bits8_inj in H; try (apply word32_lxor; auto using word32_byte).
  rewrite !(Z.lxor_comm _ (byte_val b)) in H. by apply lxor_cancel_l in H.
Qed.

Lemma crc_byte_inj_byte c b b' : word32 c -> crc_byte c b = crc_byte c b' -> b = b'.
Proof.
  intros Hc. unfold crc_byte. intros H.
  apply crc_bits8_inj in H; try (apply word32_lxor; auto using word32_byte).
  apply byte_val_inj. by apply lxor_cancel_l in H.
Qed.

Lemma crc_run_inj c c' data : word32 c -> word32 c' -> crc_run c data = crc_run c' data -> c = c'.
Proof.
  unfold crc_run. revert c c'. induction data as [|b data IH]; intros c c' Hc Hc' H; simpl in *; [done|].
  apply IH in H; auto using word32_crc_byte. by apply crc_byte_inj_state in H.
Qed.

Lemma crc_run_app c d e : crc_run c (d ++ e) = crc_run (crc_run c d) e.
Proof. unfold crc_run. by rewrite foldl_app. Qed.

Lemma word32_ones : word32 0xFFFFFFFF.
Proof. unfold word32. lia. Qed.

Lemma crc32_final c : word32 c -> Z.land (Z.lxor c 0xFFFFFFFF) 0xFFFFFFFF = Z.lxor c 0xFFFFFFFF.
Proof.
  intros Hc. change 0xFFFFFFFF with (Z.ones 32). rewrite Z.land_ones by lia.
  apply Z.mod_small. apply word32_lxor; [done|]. unfold word32. by rewrite Z.ones_equiv.
Qed.

Lemma crc32_range data : word32 (crc32 data).
Proof.
  unfold crc32. pose proof (word32_crc_run _ data word32_ones) as H.
  rewrite crc32_final by done. by apply word32_lxor; [|apply word32_ones].
Qed.

(** The checksum is a 32-bit value that always detects the corruption of one byte: two
    payloads that differ in exactly one position have different checksums. *)
Theorem crc32_detects_byte (pre post : bytes) (b b' : byte) :
  b <> b' ->
  word32 (crc32 (pre ++ b :: post)) /\ crc32 (pre ++ b :: post) <> crc32 (pre ++ b' :: post).
Proof.
  intros Hb. split; [apply crc32_range|]. unfold crc32.
  pose proof (word32_crc_run _ pre word32_ones) as Hpre.
  rewrite !crc32_final by auto using word32_crc_run, word32_ones.
  rewrite !(Z.lxor_comm _ 0xFFFFFFFF). intros H%lxor_cancel_l. apply Hb.
  rewrite !crc_run_app in H. simpl in H.
  apply crc_run_inj in H; auto using word32_crc_byte. by apply crc_byte_inj_byte in H.
Qed.

Lemma crc32_detects_byte_witness :
  crc32 (Byte.x00 :: Byte.x01 :: []) <> crc32 (Byte.x00 :: Byte.x02 :: []).
Proof.
  exact (proj2 (crc32_detects_byte [Byte.x00] [] Byte.x01 Byte.x02 ltac:(discriminate))).
Defined.
