(* ===== verification/Keys.v ===== *)
(** * Record keys ([keys.py], [object_keys.py])

    [ck.to_string()] belongs to LMCache: the functions below take its result.  What they rely
    on, that distinct cache keys have distinct strings, is a hypothesis where it is used. *)

From S2P Require Import Prelude PyStr Crc32.

Definition key : Type := string * string * string.

Definition meta_key (ns set_name : string) (ck_s : string) : key :=
  (ns, set_name, ck_s +:+ "|m").

Definition segment_key (ns set_name : string) (ck_s : string) (index : Z) : key :=
  (ns, set_name, ck_s +:+ "|s|" +:+ string_of_int index).

Definition segment_keys (ns set_name : string) (ck_s : string) (nseg : Z) : list key :=
  segment_key ns set_name ck_s <$> seqZ 0 nseg.

(** ** [object_keys.py] *)

(** The fields of LMCache's [ObjectKey] the conversion reads. *)
Record ObjectKey := mkObjectKey {
  chunk_hash : bytes;
  ok_model_name : string;
  kv_rank : Z;
  cache_salt : string
}.

#[global] Instance ObjectKey_eq_dec : EqDecision ObjectKey.
Proof. solve_decision. Defined.

(** The arguments [CacheEngineKey] is built from. *)
Record CacheEngineKey := mkCacheEngineKey {
  model_name : string;
  world_size : Z;
  worker_id : Z;
  ck_chunk_hash : Z;
  dtype : string;
  request_configs : option (list (string * string))
}.

#[global] Instance CacheEngineKey_eq_dec : EqDecision CacheEngineKey.
Proof. solve_decision. Defined.

(** [int.from_bytes(b, byteorder="big")]. *)
Definition int_from_bytes_big (b : bytes) : Z := foldl (fun acc x => 256 * acc + byte_val x) 0 b.

Definition object_key_to_cache_engine_key (k : ObjectKey) (dtype : string) : CacheEngineKey :=
  let world_size := Z.land (Z.shiftr (kv_rank k) 24) 0xFF in
  let worker_id := Z.land (Z.shiftr (kv_rank k) 16) 0xFF in
  let world_size := if world_size <=? 0 then 1 else world_size in
  let hash := Z.land (int_from_bytes_big (chunk_hash k)) (Z.shiftl 1 64 - 1) in
  let request_configs :=
    if String.eqb (cache_salt k) "" then [] else [("lmcache.tag.cache_salt", cache_salt k)] in
  mkCacheEngineKey (ok_model_name k) world_size worker_id hash dtype
    (match request_configs with [] => None | _ => Some request_configs end).

(** ** Lemmas *)

Lemma meta_suffix_not_digits p q z :
  0 <= z -> p +:+ "|m" <> q +:+ "|s|" +:+ string_of_int z.
Proof.
  intros Hz. destruct (string_of_int_digits z Hz) as [Hd Hne].
  change (q +:+ "|s|" +:+ string_of_int z)
    with (q +:+ String "|" (String "s" (String "|" (string_of_int z)))).
  assert (Hq : q +:+ String "|" (String "s" (String "|" (string_of_int z))) =
               (q +:+ "|s") +:+ String "|" (string_of_int z)) by by rewrite string_app_assoc.
  rewrite Hq. intros H.
  apply (split_last_inj "|" p "m" (q +:+ "|s") (string_of_int z)) in H as [_ H];
    [|done|by apply no_sep_digits].
  rewrite <- H in Hd. done.
Qed.

Lemma string_of_int_inj z z' : string_of_int z = string_of_int z' -> z = z'.
Proof. apply (inj (pretty (A:=Z))). Qed.

Lemma seg_suffix_inj p q z z' :
  0 <= z -> 0 <= z' ->
  p +:+ "|s|" +:+ string_of_int z = q +:+ "|s|" +:+ string_of_int z' -> p = q /\ z = z'.
Proof.
  intros Hz Hz' H.
  destruct (string_of_int_digits z Hz) as [Hd _], (string_of_int_digits z' Hz') as [Hd' _].
  assert (Hr : forall r n, r +:+ "|s|" +:+ string_of_int n =
                      (r +:+ "|s") +:+ String "|" (string_of_int n))
    by (intros; by rewrite string_app_assoc).
  rewrite !Hr in H. apply split_last_inj in H as [H1 H2]; [|by apply no_sep_digits..].
  apply string_of_int_inj in H2 as ->. split; [|done].
  change "|s" with ("" +:+ String "|" "s") in H1. simpl in H1.
  by apply (split_last_inj "|" p "s" q "s") in H1 as [-> _].
Qed.

Lemma meta_suffix_inj p q : p +:+ "|m" = q +:+ "|m" -> p = q.
Proof. intros H. by apply (split_last_inj "|" p "m" q "m") in H as [-> _]. Qed.

(** Disjointness of the records of different cache keys, as the engine's proofs use it. *)
Lemma meta_key_inj ns st a b : meta_key ns st a = meta_key ns st b -> a = b.
Proof. intros [= H]. by apply meta_suffix_inj. Qed.

Lemma meta_segment_ne ns st a b i : 0 <= i -> meta_key ns st a <> segment_key ns st b i.
Proof. intros Hi [= H]. by eapply meta_suffix_not_digits. Qed.

Lemma segment_key_inj ns st a b i j :
  0 <= i -> 0 <= j -> segment_key ns st a i = segment_key ns st b j -> a = b /\ i = j.
Proof. intros ?? [= H]. by apply seg_suffix_inj. Qed.

Lemma segment_keys_NoDup ns st a n : NoDup (segment_keys ns st a n).
Proof.
  unfold segment_keys. apply NoDup_fmap_2_strong; [|apply NoDup_seqZ].
  intros i j Hi Hj H. apply elem_of_seqZ in Hi, Hj.
  by apply segment_key_inj in H as [_ ->]; [|lia..].
Qed.

Lemma elem_of_segment_keys ns st a n k :
  k ∈ segment_keys ns st a n <-> exists i, 0 <= i < n /\ k = segment_key ns st a i.
Proof.
  unfold segment_keys. rewrite list_elem_of_fmap. split.
  - intros (i & -> & Hi%elem_of_seqZ). eauto with lia.
  - intros (i & Hi & ->). exists i. split; [done|]. apply elem_of_seqZ. lia.
Qed.

#[export] Hint Resolve meta_segment_ne segment_keys_NoDup : model.

(** ** Properties *)

(** The record keys of one cache are never confused: for any two cache-key strings the meta
    keys and segment keys are pairwise different unless they name the same record of the same
    cache key, even though the strings may themselves contain the separators. *)
Theorem record_keys_injective (ns st a b : string) (i j : Z) :
  0 <= i -> 0 <= j ->
  (meta_key ns st a = meta_key ns st b -> a = b) /\
  (segment_key ns st a i = segment_key ns st b j -> a = b /\ i = j) /\
  meta_key ns st a <> segment_key ns st b j.
Proof.
  intros Hi Hj. split_and!.
  - apply meta_key_inj.
  - by apply segment_key_inj.
  - by apply meta_segment_ne.
Qed.

Lemma record_keys_injective_witness :
  meta_key "ns" "set" "a|s|1" <> segment_key "ns" "set" "a" 1.
Proof.
  exact (proj2 (proj2 (record_keys_injective "ns" "set" "a|s|1" "a" 0 1
    ltac:(lia) ltac:(lia)))).
Defined.

Lemma int_from_bytes_big_app a b :
  int_from_bytes_big (a ++ b) =
    int_from_bytes_big a * 256 ^ Z.of_nat (length b) + int_from_bytes_big b.
Proof.
  unfold int_from_bytes_big. rewrite foldl_app. generalize (foldl (fun acc x => 256 * acc + byte_val x) 0 a).
  induction b as [|x b IH] using rev_ind; intros z; [simpl; lia|].
  rewrite !foldl_app, length_app, IH. cbn [foldl length].
  rewrite Nat2Z.inj_add, Z.pow_add_r by lia. lia.
Qed.

Lemma int_from_bytes_big_one x : 0 <= int_from_bytes_big [x] < 256.
Proof.
  unfold int_from_bytes_big, byte_val. cbn [foldl].
  pose proof (Strings.Byte.to_N_bounded x). lia.
Qed.

Lemma int_from_bytes_big_range b :
  0 <= int_from_bytes_big b < 256 ^ Z.of_nat (length b).
Proof.
  induction b as [|x b IH] using rev_ind; [unfold int_from_bytes_big; simpl; lia|].
  rewrite int_from_bytes_big_app, length_app, Nat2Z.inj_add, Z.pow_add_r by lia.
  change (length [x]) with 1%nat. change (256 ^ Z.of_nat 1) with 256.
  pose proof (int_from_bytes_big_one x). nia.
Qed.

(** The hash kept in the cache key: the last eight bytes of the chunk hash. *)
Lemma key_hash_last8 pre last :
  length last = 8%nat ->
  Z.land (int_from_bytes_big (pre ++ last)) (Z.shiftl 1 64 - 1) = int_from_bytes_big last.
Proof.
  intros Hl. change (Z.shiftl 1 64 - 1) with (Z.ones 64). rewrite Z.land_ones by lia.
  rewrite int_from_bytes_big_app, Hl. change (256 ^ Z.of_nat 8) with (2 ^ 64).
  rewrite Z.add_comm, Z_mod_plus_full. apply Z.mod_small.
  pose proof (int_from_bytes_big_range last) as H. rewrite Hl in H. exact H.
Qed.

(** The conversion of an object key keeps the model name, takes rank fields of one byte (a
    zero world size becomes 1), tags a non-empty salt, and keeps of the chunk hash exactly its
    last 64 bits: two keys that agree on the rest are converted to the same cache key when
    their hashes of the same length above 8 bytes share the last eight bytes. *)
Theorem object_key_conversion (k : ObjectKey) (dtype : string) :
  let ck := object_key_to_cache_engine_key k dtype in
  model_name ck = ok_model_name k /\
  1 <= world_size ck <= 255 /\ 0 <= worker_id ck <= 255 /\
  0 <= ck_chunk_hash ck < 2 ^ 64 /\
  (request_configs ck = None <-> cache_salt k = "") /\
  ((length (chunk_hash k) <= 8)%nat -> ck_chunk_hash ck = int_from_bytes_big (chunk_hash k)) /\
  (forall pre pre' last, length last = 8%nat -> chunk_hash k = pre ++ last ->
     object_key_to_cache_engine_key
       (mkObjectKey (pre' ++ last) (ok_model_name k) (kv_rank k) (cache_salt k)) dtype = ck).
Proof.
  intros ck.
  assert (Hb : forall z, 0 <= Z.land z 0xFF <= 255).
  { intros z. pose proof (Z.land_ones z 8 ltac:(lia)) as H.
    change (Z.ones 8) with 0xFF in H. change (2 ^ 8) with 256 in H.
    pose proof (Z.mod_pos_bound z 256). lia. }
  assert (Hh : forall z, 0 <= Z.land z (Z.shiftl 1 64 - 1) < 2 ^ 64).
  { intros z. change (Z.shiftl 1 64 - 1) with (Z.ones 64). rewrite Z.land_ones by lia.
    apply Z.mod_pos_bound. lia. }
  unfold ck, object_key_to_cache_engine_key.
  cbn [model_name world_size worker_id ck_chunk_hash request_configs].
  split; [reflexivity|]. split; [|split; [apply Hb|split; [apply Hh|split; [|split]]]].
  - pose proof (Hb (Z.shiftr (kv_rank k) 24)).
    destruct (Z.leb_spec (Z.land (Z.shiftr (kv_rank k) 24) 255) 0); lia.
  - destruct (String.eqb_spec (cache_salt k) "") as [->|]; by split.
  - intros Hl. change (Z.shiftl 1 64 - 1) with (Z.ones 64). rewrite Z.land_ones by lia.
    apply Z.mod_small. pose proof (int_from_bytes_big_range (chunk_hash k)) as [H1 H2].
    split; [done|]. eapply Z.lt_le_trans; [exact H2|].
    change (2 ^ 64) with (256 ^ 8). apply Z.pow_le_mono_r; lia.
  - intros pre pre' last Hl Hk. cbn [chunk_hash ok_model_name kv_rank cache_salt].
    rewrite Hk, !key_hash_last8 by exact Hl. reflexivity.
Qed.
