(* ===== verification/Runtime.v ===== *)
(** * Effects: programs, the world they run in, and the client interface

    The effectful code is written as trees of atomic events ([prog]).  An event is one call of
    the Aerospike client, one access to a [MemoryObj], one reading of the clock or one metrics
    observation; exceptions are part of the tree.  [run] executes a tree in a world, [step]
    executes one event, so that calls of different threads can be interleaved.

    What is not in the repository is a parameter: the client library ([AerospikeClient]) and
    LMCache, torch and the constants of the [aerospike] module ([Env]). *)

From S2P Require Import Prelude PyStr Errors Crc32 Keys.

(** ** Data *)

(** Values stored in bins. *)
Inductive binval := BInt (z : Z) | BStr (s : string) | BBytes (b : bytes) | BBool (b : bool).

#[global] Instance binval_eq_dec : EqDecision binval.
Proof. solve_decision. Defined.

(** The bins read from a record, and the bins of a dict literal or operation list, in order. *)
Abbreviation bins := (gmap string binval).
Abbreviation bin_list := (list (string * binval)).

Abbreviation policy := (list (string * Z)).

(** One entry of [BatchRecords.batch_records] after [batch_read]; [br_record] is the bins of
    [rec.record[2]]. *)
Record batch_rec := mkBatchRec { br_result : Z; br_record : option bins }.

(** [br.Write] and [br.Remove]. *)
Inductive batch_op :=
| BWrite (k : key) (ops : bin_list) (ttl : Z) (wp : policy)
| BRemove (k : key).

Definition batch_key (op : batch_op) : key :=
  match op with BWrite k _ _ _ => k | BRemove k => k end.

(** Shapes, dtypes and memory format of a [MemoryObj]. *)
Record MemSpec := mkMemSpec { ms_shapes : list (list Z); ms_dtypes : list string; ms_fmt : string }.

(** A [MemoryObj]: its storage, the length of [byte_array] (a view of the first bytes of the
    storage), whether [raw_data] is a tensor, and the number of [ref_count_down] calls. *)
Record memobj := mkMem {
  mo_raw : bytes;
  mo_size : nat;
  mo_tensor : bool;
  mo_spec : MemSpec;
  mo_get_size : Z;
  mo_downs : nat
}.

Definition byte_array (m : memobj) : bytes := take (mo_size m) (mo_raw m).

Abbreviation loc := nat.
Abbreviation heap := (gmap nat memobj).

(** [buf[offset : offset + len(data)] = data] for a slice within bounds. *)
Definition splice (offset : nat) (data raw : bytes) : bytes :=
  take offset raw ++ data ++ drop (offset + length data) raw.

Definition store_at (offset : nat) (data : bytes) (m : memobj) : memobj :=
  mkMem (splice offset data (mo_raw m)) (mo_size m) (mo_tensor m) (mo_spec m) (mo_get_size m)
        (mo_downs m).

Definition ref_count_down (m : memobj) : memobj :=
  mkMem (mo_raw m) (mo_size m) (mo_tensor m) (mo_spec m) (mo_get_size m) (S (mo_downs m)).

(** ** Parameters *)

(** LMCache, torch and the [aerospike] module. *)
Class Env := {
  (** [getattr(aerospike, name)], [None] when the attribute is missing. *)
  aerospike_const : string -> option Z;
  (** [allocate(shapes, dtypes, fmt)]: a new object, or [None] when memory is full. *)
  lm_allocate : MemSpec -> heap -> option memobj;
  (** [reshape_partial_chunk(memory_obj, n)] of the base connector: returns the object. *)
  lm_reshape : memobj -> Z -> result memobj;
  (** [RemoteMetadata(length, ...).serialize()] and [RemoteMetadata.deserialize]. *)
  lm_serialize : Z -> MemSpec -> result bytes;
  lm_deserialize : bytes -> result (Z * MemSpec);
  (** [torch.frombuffer(payload, dtype=torch.uint8)] as the bytes of the tensor. *)
  torch_frombuffer : bytes -> result bytes
}.

(** The operations of [aerospike.Client] the package calls, on a state [C] that stands for the
    cluster and the connection. *)
Class AerospikeClient (C : Type) := {
  client_get : key -> C -> result bins * C;
  client_select : key -> list string -> C -> result bins * C;
  client_put : key -> bin_list -> Z -> policy -> C -> result unit * C;
  client_batch_read : list key -> list string -> C -> result (list batch_rec) * C;
  client_batch_write : list batch_op -> C -> result (list Z) * C;
  client_remove : key -> C -> result unit * C;
  client_touch : key -> Z -> policy -> C -> result unit * C;
  client_operate : key -> bin_list -> Z -> policy -> C -> result unit * C
}.

(** ** Programs *)

Inductive prog (E : Type -> Type) (A : Type) : Type :=
| Ret (a : A)
| Raise (e : exc)
| Vis {X : Type} (ev : E X) (k : X -> prog E A).
Arguments Ret {E A} a.
Arguments Raise {E A} e.
Arguments Vis {E A X} ev k.

Definition trigger {E X} (ev : E X) : prog E X := Vis ev Ret.

Fixpoint bind {E A B} (p : prog E A) (f : A -> prog E B) : prog E B :=
  match p with
  | Ret a => f a
  | Raise e => Raise e
  | Vis ev k => Vis ev (fun x => bind (k x) f)
  end.

(** [attempt p] never raises: it returns how [p] ended. *)
Fixpoint attempt {E A} (p : prog E A) : prog E (result A) :=
  match p with
  | Ret a => Ret (inr a)
  | Raise e => Ret (inl e)
  | Vis ev k => Vis ev (fun x => attempt (k x))
  end.

Definition lift {E A} (r : result A) : prog E A :=
  match r with inr a => Ret a | inl e => Raise e end.

Notation "'let!' x := p 'in' q" := (bind p (fun x => q))
  (at level 10, x pattern, p at level 200, q at level 200) : model_scope.
Notation "p ;; q" := (bind p (fun _ => q)) (at level 100, right associativity) : model_scope.

(** [[f(x) for x in l]] *)
Fixpoint traverse {E A B} (f : A -> prog E B) (l : list A) : prog E (list B) :=
  match l with
  | [] => Ret []
  | x :: l => let! y := f x in let! ys := traverse f l in Ret (y :: ys)
  end.

(** ** Events *)

Inductive ev : Type -> Type :=
| ClientGet (k : key) : ev (result bins)
| ClientSelect (k : key) (names : list string) : ev (result bins)
| ClientPut (k : key) (b : bin_list) (ttl : Z) (wp : policy) : ev (result unit)
| ClientBatchRead (ks : list key) (names : list string) : ev (result (list batch_rec))
| ClientBatchWrite (ops : list batch_op) : ev (result (list Z))
| ClientRemove (k : key) : ev (result unit)
| ClientTouch (k : key) (ttl : Z) (wp : policy) : ev (result unit)
| ClientOperate (k : key) (ops : bin_list) (ttl : Z) (wp : policy) : ev (result unit)
| MemBytes (l : loc) : ev bytes                 (* bytes(memory_obj.byte_array) *)
| MemShapes (l : loc) : ev MemSpec              (* get_shapes, get_dtypes, get_memory_format *)
| MemTensor (l : loc) : ev (option nat)         (* numel of raw_data when it is a tensor *)
| MemStore (l : loc) (offset : nat) (data : bytes) : ev unit
| MemRefDown (l : loc) : ev unit                (* ref_count_down *)
| MemAllocate (s : MemSpec) : ev (option loc)
| MemReshape (l : loc) (n : Z) : ev (result loc)
| MemGetSize (l : loc) : ev Z                   (* get_size *)
| Now : ev Z                                    (* int(time.time()) *)
| ObserveOp (op res : string) : ev unit
| ObserveSegments (nseg payload_bytes : Z) : ev unit.

Record world (C : Type) := mkWorld {
  w_client : C;
  w_heap : heap;
  w_time : Z;
  w_ops : list (string * string);
  w_segments : list (Z * Z)
}.
Arguments mkWorld {C}.
Arguments w_client {C}.
Arguments w_heap {C}.
Arguments w_time {C}.
Arguments w_ops {C}.
Arguments w_segments {C}.

Section handlers.
Context {C : Type} `{AerospikeClient C} `{Env}.

Definition set_client (w : world C) (c : C) : world C :=
  mkWorld c (w_heap w) (w_time w) (w_ops w) (w_segments w).

Definition set_heap (w : world C) (h : heap) : world C :=
  mkWorld (w_client w) h (w_time w) (w_ops w) (w_segments w).

(** Run a client operation on the client part of the world. *)
Definition on_client {X} (f : C -> X * C) (w : world C) : X * world C :=
  let '(x, c) := f (w_client w) in (x, set_client w c).

Definition empty_mem : memobj := mkMem [] 0 false (mkMemSpec [] [] "") 0 0.

Definition mem (w : world C) (l : loc) : memobj := default empty_mem (w_heap w !! l).

Definition on_mem (f : memobj -> memobj) (l : loc) (w : world C) : world C :=
  set_heap w (alter f l (w_heap w)).

Definition allocate_in (s : MemSpec) (w : world C) : option loc * world C :=
  match lm_allocate s (w_heap w) with
  | None => (None, w)
  | Some m =>
      let l := fresh (dom (w_heap w)) in (Some l, set_heap w (<[l := m]> (w_heap w)))
  end.

Definition reshape_in (l : loc) (n : Z) (w : world C) : result loc * world C :=
  match lm_reshape (mem w l) n with
  | inl e => (inl e, w)
  | inr m => (inr l, set_heap w (<[l := m]> (w_heap w)))
  end.

Definition handle {X} (e : ev X) (w : world C) : X * world C :=
  match e in ev X return X * world C with
  | ClientGet k => on_client (client_get k) w
  | ClientSelect k names => on_client (client_select k names) w
  | ClientPut k b ttl wp => on_client (client_put k b ttl wp) w
  | ClientBatchRead ks names => on_client (client_batch_read ks names) w
  | ClientBatchWrite ops => on_client (client_batch_write ops) w
  | ClientRemove k => on_client (client_remove k) w
  | ClientTouch k ttl wp => on_client (client_touch k ttl wp) w
  | ClientOperate k ops ttl wp => on_client (client_operate k ops ttl wp) w
  | MemBytes l => (byte_array (mem w l), w)
  | MemShapes l => (mo_spec (mem w l), w)
  | MemTensor l =>
      (if mo_tensor (mem w l) then Some (length (mo_raw (mem w l))) else None, w)
  | MemStore l offset data => (tt, on_mem (store_at offset data) l w)
  | MemRefDown l => (tt, on_mem ref_count_down l w)
  | MemAllocate s => allocate_in s w
  | MemReshape l n => reshape_in l n w
  | MemGetSize l => (mo_get_size (mem w l), w)
  | Now => (w_time w, w)
  | ObserveOp op r =>
      (tt, mkWorld (w_client w) (w_heap w) (w_time w) (w_ops w ++ [(op, r)]) (w_segments w))
  | ObserveSegments n b =>
      (tt, mkWorld (w_client w) (w_heap w) (w_time w) (w_ops w) (w_segments w ++ [(n, b)]))
  end.

(** Execution of a whole program, with no other thread in between. *)
Fixpoint run {A} (p : prog ev A) (w : world C) : result A * world C :=
  match p with
  | Ret a => (inr a, w)
  | Raise e => (inl e, w)
  | Vis e k => let '(x, w') := handle e w in run (k x) w'
  end.

(** One event; [None] when the program has ended. *)
Definition step {A} (p : prog ev A) (w : world C) : option (prog ev A * world C) :=
  match p with
  | Vis e k => let '(x, w') := handle e w in Some (k x, w')
  | _ => None
  end.

(** [n] events of one program, fewer when it ends before. *)
Fixpoint steps {A} (n : nat) (p : prog ev A) (w : world C) : prog ev A * world C :=
  match n with
  | O => (p, w)
  | S n => match step p w with
           | Some (p', w') => steps n p' w'
           | None => (p, w)
           end
  end.

(** ** Equations *)

Lemma run_bind {A B} (p : prog ev A) (f : A -> prog ev B) w :
  run (bind p f) w =
    match run p w with
    | (inr a, w') => run (f a) w'
    | (inl e, w') => (inl e, w')
    end.
Proof.
  revert w. induction p as [a|e|X e k IH]; intros w; simpl; [done|done|].
  destruct (handle e w) as [x w']. apply IH.
Qed.

Lemma run_attempt {A} (p : prog ev A) w :
  run (attempt p) w = (inr (fst (run p w)), snd (run p w)).
Proof.
  revert w. induction p as [a|e|X e k IH]; intros w; simpl; [done|done|].
  destruct (handle e w) as [x w']. apply IH.
Qed.

Lemma run_trigger {X} (e : ev X) w :
  run (trigger e) w = (inr (fst (handle e w)), snd (handle e w)).
Proof. simpl. by destruct (handle e w). Qed.

Lemma run_lift {A} (r : result A) w : run (lift r) w = (r, w).
Proof. by destruct r. Qed.

(** Running in slices is the same as running at once. *)
Lemma run_steps {A} n (p : prog ev A) w :
  run (fst (steps n p w)) (snd (steps n p w)) = run p w.
Proof.
  revert p w. induction n as [|n IH]; intros p w; simpl; [done|].
  destruct p as [a|e|X e k]; simpl; [done|done|].
  destruct (handle e w) as [x w']. apply IH.
Qed.
End handlers.

