(* ===== verification/Policies.v ===== *)
(** * Client policies ([policies.py])

    The constants of the [aerospike] module are those of [Env]. *)

From S2P Require Import Prelude PyStr Errors Config Runtime.

Section policies.
Context `{Env}.

Fixpoint assoc_str (k : string) (l : list (string * string)) : option string :=
  match l with
  | [] => None
  | (k', v) :: l => if String.eqb k k' then Some v else assoc_str k l
  end.

Definition _COMMIT : list (string * string) :=
  [("all", "POLICY_COMMIT_LEVEL_ALL"); ("master", "POLICY_COMMIT_LEVEL_MASTER")].

Definition _REPLICA : list (string * string) :=
  [("master", "POLICY_REPLICA_MASTER"); ("any", "POLICY_REPLICA_ANY");
   ("sequence", "POLICY_REPLICA_SEQUENCE"); ("prefer_rack", "POLICY_REPLICA_PREFER_RACK")].

Definition _policy_const (name : string) : result Z :=
  match aerospike_const name with
  | Some z => inr z
  | None => inl (Conn AerospikeConfigError name)
  end.

Definition _commit_level (v : string) : result Z :=
  match assoc_str v _COMMIT with
  | None => inl (Conn AerospikeConfigError v)
  | Some const => _policy_const const
  end.

Definition _replica (v : string) : result Z :=
  match assoc_str v _REPLICA with
  | None => inl (Conn AerospikeConfigError v)
  | Some const => _policy_const const
  end.

Definition _key_policy (send_key : bool) : result Z :=
  _policy_const (if send_key then "POLICY_KEY_SEND" else "POLICY_KEY_DIGEST").

Definition read_policy (cfg : AerospikeConfig) : result policy :=
  let? rep := _replica (replica cfg) in
  let? key := _key_policy (send_key cfg) in
  inr [("total_timeout", read_timeout_ms cfg); ("socket_timeout", read_timeout_ms cfg);
       ("replica", rep); ("key", key); ("max_retries", 2)].

Definition write_policy (cfg : AerospikeConfig) : result policy :=
  let? commit := _commit_level (commit_level cfg) in
  let? key := _key_policy (send_key cfg) in
  let? exists_ := _policy_const "POLICY_EXISTS_IGNORE" in
  let? gen := _policy_const "POLICY_GEN_IGNORE" in
  inr [("total_timeout", write_timeout_ms cfg); ("socket_timeout", write_timeout_ms cfg);
       ("commit_level", commit); ("key", key); ("exists", exists_); ("gen", gen);
       ("max_retries", 0)].

Definition batch_policy (cfg : AerospikeConfig) : policy :=
  let timeout := Z.max (read_timeout_ms cfg) (write_timeout_ms cfg) in
  [("total_timeout", timeout); ("socket_timeout", timeout)].

(** The constants the package looks up are all present in the installed client. *)
Definition client_constants : Prop :=
  forall name,
    name ∈ (snd <$> _COMMIT) ++ (snd <$> _REPLICA) ++
      ["POLICY_KEY_SEND"; "POLICY_KEY_DIGEST"; "POLICY_EXISTS_IGNORE"; "POLICY_GEN_IGNORE"] ->
    is_Some (aerospike_const name).

Lemma policy_const_ok name :
  is_Some (aerospike_const name) -> exists z, _policy_const name = inr z.
Proof. intros [z Hz]. exists z. unfold _policy_const. by rewrite Hz. Qed.

Ltac const_ok H := apply policy_const_ok, H; apply (bool_decide_unpack _); done.

Lemma commit_level_ok v :
  client_constants -> v ∈ _COMMIT_LEVELS <-> exists z, _commit_level v = inr z.
Proof.
  intros Hc. split.
  - unfold _COMMIT_LEVELS. rewrite !elem_of_cons, elem_of_nil.
    intros [->|[->|[]]]; const_ok Hc.
  - intros [z Hz]. revert Hz. unfold _commit_level, _COMMIT. simpl.
    destruct (String.eqb_spec v "all") as [->|]; [intros _; by apply mem_str_spec|].
    destruct (String.eqb_spec v "master") as [->|]; [intros _; by apply mem_str_spec|done].
Qed.

Lemma replica_ok v :
  client_constants -> v ∈ _REPLICAS <-> exists z, _replica v = inr z.
Proof.
  intros Hc. split.
  - unfold _REPLICAS. rewrite !elem_of_cons, elem_of_nil.
    intros [->|[->|[->|[->|[]]]]]; const_ok Hc.
  - intros [z Hz]. revert Hz. unfold _replica, _REPLICA. simpl.
    do 4 (match goal with |- context [String.eqb v ?s] =>
      destruct (String.eqb_spec v s) as [->|]; [intros _; by apply mem_str_spec|] end).
    done.
Qed.

Lemma key_policy_ok b : client_constants -> exists z, _key_policy b = inr z.
Proof. intros Hc. destruct b; const_ok Hc. Qed.

Lemma write_policy_ok cfg :
  client_constants -> config_ok cfg -> exists wp, write_policy cfg = inr wp.
Proof.
  intros Hc Hok. unfold write_policy.
  destruct (proj1 (commit_level_ok _ Hc) (ok_commit _ Hok)) as [c ->].
  destruct (key_policy_ok (send_key cfg) Hc) as [k ->].
  assert (exists z, _policy_const "POLICY_EXISTS_IGNORE" = inr z) as [x ->] by const_ok Hc.
  assert (exists z, _policy_const "POLICY_GEN_IGNORE" = inr z) as [g ->] by const_ok Hc.
  eauto.
Qed.

(** The configuration parser and the policy factories accept the same commit levels and
    replica modes: with the client's constants present, every accepted configuration can be
    turned into its read and write policies, with the configured timeouts, two read retries
    and no write retry, and conversely a level or mode with a policy passes validation. *)
Theorem policies_accept_valid_configs (cfg : AerospikeConfig) :
  client_constants ->
  (config_ok cfg ->
     (exists rp, read_policy cfg = inr rp /\ ("total_timeout", read_timeout_ms cfg) ∈ rp /\
                 ("max_retries", 2) ∈ rp) /\
     (exists wp, write_policy cfg = inr wp /\ ("total_timeout", write_timeout_ms cfg) ∈ wp /\
                 ("max_retries", 0) ∈ wp)) /\
  (forall rp wp, read_policy cfg = inr rp -> write_policy cfg = inr wp ->
     commit_level cfg ∈ _COMMIT_LEVELS /\ replica cfg ∈ _REPLICAS).
Proof.
  intros Hc. split.
  - intros Hok. split.
    + unfold read_policy. destruct (proj1 (replica_ok _ Hc) (ok_replica _ Hok)) as [r ->].
      destruct (key_policy_ok (send_key cfg) Hc) as [k ->].
      eexists. split; [reflexivity|]. rewrite !elem_of_cons. tauto.
    + destruct (write_policy_ok cfg Hc Hok) as [wp Hwp]. exists wp. split; [done|].
      revert Hwp. unfold write_policy. repeat (case_match; try done).
      intros [= <-]. rewrite !elem_of_cons. tauto.
  - intros rp wp Hr Hw. split.
    + apply commit_level_ok; [done|]. unfold write_policy in Hw.
      destruct (_commit_level (commit_level cfg)); [done|eauto].
    + apply replica_ok; [done|]. unfold read_policy in Hr.
      destruct (_replica (replica cfg)); [done|eauto].
Qed.
End policies.

#[export] Hint Resolve write_policy_ok : model.
