(* ===== verification/Metrics.v ===== *)
(** * Metrics hooks ([metrics.py])

    The Prometheus client is optional and every hook swallows its exceptions, so an
    observation is an event without a result.  Durations are not modelled. *)

From S2P Require Import Prelude Errors Runtime.

(** An [OpTimer]: the operation, the result label, whether [finish] was called. *)
Record OpTimer := mkOpTimer { op : string; res : string; finished : bool }.

Definition OpTimer_init (op : string) : OpTimer := mkOpTimer op "ok" false.

Definition set_result (label : string) (t : OpTimer) : OpTimer :=
  mkOpTimer (op t) label (finished t).

(** [finish]: the observation made, if any, and the timer afterwards. *)
Definition finish (t : OpTimer) : list (string * string) * OpTimer :=
  if finished t then ([], t) else ([(op t, res t)], mkOpTimer (op t) (res t) true).

(** The label [map_exception] stores. *)
Definition exception_label (e : exc) : string :=
  match classify e with
  | timeout => "timeout"
  | too_big => "record_too_big"
  | busy => "busy"
  | connection => "error"
  | not_found => "miss"
  | forbidden_ttl => "error"
  | key_mismatch => "error"
  | unknown => "error"
  end.

Definition map_exception (e : exc) (t : OpTimer) : OpTimer := set_result (exception_label e) t.

Definition observe_all (obs : list (string * string)) : prog ev unit :=
  foldr (fun o p => trigger (ObserveOp (fst o) (snd o)) ;; p) (Ret tt) obs.

(** The collectors of [prometheus_client]; [None] without the package. *)
Record Collectors := mkCollectors {
  op_total : gmap (string * string) Z;     (* aerospike_op_total{op,result} *)
  op_latency : gmap string Z;              (* observations of aerospike_op_latency_seconds{op} *)
  segment_counts : list Z;
  segment_bytes : list Z
}.

Definition bump {K} `{Countable K} (k : K) (m : gmap K Z) : gmap K Z := <[k := default 0 (m !! k) + 1]> m.

Definition observe_op (op result : string) (prom : option Collectors) : option Collectors :=
  (fun p => mkCollectors (bump (op, result) (op_total p)) (bump op (op_latency p)) (segment_counts p)
              (segment_bytes p)) <$> prom.

Definition observe_segments (nseg payload_bytes : Z) (prom : option Collectors) : option Collectors :=
  (fun p => mkCollectors (op_total p) (op_latency p) (segment_counts p ++ [nseg])
              (segment_bytes p ++ [payload_bytes])) <$> prom.

(** What the observations of a history leave in the collectors. *)
Definition collect_ops (obs : list (string * string)) (prom : option Collectors) : option Collectors :=
  foldl (fun p o => observe_op (fst o) (snd o) p) prom obs.

Lemma collect_ops_total obs p x :
  exists p', collect_ops obs (Some p) = Some p' /\
    default 0 (op_total p' !! x) = default 0 (op_total p !! x) + Z.of_nat (length (filter (fun o => o = x) obs)).
Proof.
  revert p. induction obs as [|[o l] obs IH]; intros p.
  { exists p. split; [done|]. rewrite filter_nil. cbn. lia. }
  destruct (IH (mkCollectors (bump (o, l) (op_total p)) (bump o (op_latency p)) (segment_counts p)
    (segment_bytes p))) as (p' & Ep & Hp).
  exists p'. split; [exact Ep|]. rewrite Hp, filter_cons. cbn [op_total].
  unfold bump. destruct (decide ((o, l) = x)) as [->|Hne].
  - rewrite lookup_insert_eq. cbn [default from_option id length]. lia.
  - by rewrite lookup_insert_ne.
Qed.

(** [timer = OpTimer(op); try: body finally: timer.finish()].  The body returns the timer as it
    left it with the value or exception it ended with; a body that raises by itself has not
    set a label. *)
Definition with_timer {A} (op : string) (body : OpTimer -> prog ev (OpTimer * result A))
    : prog ev A :=
  let t := OpTimer_init op in
  let! r := attempt (body t) in
  match r with
  | inl e => observe_all (fst (finish t)) ;; Raise e
  | inr (t', out) => observe_all (fst (finish t')) ;; lift out
  end.

Section facts.
Context {C : Type} `{AerospikeClient C} `{Env}.

(** The world after one observation. *)
Definition observed (op label : string) (w : world C) : world C :=
  mkWorld (w_client w) (w_heap w) (w_time w) (w_ops w ++ [(op, label)]) (w_segments w).

Lemma run_with_timer {A} op (body : OpTimer -> prog ev (OpTimer * result A)) (w : world C) :
  run (with_timer op body) w =
    match run (body (OpTimer_init op)) w with
    | (inl e, w') => (inl e, observed op "ok" w')
    | (inr (t', out), w') =>
        (out, if finished t' then w' else observed (Metrics.op t') (res t') w')
    end.
Proof.
  unfold with_timer. rewrite run_bind, run_attempt.
  destruct (run (body _) w) as [[e|[t' out]] w']; simpl; [done|].
  unfold finish. destruct (finished t'); simpl; by rewrite run_lift.
Qed.
End facts.
