(* ===== verification/Serde.v ===== *)
(** * Bin encoding and payload assembly ([serde.py]) *)

From S2P Require Import Prelude PyStr Errors Sharding Crc32 Keys Runtime.

(** ** Python operations on bin values *)

Definition string_of_bytes (b : bytes) : string :=
  foldr (fun x s => String (Ascii.ascii_of_byte x) s) "" b.

(** [int(v)]. *)
Definition bin_int (v : binval) : result Z :=
  match v with
  | BInt z => inr z
  | BBool b => inr (Z.b2z b)
  | BStr s => match int_of_string s with Some z => inr z | None => inl (Py ValueError) end
  | BBytes b =>
      match int_of_string (string_of_bytes b) with
      | Some z => inr z
      | None => inl (Py ValueError)
      end
  end.

(** [len(v)]. *)
Definition bin_len (v : binval) : result nat :=
  match v with
  | BBytes b => inr (length b)
  | BStr s => inr (String.length s)
  | _ => inl (Py TypeError)
  end.

(** The buffer of [v], for the calls that need a bytes-like object. *)
Definition bin_buffer (v : binval) : result bytes :=
  match v with BBytes b => inr b | _ => inl (Py TypeError) end.

(** [actual == v] for an integer [actual]. *)
Definition bin_eq_int (actual : Z) (v : binval) : bool :=
  match v with
  | BInt z => actual =? z
  | BBool b => actual =? Z.b2z b
  | _ => false
  end.

(** ** Operations *)

(** The [RemoteMetadata] of an object, serialized: [build_remote_metadata(...).serialize()]. *)
Definition build_remote_metadata `{Env} (l : loc) : prog ev bytes :=
  let! buf := trigger (MemBytes l) in
  let! spec := trigger (MemShapes l) in
  lift (lm_serialize (Z.of_nat (length buf)) spec).

Definition meta_bins `{Env} (p : ShardPlan) (l : loc) (save_chunk_meta enable_crc32 pinned : bool)
    : prog ev bin_list :=
  let! payload := trigger (MemBytes l) in
  let! now := trigger Now in
  let base : bin_list :=
    [ ("ver", BInt 1); ("state", BStr "ready"); ("nseg", BInt (nseg p)); ("seg_b", BInt (seg_b p));
      ("tot_b", BInt (Z.of_nat (length payload))); ("created_at", BInt now); ("pin", BBool pinned) ] in
  let! with_md :=
    if save_chunk_meta then
      let! md := build_remote_metadata l in Ret (base ++ [("md", BBytes md)])
    else Ret base in
  let with_b := if nseg p =? 1 then with_md ++ [("b", BBytes payload)] else with_md in
  Ret (if enable_crc32 then with_b ++ [("crc32", BInt (Z.land (crc32 payload) 0xFFFFFFFF))]
       else with_b).

(** The object, if memory is available, and [expect_reshape]. *)
Definition allocate_for_read `{Env} (save_chunk_meta : bool) (meta_spec : MemSpec) (b : bins)
    : prog ev (option loc * bool) :=
  match save_chunk_meta, b !! "md" with
  | true, Some md =>
      let! buf := lift (bin_buffer md) in
      let! rm := lift (lm_deserialize buf) in
      let! mo := trigger (MemAllocate (snd rm)) in
      Ret (mo, false)
  | _, _ =>
      let! mo := trigger (MemAllocate meta_spec) in
      Ret (mo, true)
  end.

Definition write_payload_into `{Env} (l : loc) (payload : binval) (offset : nat) : prog ev nat :=
  let! n := lift (bin_len payload) in
  let stop := (offset + n)%nat in
  let! raw := trigger (MemTensor l) in
  match raw with
  | Some numel =>
      if (numel <? stop)%nat then Raise (Conn AerospikeInternalError "payload length")
      else
        let! data := lift (bin_buffer payload) in
        let! src := lift (torch_frombuffer data) in
        trigger (MemStore l offset src) ;; Ret n
  | None =>
      let! buf := trigger (MemBytes l) in
      if (length buf <? stop)%nat then Raise (Conn AerospikeInternalError "payload length")
      else
        let! data := lift (bin_buffer payload) in
        trigger (MemStore l offset data) ;; Ret n
  end.

(** ** Lemmas *)

(** A [MemoryObj] whose view lies inside its storage. *)
Definition mem_ok (m : memobj) : Prop := (mo_size m <= length (mo_raw m))%nat.

(** The room a payload may use: the storage of a tensor, the view otherwise. *)
Definition room (m : memobj) : nat := if mo_tensor m then length (mo_raw m) else mo_size m.

Lemma room_le m : mem_ok m -> (room m <= length (mo_raw m))%nat.
Proof. unfold mem_ok, room. destruct (mo_tensor m); lia. Qed.

Lemma length_splice offset data raw :
  (offset + length data <= length raw)%nat -> length (splice offset data raw) = length raw.
Proof. intros. unfold splice. rewrite !length_app, length_take, length_drop. lia. Qed.

Lemma splice_prefix offset data raw p :
  (offset + length data <= length raw)%nat -> take offset raw = p ->
  take (offset + length data) (splice offset data raw) = p ++ data.
Proof.
  intros Hle <-. unfold splice. rewrite app_assoc, take_app_le.
  - rewrite take_ge; [done|]. rewrite length_app, length_take. lia.
  - rewrite length_app, length_take. lia.
Qed.

Lemma length_byte_array m : mem_ok m -> length (byte_array m) = mo_size m.
Proof. unfold mem_ok, byte_array. intros. rewrite length_take. lia. Qed.

Section facts.
Context {C : Type} `{AerospikeClient C} `{Env}.

(** What torch does: a view of the same bytes, for any non-empty buffer. *)
Definition frombuffer_ok : Prop :=
  (forall p, p <> [] -> torch_frombuffer p = inr p) /\
  (forall p src, torch_frombuffer p = inr src -> src = p).

Lemma mem_on_mem f l (w : world C) m :
  w_heap w !! l = Some m -> mem (on_mem f l w) l = f m.
Proof.
  intros Hm. unfold mem, on_mem, set_heap. simpl.
  rewrite lookup_alter_eq, Hm. done.
Qed.

Lemma mem_lookup l (w : world C) m : w_heap w !! l = Some m -> mem w l = m.
Proof. intros Hm. unfold mem. by rewrite Hm. Qed.

(** The three ways a write of bytes into an object ends. *)
Lemma run_write_payload l data offset (w : world C) m :
  w_heap w !! l = Some m -> mem_ok m ->
  run (write_payload_into l (BBytes data) offset) w =
    if (room m <? offset + length data)%nat
    then (inl (Conn AerospikeInternalError "payload length"), w)
    else if mo_tensor m then
      match torch_frombuffer data with
      | inr src => (inr (length data), on_mem (store_at offset src) l w)
      | inl e => (inl e, w)
      end
    else (inr (length data), on_mem (store_at offset data) l w).
Proof.
  intros Hm Hok. unfold write_payload_into, room. simpl. rewrite (mem_lookup _ _ _ Hm).
  destruct (mo_tensor m).
  - case_match; [done|]. simpl. by destruct (torch_frombuffer data).
  - simpl. rewrite (mem_lookup _ _ _ Hm), length_byte_array by done. by case_match.
Qed.

Lemma run_write_payload_ok l data offset (w : world C) m :
  frombuffer_ok -> w_heap w !! l = Some m -> mem_ok m -> data <> [] \/ mo_tensor m = false ->
  (offset + length data <= room m)%nat ->
  run (write_payload_into l (BBytes data) offset) w =
    (inr (length data), on_mem (store_at offset data) l w).
Proof.
  intros Hf Hm Hok Hne Hle. rewrite (run_write_payload _ _ _ _ _ Hm Hok).
  destruct (Nat.ltb_spec (room m) (offset + length data)); [lia|].
  destruct (mo_tensor m); [|done]. rewrite (proj1 Hf); [done|]. by destruct Hne.
Qed.

(** [w'] differs from [w] at most in the object at [l]. *)
Definition only_mem (l : loc) (w w' : world C) : Prop :=
  w_client w' = w_client w /\ w_time w' = w_time w /\ w_ops w' = w_ops w /\
  w_segments w' = w_segments w /\ forall l', l' <> l -> w_heap w' !! l' = w_heap w !! l'.

#[export] Instance only_mem_preorder l : PreOrder (only_mem l).
Proof.
  split.
  - intros w. by repeat split.
  - intros w1 w2 w3 (A1 & A2 & A3 & A4 & A5) (B1 & B2 & B3 & B4 & B5).
    split_and!; try congruence. intros l' Hl. rewrite B5, A5; done.
Qed.

Lemma only_mem_on_mem f l (w : world C) : only_mem l w (on_mem f l w).
Proof.
  split_and!; try done. intros l' Hl. unfold on_mem, set_heap. simpl.
  by rewrite lookup_alter_ne.
Qed.

Lemma on_mem_lookup f l (w : world C) m :
  w_heap w !! l = Some m -> w_heap (on_mem f l w) !! l = Some (f m).
Proof. intros Hm. unfold on_mem, set_heap. simpl. by rewrite lookup_alter_eq, Hm. Qed.

(** The same buffer with other contents, released [d] more times. *)
Record rewritten (d : nat) (m m' : memobj) : Prop := {
  rw_len : length (mo_raw m') = length (mo_raw m);
  rw_size : mo_size m' = mo_size m;
  rw_tensor : mo_tensor m' = mo_tensor m;
  rw_spec : mo_spec m' = mo_spec m;
  rw_get_size : mo_get_size m' = mo_get_size m;
  rw_downs : mo_downs m' = (mo_downs m + d)%nat
}.

Lemma rewritten_refl m : rewritten 0 m m.
Proof. split; done || lia. Qed.

Lemma rewritten_trans d d' m1 m2 m3 :
  rewritten d m1 m2 -> rewritten d' m2 m3 -> rewritten (d + d') m1 m3.
Proof. intros [] []. split; [congruence..|lia]. Qed.

Lemma rewritten_down m : rewritten 1 m (ref_count_down m).
Proof. split; simpl; done || lia. Qed.

Lemma rewritten_store offset data m :
  (offset + length data <= length (mo_raw m))%nat -> rewritten 0 m (store_at offset data m).
Proof. intros. split; simpl; [by apply length_splice|done..|lia]. Qed.

Lemma rewritten_ok d m m' : rewritten d m m' -> mem_ok m -> mem_ok m'.
Proof. unfold mem_ok. intros [Hl Hs _ _ _ _]. lia. Qed.

Lemma rewritten_room d m m' : rewritten d m m' -> room m' = room m.
Proof. unfold room. intros [Hl Hs Ht _ _ _]. rewrite Ht. by destruct (mo_tensor m). Qed.

(** Every way a write of a bin value into an object ends: the value was bytes that fit and is
    now in the object, or nothing has changed. *)
Lemma run_write_payload_any l v offset (w : world C) m :
  frombuffer_ok -> w_heap w !! l = Some m -> mem_ok m ->
  match run (write_payload_into l v offset) w with
  | (inr n, w') =>
      exists data, v = BBytes data /\ n = length data /\ (offset + n <= room m)%nat /\
        w' = on_mem (store_at offset data) l w
  | (inl e, w') => w' = w
  end.
Proof.
  intros [Hf1 Hf2] Hm Hok.
  destruct v as [z|s|data|b].
  - done.
  - unfold write_payload_into. simpl.
    destruct (mo_tensor (mem w l)); simpl; destruct (_ <? _)%nat; done.
  - rewrite (run_write_payload _ _ _ _ _ Hm Hok).
    destruct (Nat.ltb_spec (room m) (offset + length data)); [done|].
    destruct (mo_tensor m).
    + destruct (torch_frombuffer data) as [e|src] eqn:E; [done|].
      apply Hf2 in E as ->. eauto 6.
    + eauto 6.
  - done.
Qed.
End facts.
