(* ===== verification/Engine.v ===== *)
(** * The storage engine ([engine.py]): operations

    [AerospikeStorageEngine] as programs over the events of [Runtime].  The engine's fields are
    the record [Engine]; the cache key type and its [to_string] belong to LMCache and are
    parameters of the section. *)

From S2P Require Import Prelude PyStr Errors Sharding Config Limits Crc32 Keys.
From S2P Require Import Runtime Policies Metrics Serde.

Definition AEROSPIKE_OK : Z := 0.
Definition _BATCH_KEYS_CHUNK : nat := 32.

(** The constructor arguments the engine keeps. *)
Record Engine := mkEngine {
  cfg : AerospikeConfig;
  save_chunk_meta : bool;
  resolved : ResolvedLimits;
  reshape : loc -> Z -> prog ev loc;
  alloc_for_read : bins -> prog ev (option loc * bool);
  pin_ttl_seconds : Z
}.

(** [AerospikeStorageEngine.__init__]: [pin_ttl_seconds or max(2 * ttl, ttl)]. *)
Definition Engine_init (cfg : AerospikeConfig) (save_chunk_meta : bool) (resolved : ResolvedLimits)
    (reshape : loc -> Z -> prog ev loc) (alloc_for_read : bins -> prog ev (option loc * bool))
    (pin_ttl : option Z) : Engine :=
  mkEngine cfg save_chunk_meta resolved reshape alloc_for_read
    (or_default pin_ttl (Z.max (default_ttl_seconds cfg * 2) (default_ttl_seconds cfg))).

Section engine.
Context {CK : Type} (to_string : CK -> string) `{Env} (self : Engine).

Definition mk_of (ck : CK) : key :=
  meta_key (namespace (cfg self)) (set_name (cfg self)) (to_string ck).

Definition seg_of (ck : CK) (i : Z) : key :=
  segment_key (namespace (cfg self)) (set_name (cfg self)) (to_string ck) i.

Definition segs_of (ck : CK) (n : Z) : list key :=
  segment_keys (namespace (cfg self)) (set_name (cfg self)) (to_string ck) n.

Definition _ttl_value (pinned : bool) : Z :=
  if pinned then -1 else default_ttl_seconds (cfg self).

(** [except ax.RecordNotFound] / [except ax.AerospikeError] around one client call: the
    handlers, and any other exception raised again. *)
Definition catch_ax {A} (r : result A) {B} (ok : A -> prog ev B) (missing : prog ev B)
    (failed : exc -> prog ev B) : prog ev B :=
  match r with
  | inr a => ok a
  | inl e =>
      if isinstance e RecordNotFound then missing
      else if isinstance e AerospikeError then failed e
      else Raise e
  end.

Definition exists_ (ck : CK) : prog ev bool :=
  with_timer "exists" (fun t =>
    let! r := trigger (ClientSelect (mk_of ck) ["state"]) in
    catch_ax r
      (fun _ => Ret (set_result "hit" t, inr true))
      (Ret (set_result "miss" t, inr false))
      (fun e =>
        if bool_decide (classify e = timeout) then Ret (set_result "timeout" t, inr false)
        else Ret (map_exception e t, inl (map_aerospike_error "exists" e)))).

(** The loop over the segment records: the bytes written, [None] at the first segment that is
    missing or in flight (after releasing the object). *)
Fixpoint read_segments (mo : loc) (recs : list batch_rec) (total offset : nat)
    : prog ev (option nat) :=
  match recs with
  | [] => Ret (Some total)
  | rec :: recs =>
      match br_record rec with
      | Some b =>
          if negb (br_result rec =? AEROSPIKE_OK) then trigger (MemRefDown mo) ;; Ret None
          else match b !! "b" with
               | None => Raise (Py KeyError)
               | Some chunk =>
                   let! n := write_payload_into mo chunk offset in
                   let! len := lift (bin_len chunk) in
                   read_segments mo recs (total + n) (offset + len)
               end
      | None => trigger (MemRefDown mo) ;; Ret None
      end
  end.

(** [enable_crc32]: true when the check passes or does not apply. *)
Definition crc_matches (mo : loc) (b : bins) (total_written : nat) : prog ev bool :=
  if enable_crc32 (cfg self) then
    match b !! "crc32" with
    | Some expected =>
        let! view := trigger (MemBytes mo) in
        let actual := Z.land (crc32 (take total_written view)) 0xFFFFFFFF in
        Ret (bin_eq_int actual expected)
    | None => Ret true
    end
  else Ret true.

Definition bins_nseg (b : bins) : result Z :=
  match b !! "nseg" with Some v => bin_int v | None => inl (Py KeyError) end.

Definition is_ready (b : bins) : bool := bool_decide (b !! "state" = Some (BStr "ready")).

(** From the filled object to the value of [get]. *)
Definition get_finish (t : OpTimer) (b : bins) (mo : loc) (expect_reshape : bool) (total : nat)
    : prog ev (OpTimer * result (option loc)) :=
  let! good := crc_matches mo b total in
  if good then
    let! mo' := if expect_reshape then reshape self mo (Z.of_nat total) else Ret mo in
    Ret (set_result "hit" t, inr (Some mo'))
  else trigger (MemRefDown mo) ;; Ret (set_result "miss" t, inr None).

(** The inner [try] of [get]: read the payload into [mo]. *)
Definition get_payload (t : OpTimer) (ck : CK) (b : bins) (nseg : Z) (mo : loc)
    (expect_reshape : bool) : prog ev (OpTimer * result (option loc)) :=
  if nseg =? 1 then
    match b !! "b" with
    | None => Ret (set_result "miss" t, inr None)
    | Some payload =>
        let! n := write_payload_into mo payload 0 in
        get_finish t b mo expect_reshape n
    end
  else
    let! r := trigger (ClientBatchRead (segs_of ck nseg) ["b"]) in
    let! recs := lift r in
    let! w := read_segments mo recs 0 0 in
    match w with
    | None => Ret (set_result "miss" t, inr None)
    | Some total => get_finish t b mo expect_reshape total
    end.

Definition get (ck : CK) (preallocated : option loc) : prog ev (option loc) :=
  with_timer "get" (fun t =>
    let! r := trigger (ClientGet (mk_of ck)) in
    catch_ax r
      (fun b =>
        if negb (is_ready b) then Ret (set_result "miss" t, inr None)
        else
          let! nseg := lift (bins_nseg b) in
          let! (mo, expect_reshape) :=
            match preallocated with
            | Some mo => Ret (Some mo, false)
            | None => alloc_for_read self b
            end in
          match mo with
          | None => Ret (set_result "miss" t, inr None)
          | Some mo =>
              let! r := attempt (get_payload t ck b nseg mo expect_reshape) in
              match r with
              | inr out => Ret out
              | inl e => trigger (MemRefDown mo) ;; Ret (set_result "error" t, inl e)
              end
          end)
      (Ret (set_result "miss" t, inr None))
      (fun e =>
        if bool_decide (classify e = timeout) then Ret (set_result "timeout" t, inr None)
        else if bool_decide (classify e = connection) then
          Ret (set_result "error" t, inl (Conn AerospikeConnectionError ""))
        else Ret (map_exception e t, inl (map_aerospike_error "get" e)))).

(** The [except] clauses shared by [put] and [batched_put]. *)
Definition put_except {A} (op_name : string) (t : OpTimer) (e : exc)
    : prog ev (OpTimer * result A) :=
  if isinstance e RecordTooBig then
    Ret (set_result "record_too_big" t, inl (Conn AerospikeRecordTooBigError ""))
  else if isinstance e AerospikeError then
    if bool_decide (classify e = forbidden_ttl) then
      Ret (set_result "error" t, inl (Conn AerospikeTTLConfigError ""))
    else if bool_decide (classify e = busy) then
      Ret (set_result "busy" t, inl (Conn AerospikeBusyError ""))
    else Ret (map_exception e t, inl (map_aerospike_error op_name e))
  else Raise e.

(** The [br.Write] of segment [i]. *)
Definition segment_write (ck : CK) (view : bytes) (seg_b ttl : Z) (wp : policy) (i : Z)
    : batch_op :=
  let start := i * seg_b in
  let chunk := slice (Z.to_nat start) (Z.to_nat seg_b) view in
  BWrite (seg_of ck i)
    ([("b", BBytes chunk)] ++
     (if enable_crc32 (cfg self) then [("crc32", BInt (Z.land (crc32 chunk) 0xFFFFFFFF))]
      else [])) ttl wp.

(** The loop over the batch results: the first failed segment raises. *)
Fixpoint check_segments (codes : list Z) : result unit :=
  match codes with
  | [] => inr tt
  | c :: codes =>
      if negb (c =? AEROSPIKE_OK) then inl (map_aerospike_error "put-segment" (BatchResult c))
      else check_segments codes
  end.

(** The [try] block of [put]: segments first, the meta record last. *)
Definition put_io (ck : CK) (l : loc) (p : ShardPlan) (mbins : bin_list) (ttl : Z) (wp : policy)
    : prog ev unit :=
  if nseg p =? 1 then
    let! r := trigger (ClientPut (mk_of ck) mbins ttl wp) in lift r
  else
    let! view := trigger (MemBytes l) in
    let writes := segment_write ck view (seg_b p) ttl wp <$> seqZ 0 (nseg p) in
    let! r := trigger (ClientBatchWrite writes) in
    let! codes := lift r in
    lift (check_segments codes) ;;
    let! r := trigger (ClientPut (mk_of ck) mbins ttl wp) in
    lift r.

Definition put (ck : CK) (l : loc) (pinned : bool) : prog ev unit :=
  let! view := trigger (MemBytes l) in
  let total := Z.of_nat (length view) in
  let! p := lift (resolved_plan (resolved self) total) in
  trigger (ObserveSegments (nseg p) total) ;;
  let ttl := _ttl_value pinned in
  let! wp := lift (write_policy (cfg self)) in
  let! mbins := meta_bins p l (save_chunk_meta self) (enable_crc32 (cfg self)) pinned in
  with_timer "put" (fun t =>
    let! r := attempt (put_io ck l p mbins ttl wp) in
    match r with
    | inr _ => Ret (set_result "ok" t, inr tt)
    | inl e => put_except "put" t e
    end).
End engine.

Section batches.
Context {CK : Type} (to_string : CK -> string) `{Env} (self : Engine).

(** The planning loop of [_batched_put_chunk]. *)
Definition plan_item (pinned : bool) (item : CK * loc) : prog ev (CK * loc * ShardPlan * bin_list) :=
  let! view := trigger (MemBytes (snd item)) in
  let total := Z.of_nat (length view) in
  let! p := lift (resolved_plan (resolved self) total) in
  trigger (ObserveSegments (nseg p) total) ;;
  let! mbins := meta_bins p (snd item) (save_chunk_meta self) (enable_crc32 (cfg self)) pinned in
  Ret (item, p, mbins).

(** One [self.put] of the fallback loop; the exceptions it turns into [False]. *)
Definition put_item (pinned : bool) (item : CK * loc) : prog ev bool :=
  let! r := attempt (put to_string self (fst item) (snd item) pinned) in
  match r with
  | inr _ => Ret true
  | inl e =>
      if is_conn e [AerospikeRecordTooBigError; AerospikeTTLConfigError; AerospikeBusyError]
         || isinstance e AerospikeError
      then Ret false else Raise e
  end.

Definition _batched_put_chunk (items : list (CK * loc)) (pinned : bool) : prog ev (list bool) :=
  let ttl := _ttl_value self pinned in
  let! wp := lift (write_policy (cfg self)) in
  let! plans := traverse (plan_item pinned) items in
  if existsb (fun '(_, p, _) => nseg p >? 1) plans then
    traverse (fun '(item, _, _) => put_item pinned item) plans
  else
    let writes := (fun '(item, _, mbins) =>
      BWrite (mk_of to_string self (fst item)) mbins ttl wp) <$> plans in
    let! r := trigger (ClientBatchWrite writes) in
    let! codes := lift r in
    Ret ((fun c => c =? AEROSPIKE_OK) <$> codes).

Definition batched_put (items : list (CK * loc)) (pinned : bool) : prog ev (list bool) :=
  match items with
  | [] => Ret []   (* returns before the [try]: no observation *)
  | _ =>
      with_timer "batched_put" (fun t =>
        let! r := attempt (traverse (fun c => _batched_put_chunk c pinned)
                                    (chunks _BATCH_KEYS_CHUNK items)) in
        match r with
        | inr results => Ret (set_result "ok" t, inr (concat results))
        | inl e => put_except "batched_put" t e
        end)
  end.

Definition _META_READ_BINS : list string := ["state"; "nseg"; "b"; "crc32"].

(** The body of the [try] for one single-record entry: true when the buffer was filled. *)
Definition read_single (b : bins) (mo : loc) (payload : binval) : prog ev bool :=
  let! total := write_payload_into mo payload 0 in
  crc_matches self mo b total.

(** The loop over the meta records of a chunk: [results] and the multi-segment entries. *)
Fixpoint read_metas (recs : list batch_rec) (items : list (CK * loc)) (i : nat)
    (results : list bool) (multi_seg : list (nat * CK * loc))
    : prog ev (list bool * list (nat * CK * loc) * result unit) :=
  match recs with
  | [] => Ret (results, multi_seg, inr tt)
  | rec :: recs =>
      match items with
      | [] => Ret (results, multi_seg, inl (Py IndexError))
      | (ck, mo) :: items =>
          let next := read_metas recs items (S i) in
          match br_record rec with
          | Some b =>
              if negb (br_result rec =? AEROSPIKE_OK) then next results multi_seg
              else if negb (is_ready b) then next results multi_seg
              else match bins_nseg b with
                   | inl e => Ret (results, multi_seg, inl e)
                   | inr nseg =>
                       if negb (nseg =? 1) then next results (multi_seg ++ [(i, ck, mo)])
                       else match b !! "b" with
                            | None => next results multi_seg
                            | Some payload =>
                                let! r := attempt (read_single b mo payload) in
                                match r with
                                | inr true => next (<[i := true]> results) multi_seg
                                | inr false | inl _ => next results multi_seg
                                end
                            end
                   end
          | None => next results multi_seg
          end
      end
  end.

(** The second loop: one [get] per multi-segment entry. *)
Fixpoint read_multi (multi_seg : list (nat * CK * loc)) (results : list bool)
    : prog ev (list bool * result unit) :=
  match multi_seg with
  | [] => Ret (results, inr tt)
  | (i, ck, mo) :: multi_seg =>
      let! r := attempt (get to_string self ck (Some mo)) in
      match r with
      | inl e => Ret (results, inl e)
      | inr (Some _) => read_multi multi_seg (<[i := true]> results)
      | inr None => read_multi multi_seg results
      end
  end.

(** [results] is updated in place: it is returned with the exception that ended the chunk. *)
Definition _batched_get_preallocated_chunk (items : list (CK * loc)) (results : list bool)
    (offset : nat) : prog ev (list bool * result unit) :=
  let meta_keys := (fun item => mk_of to_string self (fst item)) <$> items in
  let! r := trigger (ClientBatchRead meta_keys _META_READ_BINS) in
  match r with
  | inl e => Ret (results, inl e)
  | inr recs =>
      let! (results, multi_seg, out) := read_metas recs items offset results [] in
      match out with
      | inl e => Ret (results, inl e)
      | inr _ => read_multi multi_seg results
      end
  end.

Fixpoint read_chunks (chunks : list (list (CK * loc))) (results : list bool) (offset : nat)
    : prog ev (list bool * result unit) :=
  match chunks with
  | [] => Ret (results, inr tt)
  | c :: chunks =>
      let! (results, out) := _batched_get_preallocated_chunk c results offset in
      match out with
      | inl e => Ret (results, inl e)
      | inr _ => read_chunks chunks results (offset + length c)
      end
  end.

Definition batched_get_preallocated (items : list (CK * loc)) : prog ev (list bool) :=
  match items with
  | [] => Ret []
  | _ =>
      with_timer "batched_get" (fun t =>
        let! (results, out) :=
          read_chunks (chunks _BATCH_KEYS_CHUNK items) (replicate (length items) false) 0 in
        match out with
        | inr _ => Ret (set_result "ok" t, inr results)
        | inl e =>
            if isinstance e AerospikeError then
              if bool_decide (classify e = timeout) then
                Ret (set_result "timeout" t, inr results)
              else if bool_decide (classify e = connection) then
                Ret (set_result "error" t, inl (Conn AerospikeConnectionError ""))
              else Ret (map_exception e t, inl (map_aerospike_error "batched_get" e))
            else Raise e
        end)
  end.

(** The counting loop of [batched_contains]. *)
Fixpoint count_prefix (recs : list batch_rec) (count : Z) : Z :=
  match recs with
  | [] => count
  | rec :: recs =>
      if negb (br_result rec =? AEROSPIKE_OK) then count else count_prefix recs (count + 1)
  end.

Definition batched_contains (keys : list CK) : prog ev Z :=
  with_timer "batched_contains" (fun t =>
    match keys with
    | [] => Ret (set_result "ok" t, inr 0)
    | _ =>
        let! r := trigger (ClientBatchRead (mk_of to_string self <$> keys) []) in
        match r with
        | inr recs => Ret (set_result "ok" t, inr (count_prefix recs 0))
        | inl e =>
            if isinstance e AerospikeError then Ret (set_result "error" t, inr 0) else Raise e
        end
    end).

Definition batched_exists_mask (keys : list CK) : prog ev (list bool) :=
  with_timer "batched_exists" (fun t =>
    match keys with
    | [] => Ret (set_result "ok" t, inr [])
    | _ =>
        let! r := trigger (ClientBatchRead (mk_of to_string self <$> keys) []) in
        match r with
        | inr recs =>
            Ret (set_result "ok" t, inr ((fun rec => br_result rec =? AEROSPIKE_OK) <$> recs))
        | inl e =>
            if isinstance e AerospikeError then
              Ret (set_result "error" t, inr (replicate (length keys) false))
            else Raise e
        end
    end).

Definition _pin_keys_batch (keys : list CK) : prog ev unit :=
  let! wp := lift (write_policy (cfg self)) in
  let writes := (fun ck =>
    BWrite (mk_of to_string self ck) [("pin", BBool true)] (pin_ttl_seconds self) wp) <$> keys in
  let! r := trigger (ClientBatchWrite writes) in
  match r with
  | inr _ => Ret tt
  | inl e => if isinstance e AerospikeError then Ret tt else Raise e
  end.

Definition pin_keys (keys : list CK) : prog ev unit :=
  match keys with [] => Ret tt | _ => _pin_keys_batch keys end.

Definition unpin (ck : CK) : prog ev bool :=
  let mk := mk_of to_string self ck in
  let ttl := default_ttl_seconds (cfg self) in
  let! wp := lift (write_policy (cfg self)) in
  let! r := attempt (let! r := trigger (ClientTouch mk ttl wp) in
                     lift r ;;
                     let! r := trigger (ClientOperate mk [("pin", BBool false)] ttl wp) in
                     lift r) in
  catch_ax r (fun _ => Ret true) (Ret false) (fun _ => Ret false).

Definition pin (ck : CK) : prog ev bool :=
  let! here := exists_ to_string self ck in
  if negb here then Ret false else pin_keys [ck] ;; Ret true.

(** The segment count found in the meta record; [None] when there is no record. *)
Definition remove_nseg (ck : CK) : prog ev (option Z) :=
  let! r := trigger (ClientSelect (mk_of to_string self ck) ["nseg"]) in
  catch_ax r
    (fun b => match b !! "nseg" with
              | Some v => let! n := lift (bin_int v) in Ret (Some n)
              | None => Ret (Some 1)
              end)
    (Ret None)
    (fun _ => Ret (Some 1)).

(** Best-effort removal of the segment records. *)
Definition remove_segments (ck : CK) (nseg : Z) : prog ev bool :=
  if nseg >? 1 then
    let! r := trigger (ClientBatchWrite (BRemove <$> segs_of to_string self ck nseg)) in
    match r with
    | inr _ => Ret true
    | inl e => if isinstance e AerospikeError then Ret true else Raise e
    end
  else Ret true.

Definition remove (ck : CK) : prog ev bool :=
  let! found := remove_nseg ck in
  match found with
  | None => Ret false
  | Some nseg =>
      let! r := trigger (ClientRemove (mk_of to_string self ck)) in
      catch_ax r (fun _ => remove_segments ck nseg) (Ret false)
        (fun e => Raise (map_aerospike_error "remove" e))
  end.
End batches.
