(* ===== verification/ClientSpec.v ===== *)
(** * What the package relies on of the Aerospike client

    [ClientSpec] is the interface between the engine and a cluster: a view of the state as a
    map of records, what each operation does to it when it returns and when it raises, and a
    [healthy] predicate for a connected cluster without faults.  A failed write may or may not
    have been applied.  Batch operations are one step. *)

From S2P Require Import Prelude Errors Keys Crc32 Runtime.

(** The bins of an operation list; a later entry for the same bin wins. *)
Definition dict_of (l : bin_list) : bins := foldl (fun m b => <[fst b := snd b]> m) ∅ l.

(** The record after a write of [l]: with the exists policy the package uses, a write creates the
    record or updates it, and an update keeps the bins it does not name. *)
Definition merged (old : option bins) (l : bin_list) : bins := dict_of l ∪ default ∅ old.

(** The bins of a record that a read names. *)
Definition project (names : list string) (b : bins) : bins := filter (fun x => fst x ∈ names) b.

(** Payload bytes of a write. *)
Definition payload_size (l : bin_list) : Z :=
  foldr (fun b acc => match snd b with BBytes x => Z.of_nat (length x) + acc | _ => acc end) 0 l.

Section effects.
Context {C : Type} (store : C -> gmap key bins).

Definition written (k : key) (l : bin_list) (c c' : C) : Prop :=
  store c' !! k = Some (merged (store c !! k) l).

(** The effect of one batch entry that succeeded. *)
Definition applied (op : batch_op) (c c' : C) : Prop :=
  match op with
  | BWrite k l _ _ => written k l c c'
  | BRemove k => store c' !! k = None
  end.

Definition untouched (k : key) (c c' : C) : Prop := store c' !! k = store c !! k.
End effects.

(** One entry of a batch read that found its record. *)
Definition read_hit (st : gmap key bins) (names : list string) (k : key) (r : batch_rec) : Prop :=
  br_result r = 0 /\ exists b, st !! k = Some b /\ br_record r = Some (project names b).

Definition read_miss (r : batch_rec) : Prop := br_result r <> 0.

Class ClientSpec (C : Type) `{AerospikeClient C} := {
  store : C -> gmap key bins;
  healthy : C -> Prop;
  capacity : C -> Z;

  (** Reads do not change the records. *)
  get_store k c : store (snd (client_get k c)) = store c;
  select_store k names c : store (snd (client_select k names c)) = store c;
  batch_read_store ks names c : store (snd (client_batch_read ks names c)) = store c;
  touch_store k ttl wp c : store (snd (client_touch k ttl wp c)) = store c;

  (** A read that returns, returns what is there; [RecordNotFound] means there is none. *)
  get_ok k c b : fst (client_get k c) = inr b -> store c !! k = Some b;
  get_missing k c e :
    fst (client_get k c) = inl e -> isinstance e RecordNotFound = true -> store c !! k = None;
  select_ok k names c b :
    fst (client_select k names c) = inr b ->
    exists full, store c !! k = Some full /\ b = project names full;
  select_missing k names c e :
    fst (client_select k names c) = inl e -> isinstance e RecordNotFound = true ->
    store c !! k = None;
  batch_read_ok ks names c recs :
    fst (client_batch_read ks names c) = inr recs ->
    Forall2 (fun k r => read_hit (store c) names k r \/ read_miss r) ks recs;
  touch_ok k ttl wp c : fst (client_touch k ttl wp c) = inr tt -> is_Some (store c !! k);

  (** Writes change only the records they name, and as they say when they return. *)
  put_frame k l ttl wp c k' :
    k' <> k -> untouched store k' c (snd (client_put k l ttl wp c));
  put_ok k l ttl wp c :
    fst (client_put k l ttl wp c) = inr tt -> written store k l c (snd (client_put k l ttl wp c));
  put_doubt k l ttl wp c :
    untouched store k c (snd (client_put k l ttl wp c)) \/
    written store k l c (snd (client_put k l ttl wp c));
  operate_frame k l ttl wp c k' :
    k' <> k -> untouched store k' c (snd (client_operate k l ttl wp c));
  operate_ok k l ttl wp c :
    fst (client_operate k l ttl wp c) = inr tt -> written store k l c (snd (client_operate k l ttl wp c));
  operate_doubt k l ttl wp c :
    untouched store k c (snd (client_operate k l ttl wp c)) \/
    written store k l c (snd (client_operate k l ttl wp c));
  batch_write_frame ops c k' :
    k' ∉ (batch_key <$> ops) -> untouched store k' c (snd (client_batch_write ops c));
  batch_write_doubt ops c op :
    NoDup (batch_key <$> ops) -> op ∈ ops ->
    untouched store (batch_key op) c (snd (client_batch_write ops c)) \/
    applied store op c (snd (client_batch_write ops c));
  batch_write_ok ops c codes :
    NoDup (batch_key <$> ops) -> fst (client_batch_write ops c) = inr codes ->
    Forall2 (fun op code => code = 0 -> applied store op c (snd (client_batch_write ops c)))
            ops codes;
  remove_frame k c k' : k' <> k -> untouched store k' c (snd (client_remove k c));
  remove_ok k c : fst (client_remove k c) = inr tt -> store (snd (client_remove k c)) !! k = None;
  remove_missing k c e :
    fst (client_remove k c) = inl e -> isinstance e RecordNotFound = true ->
    store (snd (client_remove k c)) !! k = None;
  remove_doubt k c :
    untouched store k c (snd (client_remove k c)) \/ store (snd (client_remove k c)) !! k = None;

  (** A healthy cluster answers every request, and stays healthy. *)
  healthy_get k c : healthy c ->
    healthy (snd (client_get k c)) /\ capacity (snd (client_get k c)) = capacity c /\
    match store c !! k with
    | Some b => fst (client_get k c) = inr b
    | None => exists e, fst (client_get k c) = inl e /\ isinstance e RecordNotFound = true
    end;
  healthy_select k names c : healthy c ->
    healthy (snd (client_select k names c)) /\
    capacity (snd (client_select k names c)) = capacity c /\
    match store c !! k with
    | Some b => fst (client_select k names c) = inr (project names b)
    | None => exists e, fst (client_select k names c) = inl e /\ isinstance e RecordNotFound = true
    end;
  healthy_batch_read ks names c : healthy c ->
    healthy (snd (client_batch_read ks names c)) /\
    capacity (snd (client_batch_read ks names c)) = capacity c /\
    exists recs, fst (client_batch_read ks names c) = inr recs /\
      Forall2 (fun k r => match store c !! k with
                          | Some _ => read_hit (store c) names k r
                          | None => read_miss r
                          end) ks recs;
  healthy_put k l ttl wp c : healthy c -> payload_size l <= capacity c ->
    healthy (snd (client_put k l ttl wp c)) /\
    capacity (snd (client_put k l ttl wp c)) = capacity c /\
    fst (client_put k l ttl wp c) = inr tt;
  healthy_touch k ttl wp c : healthy c ->
    healthy (snd (client_touch k ttl wp c)) /\
    capacity (snd (client_touch k ttl wp c)) = capacity c /\
    match store c !! k with
    | Some _ => fst (client_touch k ttl wp c) = inr tt
    | None => exists e, fst (client_touch k ttl wp c) = inl e /\ isinstance e RecordNotFound = true
    end;
  healthy_operate k l ttl wp c : healthy c -> payload_size l <= capacity c ->
    healthy (snd (client_operate k l ttl wp c)) /\
    capacity (snd (client_operate k l ttl wp c)) = capacity c /\
    fst (client_operate k l ttl wp c) = inr tt;
  healthy_batch_write ops c : healthy c ->
    Forall (fun op => match op with
                      | BWrite _ l _ _ => payload_size l <= capacity c
                      | BRemove _ => True
                      end) ops ->
    healthy (snd (client_batch_write ops c)) /\
    capacity (snd (client_batch_write ops c)) = capacity c /\
    exists codes, fst (client_batch_write ops c) = inr codes /\
      Forall2 (fun op code => match op with
                              | BWrite _ _ _ _ => code = 0
                              | BRemove k =>
                                  NoDup (batch_key <$> ops) ->
                                  store (snd (client_batch_write ops c)) !! k = None
                              end) ops codes;
  healthy_remove k c : healthy c ->
    healthy (snd (client_remove k c)) /\ capacity (snd (client_remove k c)) = capacity c /\
    match store c !! k with
    | Some _ => fst (client_remove k c) = inr tt
    | None => exists e, fst (client_remove k c) = inl e /\ isinstance e RecordNotFound = true
    end
}.

(** ** Lemmas on bins *)

Lemma dict_of_snoc l n v : dict_of (l ++ [(n, v)]) = <[n := v]> (dict_of l).
Proof. unfold dict_of. by rewrite foldl_app. Qed.

Lemma merged_named old l n v : dict_of l !! n = Some v -> merged old l !! n = Some v.
Proof.
  intros Hn. unfold merged. rewrite lookup_union, Hn. by destruct (default ∅ old !! n).
Qed.

Lemma merged_other old l n : dict_of l !! n = None -> merged old l !! n = default ∅ old !! n.
Proof.
  intros Hn. unfold merged. rewrite lookup_union, Hn. by destruct (default ∅ old !! n).
Qed.

Lemma project_lookup names b n : n ∈ names -> project names b !! n = b !! n.
Proof.
  intros Hn. unfold project. destruct (b !! n) as [v|] eqn:E.
  - by apply map_lookup_filter_Some.
  - apply map_lookup_filter_None. by left.
Qed.

Lemma payload_size_app l l' : payload_size (l ++ l') = payload_size l + payload_size l'.
Proof.
  induction l as [|[n v] l IH]; simpl; [done|]. unfold payload_size in *. simpl.
  rewrite IH. destruct v; lia.
Qed.

#[export] Hint Resolve merged_named : model.
