(* ===== verification/Concrete.v ===== *)
(** * An in-memory cluster and a concrete environment

    The parameters of [Runtime] instantiated by executable functions: a client whose records
    are a map, with a script of faults, and an allocator with a serializer.  The client
    satisfies [ClientSpec]; the scenarios and witnesses of the development run on it. *)

From S2P Require Import Prelude PyStr Errors Config Limits Keys Crc32 Runtime Policies Serde ClientSpec.

(** ** The cluster *)

(** What goes wrong: the exceptions a request can end with besides a missing record. *)
Inductive failure := FTimeout | FConnection | FBusy | FForbidden | FServer.

Definition failure_exc (f : failure) : exc :=
  Ax match f with
     | FTimeout => mk_ax (Some 9) [TimeoutError; AerospikeError]
     | FConnection => mk_ax (Some (-10)) [ConnectionError; ClientError; AerospikeError]
     | FBusy => mk_ax (Some 14) [RecordBusy; AerospikeError]
     | FForbidden => mk_ax (Some 22) [ForbiddenError; AerospikeError]
     | FServer => mk_ax (Some 1) [AerospikeError]
     end.

Definition not_found_exc : exc := Ax (mk_ax (Some 2) [RecordNotFound; AerospikeError]).
Definition too_big_exc : exc := Ax (mk_ax (Some 13) [RecordTooBig; AerospikeError]).

(** The fate of one request: served, refused, served with the answer lost, or, for a batch,
    served with some of its records failing with the given codes. *)
Inductive fate := Served | Refused (f : failure) | Lost (f : failure) | Partial (codes : list Z).

Record MemClient := mkMemClient {
  mc_records : gmap key bins;
  mc_capacity : Z;
  mc_fates : list fate
}.

Definition with_records (c : MemClient) (st : gmap key bins) : MemClient :=
  mkMemClient st (mc_capacity c) (mc_fates c).

Definition next_fate (c : MemClient) : fate * MemClient :=
  match mc_fates c with
  | [] => (Served, c)
  | f :: fs => (f, mkMemClient (mc_records c) (mc_capacity c) fs)
  end.

(** One request with its fate; [serve] gets the forced result codes of a batch. *)
Definition request {X} (serve : list Z -> MemClient -> result X * MemClient) (c : MemClient)
    : result X * MemClient :=
  let '(f, c) := next_fate c in
  match f with
  | Served => serve [] c
  | Refused f => (inl (failure_exc f), c)
  | Lost f => (inl (failure_exc f), snd (serve [] c))
  | Partial codes => serve codes c
  end.

Definition mem_get (names : option (list string)) (k : key) (_ : list Z) (c : MemClient)
    : result bins * MemClient :=
  match mc_records c !! k with
  | Some b => (inr (match names with Some ns => project ns b | None => b end), c)
  | None => (inl not_found_exc, c)
  end.

Definition mem_put (k : key) (l : bin_list) (_ : list Z) (c : MemClient) : result unit * MemClient :=
  if payload_size l >? mc_capacity c then (inl too_big_exc, c)
  else (inr tt, with_records c (<[k := merged (mc_records c !! k) l]> (mc_records c))).

Definition mem_remove (k : key) (_ : list Z) (c : MemClient) : result unit * MemClient :=
  match mc_records c !! k with
  | Some _ => (inr tt, with_records c (delete k (mc_records c)))
  | None => (inl not_found_exc, c)
  end.

Definition mem_touch (k : key) (_ : list Z) (c : MemClient) : result unit * MemClient :=
  match mc_records c !! k with
  | Some _ => (inr tt, c)
  | None => (inl not_found_exc, c)
  end.

Fixpoint mem_batch_read (st : gmap key bins) (names : list string) (ks : list key)
    (codes : list Z) : list batch_rec :=
  match ks with
  | [] => []
  | k :: ks =>
      (if negb (default 0 (head codes) =? 0) then mkBatchRec (default 0 (head codes)) None
       else match st !! k with
            | Some b => mkBatchRec 0 (Some (project names b))
            | None => mkBatchRec 2 None
            end) :: mem_batch_read st names ks (tail codes)
  end.

(** One entry of a batch write: its result code and the records after it. *)
Definition mem_batch_op (cap : Z) (op : batch_op) (forced : Z) (st : gmap key bins)
    : Z * gmap key bins :=
  if negb (forced =? 0) then (forced, st)
  else match op with
       | BWrite k l _ _ =>
           if payload_size l >? cap then (13, st) else (0, <[k := merged (st !! k) l]> st)
       | BRemove k => match st !! k with Some _ => (0, delete k st) | None => (2, st) end
       end.

Fixpoint mem_batch_write (cap : Z) (ops : list batch_op) (codes : list Z) (st : gmap key bins)
    : list Z * gmap key bins :=
  match ops with
  | [] => ([], st)
  | op :: ops =>
      let '(c, st) := mem_batch_op cap op (default 0 (head codes)) st in
      let '(cs, st) := mem_batch_write cap ops (tail codes) st in (c :: cs, st)
  end.

#[global] Instance mem_client : AerospikeClient MemClient := {
  client_get k := request (mem_get None k);
  client_select k names := request (mem_get (Some names) k);
  client_put k l _ _ := request (mem_put k l);
  client_batch_read ks names :=
    request (fun codes c => (inr (mem_batch_read (mc_records c) names ks codes), c));
  client_batch_write ops :=
    request (fun codes c =>
      let '(cs, st) := mem_batch_write (mc_capacity c) ops codes (mc_records c) in
      (inr cs, with_records c st));
  client_remove k := request (mem_remove k);
  client_touch k _ _ := request (mem_touch k);
  client_operate k l _ _ := request (mem_put k l)
}.

(** ** Its laws *)

Lemma next_fate_records c :
  mc_records (snd (next_fate c)) = mc_records c /\ mc_capacity (snd (next_fate c)) = mc_capacity c.
Proof. unfold next_fate. by destruct (mc_fates c). Qed.

Lemma failure_not_missing f : isinstance (failure_exc f) RecordNotFound = false.
Proof. by destruct f. Qed.

(** A property of the records before and after a request holds when it holds of serving the
    request and of leaving the records alone. *)
Lemma request_ind {X} (serve : list Z -> MemClient -> result X * MemClient)
    (P : result X -> gmap key bins -> Prop) c :
  (forall codes c', mc_records c' = mc_records c -> mc_capacity c' = mc_capacity c ->
     P (fst (serve codes c')) (mc_records (snd (serve codes c')))) ->
  (forall f, P (inl (failure_exc f)) (mc_records c)) ->
  (forall f codes c', mc_records c' = mc_records c -> mc_capacity c' = mc_capacity c ->
     P (inl (failure_exc f)) (mc_records (snd (serve codes c')))) ->
  P (fst (request serve c)) (mc_records (snd (request serve c))).
Proof.
  intros Hs Hr Hl. unfold request. destruct (next_fate_records c) as [E1 E2].
  destruct (next_fate c) as [f c']. simpl in *.
  destruct f; simpl; [auto| |auto|auto]. rewrite E1. apply Hr.
Qed.

Lemma request_healthy {X} (serve : list Z -> MemClient -> result X * MemClient) c :
  mc_fates c = [] -> request serve c = serve [] c.
Proof. intros Hf. unfold request, next_fate. by rewrite Hf. Qed.

Lemma mem_batch_read_spec st names ks codes :
  Forall2 (fun k r => read_hit st names k r \/ read_miss r) ks (mem_batch_read st names ks codes).
Proof.
  revert codes. induction ks as [|k ks IH]; intros codes; simpl; constructor; [|apply IH].
  destruct (Z.eqb_spec (default 0 (head codes)) 0) as [|Hne]; simpl; [|by right].
  destruct (st !! k) as [b|] eqn:E; [left; split; [done|]; eauto|by right].
Qed.

Lemma mem_batch_read_healthy st names ks :
  Forall2 (fun k r => match st !! k with
                      | Some _ => read_hit st names k r
                      | None => read_miss r
                      end) ks (mem_batch_read st names ks []).
Proof.
  induction ks as [|k ks IH]; simpl; constructor; [|apply IH].
  destruct (st !! k) as [b|] eqn:E; [split; [done|]; eauto|done].
Qed.

(** The records named by a batch entry, before and after. *)
Definition entry_effect (op : batch_op) (st st' : gmap key bins) : Prop :=
  match op with
  | BWrite k l _ _ => st' !! k = Some (merged (st !! k) l)
  | BRemove k => st' !! k = None
  end.

Lemma mem_batch_op_spec cap op forced st :
  let '(c, st') := mem_batch_op cap op forced st in
  (forall k, k <> batch_key op -> st' !! k = st !! k) /\
  (c = 0 -> entry_effect op st st') /\
  (st' !! batch_key op = st !! batch_key op \/ entry_effect op st st').
Proof.
  unfold mem_batch_op. destruct (Z.eqb_spec forced 0) as [|Hne]; simpl; [|naive_solver].
  destruct op as [k l ttl wp|k]; simpl.
  - destruct (payload_size l >? cap); [naive_solver|]. split_and!.
    + intros k' Hk. by rewrite lookup_insert_ne.
    + intros _. apply lookup_insert_eq.
    + right. apply lookup_insert_eq.
  - destruct (st !! k) eqn:E; [|naive_solver]. rewrite lookup_delete_eq. split_and!; [|done|by right].
    intros k' Hk. by rewrite lookup_delete_ne.
Qed.

Lemma mem_batch_write_frame cap ops codes st k :
  k ∉ (batch_key <$> ops) -> snd (mem_batch_write cap ops codes st) !! k = st !! k.
Proof.
  revert codes st. induction ops as [|op ops IH]; intros codes st Hk; simpl; [done|].
  rewrite fmap_cons in Hk. apply not_elem_of_cons in Hk as [Hne Hk].
  pose proof (mem_batch_op_spec cap op (default 0 (head codes)) st) as Ho.
  destruct (mem_batch_op _ _ _ _) as [c st'].
  specialize (IH (tail codes) st' Hk).
  destruct (mem_batch_write _ _ _ _) as [cs st'']. simpl in *.
  rewrite IH. by apply Ho.
Qed.

Lemma entry_effect_proper op st st0 st' st1 :
  st0 !! batch_key op = st !! batch_key op -> st1 !! batch_key op = st' !! batch_key op ->
  entry_effect op st0 st' -> entry_effect op st st1.
Proof. destruct op; simpl; intros E1 E2; [by rewrite E1, E2|by rewrite E2]. Qed.

Lemma mem_batch_write_spec cap ops codes st :
  NoDup (batch_key <$> ops) ->
  Forall2 (fun op c =>
    (c = 0 -> entry_effect op st (snd (mem_batch_write cap ops codes st))) /\
    (snd (mem_batch_write cap ops codes st) !! batch_key op = st !! batch_key op \/
     entry_effect op st (snd (mem_batch_write cap ops codes st))))
    ops (fst (mem_batch_write cap ops codes st)).
Proof.
  revert codes st. induction ops as [|op ops IH]; intros codes st Hnd; simpl; [constructor|].
  rewrite fmap_cons in Hnd. apply NoDup_cons in Hnd as [Hk Hnd].
  pose proof (mem_batch_op_spec cap op (default 0 (head codes)) st) as Ho.
  destruct (mem_batch_op _ _ _ _) as [c st'].
  specialize (IH (tail codes) st' Hnd).
  pose proof (mem_batch_write_frame cap ops (tail codes) st' (batch_key op) Hk) as Hf.
  destruct (mem_batch_write _ _ _ _) as [cs st'']. simpl in *.
  destruct Ho as (Hframe & Hok & Hdoubt). constructor.
  - split.
    + intros E. eapply entry_effect_proper; [reflexivity|exact Hf|auto].
    + destruct Hdoubt as [E|E]; [left; congruence|].
      right. eapply entry_effect_proper; [reflexivity|exact Hf|auto].
  - apply Forall2_same_length_lookup in IH as [Hlen IH].
    apply Forall2_same_length_lookup. split; [done|]. intros i o z Ho Hz.
    destruct (IH i o z Ho Hz) as [H1 H2].
    assert (batch_key o <> batch_key op) as Hne.
    { intros E. apply Hk. rewrite <- E. apply list_elem_of_fmap. eauto using list_elem_of_lookup_2. }
    rewrite (Hframe _ Hne) in H2.
    pose proof (fun E => entry_effect_proper o st st' st'' st'' (Hframe _ Hne) eq_refl E) as Hp.
    split; [auto|]. destruct H2; auto.
Qed.

Lemma mem_batch_write_healthy cap ops st :
  Forall (fun op => match op with BWrite _ l _ _ => payload_size l <= cap | BRemove _ => True end)
    ops ->
  Forall2 (fun op c => match op with
    | BWrite _ _ _ _ => c = 0
    | BRemove k =>
        NoDup (batch_key <$> ops) -> snd (mem_batch_write cap ops [] st) !! k = None
    end) ops (fst (mem_batch_write cap ops [] st)).
Proof.
  revert st. induction ops as [|op ops IH]; intros st Hcap; simpl; [constructor|].
  apply Forall_cons in Hcap as [Hc Hcap].
  destruct (mem_batch_op cap op 0 st) as [c st'] eqn:Eo. specialize (IH st' Hcap).
  pose proof (mem_batch_write_frame cap ops [] st' (batch_key op)) as Hf.
  destruct (mem_batch_write _ _ _ _) as [cs st'']. simpl in *. constructor.
  - destruct op as [k l ttl wp|k]; simpl in *.
    + unfold mem_batch_op in Eo. simpl in Eo.
      destruct (Z.gtb_spec (payload_size l) cap); [lia|by injection Eo].
    + intros [Hk _]%NoDup_cons. rewrite Hf by done. unfold mem_batch_op in Eo. simpl in Eo.
      destruct (st !! k) eqn:E; injection Eo as <- <-; [apply lookup_delete_eq|done].
  - eapply Forall2_impl; [exact IH|]. intros [] z; simpl; [done|].
    intros Hz [_ Hnd]%NoDup_cons. auto.
Qed.

(** Reduce a law to the three ways a request ends. *)
Tactic Notation "requests" uconstr(P) :=
  match goal with
  | |- context [request ?s ?c] => apply (request_ind s P c)
  end; simpl;
  [intros codes c' Erec Ecap|intros f|intros f codes c' Erec Ecap];
  try match goal with E : mc_records ?c' = mc_records ?c |- _ => rewrite E end.

Lemma mem_get_store names k codes c : snd (mem_get names k codes c) = c.
Proof. unfold mem_get. by destruct (mc_records c !! k). Qed.

Lemma mem_touch_store k codes c : snd (mem_touch k codes c) = c.
Proof. unfold mem_touch. by destruct (mc_records c !! k). Qed.

Lemma mem_put_spec k l codes c :
  (fst (mem_put k l codes c) = inr tt -> written mc_records k l c (snd (mem_put k l codes c))) /\
  (untouched mc_records k c (snd (mem_put k l codes c)) \/
   written mc_records k l c (snd (mem_put k l codes c))) /\
  (forall k', k' <> k -> mc_records (snd (mem_put k l codes c)) !! k' = mc_records c !! k').
Proof.
  unfold mem_put. destruct (payload_size l >? mc_capacity c); simpl.
  - split_and!; [done|by left|done].
  - assert (written mc_records k l c
      (with_records c (<[k:=merged (mc_records c !! k) l]> (mc_records c)))) as Hw.
    { apply lookup_insert_eq. }
    split_and!; [done|by right|]. intros k' Hk. by rewrite lookup_insert_ne.
Qed.

Lemma mem_remove_spec k codes c :
  (fst (mem_remove k codes c) = inr tt -> mc_records (snd (mem_remove k codes c)) !! k = None) /\
  (mc_records (snd (mem_remove k codes c)) !! k = mc_records c !! k \/
   mc_records (snd (mem_remove k codes c)) !! k = None) /\
  (forall k', k' <> k -> mc_records (snd (mem_remove k codes c)) !! k' = mc_records c !! k').
Proof.
  unfold mem_remove. destruct (mc_records c !! k) eqn:E; simpl; [|by auto].
  rewrite lookup_delete_eq. split_and!; [done|by right|]. intros k' Hk. by rewrite lookup_delete_ne.
Qed.

Definition mem_serve_batch (ops : list batch_op) (codes : list Z) (c : MemClient)
    : result (list Z) * MemClient :=
  let '(cs, st) := mem_batch_write (mc_capacity c) ops codes (mc_records c) in
  (inr cs, with_records c st).

Lemma mem_serve_batch_eq ops codes c :
  mem_serve_batch ops codes c =
    (inr (fst (mem_batch_write (mc_capacity c) ops codes (mc_records c))),
     with_records c (snd (mem_batch_write (mc_capacity c) ops codes (mc_records c)))).
Proof. unfold mem_serve_batch. by destruct (mem_batch_write _ _ _ _). Qed.

Lemma mem_serve_batch_doubt ops op codes c :
  NoDup (batch_key <$> ops) -> op ∈ ops ->
  untouched mc_records (batch_key op) c (snd (mem_serve_batch ops codes c)) \/
  entry_effect op (mc_records c) (mc_records (snd (mem_serve_batch ops codes c))).
Proof.
  intros Hnd Hop. rewrite mem_serve_batch_eq. simpl.
  pose proof (mem_batch_write_spec (mc_capacity c) ops codes (mc_records c) Hnd) as H.
  apply Forall2_same_length_lookup in H as [Hlen H].
  apply list_elem_of_lookup in Hop as [i Hi].
  destruct (lookup_lt_is_Some_2 (fst (mem_batch_write (mc_capacity c) ops codes (mc_records c))) i)
    as [z Hz]; [rewrite <- Hlen; eauto using lookup_lt_Some|].
  destruct (H i op z Hi Hz) as [_ [E|E]]; [left; exact E|by right].
Qed.

#[global] Program Instance mem_client_spec : ClientSpec MemClient := {
  store := mc_records;
  healthy c := mc_fates c = [];
  capacity := mc_capacity
}.
Next Obligation. intros k c. simpl. requests (fun _ st => st = mc_records c);
  rewrite ?mem_get_store; done. Qed.
Next Obligation. intros k ns c. simpl. requests (fun _ st => st = mc_records c);
  rewrite ?mem_get_store; done. Qed.
Next Obligation. intros ks ns c. simpl. requests (fun _ st => st = mc_records c); done. Qed.
Next Obligation. intros k ttl wp c. simpl. requests (fun _ st => st = mc_records c);
  rewrite ?mem_touch_store; done. Qed.
Next Obligation.
  intros k c b. simpl. requests (fun r _ => r = inr b -> mc_records c !! k = Some b); [|done|done].
  unfold mem_get. rewrite Erec. destruct (mc_records c !! k); simpl; congruence.
Qed.
Next Obligation.
  intros k c e. simpl. 
  requests (fun r _ => r = inl e -> isinstance e RecordNotFound = true -> mc_records c !! k = None).
  - unfold mem_get. rewrite Erec. by destruct (mc_records c !! k).
  - intros [= <-]. by rewrite failure_not_missing.
  - intros [= <-]. by rewrite failure_not_missing.
Qed.
Next Obligation.
  intros k ns c b. simpl.
  requests (fun r _ => r = inr b ->
              exists full, mc_records c !! k = Some full /\ b = project ns full); [|done|done].
  unfold mem_get. rewrite Erec. destruct (mc_records c !! k); simpl; [|done].
  intros [= <-]. eauto.
Qed.
Next Obligation.
  intros k ns c e. simpl. 
  requests (fun r _ => r = inl e -> isinstance e RecordNotFound = true -> mc_records c !! k = None).
  - unfold mem_get. rewrite Erec. by destruct (mc_records c !! k).
  - intros [= <-]. by rewrite failure_not_missing.
  - intros [= <-]. by rewrite failure_not_missing.
Qed.
Next Obligation.
  intros ks ns c recs. simpl.
  requests (fun r _ => r = inr recs ->
    Forall2 (fun k r => read_hit (mc_records c) ns k r \/ read_miss r) ks recs); [|done|done].
  intros [= <-]. apply mem_batch_read_spec.
Qed.
Next Obligation.
  intros k ttl wp c. simpl. requests (fun r _ => r = inr tt -> is_Some (mc_records c !! k)); [|done|done].
  unfold mem_touch. rewrite Erec. destruct (mc_records c !! k); simpl; [eauto|done].
Qed.
Next Obligation.
  intros k l ttl wp c k' Hk. unfold untouched. simpl.
  requests (fun _ st => st !! k' = mc_records c !! k'); [|done|];
    rewrite (proj2 (proj2 (mem_put_spec k l _ _)) k' Hk); congruence.
Qed.
Next Obligation.
  intros k l ttl wp c. unfold written. simpl.
  requests (fun r st => r = inr tt -> st !! k = Some (merged (mc_records c !! k) l));
    [|done|done].
  rewrite <- Erec. apply mem_put_spec.
Qed.
Next Obligation.
  intros k l ttl wp c. unfold written, untouched. simpl.
  requests (fun r st => st !! k = mc_records c !! k \/
              st !! k = Some (merged (mc_records c !! k) l));
    [|by left|]; rewrite <- Erec; apply mem_put_spec.
Qed.
Next Obligation.
  intros k l ttl wp c k' Hk. unfold untouched. simpl.
  requests (fun _ st => st !! k' = mc_records c !! k'); [|done|];
    rewrite (proj2 (proj2 (mem_put_spec k l _ _)) k' Hk); congruence.
Qed.
Next Obligation.
  intros k l ttl wp c. unfold written. simpl.
  requests (fun r st => r = inr tt -> st !! k = Some (merged (mc_records c !! k) l));
    [|done|done].
  rewrite <- Erec. apply mem_put_spec.
Qed.
Next Obligation.
  intros k l ttl wp c. unfold written, untouched. simpl.
  requests (fun r st => st !! k = mc_records c !! k \/
              st !! k = Some (merged (mc_records c !! k) l));
    [|by left|]; rewrite <- Erec; apply mem_put_spec.
Qed.
Next Obligation.
  intros ops c k' Hk. unfold untouched. simpl. fold (mem_serve_batch ops).
  requests (fun _ st => st !! k' = mc_records c !! k'); [|done|];
    rewrite mem_serve_batch_eq; simpl; rewrite mem_batch_write_frame by done; congruence.
Qed.
Next Obligation.
  intros ops c op Hnd Hop. unfold untouched. simpl. fold (mem_serve_batch ops).
  change (applied mc_records op c) with
    (fun c' => entry_effect op (mc_records c) (mc_records c')). cbv beta.
  requests (fun _ st => st !! batch_key op = mc_records c !! batch_key op \/
              entry_effect op (mc_records c) st); [|by left|];
    rewrite <- Erec; by apply mem_serve_batch_doubt.
Qed.
Next Obligation.
  intros ops c cs Hnd. simpl. fold (mem_serve_batch ops).
  requests (fun r st => r = inr cs ->
              Forall2 (fun op code => code = 0 -> entry_effect op (mc_records c) st) ops cs);
    [|done|done].
  rewrite mem_serve_batch_eq. simpl. intros [= <-]. rewrite Erec, Ecap.
  eapply Forall2_impl; [by apply mem_batch_write_spec|]. intros op z [H _]. done.
Qed.
Next Obligation.
  intros k c k' Hk. unfold untouched. simpl.
  requests (fun _ st => st !! k' = mc_records c !! k'); [|done|];
    rewrite (proj2 (proj2 (mem_remove_spec k _ _)) k' Hk); congruence.
Qed.
Next Obligation.
  intros k c. simpl. requests (fun r st => r = inr tt -> st !! k = None); [|done|done].
  apply mem_remove_spec.
Qed.
Next Obligation.
  intros k c e. simpl.
  requests (fun r st => r = inl e -> isinstance e RecordNotFound = true -> st !! k = None).
  - unfold mem_remove. destruct (mc_records c' !! k) eqn:E; simpl; [done|].
    intros _ _. congruence.
  - intros [= <-]. by rewrite failure_not_missing.
  - intros [= <-]. by rewrite failure_not_missing.
Qed.
Next Obligation.
  intros k c. unfold untouched. simpl.
  requests (fun r st => st !! k = mc_records c !! k \/ st !! k = None); [|by left|];
    rewrite <- Erec; apply mem_remove_spec.
Qed.
Next Obligation.
  intros k c Hc. simpl. rewrite request_healthy, mem_get_store by done. split_and!; [done|done|].
  unfold mem_get. destruct (mc_records c !! k); simpl; eauto.
Qed.
Next Obligation.
  intros k ns c Hc. simpl. rewrite request_healthy, mem_get_store by done. split_and!; [done|done|].
  unfold mem_get. destruct (mc_records c !! k); simpl; eauto.
Qed.
Next Obligation.
  intros ks ns c Hc. simpl. rewrite request_healthy by done. simpl. split_and!; [done|done|].
  eexists. split; [done|]. apply mem_batch_read_healthy.
Qed.
Next Obligation.
  intros k l ttl wp c Hc Hl. simpl. rewrite request_healthy by done. unfold mem_put.
  destruct (Z.gtb_spec (payload_size l) (mc_capacity c)); [lia|done].
Qed.
Next Obligation.
  intros k ttl wp c Hc. simpl. rewrite request_healthy, mem_touch_store by done.
  unfold mem_touch. destruct (mc_records c !! k); simpl; eauto.
Qed.
Next Obligation.
  intros k l ttl wp c Hc Hl. simpl. rewrite request_healthy by done. unfold mem_put.
  destruct (Z.gtb_spec (payload_size l) (mc_capacity c)); [lia|done].
Qed.
Next Obligation.
  intros ops c Hc Hl. simpl. fold (mem_serve_batch ops).
  rewrite request_healthy by done. rewrite mem_serve_batch_eq. simpl. split_and!; [done|done|].
  eexists. split; [done|]. by apply mem_batch_write_healthy.
Qed.
Next Obligation.
  intros k c Hc. simpl. rewrite request_healthy by done. unfold mem_remove.
  destruct (mc_records c !! k); simpl; eauto.
Qed.

(** ** A concrete environment *)

Definition demo_constants : list (string * Z) :=
  [("POLICY_COMMIT_LEVEL_ALL", 0); ("POLICY_COMMIT_LEVEL_MASTER", 1); ("POLICY_REPLICA_MASTER", 0);
   ("POLICY_REPLICA_ANY", 1); ("POLICY_REPLICA_SEQUENCE", 2); ("POLICY_REPLICA_PREFER_RACK", 3);
   ("POLICY_KEY_DIGEST", 0); ("POLICY_KEY_SEND", 1); ("POLICY_EXISTS_IGNORE", 0);
   ("POLICY_GEN_IGNORE", 0)].

Definition demo_const (name : string) : option Z :=
  snd <$> find (fun c => String.eqb (fst c) name) demo_constants.

(** Objects of one shape [[n]] of bytes. *)
Definition demo_spec (n : Z) : MemSpec := mkMemSpec [[n]] ["uint8"] "demo".

Definition spec_size (s : MemSpec) : Z :=
  match ms_shapes s with [[n]] => n | _ => 0 end.

Definition buffer (tensor : bool) (b : bytes) : memobj :=
  mkMem b (length b) tensor (demo_spec (Z.of_nat (length b))) (Z.of_nat (length b)) 0.

Definition zero_byte : Byte.byte := Byte.x00.

Definition demo_allocate (s : MemSpec) (_ : heap) : option memobj :=
  Some (buffer false (replicate (Z.to_nat (spec_size s)) zero_byte)).

Definition demo_reshape (m : memobj) (n : Z) : result memobj :=
  if (n <=? Z.of_nat (mo_size m)) then
    inr (mkMem (mo_raw m) (Z.to_nat n) (mo_tensor m) (demo_spec n) n (mo_downs m))
  else inl (Py ValueError).

Definition byte_of_Z (z : Z) : Byte.byte := default zero_byte (Byte.of_N (Z.to_N (z mod 256))).

Definition demo_serialize (n : Z) (s : MemSpec) : result bytes :=
  inr [byte_of_Z (n / 256); byte_of_Z n].

Definition demo_deserialize (b : bytes) : result (Z * MemSpec) :=
  match b with
  | [hi; lo] => let n := 256 * byte_val hi + byte_val lo in inr (n, demo_spec n)
  | _ => inl (Py ValueError)
  end.

Definition demo_frombuffer (b : bytes) : result bytes :=
  match b with [] => inl (Py ValueError) | _ => inr b end.

#[global] Instance demo_env : Env := {
  aerospike_const := demo_const;
  lm_allocate := demo_allocate;
  lm_reshape := demo_reshape;
  lm_serialize := demo_serialize;
  lm_deserialize := demo_deserialize;
  torch_frombuffer := demo_frombuffer
}.

Lemma demo_client_constants : client_constants.
Proof.
  intros name Hn. apply (bool_decide_unpack _).
  assert (Hall : Forall (fun n => bool_decide (is_Some (aerospike_const n)) = true)
    ((snd <$> _COMMIT) ++ (snd <$> _REPLICA) ++
     ["POLICY_KEY_SEND"; "POLICY_KEY_DIGEST"; "POLICY_EXISTS_IGNORE"; "POLICY_GEN_IGNORE"]))
    by (repeat constructor).
  rewrite Forall_forall in Hall. rewrite (Hall name Hn). done.
Qed.

Lemma demo_frombuffer_ok : frombuffer_ok.
Proof. split; [by intros []|]. by intros [] src [= <-]. Qed.

Lemma byte_of_Z_val z : byte_val (byte_of_Z z) = z mod 256.
Proof.
  unfold byte_val, byte_of_Z. pose proof (Z.mod_pos_bound z 256 ltac:(lia)).
  destruct (Byte.of_N (Z.to_N (z mod 256))) as [x|] eqn:E; simpl.
  - apply Byte.to_of_N in E. rewrite E. lia.
  - apply Byte.of_N_None_iff in E. lia.
Qed.

(** Below 64 KiB the serializer round-trips. *)
Lemma demo_serialize_roundtrip n b :
  0 <= n < 65536 -> demo_serialize n (demo_spec n) = inr b -> demo_deserialize b = inr (n, demo_spec n).
Proof.
  intros Hn [= <-]. unfold demo_deserialize. rewrite !byte_of_Z_val, (Z.mod_small (n / 256)).
  - by rewrite <- (Z.div_mod n 256).
  - split; [apply Z.div_pos; lia|apply Z.div_lt_upper_bound; lia].
Qed.

(** A world on an empty cluster of the given record capacity with the given objects. *)
Definition demo_world (st : gmap key bins) (capacity : Z) (fates : list fate) (objs : list memobj)
    : world MemClient :=
  mkWorld (mkMemClient st capacity fates) (map_seq 0 objs) 1700000000 [] [].

(** Bytes from a literal. *)
Definition lit (s : string) : bytes := String.list_byte_of_string s.

(** Checksums on, segments of four bytes: small enough to evaluate. *)
Definition demo_config : AerospikeConfig :=
  mkAerospikeConfig "aerospike" [("127.0.0.1", 3000)] "lmcache" "kv_chunks" 4194304 None 65536 None
    86400 1000 2000 64 16 false true "all" "sequence" false "" "" "".


Definition demo_limits : ResolvedLimits := mkResolvedLimits 131072 65536 4 4 4 1.

Lemma demo_config_ok : config_ok demo_config.
Proof.
  pose proof default_config_ok as []. by split.
Qed.

Lemma policies_accept_valid_configs_witness :
  exists rp, read_policy default_config = inr rp /\ ("total_timeout", 1000) ∈ rp.
Proof.
  destruct (proj1 (proj1 (policies_accept_valid_configs default_config demo_client_constants)
    default_config_ok)) as (rp & Hrp & Hin & _).
  exists rp. split; [exact Hrp|exact Hin].
Defined.
