(* ===== verification/Store.v ===== *)
(** * The cache the records represent

    [entry] is the abstract value of a cache key: the payload a reader would assemble from the
    meta record and the segment records, if the meta record is ready and the checksum fits.
    The engine's operations are specified by what they do to it. *)

From S2P Require Import Prelude PyStr Errors Sharding Config Limits Crc32 Keys.
From S2P Require Import Runtime Policies Metrics Serde Engine ClientSpec.

Section store.
Context {CK : Type} (to_string : CK -> string) `{Env} (self : Engine).

Abbreviation mk_of := (mk_of to_string self).
Abbreviation seg_of := (seg_of to_string self).
Abbreviation segs_of := (segs_of to_string self).

(** The payload bytes of one record. *)
Definition seg_data (st : gmap key bins) (k : key) : option bytes :=
  match st !! k with
  | Some b => match b !! "b" with Some (BBytes p) => Some p | _ => None end
  | None => None
  end.

Definition payload_of (st : gmap key bins) (ck : CK) (b : bins) : option bytes :=
  match bins_nseg b with
  | inl _ => None
  | inr n =>
      if n =? 1 then match b !! "b" with Some (BBytes p) => Some p | _ => None end
      else @concat _ <$> mapM (seg_data st) (segs_of ck n)
  end.

Definition crc_fits (b : bins) (p : bytes) : bool :=
  if enable_crc32 (cfg self) then
    match b !! "crc32" with
    | Some v => bin_eq_int (Z.land (crc32 p) 0xFFFFFFFF) v
    | None => true
    end
  else true.

Definition entry (st : gmap key bins) (ck : CK) : option bytes :=
  match st !! mk_of ck with
  | None => None
  | Some b =>
      if is_ready b then
        match payload_of st ck b with
        | Some p => if crc_fits b p then Some p else None
        | None => None
        end
      else None
  end.

(** ** Well-formed stores: what the package's own writes leave behind *)

Record wf_meta (b : bins) : Prop := {
  wf_nseg : forall v, b !! "nseg" = Some v -> exists n, v = BInt n /\ 1 <= n;
  wf_ready : is_ready b = true ->
    exists n, b !! "nseg" = Some (BInt n) /\ (n = 1 -> exists p, b !! "b" = Some (BBytes p))
}.

Definition wf_seg (b : bins) : Prop := exists p, b !! "b" = Some (BBytes p).

Record wf_store (st : gmap key bins) : Prop := {
  wf_metas : forall ck b, st !! mk_of ck = Some b -> wf_meta b;
  wf_segs : forall ck i b, 0 <= i -> st !! seg_of ck i = Some b -> wf_seg b
}.

Lemma wf_store_empty : wf_store ∅.
Proof. split; intros *; rewrite lookup_empty; done. Qed.

(** ** Frames: an entry depends only on its own records *)

Definition owns (ck : CK) (k : key) : Prop := k = mk_of ck \/ exists i, 0 <= i /\ k = seg_of ck i.

Lemma elem_of_segs ck n k : k ∈ segs_of ck n <-> exists i, 0 <= i < n /\ k = seg_of ck i.
Proof. apply elem_of_segment_keys. Qed.

Lemma segs_owned ck n k : k ∈ segs_of ck n -> owns ck k.
Proof. intros (i & Hi & ->)%elem_of_segs. right. exists i. split; [lia|done]. Qed.

Lemma mapM_ext_elem {A B} (f g : A -> option B) l :
  (forall x, x ∈ l -> f x = g x) -> mapM f l = mapM g l.
Proof.
  induction l as [|x l IH]; intros Hfg; simpl; [done|].
  rewrite (Hfg x), IH; [done| |apply list_elem_of_here].
  intros y Hy. apply Hfg. by apply list_elem_of_further.
Qed.

Lemma payload_of_frame st st' ck b :
  (forall i, 0 <= i -> st' !! seg_of ck i = st !! seg_of ck i) ->
  payload_of st' ck b = payload_of st ck b.
Proof.
  intros Hst. unfold payload_of. destruct (bins_nseg b) as [|n]; [done|].
  destruct (n =? 1); [done|]. f_equal. apply mapM_ext_elem.
  intros k (i & Hi & ->)%elem_of_segs. unfold seg_data. rewrite Hst by lia. done.
Qed.

Lemma entry_frame st st' ck :
  (forall k, owns ck k -> st' !! k = st !! k) -> entry st' ck = entry st ck.
Proof.
  intros Hst. unfold entry. rewrite (Hst (mk_of ck)) by by left.
  destruct (st !! mk_of ck) as [b|]; [|done]. destruct (is_ready b); [|done].
  rewrite (payload_of_frame st st'); [done|]. intros i Hi. apply Hst. right. eauto.
Qed.

Section injective.
Context `{!Inj (=) (=) to_string}.

Lemma mk_of_inj ck ck' : mk_of ck = mk_of ck' -> ck = ck'.
Proof. intros Hk%meta_key_inj. by apply (inj to_string). Qed.

Lemma mk_of_seg_of ck ck' i : 0 <= i -> mk_of ck <> seg_of ck' i.
Proof. apply meta_segment_ne. Qed.

Lemma seg_of_inj ck ck' i j :
  0 <= i -> 0 <= j -> seg_of ck i = seg_of ck' j -> ck = ck' /\ i = j.
Proof.
  intros Hi Hj Hk. apply segment_key_inj in Hk as [Hk ->]; [|done..].
  split; [by apply (inj to_string)|done].
Qed.

(** Different cache keys own different records. *)
Lemma owns_disjoint ck ck' k : owns ck k -> owns ck' k -> ck = ck'.
Proof.
  intros [->|(i & Hi & ->)] [E|(j & Hj & E)].
  - by apply mk_of_inj.
  - by apply mk_of_seg_of in E.
  - symmetry in E. by apply mk_of_seg_of in E.
  - by apply seg_of_inj in E as [-> _].
Qed.

Lemma entry_frame_other st st' ck ck' :
  ck' <> ck -> (forall k, ~ owns ck k -> st' !! k = st !! k) -> entry st' ck' = entry st ck'.
Proof.
  intros Hne Hst. apply entry_frame. intros k Hk. apply Hst. intros Hk'.
  apply Hne. by eapply owns_disjoint.
Qed.
End injective.

(** ** The bins of a meta record written by [put] *)

(** The bins [meta_bins] produces for a plan and a payload. *)
Record meta_written (p : ShardPlan) (payload : bytes) (l : bin_list) : Prop := {
  mw_state : dict_of l !! "state" = Some (BStr "ready");
  mw_nseg : dict_of l !! "nseg" = Some (BInt (nseg p));
  mw_seg : dict_of l !! "seg_b" = Some (BInt (seg_b p));
  mw_tot : dict_of l !! "tot_b" = Some (BInt (Z.of_nat (length payload)));
  mw_b : nseg p = 1 -> dict_of l !! "b" = Some (BBytes payload);
  mw_crc : enable_crc32 (cfg self) = true ->
           dict_of l !! "crc32" = Some (BInt (Z.land (crc32 payload) 0xFFFFFFFF))
}.

Lemma meta_written_ready p payload l old :
  meta_written p payload l -> is_ready (merged old l) = true.
Proof.
  intros [Hs _ _ _ _ _]. unfold is_ready. rewrite (merged_named _ _ _ _ Hs).
  by apply bool_decide_eq_true.
Qed.

Lemma meta_written_nseg p payload l old :
  meta_written p payload l -> bins_nseg (merged old l) = inr (nseg p).
Proof. intros [_ Hn _ _ _ _]. unfold bins_nseg. by rewrite (merged_named _ _ _ _ Hn). Qed.

Lemma meta_written_crc p payload l old :
  meta_written p payload l -> crc_fits (merged old l) payload = true.
Proof.
  intros Hw. unfold crc_fits. destruct (enable_crc32 (cfg self)) eqn:E; [|done].
  rewrite (merged_named _ _ _ _ (mw_crc _ _ _ Hw E)). apply Z.eqb_refl.
Qed.

Lemma meta_written_wf p payload l old :
  meta_written p payload l -> 1 <= nseg p -> wf_meta (merged old l).
Proof.
  intros Hw Hp. pose proof (merged_named old _ _ _ (mw_nseg _ _ _ Hw)) as Hn. split.
  - intros v. rewrite Hn. intros [= <-]. eauto.
  - intros _. exists (nseg p). split; [done|]. intros E.
    exists payload. apply merged_named. by apply Hw.
Qed.

(** The entry of a key whose meta record was just written over [old]. *)
Lemma entry_written st ck old p payload l :
  st !! mk_of ck = Some (merged old l) -> meta_written p payload l ->
  (nseg p <> 1 -> @concat _ <$> mapM (seg_data st) (segs_of ck (nseg p)) = Some payload) ->
  entry st ck = Some payload.
Proof.
  intros Hst Hw Hsegs. unfold entry. rewrite Hst, (meta_written_ready _ _ _ _ Hw).
  unfold payload_of. rewrite (meta_written_nseg _ _ _ _ Hw).
  destruct (Z.eqb_spec (nseg p) 1) as [E|E].
  - rewrite (merged_named _ _ _ _ (mw_b _ _ _ Hw E)), (meta_written_crc _ _ _ _ Hw). done.
  - rewrite Hsegs, (meta_written_crc _ _ _ _ Hw) by done. done.
Qed.
End store.
