(* ===== verification/GetFacts.v ===== *)
(** * Reading an entry ([engine.get])

    [get] against any client that satisfies [ClientSpec], faults included: what it returns is the
    entry, what it does to buffers it owns, and that it changes nothing else. *)

From S2P Require Import Prelude PyStr Errors Sharding Config Limits Crc32 Keys.
From S2P Require Import Runtime Policies Metrics Serde Engine ClientSpec Store.

(** ** The engine's hooks

    What the engine relies on of the two functions its client hands over: they touch only the
    object they return. *)

(** The view of an object is all of the room for a payload. *)
Definition exact_view (m : memobj) : Prop := room m = mo_size m.

Section hooks.
Context {C : Type} `{AerospikeClient C} `{Env}.

(** The first [n] bytes and the release count are the same. *)
Definition same_prefix (n : nat) (m m' : memobj) : Prop :=
  take n (mo_raw m') = take n (mo_raw m) /\ mo_downs m' = mo_downs m.

Class EngineHooks (self : Engine) : Prop := {
  hook_reshape l n (w : world C) m :
    w_heap w !! l = Some m ->
    match run (reshape self l (Z.of_nat n)) w with
    | (inr l', w') => l' = l /\ only_mem l w w' /\
        exists m', w_heap w' !! l = Some m' /\ same_prefix n m m'
    | (inl _, w') => w' = w
    end;
  hook_alloc b (w : world C) :
    match run (alloc_for_read self b) w with
    | (inr (Some l, _), w') => only_mem l w w' /\ w_heap w !! l = None /\
        exists m, w_heap w' !! l = Some m /\ mem_ok m /\ exact_view m /\ mo_downs m = 0%nat
    | (_, w') => w' = w
    end
}.

(** [reshape_partial_chunk] of the base connector as a hook. *)
Definition connector_reshape (l : loc) (n : Z) : prog ev loc :=
  let! r := trigger (MemReshape l n) in lift r.

(** The engine of [connector.py] and of [plugin_support.build_engine]. *)
Definition connector_engine (cfg : AerospikeConfig) (save_chunk_meta : bool) (spec : MemSpec)
    (resolved : ResolvedLimits) : Engine :=
  Engine_init cfg save_chunk_meta resolved connector_reshape
    (allocate_for_read save_chunk_meta spec) None.

(** The engine of [plugin_support.build_engine_l2]. *)
Definition build_engine_l2 (cfg : AerospikeConfig) (resolved : ResolvedLimits) : Engine :=
  Engine_init cfg false resolved (fun l _ => Ret l) (fun _ => Ret (None, false)) None.

(** LMCache's side: a new object is a clean buffer, and reshaping keeps the bytes it counts. *)
Definition lmcache_ok : Prop :=
  (forall s h m, lm_allocate s h = Some m -> mem_ok m /\ exact_view m /\ mo_downs m = 0%nat) /\
  (forall m n m', lm_reshape m (Z.of_nat n) = inr m' -> same_prefix n m m').

#[export] Instance l2_hooks cfg r : EngineHooks (build_engine_l2 cfg r).
Proof.
  split.
  - intros l n w m Hm. simpl. split_and!; [done|reflexivity|]. by exists m.
  - intros b w. done.
Qed.

Lemma run_mem_allocate s (w : world C) :
  lmcache_ok ->
  match allocate_in s w with
  | (Some l, w') => only_mem l w w' /\ w_heap w !! l = None /\
      exists m, w_heap w' !! l = Some m /\ mem_ok m /\ exact_view m /\ mo_downs m = 0%nat
  | (None, w') => w' = w
  end.
Proof.
  intros [Hal _]. unfold allocate_in. destruct (lm_allocate s (w_heap w)) as [m|] eqn:E; [|done].
  set (l := fresh (dom (w_heap w))).
  assert (Hl : w_heap w !! l = None) by (apply not_elem_of_dom, is_fresh).
  split_and!; [|done|exists m].
  - split_and!; try done. intros l' Hne. simpl. by rewrite lookup_insert_ne.
  - simpl. rewrite lookup_insert_eq. split_and!; [done|by eapply Hal..].
Qed.

Lemma connector_hooks cfg scm spec r :
  lmcache_ok -> EngineHooks (connector_engine cfg scm spec r).
Proof.
  intros Hlm. split.
  - intros l n w m Hm. simpl. unfold reshape_in. rewrite (mem_lookup _ _ _ Hm).
    destruct (lm_reshape m (Z.of_nat n)) as [e|m'] eqn:E; simpl; [done|].
    split_and!; [done| |exists m'].
    + split_and!; try done. intros l' Hne. simpl. by rewrite lookup_insert_ne.
    + rewrite lookup_insert_eq. split; [done|]. by eapply Hlm.
  - intros b w. simpl. unfold allocate_for_read.
    destruct scm, (b !! "md") as [md|].
    2-4: simpl; pose proof (run_mem_allocate spec w Hlm) as Ha;
      destruct (allocate_in spec w) as [[l|] w']; simpl; done.
    destruct (bin_buffer md) as [e|buf]; simpl; [done|].
    destruct (lm_deserialize buf) as [e|rm]; simpl; [done|].
    pose proof (run_mem_allocate (snd rm) w Hlm) as Ha.
    destruct (allocate_in (snd rm) w) as [[l|] w']; simpl; done.
Qed.
End hooks.
Arguments EngineHooks C {_ _} self.

(** ** Segments *)

Section segments.
Context {C : Type} `{AerospikeClient C} `{Env}.
Hypothesis Hbuf : frombuffer_ok.

(** The segments read so far are in the object. *)
Definition filled (m : memobj) (n : nat) (p : bytes) : Prop :=
  length p = n /\ take n (mo_raw m) = p.

Lemma filled_store m n p data :
  (n + length data <= length (mo_raw m))%nat -> filled m n p ->
  filled (store_at n data m) (n + length data) (p ++ data).
Proof.
  intros Hle [Hl Hp]. split; [rewrite length_app; lia|].
  simpl. by apply splice_prefix.
Qed.

Lemma filled_0 m : filled m 0 [].
Proof. done. Qed.

(** How the segment loop ends, for the records of a batch read that returned: everything is in
    the object, or the object was released once, or the loop raised and left it. *)
Lemma run_read_segments l st recs : forall ks n (w : world C) m p,
  w_heap w !! l = Some m -> mem_ok m -> filled m n p -> (n <= room m)%nat ->
  Forall2 (fun k r => read_hit st ["b"] k r \/ read_miss r) ks recs ->
  let '(r, w') := run (read_segments l recs n n) w in
  only_mem l w w' /\
  exists m', w_heap w' !! l = Some m' /\
    match r with
    | inr (Some n') => rewritten 0 m m' /\ exists ds, mapM (seg_data st) ks = Some ds /\
        n' = (n + length (concat ds))%nat /\ (n' <= room m)%nat /\
        filled m' n' (p ++ concat ds)
    | inr None => rewritten 1 m m'
    | inl _ => rewritten 0 m m'
    end.
Proof.
  induction recs as [|[code rec] recs IH]; intros ks n w m p Hm Hok Hp Hn Hrecs.
  - inversion Hrecs. subst. cbn [read_segments run]. split; [reflexivity|].
    exists m. split; [done|]. split; [apply rewritten_refl|].
    exists []. simpl. rewrite Nat.add_0_r, app_nil_r. done.
  - inversion Hrecs as [|k ? ks' ? Hk Hks]; subst. cbn [read_segments br_record br_result].
    assert (Hdown : only_mem l w (on_mem ref_count_down l w) /\
      exists m', w_heap (on_mem ref_count_down l w) !! l = Some m' /\ rewritten 1 m m').
    { split; [apply only_mem_on_mem|]. exists (ref_count_down m).
      split; [by apply on_mem_lookup|apply rewritten_down]. }
    destruct rec as [b|]; [|exact Hdown].
    destruct (Z.eqb_spec code AEROSPIKE_OK) as [Hc|Hc]; cbn [negb]; [|exact Hdown].
    destruct Hk as [(_ & full & Hst & [= ->])|Hmiss]; [|done].
    rewrite project_lookup by by apply list_elem_of_here.
    destruct (full !! "b") as [v|] eqn:Hv; [|by split; [|exists m; auto using rewritten_refl]].
    rewrite run_bind.
    pose proof (run_write_payload_any l v n w m Hbuf Hm Hok) as Hw.
    destruct (run (write_payload_into l v n) w) as [[e|k'] w1].
    { subst w1. split; [reflexivity|exists m; auto using rewritten_refl]. }
    destruct Hw as (data & -> & -> & Hroom & ->). cbn [bin_len lift bind].
    pose proof (room_le m Hok) as Hle.
    assert (Hfit : (n + length data <= length (mo_raw m))%nat) by lia.
    pose proof (rewritten_store n data m Hfit) as Hrw.
    specialize (IH ks' (n + length data)%nat (on_mem (store_at n data) l w)
      (store_at n data m) (p ++ data) (on_mem_lookup _ _ _ _ Hm) (rewritten_ok _ _ _ Hrw Hok)
      (filled_store _ _ _ _ Hfit Hp)).
    rewrite (rewritten_room _ _ _ Hrw) in IH. specialize (IH Hroom Hks).
    destruct (run (read_segments _ _ _ _) _) as [r w2].
    destruct IH as [Hom (m' & Hm' & Hr)]. split.
    { etransitivity; [apply only_mem_on_mem|exact Hom]. }
    exists m'. split; [done|].
    assert (Htr : forall d, rewritten d (store_at n data m) m' -> rewritten d m m')
      by (intros d; by apply (rewritten_trans 0)).
    destruct r as [e|[n'|]]; [by apply Htr| |by apply Htr].
    destruct Hr as (Hr & ds & Hds & -> & Hn' & Hfill). split; [by apply Htr|].
    exists (data :: ds). cbn [mapM].
    assert (seg_data st k = Some data) as -> by (unfold seg_data; by rewrite Hst, Hv).
    rewrite Hds. cbn [concat mbind option_bind]. rewrite length_app. split_and!; [done|lia|lia|].
    rewrite app_assoc. done.
Qed.

(** With all segments present and room for them, the loop ends normally. *)
Lemma run_read_segments_all l st recs : forall ks n (w : world C) m p ds,
  w_heap w !! l = Some m -> mem_ok m -> filled m n p ->
  Forall2 (fun k r => match st !! k with
                      | Some _ => read_hit st ["b"] k r
                      | None => read_miss r
                      end) ks recs ->
  mapM (seg_data st) ks = Some ds -> (n + length (concat ds) <= room m)%nat ->
  mo_tensor m = false \/ Forall (fun d => d <> []) ds ->
  fst (run (read_segments l recs n n) w) = inr (Some (n + length (concat ds))%nat).
Proof.
  induction recs as [|[code rec] recs IH]; intros ks n w m p ds Hm Hok Hp Hrecs Hds Hroom Hne.
  - inversion Hrecs; subst. injection Hds as <-. simpl. do 2 f_equal. lia.
  - inversion Hrecs as [|k ? ks' ? Hk Hks]; subst.
    apply mapM_Some_1 in Hds. inversion Hds as [|? d ? ds' Hd Hds']; subst.
    apply mapM_Some_2 in Hds'. unfold seg_data in Hd.
    destruct (st !! k) as [full|] eqn:Hst; [|done].
    destruct Hk as (Hc & full' & E & Hrec). rewrite Hst in E. injection E as <-.
    simpl in Hc, Hrec. subst. cbn [read_segments br_record br_result negb].
    rewrite project_lookup by by apply list_elem_of_here.
    destruct (full !! "b") as [[| |data|]|]; try done. injection Hd as ->.
    rewrite (proj2 (Z.eqb_eq 0 AEROSPIKE_OK)) by done. cbn [negb].
    cbn [concat] in Hroom. rewrite length_app in Hroom. pose proof (room_le m Hok).
    assert (Hfit : (n + length d <= length (mo_raw m))%nat) by lia.
    rewrite run_bind, run_write_payload_ok with (m := m); [|done..| |lia].
    2:{ destruct Hne as [|Hne]; [by right|left; by inversion Hne]. }
    cbn [bin_len lift bind]. pose proof (rewritten_store n d m Hfit) as Hrw.
    rewrite (IH ks' _ _ (store_at n d m) (p ++ d) ds'); cbn [concat].
    + rewrite length_app. do 2 f_equal. lia.
    + by apply on_mem_lookup.
    + by apply (rewritten_ok _ _ _ Hrw).
    + by apply filled_store.
    + done.
    + done.
    + rewrite (rewritten_room _ _ _ Hrw). lia.
    + rewrite (rw_tensor _ _ _ Hrw). destruct Hne as [|Hne]; [by left|right; by inversion Hne].
Qed.
End segments.

(** ** [get] *)

Section get.
Context {C : Type} `{AerospikeClient C} `{!ClientSpec C} `{Env}.
Context {CK : Type} (to_string : CK -> string) (self : Engine).
Context `{!EngineHooks C self}.
Hypothesis Hbuf : frombuffer_ok.

Abbreviation entry := (entry to_string self).
Abbreviation st w := (store (w_client w)).

(** [w'] has the records of [w], and its objects except perhaps [l]. *)
Definition reads (l : loc) (w w' : world C) : Prop :=
  st w' = st w /\ forall l', l' <> l -> w_heap w' !! l' = w_heap w !! l'.

#[local] Instance reads_refl l : Reflexive (reads l).
Proof. by split. Qed.

Lemma reads_trans l w1 w2 w3 : reads l w1 w2 -> reads l w2 w3 -> reads l w1 w3.
Proof.
  intros [E1 F1] [E2 F2]. split; [congruence|]. intros l' Hl. by rewrite F2, F1.
Qed.

Lemma only_mem_reads l w w' : only_mem l w w' -> reads l w w'.
Proof. intros (E & _ & _ & _ & F). split; [by rewrite E|done]. Qed.

(** The buffer [l] of [w'] holds the payload [p] and is still held by the caller. *)
Definition returned (l : loc) (m : memobj) (p : bytes) (w' : world C) : Prop :=
  exists m', w_heap w' !! l = Some m' /\ mo_downs m' = mo_downs m /\ filled m' (length p) p.

(** The buffer was released [d] times. *)
Definition released (d : nat) (l : loc) (m : memobj) (w' : world C) : Prop :=
  exists m', w_heap w' !! l = Some m' /\ mo_downs m' = (mo_downs m + d)%nat.

Lemma run_crc_matches l b p (w : world C) m :
  w_heap w !! l = Some m -> exact_view m -> mem_ok m -> (length p <= room m)%nat ->
  filled m (length p) p ->
  run (crc_matches self l b (length p)) w = (inr (crc_fits self b p), w).
Proof.
  intros Hm Hv Hok Hle [_ Hp]. unfold crc_matches, crc_fits.
  destruct (enable_crc32 (cfg self)); [|done]. destruct (b !! "crc32"); [|done].
  simpl. rewrite (mem_lookup _ _ _ Hm). unfold byte_array.
  rewrite take_take, Nat.min_l, Hp; [done|]. unfold exact_view in Hv. lia.
Qed.

(** From a filled object on: a checksum that fits returns the object, one that does not
    releases it once; the reshape hook may raise. *)
Lemma run_get_finish t b l er p (w : world C) m :
  w_heap w !! l = Some m -> exact_view m -> mem_ok m -> (length p <= room m)%nat ->
  filled m (length p) p ->
  match run (get_finish self t b l er (length p)) w with
  | (inr (_, out), w') => only_mem l w w' /\
      if crc_fits self b p then out = inr (Some l) /\ returned l m p w'
      else out = inr None /\ released 1 l m w'
  | (inl _, w') => w' = w /\ er = true
  end.
Proof.
  intros Hm Hv Hok Hle Hp. unfold get_finish.
  rewrite run_bind, (run_crc_matches l b p w m) by done.
  destruct (crc_fits self b p).
  - destruct er.
    + rewrite run_bind. pose proof (hook_reshape l (length p) w m Hm) as Hr.
      destruct (run (reshape self l _) w) as [[e|l'] w']; [done|].
      destruct Hr as (-> & Hom & m' & Hm' & Hpre & Hd). cbn [run].
      split_and!; [done|done|]. exists m'. split_and!; [done|done|].
      destruct Hp as [Hl Hp]. split; [done|]. congruence.
    + cbn [bind run]. split_and!; [reflexivity|done|]. by exists m.
  - cbn. split_and!; [apply only_mem_on_mem|done|].
    exists (ref_count_down m). split; [by apply on_mem_lookup|]. simpl. lia.
Qed.

(** The outcome of reading the payload of the meta record [b] into [l]. *)
Definition payload_outcome (ck : CK) (b : bins) (l : loc) (m : memobj) (w : world C)
    (out : result (OpTimer * result (option loc))) (w' : world C) : Prop :=
  reads l w w' /\
  match out with
  | inr (_, inr (Some l')) =>
      l' = l /\ exists p, payload_of to_string self (st w) ck b = Some p /\
        crc_fits self b p = true /\ returned l m p w'
  | inr (_, inr None) =>
      released 1 l m w' \/
      (bins_nseg b = inr 1 /\ b !! "b" = None /\ released 0 l m w')
  | inr (_, inl _) => False
  | inl _ => released 0 l m w'
  end.

Lemma run_finish_outcome t ck b l er p (w w1 : world C) m m1 :
  exact_view m -> mem_ok m -> reads l w w1 -> w_heap w1 !! l = Some m1 ->
  rewritten 0 m m1 -> (length p <= room m)%nat -> filled m1 (length p) p ->
  payload_of to_string self (st w) ck b = Some p ->
  let '(out, w') := run (get_finish self t b l er (length p)) w1 in
  payload_outcome ck b l m w out w'.
Proof.
  intros Hv Hok Hrs Hm1 Hrw Hle Hfill Hp. unfold exact_view, payload_outcome in *.
  pose proof (run_get_finish t b l er p w1 m1 Hm1) as Hf. unfold exact_view in *.
  rewrite (rewritten_room _ _ _ Hrw), (rw_size _ _ _ Hrw) in Hf.
  specialize (Hf Hv (rewritten_ok _ _ _ Hrw Hok) Hle Hfill).
  pose proof (rw_downs _ _ _ Hrw) as Hd.
  destruct (run (get_finish _ _ _ _ _ _) _) as [[e|[t' out]] w'].
  - destruct Hf as [-> _]. split; [done|]. by exists m1.
  - destruct Hf as [Hom Hf]. split.
    { eapply reads_trans; [exact Hrs|by apply only_mem_reads]. }
    destruct (crc_fits self b p) eqn:Hc; destruct Hf as [-> (m2 & Hm2 & E)].
    + split; [done|]. exists p. split_and!; [done|done|]. destruct E as [E Hfill'].
      exists m2. split_and!; [done|lia|done].
    + left. exists m2. split; [done|lia].
Qed.

Lemma run_get_single t ck b l er (w : world C) m :
  w_heap w !! l = Some m -> exact_view m -> mem_ok m -> bins_nseg b = inr 1 ->
  let '(out, w') := run (get_payload to_string self t ck b 1 l er) w in
  payload_outcome ck b l m w out w'.
Proof.
  intros Hm Hv Hok Hn. unfold get_payload. cbn [Z.eqb Pos.eqb].
  destruct (b !! "b") as [v|] eqn:Hb.
  2:{ cbn. split; [reflexivity|right]. split_and!; [done..|]. exists m. split; [done|lia]. }
  rewrite run_bind. pose proof (run_write_payload_any l v 0 w m Hbuf Hm Hok) as Hw.
  destruct (run (write_payload_into l v 0) w) as [[e|k] w1].
  { subst. split; [reflexivity|]. exists m. split; [done|lia]. }
  destruct Hw as (p & -> & -> & Hle & ->).
  assert (Hfit : (0 + length p <= length (mo_raw m))%nat) by (pose proof (room_le m Hok); lia).
  apply run_finish_outcome with (m1 := store_at 0 p m); [done|done| | | |done| |].
  - apply only_mem_reads, only_mem_on_mem.
  - by apply on_mem_lookup.
  - by apply rewritten_store.
  - apply (filled_store m 0 [] p Hfit (filled_0 m)).
  - unfold payload_of. by rewrite Hn, Hb.
Qed.

Lemma run_get_multi t ck b n l er (w : world C) m :
  w_heap w !! l = Some m -> exact_view m -> mem_ok m -> bins_nseg b = inr n -> n <> 1 ->
  let '(out, w') := run (get_payload to_string self t ck b n l er) w in
  payload_outcome ck b l m w out w'.
Proof.
  intros Hm Hv Hok Hn Hne. unfold get_payload. rewrite (proj2 (Z.eqb_neq _ _)) by done.
  cbn [trigger bind run handle]. unfold on_client.
  pose proof (batch_read_store (segs_of to_string self ck n) ["b"] (w_client w)) as Hst.
  pose proof (batch_read_ok (segs_of to_string self ck n) ["b"] (w_client w)) as Hrd.
  destruct (client_batch_read _ ["b"] (w_client w)) as [[e|recs] c'] eqn:Ecl; simpl in Hst, Hrd.
  { cbn. split; [by split|]. exists m. split; [done|lia]. }
  cbn [lift bind]. rewrite run_bind. specialize (Hrd recs eq_refl).
  pose proof (run_read_segments Hbuf l (st w) recs _ 0 (set_client w c') m [] Hm Hok
                (filled_0 m) (Nat.le_0_l _) Hrd) as Hs.
  destruct (run (read_segments l recs 0 0) _) as [[e|[k|]] w1];
    destruct Hs as [Hom (m1 & Hm1 & Hr)];
    (assert (Hrs : reads l w w1); [eapply reads_trans;
       [|apply only_mem_reads, Hom]; by split|]).
  - split; [done|]. exists m1. split; [done|]. apply Hr.
  - destruct Hr as (Hrw & ds & Hds & -> & Hle & Hfill). simpl in Hfill, Hle.
    change (0 + length (concat ds))%nat with (length (concat ds)) in *.
    apply run_finish_outcome with (m1 := m1); [done..|].
    unfold payload_of. rewrite Hn, (proj2 (Z.eqb_neq _ _)), Hds by done. done.
  - cbn. split; [done|]. left. exists m1. split; [done|]. apply Hr.
Qed.

Lemma run_get_payload t ck b n l er (w : world C) m :
  w_heap w !! l = Some m -> exact_view m -> mem_ok m -> bins_nseg b = inr n ->
  let '(out, w') := run (get_payload to_string self t ck b n l er) w in
  payload_outcome ck b l m w out w'.
Proof.
  intros Hm Hv Hok Hn. destruct (decide (n = 1)) as [->|Hne].
  - by apply run_get_single.
  - by apply run_get_multi.
Qed.

(** The meta record of [ck] as the first request of [get] finds it. *)
Lemma run_client_get k (w : world C) :
  exists c', run (trigger (ClientGet k)) w = (inr (fst (client_get k (w_client w))), set_client w c') /\
    store c' = st w /\ c' = snd (client_get k (w_client w)).
Proof.
  exists (snd (client_get k (w_client w))). simpl. unfold on_client.
  pose proof (get_store k (w_client w)) as Hst. by destruct (client_get k (w_client w)).
Qed.

(** What [get] does with a buffer: the caller's, or the one it allocates. *)
Definition buffer_ok (l : loc) (w : world C) : Prop :=
  exists m, w_heap w !! l = Some m /\ mem_ok m /\ exact_view m.

(** How often the buffer at [l] has been released, an object not allocated yet counting 0. *)
Definition downs (w : world C) (l : loc) : nat :=
  match w_heap w !! l with Some m => mo_downs m | None => 0 end.

(** The second half of [get], once a buffer is there. *)
Definition get_fill (t : OpTimer) (ck : CK) (b : bins) (n : Z) (l : loc) (er : bool) :=
  let! r := attempt (get_payload to_string self t ck b n l er) in
  match r with
  | inr out => Ret out
  | inl e => trigger (MemRefDown l) ;; Ret (set_result "error" t, inl e)
  end.

Definition fill_outcome (ck : CK) (l : loc) (w : world C)
    (out : result (option loc)) (w' : world C) : Prop :=
  reads l w w' /\
  match out with
  | inr (Some l') => l' = l /\ downs w' l = downs w l /\
      exists p m', entry (st w) ck = Some p /\ w_heap w' !! l = Some m' /\ filled m' (length p) p
  | inr None => downs w' l = S (downs w l) \/ (downs w' l = downs w l /\
      exists b, st w !! mk_of to_string self ck = Some b /\ bins_nseg b = inr 1 /\ b !! "b" = None)
  | inl _ => downs w' l = S (downs w l)
  end.

Lemma run_get_fill t ck b n l er (w : world C) :
  buffer_ok l w -> st w !! mk_of to_string self ck = Some b -> is_ready b = true ->
  bins_nseg b = inr n ->
  exists t' out w', run (get_fill t ck b n l er) w = (inr (t', out), w') /\
    fill_outcome ck l w out w'.
Proof.
  intros (m & Hm & Hok & Hv) Hb Hr Hn. unfold get_fill, fill_outcome, downs.
  rewrite run_bind, run_attempt. rewrite Hm.
  pose proof (run_get_payload t ck b n l er w m Hm Hv Hok Hn) as Hp.
  destruct (run (get_payload _ _ _ _ _ _ _ _) w) as [[e|[t' [e|[l'|]]]] w'];
    destruct Hp as [Hrs Hp]; cbn [fst snd].
  - destruct Hp as (m' & Hm' & Hd). eexists _, _, _. split; [reflexivity|]. split.
    + eapply reads_trans; [exact Hrs|]. apply only_mem_reads, only_mem_on_mem.
    + rewrite (on_mem_lookup _ _ _ _ Hm'). simpl. lia.
  - done.
  - destruct Hp as (-> & p & Hp & Hc & m' & Hm' & Hd & Hf).
    eexists _, _, _. split; [reflexivity|]. rewrite Hm'. split_and!; [done..|].
    exists p, m'. split_and!; [|done..]. unfold Store.entry. by rewrite Hb, Hr, Hp, Hc.
  - eexists _, _, _. split; [reflexivity|]. split; [done|].
    destruct Hp as [(m' & Hm' & Hd)|(Hn1 & Hnb & m' & Hm' & Hd)]; rewrite Hm'; [left; lia|right].
    split; [lia|]. eauto.
Qed.

(** The outcome of the whole of [get]: no buffer was involved, or the one buffer [l]. *)
Definition get_outcome (ck : CK) (pre : option loc) (w : world C) (out : result (option loc))
    (w' : world C) : Prop :=
  st w' = st w /\
  ((w_heap w' = w_heap w /\ forall l, out <> inr (Some l)) \/
   exists l, match pre with Some l0 => l = l0 | None => w_heap w !! l = None end /\
     fill_outcome ck l w out w').

(** A world that has the objects of [w] except that [l] may be new. *)
Lemma fill_get_outcome ck pre l (w0 w w' : world C) out :
  reads l w0 w -> match pre with Some l0 => l = l0 | None => w_heap w0 !! l = None end ->
  downs w l = downs w0 l -> fill_outcome ck l w out w' -> get_outcome ck pre w0 out w'.
Proof.
  intros Hr Hl Hd [Hr' Hout]. split; [destruct Hr, Hr'; congruence|]. right. exists l.
  split; [done|]. split; [by eapply reads_trans|]. destruct Hr as [<- _].
  destruct out as [e|[l'|]]; rewrite <- ?Hd; done.
Qed.

Lemma run_get ck pre (w : world C) :
  match pre with Some l => buffer_ok l w | None => True end ->
  let '(out, w') := run (get to_string self ck pre) w in get_outcome ck pre w out w'.
Proof.
  intros Hpre. unfold get. rewrite run_with_timer, run_bind.
  destruct (run_client_get (mk_of to_string self ck) w) as (c' & -> & Hst & _).
  pose proof (get_ok (mk_of to_string self ck) (w_client w)) as Hok.
  assert (Hno : forall out op lb, (forall l, out <> inr (Some l)) ->
    get_outcome ck pre w out (observed op lb (set_client w c'))) by (split; [done|by left]).
  destruct (fst (client_get _ _)) as [e|b]; unfold catch_ax.
  { destruct (isinstance e RecordNotFound); [by apply Hno|].
    destruct (isinstance e AerospikeError); [|by apply Hno].
    destruct (classify e); by apply Hno. }
  specialize (Hok b eq_refl). destruct (is_ready b) eqn:Hr; cbn [negb]; [|by apply Hno].
  destruct (bins_nseg b) as [e|n] eqn:Hn; [by apply Hno|]. cbn [lift bind].
  assert (Hfill : forall l er w1, reads l w w1 -> buffer_ok l w1 ->
    match pre with Some l0 => l = l0 | None => w_heap w !! l = None end ->
    downs w1 l = downs w l -> exists t' out w', run (get_fill (OpTimer_init "get") ck b n l er) w1 =
      (inr (t', out), w') /\ get_outcome ck pre w out w').
  { intros l er w1 Hrs Hb Hl Hd.
    destruct (run_get_fill (OpTimer_init "get") ck b n l er w1) as (t' & out & w' & E & Ho);
      [done| |done|done|].
    - destruct Hrs as [-> _]. done.
    - eexists _, _, _. split; [exact E|]. by eapply fill_get_outcome. }
  destruct pre as [l|]; cbn [bind].
  - fold (get_fill (OpTimer_init "get") ck b n l false).
    destruct (Hfill l false (set_client w c')) as (t' & out & w' & -> & Ho); [done..|].
    by destruct (finished t').
  - rewrite run_bind. pose proof (hook_alloc b (set_client w c')) as Ha.
    destruct (run (alloc_for_read self b) (set_client w c')) as [[e|[[l|] er]] w1].
    + subst w1. by apply Hno.
    + destruct Ha as (Hom & Hfresh & m & Hm & Hmok & Hv & Hd). simpl in Hfresh.
      fold (get_fill (OpTimer_init "get") ck b n l er).
      destruct (Hfill l er w1) as (t' & out & w' & -> & Ho); [|by exists m|done| |].
      * eapply reads_trans; [|by apply only_mem_reads]. done.
      * unfold downs. by rewrite Hm, Hfresh.
      * by destruct (finished t').
    + subst w1. by apply Hno.
Qed.

(** The records a reader of [ck] takes the payload from. *)
Definition pieces (s : gmap key bins) (ck : CK) : list key :=
  match s !! mk_of to_string self ck with
  | Some b =>
      match bins_nseg b with
      | inr n => if n =? 1 then [mk_of to_string self ck] else segs_of to_string self ck n
      | inl _ => []
      end
  | None => []
  end.

(** No stored piece of the entry is empty: what a tensor needs, since torch makes no view of
    an empty buffer. *)
Definition no_empty_piece (s : gmap key bins) (ck : CK) : Prop :=
  forall k d, k ∈ pieces s ck -> seg_data s k = Some d -> d <> [].

Lemma no_empty_piece_frame s s' ck :
  (forall x, owns to_string self ck x -> s' !! x = s !! x) -> no_empty_piece s ck -> no_empty_piece s' ck.
Proof.
  intros Hs Hne x d Hx Hd. unfold pieces in Hx. rewrite (Hs (mk_of to_string self ck)) in Hx by by left.
  assert (Hown : owns to_string self ck x).
  { destruct (s !! _) as [b|]; [|by apply not_elem_of_nil in Hx].
    destruct (bins_nseg b) as [|n]; [by apply not_elem_of_nil in Hx|]. destruct (n =? 1).
    - apply list_elem_of_singleton in Hx as ->. by left.
    - by eapply segs_owned. }
  apply (Hne x d); [done|]. unfold seg_data in *. by rewrite <- (Hs x Hown).
Qed.

Lemma pieces_nonempty s ck b n ds :
  no_empty_piece s ck -> s !! mk_of to_string self ck = Some b -> bins_nseg b = inr n -> n <> 1 ->
  mapM (seg_data s) (segs_of to_string self ck n) = Some ds ->
  Forall (fun d => d <> []) ds.
Proof.
  intros Hne Hb Hn H1 Hds. apply mapM_Some_1 in Hds. apply Forall_forall. intros d Hd.
  apply list_elem_of_lookup in Hd as [i Hi]. destruct (Forall2_lookup_r _ _ _ _ _ Hds Hi) as (k & Hk & E).
  apply (Hne k); [|done]. unfold pieces. rewrite Hb, Hn, (proj2 (Z.eqb_neq _ _)) by done.
  by eapply list_elem_of_lookup_2.
Qed.

Lemma run_finish_hit t b l p (w : world C) m :
  w_heap w !! l = Some m -> exact_view m -> mem_ok m -> (length p <= room m)%nat ->
  filled m (length p) p -> crc_fits self b p = true ->
  exists t', fst (run (get_finish self t b l false (length p)) w) = inr (t', inr (Some l)).
Proof.
  intros Hm Hv Hok Hle Hp Hc. pose proof (run_get_finish t b l false p w m Hm Hv Hok Hle Hp) as Hf.
  destruct (run (get_finish _ _ _ _ _ _) w) as [[e|[t' out]] w']; [by destruct Hf|].
  rewrite Hc in Hf. destruct Hf as [_ [-> _]]. by exists t'.
Qed.

Lemma run_payload_hit t ck b n l p (w : world C) m :
  healthy (w_client w) -> w_heap w !! l = Some m -> exact_view m -> mem_ok m ->
  bins_nseg b = inr n -> payload_of to_string self (st w) ck b = Some p ->
  crc_fits self b p = true -> (length p <= room m)%nat ->
  st w !! mk_of to_string self ck = Some b ->
  mo_tensor m = false \/ no_empty_piece (st w) ck ->
  exists t', fst (run (get_payload to_string self t ck b n l false) w) = inr (t', inr (Some l)).
Proof.
  intros Hh Hm Hv Hok Hn Hp Hc Hle Hb Hne. pose proof (room_le m Hok).
  unfold get_payload. unfold payload_of in Hp. rewrite Hn in Hp.
  destruct (Z.eqb_spec n 1) as [->|En].
  - destruct (b !! "b") as [[| |data|]|] eqn:Hd; try done. injection Hp as ->.
    rewrite run_bind, run_write_payload_ok with (m := m); [|done..| |done].
    2:{ destruct Hne as [|Hne]; [by right|left]. apply (Hne (mk_of to_string self ck)).
        - unfold pieces. rewrite Hb, Hn. by apply list_elem_of_here.
        - unfold seg_data. by rewrite Hb, Hd. }
    assert (Hfit : (0 + length p <= length (mo_raw m))%nat) by lia.
    pose proof (rewritten_store 0 p m Hfit) as Hrw. unfold exact_view in *.
    apply run_finish_hit with (m := store_at 0 p m); [by apply on_mem_lookup| | | | |done].
    + unfold exact_view. by rewrite (rewritten_room _ _ _ Hrw).
    + by apply (rewritten_ok _ _ _ Hrw).
    + by rewrite (rewritten_room _ _ _ Hrw).
    + apply (filled_store m 0 [] p Hfit (filled_0 m)).
  - destruct (mapM _ _) as [ds|] eqn:Hds; [|done]. injection Hp as <-.
    cbn [trigger bind run handle]. unfold on_client.
    destruct (healthy_batch_read (segs_of to_string self ck n) ["b"] (w_client w) Hh)
      as (_ & _ & recs & E & Hrecs).
    destruct (client_batch_read _ ["b"] (w_client w)) as [r c']. simpl in E. subst r.
    cbn [lift bind]. rewrite run_bind.
    pose proof (run_read_segments_all Hbuf l (st w) recs _ 0 (set_client w c') m [] ds Hm Hok
      (filled_0 m) Hrecs Hds Hle (or_ind (fun E => or_introl E)
        (fun E => or_intror (pieces_nonempty _ _ _ _ _ E Hb Hn En Hds)) Hne)) as Hall.
    assert (Hrecs' : Forall2 (fun k r => read_hit (st w) ["b"] k r \/ read_miss r)
                       (segs_of to_string self ck n) recs).
    { eapply Forall2_impl; [exact Hrecs|]. intros k r. simpl. destruct (st w !! k); auto. }
    pose proof (run_read_segments Hbuf l (st w) recs _ 0 (set_client w c') m [] Hm Hok
      (filled_0 m) (Nat.le_0_l _) Hrecs') as Hs.
    destruct (run (read_segments l recs 0 0) _) as [r w1]. simpl in Hall.
    subst r. destruct Hs as (_ & m1 & Hm1 & Hrw & ds' & E & _ & _ & Hfill). rewrite Hds in E.
    injection E as <-. simpl in Hfill. unfold exact_view in *.
    apply run_finish_hit with (m := m1); [done| | | |done|done].
    + unfold exact_view. by rewrite (rewritten_room _ _ _ Hrw), (rw_size _ _ _ Hrw).
    + by apply (rewritten_ok _ _ _ Hrw).
    + by rewrite (rewritten_room _ _ _ Hrw).
Qed.

Lemma run_get_hit ck l p (w : world C) m :
  healthy (w_client w) -> w_heap w !! l = Some m -> exact_view m -> mem_ok m ->
  entry (st w) ck = Some p -> (length p <= room m)%nat ->
  mo_tensor m = false \/ no_empty_piece (st w) ck ->
  fst (run (get to_string self ck (Some l)) w) = inr (Some l).
Proof.
  intros Hh Hm Hv Hok He Hle Hne. unfold Store.entry in He.
  destruct (st w !! mk_of to_string self ck) as [b|] eqn:Hb; [|done].
  destruct (is_ready b) eqn:Hr; [|done].
  destruct (payload_of to_string self (st w) ck b) as [p'|] eqn:Hp; [|done].
  destruct (crc_fits self b p') eqn:Hc; [|done]. injection He as ->.
  unfold get. rewrite run_with_timer, run_bind.
  destruct (run_client_get (mk_of to_string self ck) w) as (c' & -> & Hst & ->).
  destruct (healthy_get (mk_of to_string self ck) (w_client w) Hh) as (Hh' & _ & Hg).
  rewrite Hb in Hg. rewrite Hg. unfold catch_ax. rewrite Hr. cbn [negb].
  destruct (bins_nseg b) as [e|n] eqn:Hn; [unfold payload_of in Hp; by rewrite Hn in Hp|].
  cbn [lift bind]. rewrite run_bind, run_attempt.
  assert (Hst' : st (set_client w (snd (client_get (mk_of to_string self ck) (w_client w)))) = st w)
    by done.
  set (w1 := set_client w _) in *.
  destruct (run_payload_hit (OpTimer_init "get") ck b n l p w1 m) as [t' E];
    rewrite ?Hst'; [done..|].
  destruct (run (get_payload _ _ _ _ _ _ _ _) w1) as [r w2]. simpl in E |- *. rewrite E.
  by destruct (finished t').
Qed.

(** C7: What [get] returns is the stored entry, whatever faults the cluster has.  If it returns
    an object, the object is the caller's buffer (or a new one), starts with the payload of the
    entry of that key and is still held by the caller.  Records and other objects are untouched. *)
Theorem get_sound (ck : CK) (pre : option loc) (w : world C) :
  match pre with Some l => buffer_ok l w | None => True end ->
  let '(out, w') := run (get to_string self ck pre) w in
  st w' = st w /\
  (forall l, Some l <> pre -> is_Some (w_heap w !! l) -> w_heap w' !! l = w_heap w !! l) /\
  (forall l, out = inr (Some l) ->
     match pre with Some l0 => l = l0 | None => w_heap w !! l = None end /\
     downs w' l = downs w l /\
     exists p m', entry (st w) ck = Some p /\ w_heap w' !! l = Some m' /\
       take (length p) (mo_raw m') = p).
Proof.
  intros Hpre. pose proof (run_get ck pre w Hpre) as Hg.
  destruct (run (get _ _ _ _) w) as [out w']. destruct Hg as [Hst Hg]. split; [done|].
  destruct Hg as [[-> Hno]|(l & Hl & [[_ Hfr] Hout])].
  - split; [done|]. intros l E. by apply Hno in E.
  - split.
    + intros l' Hne Hs. apply Hfr. intros ->. destruct pre; [congruence|].
      rewrite Hl in Hs. by destruct Hs.
    + intros l' ->. destruct Hout as (-> & Hd & p & m' & He & Hm' & _ & Hf).
      split_and!; [done|done|]. by exists p, m'.
Qed.

(** C24: Every object [get] allocates and does not return is released exactly once, on every
    path and under every fault, except when the meta record announces one segment and has no
    payload bin: then the object stays allocated.  An object that is returned is not released. *)
Theorem get_releases_allocation (ck : CK) (w : world C) :
  let '(out, w') := run (get to_string self ck None) w in
  forall l m', w_heap w !! l = None -> w_heap w' !! l = Some m' ->
    (out = inr (Some l) /\ mo_downs m' = 0%nat) \/
    (out <> inr (Some l) /\ mo_downs m' = 1%nat) \/
    (out = inr None /\ mo_downs m' = 0%nat /\
     exists b, st w !! mk_of to_string self ck = Some b /\ bins_nseg b = inr 1 /\ b !! "b" = None).
Proof.
  pose proof (run_get ck None w I) as Hg. destruct (run (get _ _ _ _) w) as [out w'].
  intros l m' Hl Hm'. destruct Hg as [_ [[E _]|(l0 & Hl0 & [[_ Hfr] Hout])]]; [congruence|].
  destruct (decide (l = l0)) as [->|Hne]; [|rewrite Hfr in Hm' by done; congruence].
  unfold downs in Hout. rewrite Hm', Hl in Hout.
  destruct out as [e|[l1|]].
  - right. left. done.
  - left. by destruct Hout as (-> & Hd & _).
  - destruct Hout as [Hd|[Hd Hb]]; [right; left; done|right; right; done].
Qed.

(** On a healthy cluster [get] into a buffer large enough for the entry is a hit exactly when
    the key has an entry. *)
Theorem get_hit_iff (ck : CK) (l : loc) (m : memobj) (w : world C) :
  healthy (w_client w) -> w_heap w !! l = Some m -> mem_ok m -> exact_view m ->
  mo_tensor m = false \/ no_empty_piece (st w) ck ->
  (forall p, entry (st w) ck = Some p -> (length p <= room m)%nat) ->
  fst (run (get to_string self ck (Some l)) w) = inr (Some l) <-> is_Some (entry (st w) ck).
Proof.
  intros Hh Hm Hok Hv Hne Hroom. split.
  - intros E. pose proof (run_get ck (Some l) w) as Hg.
    destruct (run (get _ _ _ _) w) as [out w']. simpl in E. subst out.
    destruct (Hg (ex_intro _ m (conj Hm (conj Hok Hv)))) as [_ [[_ Hno]|(l' & -> & _ & Hout)]].
    + by destruct (Hno l).
    + destruct Hout as (_ & _ & p & _ & -> & _). by exists p.
  - intros [p Hp]. by eapply run_get_hit; eauto.
Qed.
End get.
