(* ===== verification/Reads.v ===== *)
(** * Operations that only read

    [calm p]: no event of [p] writes to the cluster.  Such a program changes no record and leaves
    a healthy cluster healthy; every read operation of the engine is calm when the functions its
    owner hands over are. *)

From S2P Require Import Prelude PyStr Errors Sharding Config Limits Crc32 Keys.
From S2P Require Import Runtime Policies Metrics Serde Engine ClientSpec Store GetFacts.

Create HintDb calm.

(** Reads of records, memory, the clock and the metrics. *)
Definition calm_event {X} (e : ev X) : Prop :=
  match e with
  | ClientPut _ _ _ _ | ClientBatchWrite _ | ClientRemove _ | ClientOperate _ _ _ _
  | ClientTouch _ _ _ => False
  | _ => True
  end.

Inductive calm {A} : prog ev A -> Prop :=
| calm_ret a : calm (Ret a)
| calm_raise e : calm (Raise e)
| calm_vis {X} (e : ev X) k : calm_event e -> (forall x, calm (k x)) -> calm (Vis e k).

Lemma calm_bind {A B} (p : prog ev A) (f : A -> prog ev B) :
  calm p -> (forall a, calm (f a)) -> calm (bind p f).
Proof. intros Hp Hf. induction Hp; simpl; [done|constructor|by constructor]. Qed.

Lemma calm_attempt {A} (p : prog ev A) : calm p -> calm (attempt p).
Proof. intros Hp. induction Hp; simpl; by constructor. Qed.

Lemma calm_lift {A} (r : result A) : calm (lift r).
Proof. destruct r; constructor. Qed.

Lemma calm_trigger {X} (e : ev X) : calm_event e -> calm (trigger e).
Proof. intros He. constructor; [done|]. constructor. Qed.

Lemma calm_timer {A} op (body : OpTimer -> prog ev (OpTimer * result A)) :
  (forall t, calm (body t)) -> calm (with_timer op body).
Proof.
  intros Hb. unfold with_timer. apply calm_bind; [by apply calm_attempt|]. intros [e|[t out]].
  - by repeat constructor.
  - apply calm_bind; [|intros ?; apply calm_lift]. unfold finish. destruct (finished t); by repeat constructor.
Qed.

Lemma calm_traverse {A B} (f : A -> prog ev B) l : (forall x, calm (f x)) -> calm (traverse f l).
Proof.
  intros Hf. induction l as [|x l IH]; cbn [traverse]; [constructor|].
  apply calm_bind; [done|]. intros y. apply calm_bind; [done|]. intros ys. constructor.
Qed.

(** One structural step. *)
Ltac calm_step :=
  match goal with
  | |- calm (Ret _) => constructor
  | |- calm (Raise _) => constructor
  | |- calm (lift _) => apply calm_lift
  | |- calm (attempt _) => apply calm_attempt
  | |- calm (bind _ _) => apply calm_bind; [|intros ?; cbv beta]
  | |- calm (trigger _) => apply calm_trigger; exact I
  | |- calm (Vis _ _) => constructor; [exact I|intros ?; cbv beta]
  | |- calm (with_timer _ _) => apply calm_timer; intros ?
  | |- calm (traverse _ _) => apply calm_traverse; intros ?
  | |- calm (catch_ax _ _ _ _) => unfold catch_ax
  | |- calm (match ?x with _ => _ end) => destruct x
  | H : calm ?p |- calm ?p => exact H
  end.

Ltac calm := repeat (first [calm_step | solve [eauto with calm]]).

(** What a calm program does to the cluster. *)
Section run.
Context {C : Type} `{AerospikeClient C} `{!ClientSpec C} `{Env}.

Lemma calm_event_store {X} (e : ev X) (w : world C) :
  calm_event e -> store (w_client (snd (handle e w))) = store (w_client w).
Proof.
  destruct e; simpl; try done; unfold on_client; intros _.
  - pose proof (get_store k (w_client w)). by destruct (client_get _ _).
  - pose proof (select_store k names (w_client w)). by destruct (client_select _ _ _).
  - pose proof (batch_read_store ks names (w_client w)). by destruct (client_batch_read _ _ _).
  - unfold allocate_in. by destruct (lm_allocate _ _).
  - unfold reshape_in. by destruct (lm_reshape _ _).
Qed.

Lemma calm_event_healthy {X} (e : ev X) (w : world C) :
  calm_event e -> healthy (w_client w) ->
  healthy (w_client (snd (handle e w))) /\
  capacity (w_client (snd (handle e w))) = capacity (w_client w).
Proof.
  intros He Hh. destruct e; simpl in *; try done; unfold on_client.
  - pose proof (healthy_get k (w_client w) Hh) as (? & ? & _). by destruct (client_get _ _).
  - pose proof (healthy_select k names (w_client w) Hh) as (? & ? & _). by destruct (client_select _ _ _).
  - pose proof (healthy_batch_read ks names (w_client w) Hh) as (? & ? & _).
    by destruct (client_batch_read _ _ _).
  - unfold allocate_in. by destruct (lm_allocate _ _).
  - unfold reshape_in. by destruct (lm_reshape _ _).
Qed.

Lemma run_calm {A} (p : prog ev A) : calm p -> forall w : world C,
  store (w_client (snd (run p w))) = store (w_client w) /\
  (healthy (w_client w) -> healthy (w_client (snd (run p w))) /\
     capacity (w_client (snd (run p w))) = capacity (w_client w)).
Proof.
  intros Hp. induction Hp as [a|e|X e k He Hk IH]; intros w; cbn [run]; [done|done|].
  pose proof (calm_event_store e w He) as Es. pose proof (calm_event_healthy e w He) as Eh.
  destruct (handle e w) as [x w1]. destruct (IH x w1) as [Es' Eh']. cbn [snd] in *. split; [congruence|].
  intros Hh. destruct (Eh Hh) as [Hh1 Ec]. destruct (Eh' Hh1). split; [done|congruence].
Qed.
End run.

(** ** The read operations *)

Class CalmHooks (self : Engine) : Prop := {
  calm_reshape l n : calm (reshape self l n);
  calm_alloc b : calm (alloc_for_read self b)
}.

#[export] Hint Resolve calm_reshape calm_alloc : calm.

Section operations.
Context {CK : Type} (to_string : CK -> string) `{Env} (self : Engine).

Lemma write_payload_calm l v n : calm (write_payload_into l v n).
Proof. unfold write_payload_into. calm. Qed.

Lemma read_segments_calm l recs : forall total n, calm (read_segments l recs total n).
Proof.
  induction recs as [|rec recs IH]; intros total n; cbn [read_segments]; [constructor|].
  pose proof write_payload_calm. calm.
Qed.

Lemma crc_matches_calm l b n : calm (crc_matches self l b n).
Proof. unfold crc_matches. calm. Qed.

Lemma read_single_calm b mo v : calm (read_single self b mo v).
Proof. unfold read_single. pose proof write_payload_calm. pose proof crc_matches_calm. calm. Qed.

(** With a buffer of the caller the hooks are not used. *)
Lemma get_finish_calm t b l n : calm (get_finish self t b l false n).
Proof. unfold get_finish. pose proof crc_matches_calm. calm. Qed.

Lemma get_into_calm ck l : calm (get to_string self ck (Some l)).
Proof.
  unfold get, get_payload. cbn [bind]. pose proof write_payload_calm. pose proof read_segments_calm.
  pose proof get_finish_calm. calm.
Qed.

Lemma exists_calm ck : calm (exists_ to_string self ck).
Proof. unfold exists_. calm. Qed.

Lemma batched_contains_calm ks : calm (batched_contains to_string self ks).
Proof. unfold batched_contains. calm. Qed.

Lemma batched_exists_mask_calm ks : calm (batched_exists_mask to_string self ks).
Proof. unfold batched_exists_mask. calm. Qed.

Lemma read_metas_calm recs : forall (items : list (CK * loc)) i results ms,
  calm (read_metas self recs items i results ms).
Proof.
  pose proof read_single_calm.
  induction recs as [|rec recs IH]; intros [|[ck mo] items] i results ms; cbn [read_metas]; calm.
Qed.

Lemma read_multi_calm ms : forall results, calm (read_multi to_string self ms results).
Proof.
  pose proof get_into_calm.
  induction ms as [|[[i ck] mo] ms IH]; intros results; cbn [read_multi]; calm.
Qed.

Lemma get_chunk_calm items results i :
  calm (_batched_get_preallocated_chunk to_string self items results i).
Proof.
  unfold _batched_get_preallocated_chunk. pose proof read_metas_calm. pose proof read_multi_calm. calm.
Qed.

Lemma batched_get_calm items : calm (batched_get_preallocated to_string self items).
Proof.
  unfold batched_get_preallocated. destruct items as [|it items]; [constructor|].
  set (its := it :: items). apply calm_timer. intros t. apply calm_bind; [|intros [results out]; calm].
  generalize (replicate (length its) false) 0%nat.
  induction (chunks _BATCH_KEYS_CHUNK its) as [|c cs IH]; intros results n; cbn [read_chunks]; [constructor|].
  pose proof get_chunk_calm. calm.
Qed.

Context `{!CalmHooks self}.

Lemma get_calm ck pre : calm (get to_string self ck pre).
Proof.
  destruct pre as [l|]; [apply get_into_calm|]. unfold get, get_payload, get_finish.
  pose proof write_payload_calm. pose proof read_segments_calm. pose proof crc_matches_calm. calm.
Qed.
End operations.

(** The functions the connector hands to its engine. *)
#[export] Instance connector_calm `{Env} cfg scm spec r : CalmHooks (connector_engine cfg scm spec r).
Proof.
  split.
  - intros l n. unfold connector_engine, Engine_init. cbn [reshape]. unfold connector_reshape. calm.
  - intros b. unfold connector_engine, Engine_init. cbn [alloc_for_read]. unfold allocate_for_read. calm.
Qed.
