(* ===== verification/Observations.v ===== *)
(** * What the operations report to the metrics

    [every p os Q]: whatever the cluster and the memory answer, the program [p], started after the
    observations [os], ends with observations and a result that satisfy [Q].  With it the engine's
    operations are shown to report what they did. *)

From S2P Require Import Prelude PyStr Errors Sharding Config Limits Crc32 Keys.
From S2P Require Import Runtime Policies Metrics Serde Engine ClientSpec Concrete Store GetFacts.

Abbreviation observation := (string * string)%type.

Definition emitted {X} (e : ev X) : list observation :=
  match e with ObserveOp op label => [(op, label)] | _ => [] end.

Fixpoint every {A} (p : prog ev A) (os : list observation) (Q : list observation -> result A -> Prop) : Prop :=
  match p with
  | Ret a => Q os (inr a)
  | Raise e => Q os (inl e)
  | Vis e k => forall x, every (k x) (os ++ emitted e) Q
  end.

Lemma every_mono {A} (p : prog ev A) (Q Q' : list observation -> result A -> Prop) :
  (forall os r, Q os r -> Q' os r) -> forall os, every p os Q -> every p os Q'.
Proof. intros HQ. induction p as [a|e|X e k IH]; intros os; cbn [every]; [apply HQ..|]. intros Hk x. by apply IH. Qed.

Lemma every_bind {A B} (p : prog ev A) (f : A -> prog ev B) Q : forall os,
  every p os (fun os' r => match r with inr a => every (f a) os' Q | inl e => Q os' (inl e) end) ->
  every (bind p f) os Q.
Proof. induction p as [a|e|X e k IH]; intros os; cbn [every bind]; [done|done|]. intros Hk x. by apply IH. Qed.

Lemma every_attempt {A} (p : prog ev A) Q : forall os,
  every p os (fun os' r => Q os' (inr r)) -> every (attempt p) os Q.
Proof. induction p as [a|e|X e k IH]; intros os; cbn [every attempt]; [done|done|]. intros Hk x. by apply IH. Qed.

Lemma every_lift {A} (r : result A) os Q : Q os r -> every (lift r) os Q.
Proof. by destruct r. Qed.

(** The observations of a run. *)
Lemma every_run {C} `{AerospikeClient C} `{Env} {A} (p : prog ev A) Q : forall w : world C,
  every p (w_ops w) Q -> Q (w_ops (snd (run p w))) (fst (run p w)).
Proof.
  induction p as [a|e|X e k IH]; intros w; cbn [every run]; [done|done|]. intros Hk.
  assert (Ho : w_ops (snd (handle e w)) = w_ops w ++ emitted e).
  { destruct e; cbn; rewrite ?app_nil_r; try done; unfold on_client; try (by case_match).
    - unfold allocate_in. by case_match.
    - unfold reshape_in. by case_match. }
  destruct (handle e w) as [x w1]. cbn [snd] in Ho. apply IH. rewrite Ho. apply Hk.
Qed.

(** The timer observes once, when the body has not done so. *)
Lemma every_timer {A} op (body : OpTimer -> prog ev (OpTimer * result A)) os Q :
  every (body (OpTimer_init op)) os (fun os' out =>
    match out with
    | inl e => Q (os' ++ [(op, "ok")]) (inl e)
    | inr (t, r) => finished t = false /\ Q (os' ++ [(Metrics.op t, res t)]) r
    end) ->
  every (with_timer op body) os Q.
Proof.
  intros Hb. unfold with_timer. apply every_bind, every_attempt. eapply every_mono; [|exact Hb].
  intros os' [e|[t r]]; [by cbn|]. intros [Hf HQ]. unfold finish. rewrite Hf. intros x. by apply every_lift.
Qed.

(** *** Programs that report nothing *)

Definition silent {A} (p : prog ev A) : Prop := forall os, every p os (fun os' _ => os' = os).

Create HintDb silent.

Lemma silent_every {A} (p : prog ev A) os (Q : list observation -> result A -> Prop) :
  silent p -> (forall r, Q os r) -> every p os Q.
Proof. intros Hp HQ. eapply every_mono; [|apply Hp]. intros os' r ->. apply HQ. Qed.

Lemma silent_bind {A B} (p : prog ev A) (f : A -> prog ev B) :
  silent p -> (forall a, silent (f a)) -> silent (bind p f).
Proof. intros Hp Hf os. apply every_bind, silent_every; [done|]. intros [e|a]; [done|apply Hf]. Qed.

Lemma silent_attempt {A} (p : prog ev A) : silent p -> silent (attempt p).
Proof. intros Hp os. by apply every_attempt, silent_every. Qed.

Lemma silent_lift {A} (r : result A) : silent (lift r).
Proof. intros os. by apply every_lift. Qed.

Lemma silent_trigger {X} (e : ev X) : emitted e = [] -> silent (trigger e).
Proof. intros He os x. cbn. by rewrite He, app_nil_r. Qed.

Lemma silent_ret {A} (a : A) : silent (Ret a).
Proof. by intros os. Qed.

Lemma silent_raise {A} e : silent (@Raise ev A e).
Proof. by intros os. Qed.

Ltac silent_step :=
  match goal with
  | |- silent (Ret _) => apply silent_ret
  | |- silent (Raise _) => apply silent_raise
  | |- silent (lift _) => apply silent_lift
  | |- silent (attempt _) => apply silent_attempt
  | |- silent (bind _ _) => apply silent_bind; [|intros ?; cbv beta]
  | |- silent (trigger _) => apply silent_trigger; reflexivity
  | |- silent (catch_ax _ _ _ _) => unfold catch_ax
  | |- silent (match ?x with _ => _ end) => destruct x
  | H : silent ?p |- silent ?p => exact H
  end.

Ltac silent := repeat (first [silent_step | solve [eauto with silent]]).

(** What the engine's owner hands over reports nothing. *)
Class SilentHooks (self : Engine) : Prop := {
  silent_reshape l n : silent (reshape self l n);
  silent_alloc b : silent (alloc_for_read self b)
}.

#[export] Hint Resolve silent_reshape silent_alloc : silent.

#[export] Instance connector_silent `{Env} cfg scm spec r : SilentHooks (connector_engine cfg scm spec r).
Proof.
  split.
  - intros l n. unfold connector_engine, Engine_init. cbn [reshape]. unfold connector_reshape. silent.
  - intros b. unfold connector_engine, Engine_init. cbn [alloc_for_read]. unfold allocate_for_read. silent.
Qed.

#[export] Instance l2_silent `{Env} cfg r : SilentHooks (build_engine_l2 cfg r).
Proof. split; intros *; cbn; silent. Qed.

(** One step through a program whose next part reports nothing. *)
Ltac quietly := apply every_bind, silent_every; [silent|intros [?|?]; cbv beta iota].

Section operations.
Context {CK : Type} (to_string : CK -> string) `{Env} (self : Engine) `{!SilentHooks self}.

Lemma write_payload_silent l v n : silent (write_payload_into l v n).
Proof. unfold write_payload_into. silent. Qed.

Lemma crc_matches_silent l b n : silent (crc_matches self l b n).
Proof. unfold crc_matches. silent. Qed.

Lemma read_segments_silent l recs : forall total n, silent (read_segments l recs total n).
Proof.
  induction recs as [|rec recs IH]; intros total n; cbn [read_segments]; [silent|].
  pose proof write_payload_silent. silent.
Qed.

Lemma put_io_silent ck l p bs ttl wp : silent (put_io to_string self ck l p bs ttl wp).
Proof. unfold put_io. silent. Qed.

Lemma meta_bins_silent p l scm crc pinned : silent (meta_bins p l scm crc pinned).
Proof. unfold meta_bins, build_remote_metadata. silent. Qed.

(** What the body of a timed operation hands to the timer. *)
Definition body_says {A} (op : string) (P : string -> result A -> Prop) (out : result (OpTimer * result A)) : Prop :=
  match out with
  | inl e => P "ok" (inl e)
  | inr (t, r) => finished t = false /\ Metrics.op t = op /\ P (res t) r
  end.

Lemma every_timed {A} op (body : OpTimer -> prog ev (OpTimer * result A)) os P :
  every (body (OpTimer_init op)) os (fun os' out => os' = os /\ body_says op P out) ->
  every (with_timer op body) os (fun os' r => exists label, os' = os ++ [(op, label)] /\ P label r).
Proof.
  intros Hb. apply every_timer. eapply every_mono; [|exact Hb]. intros os' out [-> Hs].
  destruct out as [e|[t r]]; [by eexists|]. destruct Hs as (Hf & <- & HP). split; [done|]. by eexists.
Qed.

Abbreviation reports op P := (fun os os' out => os' = os /\ body_says op P out).

Lemma reports_ret {A} op (P : string -> result A -> Prop) label r os :
  P label r -> every (Ret (set_result label (OpTimer_init op), r)) os (reports op P os).
Proof. done. Qed.

Lemma reports_raise {A} op (P : string -> result A -> Prop) e os :
  P "ok" (inl e) -> every (Raise e) os (reports op P os).
Proof. done. Qed.

Lemma reports_quiet {A B} op (P : string -> result A -> Prop) (p : prog ev B) f os :
  silent p -> (forall e, P "ok" (inl e)) -> (forall b, every (f b) os (reports op P os)) ->
  every (bind p f) os (reports op P os).
Proof. intros Hp He Hf. apply every_bind, silent_every; [done|]. intros [e|b]; [by apply (reports_raise op P)|apply Hf]. Qed.

(** *** [exists] and [get] *)

Definition exists_says (label : string) (r : result bool) : Prop :=
  (label = "hit" <-> r = inr true) /\ (r = inr false -> label = "miss" \/ label = "timeout").

Definition get_says (label : string) (r : result (option loc)) : Prop :=
  (label = "hit" <-> exists l, r = inr (Some l)) /\ (r = inr None -> label = "miss" \/ label = "timeout").

Lemma exception_label_hit e : exception_label e <> "hit".
Proof. unfold exception_label. by destruct (classify e). Qed.

Lemma exists_says_miss label : label = "miss" \/ label = "timeout" -> exists_says label (inr false).
Proof. intros Hl. split; [|done]. split; [by destruct Hl as [->| ->]|done]. Qed.

Lemma exists_says_error label e : label <> "hit" -> exists_says label (inl e).
Proof. intros Hl. by split. Qed.

Lemma get_says_error label e : label <> "hit" -> get_says label (inl e).
Proof. intros Hl. split; [|done]. split; [done|]. by intros [l ?]. Qed.

Lemma get_says_miss label : label = "miss" \/ label = "timeout" -> get_says label (inr None).
Proof. intros Hl. split; [|done]. split; [by destruct Hl as [->| ->]|]. by intros [l ?]. Qed.

Lemma get_says_hit l : get_says "hit" (inr (Some l)).
Proof. split; [|done]. split; [by exists l|done]. Qed.

Lemma exists_reports ck os :
  every (exists_ to_string self ck) os
    (fun os' r => exists label, os' = os ++ [("exists", label)] /\ exists_says label r).
Proof.
  apply every_timed. apply reports_quiet; [silent|by intros e; apply exists_says_error|]. intros [e|b]; unfold catch_ax.
  - destruct (isinstance e RecordNotFound); [apply reports_ret, exists_says_miss; by left|].
    destruct (isinstance e AerospikeError); [|by apply reports_raise, exists_says_error].
    destruct (bool_decide _); [apply reports_ret, exists_says_miss; by right|].
    apply reports_ret, exists_says_error, exception_label_hit.
  - by apply reports_ret.
Qed.

Lemma get_ok_error e : get_says "ok" (inl e).
Proof. by apply get_says_error. Qed.

Lemma get_miss os : every (Ret (set_result "miss" (OpTimer_init "get"), inr None)) os (reports "get" get_says os).
Proof. apply reports_ret, get_says_miss. by left. Qed.

Lemma get_finish_reports b l er n os :
  every (get_finish self (OpTimer_init "get") b l er n) os (reports "get" get_says os).
Proof.
  unfold get_finish. pose proof crc_matches_silent. apply reports_quiet; [silent|apply get_ok_error|]. intros [].
  - apply reports_quiet; [silent|apply get_ok_error|]. intros mo. apply reports_ret, get_says_hit.
  - apply reports_quiet; [silent|apply get_ok_error|]. intros _. apply get_miss.
Qed.

Lemma get_payload_reports ck b n l er os :
  every (get_payload to_string self (OpTimer_init "get") ck b n l er) os (reports "get" get_says os).
Proof.
  unfold get_payload. pose proof write_payload_silent. pose proof read_segments_silent. destruct (n =? 1).
  - destruct (b !! "b"); [|apply get_miss].
    apply reports_quiet; [silent|apply get_ok_error|]. intros m. apply get_finish_reports.
  - apply reports_quiet; [silent|apply get_ok_error|]. intros r.
    apply reports_quiet; [silent|apply get_ok_error|]. intros recs.
    apply reports_quiet; [silent|apply get_ok_error|]. intros [total|]; [apply get_finish_reports|apply get_miss].
Qed.

Lemma get_reports ck pre os :
  every (get to_string self ck pre) os
    (fun os' r => exists label, os' = os ++ [("get", label)] /\ get_says label r).
Proof.
  apply every_timed. apply reports_quiet; [silent|apply get_ok_error|]. intros [e|b]; unfold catch_ax.
  - destruct (isinstance e RecordNotFound); [apply get_miss|].
    destruct (isinstance e AerospikeError); [|by apply reports_raise, get_says_error].
    destruct (bool_decide _); [apply reports_ret, get_says_miss; by right|].
    destruct (bool_decide _); [by apply reports_ret, get_says_error|].
    apply reports_ret, get_says_error, exception_label_hit.
  - destruct (is_ready b); cbn [negb]; [|apply get_miss].
    apply reports_quiet; [silent|apply get_ok_error|]. intros n.
    apply reports_quiet; [silent|apply get_ok_error|]. intros [[l|] er]; [|apply get_miss].
    apply every_bind, every_attempt. eapply every_mono; [|apply get_payload_reports].
    intros os' out [-> Hs]. destruct out as [e|out]; [|done].
    apply reports_quiet; [silent|apply get_ok_error|]. intros _. by apply reports_ret, get_says_error.
Qed.

(** *** Writes, lookups and batches *)

Definition ok_says {A} (label : string) (r : result A) : Prop := forall a, r = inr a -> label = "ok".

Lemma ok_says_error {A} label e : ok_says label (@inl exc A e).
Proof. intros a [=]. Qed.

(** At most the report of a [put], which is "ok" when it returns. *)
Definition put_reported (os os' : list observation) (r : result unit) : Prop :=
  (os' = os /\ r <> inr tt) \/ exists label, os' = os ++ [("put", label)] /\ ok_says label r.

Lemma put_except_reports {A} op_name op e os :
  every (@put_except A op_name (OpTimer_init op) e) os (reports op ok_says os).
Proof.
  unfold put_except. repeat case_match; (apply reports_ret || apply reports_raise); apply ok_says_error.
Qed.

Lemma put_reports ck l pinned os : every (put to_string self ck l pinned) os (put_reported os).
Proof.
  assert (Hno : forall e, put_reported os os (inl e)) by (intros e; by left).
  unfold put. pose proof meta_bins_silent. pose proof put_io_silent.
  quietly; [done|]. quietly; [done|]. quietly; [done|]. quietly; [done|]. quietly; [done|].
  eapply every_mono; [intros os' r Hr; right; exact Hr|]. apply every_timed.
  apply reports_quiet; [silent|intros ?; apply ok_says_error|]. intros [e|[]]; [apply put_except_reports|].
  by apply reports_ret.
Qed.

(** Only reports of [op], any number. *)
Definition only (op : string) (os os' : list observation) : Prop :=
  exists more, os' = os ++ more /\ Forall (fun o => fst o = op) more.

#[local] Instance only_preorder op : PreOrder (only op).
Proof.
  split.
  - intros os. exists []. by rewrite app_nil_r.
  - intros a b c (m & -> & Hm) (n & -> & Hn). exists (m ++ n). rewrite app_assoc. split; [done|]. by apply Forall_app.
Qed.

Definition mentions {A} (op : string) (p : prog ev A) : Prop := forall os, every p os (fun os' _ => only op os os').

Lemma silent_mentions {A} op (p : prog ev A) : silent p -> mentions op p.
Proof. intros Hp os. apply silent_every; done. Qed.

Lemma mentions_bind {A B} op (p : prog ev A) (f : A -> prog ev B) :
  mentions op p -> (forall a, mentions op (f a)) -> mentions op (bind p f).
Proof.
  intros Hp Hf os. apply every_bind. eapply every_mono; [|apply Hp]. intros os' [e|a] Ho; [done|].
  eapply every_mono; [|apply Hf]. intros os2 r Ho2. cbn in *. by etrans.
Qed.

Lemma mentions_attempt {A} op (p : prog ev A) : mentions op p -> mentions op (attempt p).
Proof. intros Hp os. apply every_attempt. eapply every_mono; [|apply Hp]. done. Qed.

Lemma mentions_traverse {A B} op (f : A -> prog ev B) l : (forall a, mentions op (f a)) -> mentions op (traverse f l).
Proof.
  intros Hf. induction l as [|a l IH]; cbn [traverse]; [apply silent_mentions; silent|].
  apply mentions_bind; [done|]. intros b. apply mentions_bind; [done|]. intros bs. apply silent_mentions. silent.
Qed.

Lemma put_mentions ck l pinned : mentions "put" (put to_string self ck l pinned).
Proof.
  intros os. eapply every_mono; [|apply put_reports]. intros os' r [[-> _]|(label & -> & _)]; [done|].
  exists [("put", label)]. split; [done|]. by repeat constructor.
Qed.

Lemma get_mentions ck pre : mentions "get" (get to_string self ck pre).
Proof.
  intros os. eapply every_mono; [|apply get_reports]. intros os' r (label & -> & _).
  exists [("get", label)]. split; [done|]. by repeat constructor.
Qed.

Lemma put_chunk_mentions items pinned : mentions "put" (_batched_put_chunk to_string self items pinned).
Proof.
  unfold _batched_put_chunk. apply mentions_bind; [apply silent_mentions; silent|]. intros wp.
  apply mentions_bind.
  { apply mentions_traverse. intros it. unfold plan_item. pose proof meta_bins_silent. apply silent_mentions. silent. }
  intros plans. case_match; [|apply silent_mentions; silent].
  apply mentions_traverse. intros [[it p] bs]. unfold put_item.
  apply mentions_bind; [apply mentions_attempt, put_mentions|]. intros r. apply silent_mentions. silent.
Qed.

Lemma read_metas_silent recs : forall (items : list (CK * loc)) i results ms,
  silent (read_metas self recs items i results ms).
Proof.
  pose proof write_payload_silent. pose proof crc_matches_silent.
  induction recs as [|rec recs IH]; intros [|[ck mo] items] i results ms; cbn [read_metas]; unfold read_single; silent.
Qed.

Lemma read_multi_mentions ms : forall results, mentions "get" (read_multi to_string self ms results).
Proof.
  induction ms as [|[[i ck] mo] ms IH]; intros results; cbn [read_multi]; [apply silent_mentions; silent|].
  apply mentions_bind; [apply mentions_attempt, get_mentions|].
  intros [e|[l|]]; [apply silent_mentions; silent|apply IH..].
Qed.

Lemma read_chunks_mentions cs : forall results i, mentions "get" (read_chunks to_string self cs results i).
Proof.
  pose proof read_metas_silent as Hm. pose proof read_multi_mentions as Hr.
  induction cs as [|c cs IH]; intros results i; cbn [read_chunks]; [apply silent_mentions; silent|].
  apply mentions_bind.
  - unfold _batched_get_preallocated_chunk. apply mentions_bind; [apply silent_mentions; silent|].
    intros [e|recs]; [apply silent_mentions; silent|]. apply mentions_bind; [apply silent_mentions, Hm|].
    intros [[rs ms] [e|[]]]; [apply silent_mentions; silent|apply Hr].
  - intros [rs [e|[]]]; [apply silent_mentions; silent|apply IH].
Qed.

(** A batch reports its single operations, then itself. *)
Definition batch_reported {A} (op inner : string) (P : string -> result A -> Prop) (os os' : list observation)
    (r : result A) : Prop :=
  exists mid label, only inner os mid /\ os' = mid ++ [(op, label)] /\ P label r.

Lemma every_batch {A B} op inner P (p : prog ev B) (f : OpTimer -> B -> prog ev (OpTimer * result A)) os :
  mentions inner p -> (forall e, P "ok" (inl e)) ->
  (forall b os, every (f (OpTimer_init op) b) os (reports op P os)) ->
  every (with_timer op (fun t => bind p (f t))) os (batch_reported op inner P os).
Proof.
  intros Hp He Hf. apply every_timer, every_bind. eapply every_mono; [|apply Hp]. intros mid r Ho. cbn in Ho.
  destruct r as [e|b].
  - exists mid, "ok". by split_and!.
  - eapply every_mono; [|apply Hf]. intros os' out [-> Hs]. destruct out as [e|[t r]].
    + exists mid, "ok". by split_and!.
    + destruct Hs as (Hfin & <- & HP). split; [done|]. by exists mid, (res t).
Qed.

(** A batched read that returns reports "ok", or the fault it turned into an answer. *)
Definition said {A} (fault : string) (label : string) (r : result A) : Prop :=
  forall a, r = inr a -> label = "ok" \/ label = fault.

Lemma said_error {A} fault label e : said fault label (@inl exc A e).
Proof. intros a [=]. Qed.

Lemma batched_put_reports items pinned os : items <> [] ->
  every (batched_put to_string self items pinned) os (batch_reported "batched_put" "put" ok_says os).
Proof.
  intros Hne. destruct items as [|it items]; [done|]. unfold batched_put. apply every_batch.
  - apply mentions_attempt, mentions_traverse. intros c. apply put_chunk_mentions.
  - intros e. apply ok_says_error.
  - intros [e|rs] os'; [apply put_except_reports|by apply reports_ret].
Qed.

Lemma batched_get_reports items os : items <> [] ->
  every (batched_get_preallocated to_string self items) os (batch_reported "batched_get" "get" (said "timeout") os).
Proof.
  intros Hne. destruct items as [|it items]; [done|]. unfold batched_get_preallocated.
  set (its := it :: items). apply every_batch; [apply read_chunks_mentions|intros e; apply said_error|].
  intros [rs [e|[]]] os'; [|apply reports_ret; by left].
  destruct (isinstance e AerospikeError); [|apply reports_raise, said_error].
  destruct (bool_decide _); [apply reports_ret; by right|].
  destruct (bool_decide _); apply reports_ret, said_error.
Qed.

Lemma remove_silent ck : silent (remove to_string self ck).
Proof. unfold remove, remove_nseg, remove_segments. silent. Qed.

Lemma unpin_silent ck : silent (unpin to_string self ck).
Proof. unfold unpin. silent. Qed.

Lemma pin_keys_silent ks : silent (pin_keys to_string self ks).
Proof. unfold pin_keys, _pin_keys_batch. silent. Qed.
End operations.

Section reports.
Context {CK : Type} (to_string : CK -> string) `{Env} (self : Engine) `{!SilentHooks self}.
Context {C : Type} `{AerospikeClient C}.

(** A run of [p] reports once, and [P] relates the label to the result. *)
Definition reports_once {A} (op : string) (P : string -> result A -> Prop) (p : prog ev A) (w : world C) : Prop :=
  let '(r, w') := run p w in exists label, w_ops w' = w_ops w ++ [(op, label)] /\ P label r.

Lemma every_once {A} op (P : string -> result A -> Prop) (p : prog ev A) (w : world C) :
  every p (w_ops w) (fun os' r => exists label, os' = w_ops w ++ [(op, label)] /\ P label r) -> reports_once op P p w.
Proof. intros Hp%every_run. unfold reports_once. by destruct (run p w). Qed.

(** Whether the one request of a lookup fails. *)
Definition request_fails (ks : list CK) (w : world C) : bool :=
  match ks, fst (client_batch_read (mk_of to_string self <$> ks) [] (w_client w)) with
  | _ :: _, inl _ => true
  | _, _ => false
  end.

(** A lookup that answers says "ok", or "error" when its request failed and the answer is the miss. *)
Definition lookup_says {A} (miss : A) (fails : bool) (label : string) (r : result A) : Prop :=
  forall a, r = inr a -> if fails then label = "error" /\ a = miss else label = "ok".

Lemma contains_says ks (w : world C) :
  reports_once "batched_contains" (lookup_says 0 (request_fails ks w)) (batched_contains to_string self ks) w.
Proof.
  unfold reports_once, batched_contains, request_fails. rewrite run_with_timer. destruct ks as [|k ks].
  { exists "ok". by split. }
  cbn [trigger bind run handle]. unfold on_client. destruct (client_batch_read _ _ _) as [[e|recs] c']; cbn [fst].
  - destruct (isinstance e AerospikeError); eexists; (split; [reflexivity|]); [by intros a [= <-]|done].
  - by exists "ok".
Qed.

Lemma mask_says ks (w : world C) :
  reports_once "batched_exists" (lookup_says (replicate (length ks) false) (request_fails ks w))
    (batched_exists_mask to_string self ks) w.
Proof.
  unfold reports_once, batched_exists_mask, request_fails. rewrite run_with_timer. destruct ks as [|k ks].
  { exists "ok". by split. }
  cbn [trigger bind run handle]. unfold on_client. destruct (client_batch_read _ _ _) as [[e|recs] c']; cbn [fst].
  - destruct (isinstance e AerospikeError); eexists; (split; [reflexivity|]); [by intros a [= <-]|done].
  - by exists "ok".
Qed.

End reports.

(** A lookup and a batched write over a cluster that loses its second answer. *)
Definition report_engine : Engine := build_engine_l2 demo_config demo_limits.
Definition report_start : world MemClient :=
  demo_world ∅ 65536 [Served; Lost FTimeout] [buffer false (lit "0123456789")].


(** A lookup whose request times out says "error", and [get] says "timeout". *)
Theorem timed_out_lookup_says_error :
  let w := demo_world ∅ 65536 [Refused FTimeout; Refused FTimeout] [] in
  let '(n, w1) := run (batched_contains (fun s : string => s) report_engine ["k"]) w in
  let '(o, w2) := run (get (fun s : string => s) report_engine "k" None) w1 in
  n = inr 0 /\ o = inr None /\ w_ops w2 = [("batched_contains", "error"); ("get", "timeout")].
Proof. vm_compute. done. Qed.
