(* ===== verification/PutFacts.v ===== *)
(** * Writing an entry ([engine.put])

    [put] against any client that satisfies [ClientSpec]: segments first and the meta record
    last, so that the entry changes only with the meta record; what a healthy cluster stores;
    which exceptions leave the engine. *)

From S2P Require Import Prelude PyStr Errors Sharding Config Limits Crc32 Keys.
From S2P Require Import Runtime Policies Metrics Serde Engine ClientSpec Store GetFacts Concrete.

(** ** Cutting a payload into segments *)

Lemma slices_concat {A} (v : list A) sb n :
  0 <= sb -> 0 <= n ->
  concat ((fun i => slice (Z.to_nat (i * sb)) (Z.to_nat sb) v) <$> seqZ 0 n) =
    take (Z.to_nat (n * sb)) v.
Proof.
  intros Hs Hn. pattern n. apply natlike_ind; [done| |done]. clear n Hn. intros n Hn IH.
  rewrite <- Z.add_1_r, seqZ_app, fmap_app, concat_app, IH by lia.
  change (seqZ (0 + n) 1) with [0 + n]. cbn [fmap list_fmap concat]. rewrite app_nil_r.
  unfold slice. rewrite Z.add_0_l.
  replace (Z.to_nat ((n + 1) * sb)) with (Z.to_nat (n * sb) + Z.to_nat sb)%nat by nia.
  apply take_take_drop.
Qed.

(** The segments of a payload. *)
Definition cut (p : ShardPlan) (v : bytes) : list bytes :=
  (fun i => slice (Z.to_nat (i * seg_b p)) (Z.to_nat (seg_b p)) v) <$> seqZ 0 (nseg p).

Lemma cut_concat p v : plan_ok (Z.of_nat (length v)) p -> concat (cut p v) = v.
Proof.
  intros [Hpos Hcov _ Hsb _]. unfold cut. rewrite slices_concat by lia. apply take_ge. lia.
Qed.

Lemma cut_nonempty p v :
  plan_ok (Z.of_nat (length v)) p -> v <> [] -> Forall (fun d => d <> []) (cut p v).
Proof.
  intros [Hpos Hcov Htight Hsb _] Hv. unfold cut. rewrite Forall_fmap. apply Forall_forall.
  intros i Hi%elem_of_seqZ E. apply (f_equal length) in E. simpl in E. rewrite length_slice in E.
  destruct v as [|x v]; [done|]. specialize (Htight ltac:(simpl; lia)).
  cbn [length] in *. nia.
Qed.

Section put.
Context {C : Type} `{AerospikeClient C} `{!ClientSpec C} `{Env}.
Context {CK : Type} (to_string : CK -> string) `{!Inj (=) (=) to_string} (self : Engine).

Abbreviation mk_of := (mk_of to_string self).
Abbreviation segs_of := (segs_of to_string self).
Abbreviation entry := (entry to_string self).
Abbreviation owns := (owns to_string self).
Abbreviation st w := (store (w_client w)).

(** ** The bins of the meta record *)

(** Bytes of the serialized metadata. *)
Definition md_size (scm : bool) (n : Z) (s : MemSpec) : Z :=
  if scm then match lm_serialize n s with inr b => Z.of_nat (length b) | inl _ => 0 end else 0.

Lemma run_meta_bins p l scm pinned (w : world C) m :
  w_heap w !! l = Some m ->
  match run (meta_bins p l scm (enable_crc32 (cfg self)) pinned) w with
  | (inr bs, w') => w' = w /\ meta_written self p (byte_array m) bs /\
      payload_size bs =
        md_size scm (Z.of_nat (length (byte_array m))) (mo_spec m) +
        (if nseg p =? 1 then Z.of_nat (length (byte_array m)) else 0)
  | (inl e, w') => w' = w /\ scm = true /\
      lm_serialize (Z.of_nat (length (byte_array m))) (mo_spec m) = inl e
  end.
Proof.
  intros Hm. unfold meta_bins, build_remote_metadata, md_size. cbn [trigger bind run handle].
  rewrite (mem_lookup _ _ _ Hm).
  destruct scm; cbn [trigger bind run handle];
    rewrite ?(mem_lookup _ _ _ Hm);
    [destruct (lm_serialize _ _) as [e|md]; cbn [lift bind run]; [done|]|];
    (split; [done|]); destruct (Z.eqb_spec (nseg p) 1) as [E|E], (enable_crc32 (cfg self)) eqn:Ec;
    (split; [split; [done|done|done|done| |]; intros; done || congruence|]);
    unfold payload_size; simpl; lia.
Qed.

(** ** Segments *)

(** The records of a committed write: the meta record merged with its bins, the segments
    holding the payload. *)
Definition committed (ck : CK) (p : ShardPlan) (payload : bytes) (bs : bin_list)
    (s s' : gmap key bins) : Prop :=
  s' !! mk_of ck = Some (merged (s !! mk_of ck) bs) /\
  (nseg p <> 1 -> mapM (seg_data s') (segs_of ck (nseg p)) = Some (cut p payload)).

Lemma committed_entry ck p payload bs s s' :
  plan_ok (Z.of_nat (length payload)) p -> meta_written self p payload bs ->
  committed ck p payload bs s s' -> entry s' ck = Some payload.
Proof.
  intros Hp Hw [Hm Hs]. eapply entry_written; [done..|]. intros Hn. rewrite Hs by done.
  cbn [fmap option_fmap option_map]. by rewrite cut_concat.
Qed.

Lemma committed_nonempty ck p payload bs s s' :
  plan_ok (Z.of_nat (length payload)) p -> meta_written self p payload bs ->
  committed ck p payload bs s s' -> payload <> [] -> no_empty_piece to_string self s' ck.
Proof.
  intros Hp Hw [Hm Hs] Hne k d Hk Hd. unfold pieces in Hk.
  rewrite Hm, (meta_written_nseg _ _ _ _ _ Hw) in Hk. destruct (Z.eqb_spec (nseg p) 1) as [E|E].
  - apply list_elem_of_singleton in Hk as ->. unfold seg_data in Hd.
    rewrite Hm, (merged_named _ _ _ _ (mw_b _ _ _ _ Hw E)) in Hd. congruence.
  - specialize (Hs E). apply mapM_Some_1 in Hs. pose proof (cut_nonempty p payload Hp Hne) as Hall.
    apply list_elem_of_lookup in Hk as [i Hi].
    destruct (Forall2_lookup_l _ _ _ _ _ Hs Hi) as (d' & Hd' & E'). rewrite E' in Hd.
    injection Hd as ->. exact (Forall_lookup_1 _ _ _ _ Hall Hd').
Qed.

Lemma check_segments_ok codes :
  check_segments codes = inr tt -> Forall (fun c => c = 0) codes.
Proof.
  induction codes as [|c codes IH]; simpl; [constructor|].
  destruct (Z.eqb_spec c AEROSPIKE_OK); [|done]. constructor; auto.
Qed.

Lemma segment_write_keys ck view sb ttl wp n :
  batch_key <$> (segment_write to_string self ck view sb ttl wp <$> seqZ 0 n) = segs_of ck n.
Proof. rewrite <- list_fmap_compose. done. Qed.

(** A batch of segment writes whose codes are all 0 leaves the payload in the segments. *)
Lemma segments_written ck view p ttl wp codes (c c' : C) :
  plan_ok (Z.of_nat (length view)) p ->
  Forall2 (fun op code => code = 0 -> applied store op c c')
    (segment_write to_string self ck view (seg_b p) ttl wp <$> seqZ 0 (nseg p)) codes ->
  Forall (fun z => z = 0) codes ->
  mapM (seg_data (store c')) (segs_of ck (nseg p)) = Some (cut p view).
Proof.
  intros [Hpos Hcov _ Hsb _] Happ Hzero.
  assert (Hall : Forall (fun op => applied store op c c')
    (segment_write to_string self ck view (seg_b p) ttl wp <$> seqZ 0 (nseg p))).
  { eapply Forall2_Forall_l; [exact Happ|]. eapply Forall_impl; [exact Hzero|]. simpl. auto. }
  apply mapM_Some_2. unfold Engine.segs_of, segment_keys, cut.
  apply Forall2_fmap_2, Forall_Forall2_diag.
  rewrite Forall_fmap in Hall. eapply Forall_impl; [exact Hall|]. intros i Hi.
  unfold seg_data. change (segment_key _ _ _ i) with (seg_of to_string self ck i).
  rewrite Hi, (merged_named _ _ "b" (BBytes (slice (Z.to_nat (i * seg_b p))
    (Z.to_nat (seg_b p)) view))); [done|]. by destruct (enable_crc32 (cfg self)).
Qed.

(** ** [put] under faults *)

(** What is known when the writes of [put] have ended, in whatever way: only records of the key
    have changed, and the meta record is the old one unless everything is in place. *)
Definition put_outcome (ck : CK) (p : ShardPlan) (payload : bytes) (bs : bin_list)
    (w : world C) (ok : Prop) (w' : world C) : Prop :=
  w_heap w' = w_heap w /\
  (forall k, ~ owns ck k -> st w' !! k = st w !! k) /\
  (st w' !! mk_of ck = st w !! mk_of ck \/ committed ck p payload bs (st w) (st w')) /\
  (ok -> committed ck p payload bs (st w) (st w')).

(** The last request: the meta record, over segments that are in place. *)
Lemma run_put_meta ck p payload bs ttl wp (w w1 : world C) :
  w_heap w1 = w_heap w -> (forall k, ~ owns ck k -> st w1 !! k = st w !! k) ->
  st w1 !! mk_of ck = st w !! mk_of ck ->
  (nseg p <> 1 -> mapM (seg_data (st w1)) (segs_of ck (nseg p)) = Some (cut p payload)) ->
  let '(r, w') := run (let! r := trigger (ClientPut (mk_of ck) bs ttl wp) in lift r) w1 in
  put_outcome ck p payload bs w (r = inr tt) w'.
Proof.
  intros Hh Hfr Hm Hsegs. cbn [trigger bind run handle]. unfold on_client.
  pose proof (put_frame (mk_of ck) bs ttl wp (w_client w1)) as Hpf.
  pose proof (put_ok (mk_of ck) bs ttl wp (w_client w1)) as Hok.
  pose proof (put_doubt (mk_of ck) bs ttl wp (w_client w1)) as Hd.
  destruct (client_put _ _ _ _ (w_client w1)) as [r c']. simpl in *.
  unfold untouched, written in *.
  assert (Hcom : store c' !! mk_of ck = Some (merged (st w1 !! mk_of ck) bs) ->
                 committed ck p payload bs (st w) (store c')).
  { intros E. split; [by rewrite E, Hm|]. intros Hn. rewrite <- Hsegs by done.
    apply mapM_ext_elem. intros k (i & Hi & ->)%elem_of_segs. unfold seg_data.
    rewrite Hpf; [done|]. symmetry. apply mk_of_seg_of. lia. }
  rewrite run_lift. split_and!; [done| | |].
  - intros k Hk. simpl. rewrite Hpf; [by apply Hfr|]. intros ->. apply Hk. by left.
  - simpl. destruct Hd as [Hd|Hd]; [left; congruence|right; auto].
  - simpl. auto.
Qed.

(** The batch of segment writes: no other record changes, and codes that are all 0 mean the
    payload is in place. *)
Lemma segment_batch ck view p ttl wp (c : C) :
  plan_ok (Z.of_nat (length view)) p ->
  let '(r, c') := client_batch_write
    (segment_write to_string self ck view (seg_b p) ttl wp <$> seqZ 0 (nseg p)) c in
  (forall k, k ∉ segs_of ck (nseg p) -> store c' !! k = store c !! k) /\
  (forall codes, r = inr codes -> check_segments codes = inr tt ->
     mapM (seg_data (store c')) (segs_of ck (nseg p)) = Some (cut p view)).
Proof.
  intros Hp. set (ops := segment_write _ _ _ _ _ _ _ <$> _).
  assert (Hkeys : batch_key <$> ops = segs_of ck (nseg p)) by apply segment_write_keys.
  pose proof (batch_write_frame ops c) as Hfr. pose proof (batch_write_ok ops c) as Hok.
  rewrite Hkeys in Hfr, Hok. unfold untouched in Hfr.
  destruct (client_batch_write ops c) as [r c'] eqn:Ec. simpl in Hfr, Hok. split; [exact Hfr|].
  intros codes -> Hc. apply check_segments_ok in Hc. eapply segments_written; [done| |done].
  apply (Hok codes); [apply segment_keys_NoDup|done].
Qed.

Lemma mk_not_seg ck ck' n : mk_of ck ∉ segs_of ck' n.
Proof. intros (i & Hi & E)%elem_of_segs. eapply mk_of_seg_of; [|exact E]. lia. Qed.

Lemma run_put_io ck l p bs ttl wp (w : world C) m :
  w_heap w !! l = Some m -> plan_ok (Z.of_nat (length (byte_array m))) p ->
  let '(r, w') := run (put_io to_string self ck l p bs ttl wp) w in
  put_outcome ck p (byte_array m) bs w (r = inr tt) w'.
Proof.
  intros Hm Hp. unfold put_io. destruct (Z.eqb_spec (nseg p) 1) as [E|E].
  { by apply run_put_meta. }
  cbn [trigger bind run handle]. rewrite (mem_lookup _ _ _ Hm). unfold on_client.
  pose proof (segment_batch ck (byte_array m) p ttl wp (w_client w) Hp) as Hb.
  destruct (client_batch_write _ (w_client w)) as [r c']. destruct Hb as [Hfr Hok].
  assert (Hmeta : store c' !! mk_of ck = st w !! mk_of ck) by apply Hfr, mk_not_seg.
  assert (Hframe : forall k, ~ owns ck k -> store c' !! k = st w !! k).
  { intros k Hk. apply Hfr. intros Hs. by apply Hk, (segs_owned to_string self ck (nseg p)). }
  assert (Hfail : forall P : Prop, ~ P -> put_outcome ck p (byte_array m) bs w P (set_client w c'))
    by (intros P HP; split_and!; [done|done|by left|done]).
  destruct r as [e|codes]; [by apply Hfail|]. cbn [lift bind].
  destruct (check_segments codes) as [e|[]] eqn:Hc; [by apply Hfail|]. cbn [lift bind].
  apply run_put_meta; [done..|]. intros _. by apply (Hok codes).
Qed.

(** An exception that is not one of the client library's. *)
Definition not_client (e : exc) : Prop := isinstance e AerospikeError = false.

Lemma plan_error p t mx mn s e : plan p t mx mn s = inl e -> not_client e.
Proof.
  unfold plan, ceildiv, floordiv. intros Hp. repeat (case_match; simplify_eq; try done).
Qed.

Lemma write_policy_error cfg e : write_policy cfg = inl e -> not_client e.
Proof.
  unfold write_policy, _commit_level, _key_policy, _policy_const. intros Hp.
  repeat (case_match; simplify_eq; try done).
Qed.

Lemma run_put_except {A} op t e (w : world C) :
  exists r, run (@put_except A op t e) w = (r, w) /\
    match r with
    | inr (_, inr _) => False
    | inr (_, inl e') => not_client e'
    | inl e' => not_client e'
    end.
Proof.
  unfold put_except. destruct (isinstance e RecordTooBig); [by eexists|].
  destruct (isinstance e AerospikeError) eqn:Ei; [|by eexists].
  destruct (classify e) eqn:Ec; try (by eexists); eexists; (split; [reflexivity|]);
    apply isinstance_map.
Qed.

(** The outcome of a whole [put] of the object [m]. *)
Definition stored (ck : CK) (payload : bytes) (s s' : gmap key bins) : Prop :=
  exists p bs, plan_ok (Z.of_nat (length payload)) p /\ meta_written self p payload bs /\
    committed ck p payload bs s s'.

Definition put_post (ck : CK) (payload : bytes) (w : world C) (r : result unit) (w' : world C)
    : Prop :=
  w_heap w' = w_heap w /\
  (forall k, ~ owns ck k -> st w' !! k = st w !! k) /\
  (st w' !! mk_of ck = st w !! mk_of ck \/ stored ck payload (st w) (st w')) /\
  (r = inr tt -> stored ck payload (st w) (st w')).

Definition target_ok : Prop := 0 < r_target_segment_bytes (resolved self).

(** The serializer of LMCache raises none of the client's exceptions. *)
Definition serializer_ok : Prop := forall n s e, lm_serialize n s = inl e -> not_client e.

Lemma run_put ck l pinned (w : world C) m :
  w_heap w !! l = Some m -> target_ok ->
  let '(r, w') := run (put to_string self ck l pinned) w in
  put_post ck (byte_array m) w r w' /\
  (forall e, r = inl e -> serializer_ok -> not_client e).
Proof.
  intros Hm Ht. unfold put. cbn [trigger bind run handle]. rewrite (mem_lookup _ _ _ Hm).
  set (total := Z.of_nat (length (byte_array m))).
  assert (Hsame : forall e w', not_client e -> w_heap w' = w_heap w -> st w' = st w ->
    put_post ck (byte_array m) w (inl e) w' /\
    (forall e', inl e = (inl e' : result unit) -> serializer_ok -> not_client e')).
  { intros e w' He Eh Es. split; [|congruence]. unfold put_post. rewrite Eh, Es.
    split_and!; [done|done|by left|done]. }
  destruct (resolved_plan _ total) as [e|p] eqn:Ep; cbn [lift bind].
  { apply Hsame; [by eapply plan_error|done..]. }
  assert (Hp : plan_ok total p) by (eapply plan_sound; [|exact Ht|exact Ep]; lia).
  cbn [trigger bind run handle]. set (w1 := mkWorld _ _ _ _ _).
  destruct (write_policy (cfg self)) as [e|wp] eqn:Ew; cbn [lift bind].
  { apply Hsame; [by eapply write_policy_error|done..]. }
  rewrite run_bind. pose proof (run_meta_bins p l (save_chunk_meta self) pinned w1 m Hm) as Hb.
  destruct (run (meta_bins _ _ _ _ _) w1) as [[e|bs] w2].
  { destruct Hb as (-> & _ & He). split; [|intros ? [= <-] Hs; by eapply Hs].
    split_and!; [done|done|by left|done]. }
  destruct Hb as (-> & Hw & _). rewrite run_with_timer, run_bind, run_attempt.
  pose proof (run_put_io ck l p bs (_ttl_value self pinned) wp w1 m Hm Hp) as Hio.
  destruct (run (put_io _ _ _ _ _ _ _ _) w1) as [r w3].
  destruct Hio as (Eh & Hfr & Hd & Hok). cbn [fst snd].
  assert (Hstored : committed ck p (byte_array m) bs (st w1) (st w3) ->
                    stored ck (byte_array m) (st w) (st w3)) by (intros Hc; by exists p, bs).
  assert (Hpost : forall r' lb, (r' = inr tt -> r = inr tt) ->
    put_post ck (byte_array m) w r' (observed "put" lb w3)).
  { intros r' lb Hr. split_and!; [done|done| |auto]. destruct Hd as [Hd|Hd]; [by left|right; auto]. }
  destruct r as [e|[]].
  - destruct (run_put_except (A := unit) "put" (OpTimer_init "put") e w3) as (r & Hr & He).
    assert (Hop : forall t' out, r = inr (t', out) -> finished t' = false /\ op t' = "put").
    { intros t' out ->. revert Hr. unfold put_except. repeat case_match; intros [=]; by subst. }
    rewrite Hr. destruct r as [e'|[t' [e'|[]]]]; [| |done].
    + split; [by apply Hpost|]. by intros ? [= <-].
    + destruct (Hop t' _ eq_refl) as [-> ->]. split; [by apply Hpost|]. by intros ? [= <-].
  - split; [by apply Hpost|done].
Qed.

(** ** [put] on a healthy cluster *)

(** The cluster answers and takes records of [capacity] bytes. *)
Definition steady (w w' : world C) : Prop :=
  healthy (w_client w') /\ capacity (w_client w') = capacity (w_client w).

Lemma run_put_meta_healthy ck bs ttl wp (w : world C) :
  healthy (w_client w) -> payload_size bs <= capacity (w_client w) ->
  let '(r, w') := run (let! r := trigger (ClientPut (mk_of ck) bs ttl wp) in lift r) w in
  r = inr tt /\ steady w w'.
Proof.
  intros Hh Hb. cbn [trigger bind run handle]. unfold on_client.
  destruct (healthy_put (mk_of ck) bs ttl wp (w_client w) Hh Hb) as (H1 & H2 & H3).
  destruct (client_put _ _ _ _ (w_client w)) as [r c']. simpl in *. subst r. done.
Qed.

Lemma segment_size view ck sb ttl wp i :
  match segment_write to_string self ck view sb ttl wp i with
  | BWrite _ l _ _ => payload_size l <= Z.max 0 sb
  | BRemove _ => True
  end.
Proof.
  unfold segment_write, payload_size. cbn [snd].
  pose proof (length_slice (Z.to_nat (i * sb)) (Z.to_nat sb) view).
  destruct (enable_crc32 (cfg self)); simpl; lia.
Qed.

Lemma check_segments_writes ck view sb ttl wp js codes (P : key -> Prop) :
  Forall2 (fun op code => match op with BWrite _ _ _ _ => code = 0 | BRemove k => P k end)
    (segment_write to_string self ck view sb ttl wp <$> js) codes ->
  check_segments codes = inr tt.
Proof.
  revert codes. induction js as [|i js IH]; intros codes Hf;
    inversion Hf as [|? ? ? ? Hi Hjs]; subst; [done|].
  cbn in Hi. subst. exact (IH l' Hjs).
Qed.

Lemma run_put_io_healthy ck l p bs ttl wp (w : world C) m :
  w_heap w !! l = Some m -> healthy (w_client w) -> 0 <= seg_b p <= capacity (w_client w) ->
  payload_size bs <= capacity (w_client w) ->
  let '(r, w') := run (put_io to_string self ck l p bs ttl wp) w in r = inr tt /\ steady w w'.
Proof.
  intros Hm Hh Hs Hb. unfold put_io. destruct (nseg p =? 1).
  { by apply run_put_meta_healthy. }
  cbn [trigger bind run handle]. rewrite (mem_lookup _ _ _ Hm). unfold on_client.
  set (ops := segment_write _ _ _ _ _ _ _ <$> _).
  assert (Hops : Forall (fun op => match op with
                   | BWrite _ l _ _ => payload_size l <= capacity (w_client w)
                   | BRemove _ => True end) ops).
  { unfold ops. rewrite Forall_fmap. apply Forall_true. intros i. simpl.
    pose proof (segment_size (byte_array m) ck (seg_b p) ttl wp i) as Hi. simpl in Hi. lia. }
  destruct (healthy_batch_write ops (w_client w) Hh Hops) as (Hh' & Hc' & codes & Er & Hcodes).
  destruct (client_batch_write ops (w_client w)) as [r c']. simpl in *. subst r.
  cbn [lift bind]. apply check_segments_writes in Hcodes as Hok.
  rewrite Hok. cbn [lift bind].
  pose proof (run_put_meta_healthy ck bs ttl wp (set_client w c') Hh') as Hp.
  cbn [w_client set_client] in Hp. rewrite Hc' in Hp. specialize (Hp Hb).
  destruct (run _ (set_client w c')) as [r w']. destruct Hp as [-> [Hh2 Hc2]].
  split; [done|]. split; [done|]. cbn [w_client set_client] in Hc2. congruence.
Qed.

(** The largest record the limits allow fits the cluster's capacity with its metadata. *)
Definition fits (m : memobj) (w : world C) : Prop :=
  0 <= r_max_segment_bytes (resolved self) /\
  r_max_segment_bytes (resolved self) +
    md_size (save_chunk_meta self) (Z.of_nat (length (byte_array m))) (mo_spec m)
    <= capacity (w_client w).

Lemma md_size_nonneg scm n s : 0 <= md_size scm n s.
Proof. unfold md_size. destruct scm; [|lia]. destruct (lm_serialize n s); lia. Qed.

Definition serializable (m : memobj) : Prop :=
  save_chunk_meta self = true ->
  exists b, lm_serialize (Z.of_nat (length (byte_array m))) (mo_spec m) = inr b.

(** What [put] and the batched put need of an entry on a healthy cluster. *)
Definition limits_fit : Prop :=
  limits_ok (r_target_segment_bytes (resolved self)) (r_max_segment_bytes (resolved self)).

(** Planning such an entry succeeds, and every record it writes fits the cluster. *)
Lemma plan_and_bins_fit l pinned (w : world C) m :
  limits_fit -> fits m w -> serializable m ->
  exists p, resolved_plan (resolved self) (Z.of_nat (length (byte_array m))) = inr p /\
    0 <= seg_b p <= capacity (w_client w) /\
    forall w1 : world C, w_heap w1 !! l = Some m ->
      exists bs, run (meta_bins p l (save_chunk_meta self) (enable_crc32 (cfg self)) pinned) w1 = (inr bs, w1) /\
        payload_size bs <= capacity (w_client w).
Proof.
  intros Hl [Hmx Hfit] Hser. set (total := Z.of_nat (length (byte_array m))) in *.
  assert (Htot : 0 <= total) by lia.
  destruct (plan_total total _ _ (r_min_segment_bytes (resolved self))
    (r_single_record_threshold_bytes (resolved self)) Htot Hl) as [p Ep].
  destruct (plan_sound _ _ _ _ _ Htot _ (proj1 Hl) Ep) as [Hp Hseg].
  pose proof (md_size_nonneg (save_chunk_meta self) total (mo_spec m)) as Hmd.
  assert (Hsegb : 0 <= seg_b p <= r_max_segment_bytes (resolved self)).
  { pose proof (plan_single _ _ Hp). pose proof (plan_seg_nonneg _ _ Hp).
    destruct (Z.eq_dec total 0) as [E|E]; [|assert (0 < total) by lia; lia]. unfold plan in Ep. rewrite E in Ep.
    injection Ep as <-. simpl. lia. }
  exists p. split_and!; [exact Ep|lia|lia|]. intros w1 Hm.
  pose proof (run_meta_bins p l (save_chunk_meta self) pinned w1 m Hm) as Hb.
  destruct (run (meta_bins _ _ _ _ _) w1) as [[e|bs] w2].
  { destruct Hb as (_ & Hs & He). destruct (Hser Hs) as [b Hb]. congruence. }
  destruct Hb as (-> & _ & Hsize). exists bs. split; [done|]. rewrite Hsize. fold total.
  destruct (Z.eqb_spec (nseg p) 1) as [E|E]; [|lia]. pose proof (plan_single _ _ Hp E). lia.
Qed.

Lemma run_put_healthy ck l pinned (w : world C) m wp :
  w_heap w !! l = Some m -> healthy (w_client w) -> limits_fit ->
  write_policy (cfg self) = inr wp -> fits m w -> serializable m ->
  let '(r, w') := run (put to_string self ck l pinned) w in r = inr tt /\ steady w w'.
Proof.
  intros Hm Hh Hl Hwp Hf Hser. destruct (plan_and_bins_fit l pinned w m Hl Hf Hser) as (p & Ep & Hsb & Hbins).
  unfold put. cbn [trigger bind run handle]. rewrite (mem_lookup _ _ _ Hm), Ep.
  cbn [lift bind trigger run handle]. rewrite Hwp. cbn [lift bind]. set (w1 := mkWorld _ _ _ _ _).
  rewrite run_bind. destruct (Hbins w1 Hm) as (bs & -> & Hbs). rewrite run_with_timer, run_bind, run_attempt.
  pose proof (run_put_io_healthy ck l p bs (_ttl_value self pinned) wp w1 m Hm Hh Hsb Hbs) as Hio.
  destruct (run (put_io _ _ _ _ _ _ _ _) w1) as [r w3].
  destruct Hio as [-> Hst]. simpl. split; [done|]. exact Hst.
Qed.

(** ** Properties *)

Lemma stored_entry ck payload s s' : stored ck payload s s' -> entry s' ck = Some payload.
Proof. intros (p & bs & Hp & Hw & Hc). by eapply committed_entry. Qed.

Lemma stored_nonempty ck payload s s' :
  stored ck payload s s' -> payload <> [] -> no_empty_piece to_string self s' ck.
Proof. intros (p & bs & Hp & Hw & Hc). by eapply committed_nonempty. Qed.

(** The entry of a key is [p], its meta record is well formed, and no piece of it is empty unless it is. *)
Definition kept (s : gmap key bins) (ck : CK) (p : bytes) : Prop :=
  entry s ck = Some p /\ (p <> [] -> no_empty_piece to_string self s ck) /\
  exists b, s !! mk_of ck = Some b /\ wf_meta b.

Lemma stored_kept ck payload s s' : stored ck payload s s' -> kept s' ck payload.
Proof.
  intros Hst. split; [by eapply stored_entry|]. split; [by apply (stored_nonempty _ _ _ _ Hst)|].
  destruct Hst as (p & bs & Hp & Hw & [Hm _]). eexists. split; [exact Hm|]. eapply meta_written_wf; [exact Hw|apply Hp].
Qed.

Lemma kept_frame ck p s s' : (forall x, owns ck x -> s' !! x = s !! x) -> kept s ck p -> kept s' ck p.
Proof.
  intros Hs (He & Hne & b & Hb & Hwf). split; [rewrite <- He; by apply entry_frame|]. split.
  - intros Hp. by apply (no_empty_piece_frame to_string self s s' ck Hs), Hne.
  - exists b. split; [|done]. rewrite Hs; [done|by left].
Qed.

(** C6: [put] is atomic for a reader of a new key, under any fault of the cluster.  However it
    ends, the entries of other keys are the same; a return means the key now has the payload;
    and a key that had no meta record has no entry or the whole payload afterwards.  The client
    library's own exceptions never leave [put]. *)
Theorem put_atomic (ck : CK) (l : loc) (pinned : bool) (w : world C) (m : memobj) :
  w_heap w !! l = Some m -> target_ok ->
  let '(r, w') := run (put to_string self ck l pinned) w in
  (forall ck', ck' <> ck -> entry (st w') ck' = entry (st w) ck') /\
  (r = inr tt -> entry (st w') ck = Some (byte_array m)) /\
  (st w !! mk_of ck = None ->
     entry (st w') ck = None \/ entry (st w') ck = Some (byte_array m)) /\
  (forall e, r = inl e -> serializer_ok -> not_client e).
Proof.
  intros Hm Ht. pose proof (run_put ck l pinned w m Hm Ht) as Hput.
  destruct (run (put _ _ _ _ _) w) as [r w']. destruct Hput as [(_ & Hfr & Hd & Hok) He].
  split_and!; [|intros Hr; by eapply stored_entry, Hok| |done].
  - intros ck' Hne. by apply entry_frame_other with (ck := ck).
  - intros Hnone. destruct Hd as [Hd|Hd]; [left|right; by eapply stored_entry].
    unfold Store.entry. by rewrite Hd, Hnone.
Qed.

(** On a healthy cluster whose records can hold what the limits allow, [put] returns and
    acts on the cache as the insertion of the payload in a map: the key's entry becomes the
    payload, whatever was there, and every other entry stays. *)
Theorem put_refines_insert (ck : CK) (l : loc) (pinned : bool) (w : world C) (m : memobj)
    (wp : policy) :
  w_heap w !! l = Some m -> healthy (w_client w) ->
  limits_ok (r_target_segment_bytes (resolved self)) (r_max_segment_bytes (resolved self)) ->
  write_policy (cfg self) = inr wp -> fits m w -> serializable m ->
  let '(r, w') := run (put to_string self ck l pinned) w in
  r = inr tt /\ steady w w' /\ w_heap w' = w_heap w /\
  entry (st w') ck = Some (byte_array m) /\
  forall ck', ck' <> ck -> entry (st w') ck' = entry (st w) ck'.
Proof.
  intros Hm Hh Hl Hwp Hf Hs. pose proof (run_put ck l pinned w m Hm (proj1 Hl)) as Hput.
  pose proof (run_put_healthy ck l pinned w m wp Hm Hh Hl Hwp Hf Hs) as Hhp.
  destruct (run (put _ _ _ _ _) w) as [r w']. destruct Hhp as [-> Hst].
  destruct Hput as [(Eh & Hfr & Hd & Hok) _].
  split_and!; [done..|by eapply stored_entry, Hok|].
  intros ck' Hne. by apply entry_frame_other with (ck := ck).
Qed.

(** Round trip: after a [put] that returned, [get] of the same key into any buffer with room
    for the payload returns that buffer, and the buffer starts with the payload. *)
Theorem put_get_roundtrip `{!EngineHooks C self} (ck : CK) (l dst : loc) (pinned : bool)
    (w : world C) (m d : memobj) (wp : policy) :
  frombuffer_ok -> w_heap w !! l = Some m -> healthy (w_client w) ->
  limits_ok (r_target_segment_bytes (resolved self)) (r_max_segment_bytes (resolved self)) ->
  write_policy (cfg self) = inr wp -> fits m w -> serializable m ->
  w_heap w !! dst = Some d -> mem_ok d -> exact_view d ->
  (length (byte_array m) <= room d)%nat -> mo_tensor d = false \/ byte_array m <> [] ->
  let '(r, w') := run (put to_string self ck l pinned ;; get to_string self ck (Some dst)) w in
  r = inr (Some dst) /\
  exists d', w_heap w' !! dst = Some d' /\
    take (length (byte_array m)) (mo_raw d') = byte_array m.
Proof.
  intros Hbuf Hm Hh Hl Hwp Hf Hs Hdst Hdok Hdv Hroom Hne. rewrite run_bind.
  pose proof (run_put ck l pinned w m Hm (proj1 Hl)) as Hput.
  pose proof (run_put_healthy ck l pinned w m wp Hm Hh Hl Hwp Hf Hs) as Hhp.
  destruct (run (put _ _ _ _ _) w) as [r w1]. destruct Hhp as [-> [Hh1 _]].
  destruct Hput as [(Eh & _ & _ & Hok) _]. specialize (Hok eq_refl).
  pose proof (stored_entry _ _ _ _ Hok) as He. rewrite <- Eh in Hdst.
  assert (Hne' : mo_tensor d = false \/ no_empty_piece to_string self (st w1) ck)
    by (destruct Hne as [|Hne]; [by left|right; by eapply stored_nonempty]).
  pose proof (run_get_hit to_string self Hbuf ck dst _ w1 d Hh1 Hdst Hdv Hdok He Hroom Hne') as Hhit.
  pose proof (run_get to_string self Hbuf ck (Some dst) w1) as Hg.
  destruct (run (get _ _ _ _) w1) as [r w']. simpl in Hhit. subst r. split; [done|].
  destruct (Hg (ex_intro _ d (conj Hdst (conj Hdok Hdv)))) as [_ [[_ Hno]|(l' & -> & _ & Ho)]].
  - by destruct (Hno dst).
  - destruct Ho as (_ & _ & p & d' & He' & Hd' & _ & Hp). rewrite He in He'. injection He' as <-.
    by exists d'.
Qed.
End put.

(** ** Witnesses: a payload of ten bytes in segments of four, with checksums *)

Definition demo_engine : Engine := build_engine_l2 demo_config demo_limits.
Definition demo_str (s : string) : string := s.

#[global] Instance demo_str_inj : Inj (=) (=) demo_str.
Proof. by intros ?? ?. Qed.

Definition demo_policy : policy :=
  [("total_timeout", 2000); ("socket_timeout", 2000); ("commit_level", 0); ("key", 0);
   ("exists", 0); ("gen", 0); ("max_retries", 0)].

Definition demo_source : memobj := buffer false (lit "0123456789").
Definition demo_target : memobj := buffer true (lit "............").
Definition demo_start : world MemClient := demo_world ∅ 65536 [] [demo_source; demo_target].

Lemma demo_target_ok : mem_ok demo_target /\ exact_view demo_target.
Proof. split; [unfold mem_ok; simpl; lia|done]. Qed.

Lemma demo_limits_ok :
  limits_ok (r_target_segment_bytes (resolved demo_engine)) (r_max_segment_bytes (resolved demo_engine)).
Proof. split; simpl; lia. Qed.

(** The answer to the meta record's write is lost. *)
Definition demo_lost : world MemClient :=
  demo_world ∅ 65536 [Served; Lost FTimeout] [demo_source].

Lemma put_atomic_witness :
  let w' := snd (run (put demo_str demo_engine "k" 0 false) demo_lost) in
  fst (run (put demo_str demo_engine "k" 0 false) demo_lost) =
    inl (Conn AerospikeConnectorError "put") /\
  (entry demo_str demo_engine (store (w_client w')) "k" = None \/
   entry demo_str demo_engine (store (w_client w')) "k" = Some (lit "0123456789")).
Proof.
  split; [vm_compute; reflexivity|].
  pose proof (put_atomic demo_str demo_engine "k" 0 false demo_lost demo_source eq_refl eq_refl) as Hp.
  destruct (run _ _) as [r w']. apply Hp. vm_compute. reflexivity.
Defined.

Lemma put_refines_insert_witness :
  let '(r, w') := run (put demo_str demo_engine "k" 0 false) demo_start in
  r = inr tt /\ entry demo_str demo_engine (store (w_client w')) "k" = Some (lit "0123456789").
Proof.
  pose proof (put_refines_insert demo_str demo_engine "k" 0 false demo_start demo_source demo_policy
    eq_refl eq_refl demo_limits_ok eq_refl) as Hp.
  destruct (run _ _) as [r w']. destruct Hp as (Hr & _ & _ & He & _).
  - split; [discriminate|]. vm_compute. discriminate.
  - intros [=].
  - split; [exact Hr|exact He].
Defined.

Lemma put_get_roundtrip_witness :
  fst (run (put demo_str demo_engine "k" 0 false ;; get demo_str demo_engine "k" (Some 1%nat))
         demo_start) = inr (Some 1%nat).
Proof.
  pose proof (put_get_roundtrip demo_str demo_engine "k" 0 1 false demo_start demo_source demo_target
    demo_policy demo_frombuffer_ok eq_refl eq_refl demo_limits_ok eq_refl) as Hp.
  destruct (run _ _) as [r w']. apply Hp.
  - split; [discriminate|]. vm_compute. discriminate.
  - intros [=].
  - reflexivity.
  - apply demo_target_ok.
  - apply demo_target_ok.
  - vm_compute. repeat constructor.
  - right. discriminate.
Defined.

(** The world after the put. *)
Definition demo_after : world MemClient :=
  snd (run (put demo_str demo_engine "k" 0 false) demo_start).

Lemma demo_target_buffer : buffer_ok 1 demo_after.
Proof. exists demo_target. split; [vm_compute; reflexivity|apply demo_target_ok]. Qed.

Lemma get_sound_witness :
  fst (run (get demo_str demo_engine "k" (Some 1%nat)) demo_after) = inr (Some 1%nat) /\
  exists p, entry demo_str demo_engine (store (w_client demo_after)) "k" = Some p.
Proof.
  split; [vm_compute; reflexivity|].
  pose proof (get_sound demo_str demo_engine demo_frombuffer_ok "k" (Some 1%nat) demo_after
    demo_target_buffer) as Hg.
  assert (E : fst (run (get demo_str demo_engine "k" (Some 1%nat)) demo_after) = inr (Some 1%nat))
    by (vm_compute; reflexivity).
  destruct (run _ _) as [out w']. destruct Hg as (_ & _ & Hhit).
  destruct (Hhit 1%nat E) as (_ & _ & p & _ & Hp & _). exists p. exact Hp.
Defined.

(** The same records, with a plain byte buffer to read into. *)
Definition demo_plain : memobj := buffer false (lit "............").

Definition demo_reader : world MemClient :=
  demo_world (store (w_client demo_after)) 65536 [] [demo_source; demo_plain].

Lemma get_hit_iff_witness :
  fst (run (get demo_str demo_engine "k" (Some 1%nat)) demo_reader) = inr (Some 1%nat).
Proof.
  refine (proj2 (get_hit_iff demo_str demo_engine demo_frombuffer_ok "k" 1 demo_plain demo_reader
    eq_refl eq_refl _ eq_refl (or_introl eq_refl) _) _).
  - unfold mem_ok. vm_compute. repeat constructor.
  - intros p Hp. assert (E : entry demo_str demo_engine (store (w_client demo_reader)) "k" =
      Some (lit "0123456789")) by (vm_compute; reflexivity).
    rewrite E in Hp. injection Hp as <-. vm_compute. repeat constructor.
  - exists (lit "0123456789"). vm_compute. reflexivity.
Defined.

(** The engine of a connector that stores the shape with each record. *)
Definition demo_connector : Engine := connector_engine demo_config true (demo_spec 12) demo_limits.

Lemma demo_lmcache_ok : lmcache_ok.
Proof.
  split.
  - intros s h m [= <-]. unfold mem_ok, exact_view, room. simpl. split_and!; [lia|done|done].
  - intros m n m'. simpl. unfold demo_reshape. destruct (_ <=? _); [|done]. by intros [= <-].
Qed.

#[global] Instance demo_connector_hooks : EngineHooks MemClient demo_connector :=
  connector_hooks _ _ _ _ demo_lmcache_ok.

Lemma get_releases_allocation_witness :
  let '(out, w') := run (get demo_str demo_connector "k" None)
    (demo_world (store (w_client demo_after)) 65536 [Served; Refused FConnection] [demo_source]) in
  forall m', w_heap w' !! 1%nat = Some m' -> mo_downs m' = 0%nat \/ mo_downs m' = 1%nat.
Proof.
  pose proof (get_releases_allocation demo_str demo_connector demo_frombuffer_ok "k"
    (demo_world (store (w_client demo_after)) 65536 [Served; Refused FConnection] [demo_source])) as Hg.
  destruct (run _ _) as [out w']. intros m' Hm'.
  destruct (Hg 1%nat m' eq_refl Hm') as [[_ H]|[[_ H]|(_ & H & _)]]; tauto.
Defined.
