(* ===== verification/KeyOps.v ===== *)
(** * Lookup, pinning and removal ([engine.exists], [batched_contains], [batched_exists_mask],
      [pin_keys], [unpin], [pin], [remove]) *)

From S2P Require Import Prelude PyStr Errors Sharding Config Limits Crc32 Keys.
From S2P Require Import Runtime Policies Metrics Serde Engine ClientSpec Store GetFacts Concrete PutFacts.

Section keyops.
Context {C : Type} `{AerospikeClient C} `{!ClientSpec C} `{Env}.
Context {CK : Type} (to_string : CK -> string) `{!Inj (=) (=) to_string} (self : Engine).

Abbreviation mk_of := (mk_of to_string self).
Abbreviation segs_of := (segs_of to_string self).
Abbreviation entry := (entry to_string self).
Abbreviation owns := (owns to_string self).
Abbreviation st w := (store (w_client w)).

(** The key has a meta record, ready or not: what the lookups look at. *)
Definition present (s : gmap key bins) (ck : CK) : Prop := is_Some (s !! mk_of ck).

#[export] Instance present_dec s ck : Decision (present s ck).
Proof. unfold present. apply _. Defined.

Lemma entry_present s ck p : entry s ck = Some p -> present s ck.
Proof. unfold Store.entry, present. destruct (s !! mk_of ck); [eauto|done]. Qed.

(** ** [exists] *)

Lemma run_exists ck (w : world C) :
  let '(r, w') := run (exists_ to_string self ck) w in
  st w' = st w /\ w_heap w' = w_heap w /\ (r = inr true -> present (st w) ck) /\
  (forall e, r = inl e -> not_client e) /\
  (healthy (w_client w) -> steady w w' /\ r = inr (bool_decide (present (st w) ck))).
Proof.
  unfold exists_. rewrite run_with_timer. cbn [trigger bind run handle]. unfold on_client.
  pose proof (select_store (mk_of ck) ["state"] (w_client w)) as Hst.
  pose proof (select_ok (mk_of ck) ["state"] (w_client w)) as Hok.
  pose proof (healthy_select (mk_of ck) ["state"] (w_client w)) as Hh.
  destruct (client_select _ _ (w_client w)) as [[e|b] c']; simpl in *; unfold catch_ax.
  - assert (Hhealthy : healthy (w_client w) -> isinstance e RecordNotFound = true /\
      st w !! mk_of ck = None /\ healthy c' /\ capacity c' = capacity (w_client w)).
    { intros Hw. destruct (Hh Hw) as (H1 & H2 & H3). destruct (store (w_client w) !! mk_of ck) eqn:E; [done|].
      destruct H3 as (e' & [= <-] & H3). done. }
    destruct (isinstance e RecordNotFound) eqn:Er; cbn.
    + split_and!; [done|done|done|done|]. intros Hw. destruct (Hhealthy Hw) as (_ & E & ? & ?).
      split; [done|]. rewrite bool_decide_false; [done|]. intros [? Hp]. congruence.
    + assert (Hno : healthy (w_client w) -> False) by (intros Hw; by destruct (Hhealthy Hw)).
      destruct (isinstance e AerospikeError) eqn:Ea.
      * destruct (bool_decide _); cbn; split_and!; try done; try (intros Hw; by destruct (Hno Hw)).
        intros e' [= <-]. apply isinstance_map.
      * cbn. split_and!; [done|done|done| |intros Hw; by destruct (Hno Hw)]. by intros e' [= <-].
  - destruct (Hok b eq_refl) as (full & Hfull & _).
    split_and!; [done|done|by eexists|done|]. intros Hw. destruct (Hh Hw) as (H1 & H2 & _).
    split; [done|]. rewrite bool_decide_true; [done|]. by exists full.
Qed.

(** ** [batched_contains] and [batched_exists_mask] *)

(** How a batch read of meta keys answers: a code 0 means the record is there. *)
Definition answers (s : gmap key bins) (ks : list CK) (recs : list batch_rec) : Prop :=
  Forall2 (fun ck r => br_result r = 0 -> present s ck) ks recs.

Definition exact_answers (s : gmap key bins) (ks : list CK) (recs : list batch_rec) : Prop :=
  Forall2 (fun ck r => br_result r = 0 <-> present s ck) ks recs.

Lemma run_meta_batch names ks (w : world C) :
  let '(r, c') := client_batch_read (mk_of <$> ks) names (w_client w) in
  store c' = st w /\
  (forall recs, r = inr recs -> answers (st w) ks recs) /\
  (healthy (w_client w) -> steady w (set_client w c') /\
     exists recs, r = inr recs /\ exact_answers (st w) ks recs).
Proof.
  pose proof (batch_read_store (mk_of <$> ks) names (w_client w)) as Hst.
  pose proof (batch_read_ok (mk_of <$> ks) names (w_client w)) as Hok.
  pose proof (healthy_batch_read (mk_of <$> ks) names (w_client w)) as Hh.
  destruct (client_batch_read _ _ _) as [r c']; simpl in *. split_and!; [done| |].
  - intros recs ->. specialize (Hok recs eq_refl). rewrite Forall2_fmap_l in Hok.
    eapply Forall2_impl; [exact Hok|]. intros ck rec [(_ & b & Hb & _)|Hm] Hz; [by exists b|done].
  - intros Hw. destruct (Hh Hw) as (H1 & H2 & recs & -> & Hrecs). split; [done|].
    exists recs. split; [done|]. rewrite Forall2_fmap_l in Hrecs.
    eapply Forall2_impl; [exact Hrecs|]. intros ck rec. simpl. unfold present.
    destruct (store (w_client w) !! mk_of ck).
    + intros [Hz _]. split; eauto.
    + intros Hm. split; [done|by intros [? ?]].
Qed.

(** [n] is the length of a prefix of [ks] whose keys are all present; the longest one when
    [exact]. *)
Definition present_prefix (s : gmap key bins) (ks : list CK) (n : Z) : Prop :=
  0 <= n <= Z.of_nat (length ks) /\ Forall (present s) (take (Z.to_nat n) ks).

Lemma count_prefix_spec s ks recs (k : Z) :
  answers s ks recs -> exists n, count_prefix recs k = k + n /\ present_prefix s ks n /\
    (exact_answers s ks recs -> forall ck, ks !! Z.to_nat n = Some ck -> ~ present s ck).
Proof.
  intros Ha. revert k. induction Ha as [|ck r ks recs Hr Ha IH]; intros k; simpl.
  - exists 0. split_and!; [lia|split; [simpl; lia|constructor]|done].
  - destruct (Z.eqb_spec (br_result r) AEROSPIKE_OK) as [Hz|Hz]; cbn [negb].
    + destruct (IH (k + 1)) as (n & -> & [Hn Hp] & Hex). exists (1 + n).
      split_and!; [lia| |].
      * split; [cbn [length]; lia|]. rewrite Z2Nat.inj_add by lia. simpl. by constructor; auto.
      * intros Hea. inversion Hea; subst. rewrite Z2Nat.inj_add by lia. simpl. auto.
    + exists 0. split_and!; [lia|split; [simpl; lia|constructor]|].
      intros Hea ck' [= <-] Hpr. inversion Hea as [|? ? ? ? Hiff]; subst. by apply Hz, Hiff.
Qed.

Lemma run_batched_contains (ks : list CK) (w : world C) :
  let '(r, w') := run (batched_contains to_string self ks) w in
  st w' = st w /\ w_heap w' = w_heap w /\
  (forall n, r = inr n -> present_prefix (st w) ks n) /\
  (forall e, r = inl e -> not_client e) /\
  (healthy (w_client w) -> steady w w' /\ exists n, r = inr n /\
     forall ck, ks !! Z.to_nat n = Some ck -> ~ present (st w) ck).
Proof.
  unfold batched_contains. rewrite run_with_timer. destruct ks as [|ck ks].
  { cbn. split_and!; [done|done| |done|intros; split; [by split|by eexists]]. intros n [= <-]. split; [simpl; lia|constructor]. }
  pose proof (run_meta_batch [] (ck :: ks) w) as Hb. cbn [trigger bind run handle].
  unfold on_client. destruct (client_batch_read _ _ _) as [[e|recs] c'];
    destruct Hb as (Hst & Hok & Hh).
  - destruct (isinstance e AerospikeError) eqn:Ea; cbn.
    + split_and!; [done|done| |done|]; [intros n [= <-]; split; [simpl; lia|constructor]|].
      intros Hw. by destruct (Hh Hw) as (_ & ? & ? & _).
    + split_and!; [done|done|done|by intros e' [= <-]|].
      intros Hw. by destruct (Hh Hw) as (_ & ? & ? & _).
  - destruct (count_prefix_spec (st w) (ck :: ks) recs 0) as (n & -> & Hp & Hex); [by apply Hok|].
    cbn. split_and!; [done|done|by intros ? [= <-]|done|].
    intros Hw. destruct (Hh Hw) as ([? ?] & recs' & [= <-] & Hea). split; [by split|].
    exists n. split; [done|]. auto.
Qed.

(** [batched_contains] returns the length of a prefix of the keys that are all present,
    whatever the cluster does, and raises none of the client's exceptions; on a healthy cluster
    it is the longest such prefix.  Records and objects are untouched. *)
Theorem batched_contains_prefix (ks : list CK) (w : world C) :
  let '(r, w') := run (batched_contains to_string self ks) w in
  st w' = st w /\ w_heap w' = w_heap w /\
  (forall n, r = inr n -> present_prefix (st w) ks n) /\
  (forall e, r = inl e -> not_client e) /\
  (healthy (w_client w) -> exists n, r = inr n /\
     forall ck, ks !! Z.to_nat n = Some ck -> ~ present (st w) ck).
Proof.
  pose proof (run_batched_contains ks w) as Hc. destruct (run _ w) as [r w'].
  destruct Hc as (Hst & Hh & Hp & He & Hw). split_and!; [done..|]. intros Hhe. by apply Hw.
Qed.

Lemma exact_mask s ks recs :
  exact_answers s ks recs ->
  (fun rec => br_result rec =? AEROSPIKE_OK) <$> recs = (fun ck => bool_decide (present s ck)) <$> ks.
Proof.
  intros Hea. induction Hea as [|ck r ks recs Hiff Hea IH]; [done|].
  cbn [fmap list_fmap]. f_equal; [|exact IH].
  destruct (Z.eqb_spec (br_result r) AEROSPIKE_OK) as [E|E]; symmetry.
  - apply bool_decide_eq_true. by apply Hiff.
  - apply bool_decide_eq_false. intros Hp. by apply E, Hiff.
Qed.

Lemma run_batched_exists_mask (ks : list CK) (w : world C) :
  let '(r, w') := run (batched_exists_mask to_string self ks) w in
  st w' = st w /\ w_heap w' = w_heap w /\
  (forall mask, r = inr mask ->
     Forall2 (fun ck (hit : bool) => hit = true -> present (st w) ck) ks mask) /\
  (forall e, r = inl e -> not_client e) /\
  (healthy (w_client w) -> r = inr ((fun ck => bool_decide (present (st w) ck)) <$> ks)).
Proof.
  unfold batched_exists_mask. rewrite run_with_timer. destruct ks as [|ck ks].
  { cbn. split_and!; try done. intros ? [= <-]. constructor. }
  pose proof (run_meta_batch [] (ck :: ks) w) as Hb. cbn [trigger bind run handle].
  unfold on_client. set (kl := ck :: ks) in *.
  assert (Hrep : forall l, Forall2 (fun ck (hit : bool) => hit = true -> present (st w) ck) l
                             (replicate (length l) false))
    by (intros l; induction l; constructor; done).
  destruct (client_batch_read _ _ _) as [[e|recs] c']; destruct Hb as (Hst & Hok & Hh).
  - destruct (isinstance e AerospikeError) eqn:Ea; cbn.
    + split_and!; [done|done| |done|].
      * intros mask [= <-]. apply (Hrep kl).
      * intros Hw. by destruct (Hh Hw) as (_ & ? & ? & _).
    + split_and!; [done|done|done|by intros e' [= <-]|].
      intros Hw. by destruct (Hh Hw) as (_ & ? & ? & _).
  - cbn. split_and!; [done|done| |done|].
    + intros mask [= <-]. apply Forall2_fmap_r. eapply Forall2_impl; [by apply Hok|].
      intros ck' r Hr Hz%Z.eqb_eq. auto.
    + intros Hw. destruct (Hh Hw) as (_ & recs' & [= <-] & Hea). f_equal.
      apply (exact_mask _ kl recs Hea).
Qed.

(** [batched_exists_mask] answers every key of the request, in order.  A true answer is
    right under any fault, and on a healthy cluster every answer is.  No client exception
    leaves it. *)
Theorem batched_exists_mask_pointwise (ks : list CK) (w : world C) :
  let '(r, w') := run (batched_exists_mask to_string self ks) w in
  st w' = st w /\ w_heap w' = w_heap w /\
  (forall mask, r = inr mask ->
     Forall2 (fun ck (hit : bool) => hit = true -> present (st w) ck) ks mask) /\
  (forall e, r = inl e -> not_client e) /\
  (healthy (w_client w) -> r = inr ((fun ck => bool_decide (present (st w) ck)) <$> ks)).
Proof. apply run_batched_exists_mask. Qed.

(** [exists] is true only for a key that has a meta record, under any fault; on a healthy
    cluster it is true exactly then.  Its exceptions are the connector's. *)
Theorem exists_spec (ck : CK) (w : world C) :
  let '(r, w') := run (exists_ to_string self ck) w in
  st w' = st w /\ w_heap w' = w_heap w /\ (r = inr true -> present (st w) ck) /\
  (forall e, r = inl e -> not_client e) /\
  (healthy (w_client w) -> steady w w' /\ r = inr (bool_decide (present (st w) ck))).
Proof. apply run_exists. Qed.

(** ** Pinning *)

(** Some meta records have had their [pin] bin written. *)
Definition pin_only (s s' : gmap key bins) : Prop :=
  forall k, s' !! k = s !! k \/
    (exists ck v, k = mk_of ck /\ s' !! k = Some (merged (s !! k) [("pin", v)])).

#[local] Instance pin_only_refl : Reflexive pin_only.
Proof. intros s k. by left. Qed.

(** The [pin] bin is no part of an entry. *)
Lemma pin_only_entry s s' ck : pin_only s s' -> entry s' ck = entry s ck.
Proof.
  intros Hp. unfold Store.entry.
  assert (Hseg : forall i, 0 <= i -> s' !! seg_of to_string self ck i = s !! seg_of to_string self ck i).
  { intros i Hi. destruct (Hp (seg_of to_string self ck i)) as [E|(ck' & v & E & _)]; [done|].
    symmetry in E. by apply mk_of_seg_of in E. }
  destruct (Hp (mk_of ck)) as [->|(ck' & v & _ & ->)].
  - destruct (s !! mk_of ck) as [b|]; [|done]. destruct (is_ready b); [|done].
    by rewrite (payload_of_frame to_string self s s').
  - set (b' := merged _ _).
    assert (Hsame : forall n, n <> "pin" -> b' !! n = default ∅ (s !! mk_of ck) !! n).
    { intros n Hn. apply merged_other. unfold dict_of. simpl. by rewrite lookup_insert_ne. }
    unfold is_ready, payload_of, crc_fits, bins_nseg. rewrite !Hsame by done.
    destruct (s !! mk_of ck) as [b|]; simpl; [|by rewrite lookup_empty].
    destruct (bool_decide _); [|done]. destruct (b !! "nseg") as [v'|]; [|done].
    destruct (bin_int v') as [e|n]; [done|]. destruct (n =? 1); [done|].
    rewrite (mapM_ext_elem (seg_data s') (seg_data s)); [done|].
    intros k (i & Hi & ->)%elem_of_segs. unfold seg_data. by rewrite Hseg by lia.
Qed.

Lemma run_pin_keys_batch ks (w : world C) :
  NoDup ks ->
  let '(r, w') := run (_pin_keys_batch to_string self ks) w in
  pin_only (st w) (st w') /\ w_heap w' = w_heap w /\ (forall e, r = inl e -> not_client e).
Proof.
  intros Hnd. unfold _pin_keys_batch. destruct (write_policy (cfg self)) as [e|wp] eqn:Ew.
  { cbn. split_and!; [done|done|]. intros ? [= <-]. by eapply write_policy_error. }
  cbn [lift bind trigger run handle]. unfold on_client.
  set (ops := (fun ck => BWrite (mk_of ck) _ _ wp) <$> ks).
  assert (Hkeys : batch_key <$> ops = mk_of <$> ks) by (unfold ops; by rewrite <- list_fmap_compose).
  assert (Hnd' : NoDup (batch_key <$> ops)).
  { rewrite Hkeys. apply NoDup_fmap_2; [|done]. intros x y. by apply mk_of_inj. }
  pose proof (batch_write_frame ops (w_client w)) as Hfr.
  pose proof (fun op => batch_write_doubt ops (w_client w) op Hnd') as Hd.
  destruct (client_batch_write ops (w_client w)) as [r c']. simpl in Hfr, Hd.
  assert (Hpin : pin_only (st w) (store c')).
  { intros k. destruct (decide (k ∈ batch_key <$> ops)) as [Hin|Hnin]; [|left; by apply Hfr].
    rewrite Hkeys in Hin. apply list_elem_of_fmap in Hin as (ck & -> & Hck).
    assert (Hop : BWrite (mk_of ck) [("pin", BBool true)] (pin_ttl_seconds self) wp ∈ ops)
      by (apply list_elem_of_fmap; eauto).
    destruct (Hd _ Hop) as [E|E]; [by left|right; exists ck, (BBool true); done]. }
  destruct r as [e|codes]; [|done]. destruct (isinstance e AerospikeError) eqn:Ea; [done|].
  split_and!; [done|done|]. by intros ? [= <-].
Qed.

Lemma run_pin_keys ks (w : world C) :
  NoDup ks ->
  let '(r, w') := run (pin_keys to_string self ks) w in
  pin_only (st w) (st w') /\ w_heap w' = w_heap w /\ (forall e, r = inl e -> not_client e).
Proof. intros Hnd. destruct ks as [|ck ks]; [done|]. by apply run_pin_keys_batch. Qed.

(** Records of other keys keep even their bins. *)
Lemma run_pin_keys_frame ks (w : world C) ck :
  ck ∉ ks -> st (snd (run (pin_keys to_string self ks) w)) !! mk_of ck = st w !! mk_of ck.
Proof.
  intros Hck. destruct ks as [|k0 ks]; [done|]. unfold pin_keys, _pin_keys_batch.
  destruct (write_policy (cfg self)) as [e|wp]; [done|]. cbn [lift bind trigger run handle]. unfold on_client.
  set (ops := (fun ck => BWrite (mk_of ck) _ _ wp) <$> _).
  pose proof (batch_write_frame ops (w_client w) (mk_of ck)) as Hfr.
  assert (E : store (snd (client_batch_write ops (w_client w))) !! mk_of ck = st w !! mk_of ck).
  { apply Hfr. unfold ops. rewrite <- list_fmap_compose. intros (ck' & E & Hin)%list_elem_of_fmap.
    simpl in E. apply mk_of_inj in E as ->; done. }
  destruct (client_batch_write ops (w_client w)) as [[e|codes] c']; [|done].
  by destruct (isinstance e AerospikeError).
Qed.

Lemma run_pin_keys_healthy ks (w : world C) :
  NoDup ks -> client_constants -> config_ok (cfg self) ->
  healthy (w_client w) -> 0 <= capacity (w_client w) ->
  let '(r, w') := run (pin_keys to_string self ks) w in
  r = inr tt /\ steady w w' /\
  forall ck, ck ∈ ks -> st w' !! mk_of ck = Some (merged (st w !! mk_of ck) [("pin", BBool true)]).
Proof.
  intros Hnd Hc Hok Hh Hcap. destruct ks as [|k0 ks0]; [cbn; split_and!; [done|by split|by intros ck ?%not_elem_of_nil]|].
  unfold pin_keys, _pin_keys_batch. destruct (write_policy_ok _ Hc Hok) as [wp ->].
  cbn [lift bind trigger run handle]. unfold on_client.
  set (ks := k0 :: ks0) in *. set (ops := (fun ck => BWrite (mk_of ck) _ _ wp) <$> ks).
  assert (Hkeys : batch_key <$> ops = mk_of <$> ks) by (unfold ops; by rewrite <- list_fmap_compose).
  assert (Hnd' : NoDup (batch_key <$> ops)).
  { rewrite Hkeys. apply NoDup_fmap_2; [|done]. intros x y. by apply mk_of_inj. }
  assert (Hfit : Forall (fun op => match op with
      BWrite _ l _ _ => payload_size l <= capacity (w_client w) | BRemove _ => True end) ops)
    by (apply Forall_fmap, Forall_true; done).
  assert (Hops : forall i ck, ks !! i = Some ck -> ops !! i =
      Some (BWrite (mk_of ck) [("pin", BBool true)] (pin_ttl_seconds self) wp))
    by (intros i ck Hi; unfold ops; by rewrite list_lookup_fmap, Hi).
  clearbody ops.
  pose proof (healthy_batch_write ops (w_client w) Hh Hfit) as (Hh' & Hc' & codes & Ecodes & Hcodes).
  pose proof (batch_write_ok ops (w_client w) codes Hnd' Ecodes) as Hap.
  destruct (client_batch_write ops (w_client w)) as [r c']. simpl in *. subst r.
  split_and!; [done|done|]. intros ck Hck.
  apply list_elem_of_lookup in Hck as [i Hop%Hops].
  destruct (Forall2_lookup_l _ _ _ _ _ Hap Hop) as (code & Hcode & Happ).
  destruct (Forall2_lookup_l _ _ _ _ _ Hcodes Hop) as (code' & Hcode' & Hz). simplify_eq.
  by apply Happ.
Qed.

Lemma run_unpin ck (w : world C) :
  let '(r, w') := run (unpin to_string self ck) w in
  pin_only (st w) (st w') /\ w_heap w' = w_heap w /\ (forall e, r = inl e -> not_client e) /\
  (r = inr true -> present (st w) ck).
Proof.
  unfold unpin. destruct (write_policy (cfg self)) as [e|wp] eqn:Ew.
  { cbn. split_and!; [done|done| |done]. intros ? [= <-]. by eapply write_policy_error. }
  cbn [lift bind]. rewrite run_bind, run_attempt. cbn [trigger bind run handle]. unfold on_client.
  assert (Hcatch : forall e w', exists r, run (catch_ax (A := unit) (inl e)
    (fun _ => Ret true) (Ret false) (fun _ => Ret false)) w' = (r, w') /\ r <> inr true /\
    (forall e, r = inl e -> not_client e)).
  { intros e w'. unfold catch_ax. destruct (isinstance e RecordNotFound); [by eexists|].
    destruct (isinstance e AerospikeError) eqn:Ea; eexists; split_and!; try done.
    by intros ? [= <-]. }
  pose proof (touch_store (mk_of ck) (default_ttl_seconds (cfg self)) wp (w_client w)) as Ht.
  pose proof (touch_ok (mk_of ck) (default_ttl_seconds (cfg self)) wp (w_client w)) as Htok.
  destruct (client_touch _ _ _ (w_client w)) as [[e|[]] c1]; cbn [lift bind run fst snd];
    simpl in Ht, Htok.
  { destruct (Hcatch e (set_client w c1)) as (r & -> & Hr & He). cbn.
    rewrite Ht. split_and!; [reflexivity|done|done|done]. }
  cbn [trigger bind run handle]. unfold on_client. cbn [w_client set_client].
  pose proof (operate_frame (mk_of ck) [("pin", BBool false)] (default_ttl_seconds (cfg self)) wp c1) as Hfr.
  pose proof (operate_doubt (mk_of ck) [("pin", BBool false)] (default_ttl_seconds (cfg self)) wp c1) as Hd.
  destruct (client_operate _ _ _ _ c1) as [r c2]; simpl in Hfr, Hd.
  unfold untouched, written in *. rewrite Ht in *.
  assert (Hpin : pin_only (st w) (store c2)).
  { intros k. destruct (decide (k = mk_of ck)) as [->|Hne]; [|left; by apply Hfr].
    destruct Hd as [E|E]; [by left|right; exists ck, (BBool false); done]. }
  destruct r as [e|[]]; cbn [lift bind run fst snd].
  - destruct (Hcatch e (set_client (set_client w c1) c2)) as (r & -> & Hr & He). done.
  - cbn. split_and!; [done|done|done|]. intros _. by apply Htok.
Qed.

(** On a healthy cluster [unpin] tells whether the key is known, and writes the [pin] bin of a known one. *)
Lemma run_unpin_healthy ck (w : world C) :
  client_constants -> config_ok (cfg self) -> healthy (w_client w) -> 0 <= capacity (w_client w) ->
  let '(r, w') := run (unpin to_string self ck) w in
  r = inr (bool_decide (present (st w) ck)) /\ steady w w' /\
  (forall k, k <> mk_of ck -> st w' !! k = st w !! k) /\
  st w' !! mk_of ck = match st w !! mk_of ck with
                      | Some b => Some (merged (Some b) [("pin", BBool false)])
                      | None => None
                      end.
Proof.
  intros Hconst Hok Hh Hcap.
  replace (bool_decide (present (st w) ck)) with (match st w !! mk_of ck with Some _ => true | None => false end).
  2:{ symmetry. destruct (st w !! mk_of ck) eqn:E; [apply bool_decide_eq_true_2|apply bool_decide_eq_false_2];
      unfold present; rewrite E; [by eexists|by intros [? ?]]. }
  unfold unpin. destruct (write_policy_ok _ Hconst Hok) as [wp ->].
  cbn [lift bind]. rewrite run_bind, run_attempt. cbn [trigger bind run handle]. unfold on_client.
  pose proof (touch_store (mk_of ck) (default_ttl_seconds (cfg self)) wp (w_client w)) as Ht.
  destruct (healthy_touch (mk_of ck) (default_ttl_seconds (cfg self)) wp (w_client w) Hh) as (Hh1 & Hc1 & Hr).
  destruct (client_touch _ _ _ (w_client w)) as [r c1]. cbn [fst snd] in *.
  destruct (st w !! mk_of ck) as [b|] eqn:Eb.
  2:{ destruct Hr as (e & -> & He). cbn. unfold catch_ax. rewrite He. cbn. rewrite Ht.
      split_and!; [done|by split|done|done]. }
  subst r. cbn [lift bind trigger run handle]. unfold on_client. cbn [w_client set_client].
  pose proof (operate_frame (mk_of ck) [("pin", BBool false)] (default_ttl_seconds (cfg self)) wp c1) as Hfr.
  pose proof (operate_ok (mk_of ck) [("pin", BBool false)] (default_ttl_seconds (cfg self)) wp c1) as Hop.
  destruct (healthy_operate (mk_of ck) [("pin", BBool false)] (default_ttl_seconds (cfg self)) wp c1 Hh1)
    as (Hh2 & Hc2 & Hr2); [cbn; lia|].
  destruct (client_operate _ _ _ _ c1) as [r c2]. cbn [fst snd] in *. subst r.
  unfold untouched, written in *. rewrite Ht in *. cbn.
  split_and!; [done|split; [done|simpl; congruence]|done|].
  rewrite (Hop eq_refl). by rewrite Eb.
Qed.

Lemma run_pin ck (w : world C) :
  let '(r, w') := run (pin to_string self ck) w in
  pin_only (st w) (st w') /\ (r = inr true -> present (st w) ck) /\
  (forall e, r = inl e -> not_client e) /\
  (client_constants -> config_ok (cfg self) -> healthy (w_client w) -> 0 <= capacity (w_client w) ->
     r = inr (bool_decide (present (st w) ck))).
Proof.
  unfold pin. rewrite run_bind. pose proof (run_exists ck w) as Hx.
  destruct (run (exists_ _ _ _) w) as [[e|here] w1]; destruct Hx as (Es & _ & Hpr & He & Hh).
  { rewrite Es. split_and!; [done|done|done|]. intros _ _ Hw. by destruct (Hh Hw). }
  destruct here; cbn [negb].
  2:{ cbn. rewrite Es. split_and!; [done|done|done|]. intros _ _ Hw. by destruct (Hh Hw) as [_ ->]. }
  rewrite run_bind. pose proof (run_pin_keys [ck] w1 (NoDup_singleton _)) as Hp.
  pose proof (fun A B => run_pin_keys_healthy [ck] w1 (NoDup_singleton _) A B) as Hph.
  destruct (run (pin_keys _ _ _) w1) as [[e|[]] w2]; destruct Hp as (Hp & _ & He'); rewrite Es in Hp; cbn.
  - split_and!; [done|done|by intros ? [= <-]; apply He'|]. intros Hc Hok Hw Hcap.
    destruct (Hh Hw) as [[Hw1 Hc1] _]. by destruct (Hph Hc Hok Hw1 ltac:(by rewrite Hc1)) as [? _].
  - split_and!; [done|by intros _; apply Hpr|done|]. intros _ _ _ _. by rewrite bool_decide_true by auto.
Qed.

(** Pinning and unpinning change no entry, under any fault: what a reader gets for any key is
    the same before and after [pin_keys], [unpin] and [pin].  A true [pin] or [unpin] means the
    key had a meta record.  No client exception leaves them. *)
Theorem pinning_preserves_entries (ks : list CK) (ck : CK) (w : world C) :
  NoDup ks ->
  (let '(r, w') := run (pin_keys to_string self ks) w in
   (forall ck', entry (st w') ck' = entry (st w) ck') /\ forall e, r = inl e -> not_client e) /\
  (let '(r, w') := run (unpin to_string self ck) w in
   (forall ck', entry (st w') ck' = entry (st w) ck') /\ (r = inr true -> present (st w) ck) /\
   forall e, r = inl e -> not_client e) /\
  (let '(r, w') := run (pin to_string self ck) w in
   (forall ck', entry (st w') ck' = entry (st w) ck') /\ (r = inr true -> present (st w) ck) /\
   forall e, r = inl e -> not_client e).
Proof.
  intros Hnd. split_and!.
  - pose proof (run_pin_keys ks w Hnd) as Hp. destruct (run _ w) as [r w'].
    destruct Hp as (Hp & _ & He). split; [|done]. intros ck'. by apply pin_only_entry.
  - pose proof (run_unpin ck w) as Hp. destruct (run _ w) as [r w'].
    destruct Hp as (Hp & _ & He & Hr). split_and!; [|done|done]. intros ck'. by apply pin_only_entry.
  - pose proof (run_pin ck w) as Hp. destruct (run _ w) as [r w'].
    destruct Hp as (Hp & Hpr & He & _). split_and!; [intros ck'; by apply pin_only_entry|done|done].
Qed.

(** ** [remove] *)

Definition unowned_same (ck : CK) (s s' : gmap key bins) : Prop :=
  forall k, ~ owns ck k -> s' !! k = s !! k.

Lemma bin_int_error v e : bin_int v = inl e -> not_client e.
Proof.
  destruct v as [z|s|b|b]; simpl; try done;
    [destruct (int_of_string s)|destruct (int_of_string _)]; try done; by intros [= <-].
Qed.

Lemma run_remove_nseg ck (w : world C) :
  let '(r, w') := run (remove_nseg to_string self ck) w in
  st w' = st w /\ w_heap w' = w_heap w /\
  match r with
  | inr None => st w !! mk_of ck = None
  | inr (Some n) => True
  | inl e => not_client e
  end /\
  (healthy (w_client w) -> steady w w' /\ (st w !! mk_of ck = None -> r = inr None) /\
     forall b, st w !! mk_of ck = Some b ->
       r = match b !! "nseg" with
           | Some v => match bin_int v with inr n => inr (Some n) | inl e => inl e end
           | None => inr (Some 1)
           end).
Proof.
  unfold remove_nseg. cbn [trigger bind run handle]. unfold on_client.
  pose proof (select_store (mk_of ck) ["nseg"] (w_client w)) as Hst.
  pose proof (select_missing (mk_of ck) ["nseg"] (w_client w)) as Hm.
  pose proof (healthy_select (mk_of ck) ["nseg"] (w_client w)) as Hh.
  destruct (client_select _ _ (w_client w)) as [[e|b] c']; simpl in *; unfold catch_ax.
  - assert (Hno : healthy (w_client w) -> isinstance e RecordNotFound = true /\
                    store (w_client w) !! mk_of ck = None /\ steady w (set_client w c')).
    { intros Hw. destruct (Hh Hw) as (H1 & H2 & H3).
      destruct (store (w_client w) !! mk_of ck); [done|]. by destruct H3 as (? & [= <-] & ?). }
    destruct (isinstance e RecordNotFound) eqn:Er; cbn.
    + split_and!; [done|done|by apply (Hm e)|]. intros Hw. destruct (Hno Hw) as (_ & E & Hs).
      split_and!; [done..|]. intros b. congruence.
    + destruct (isinstance e AerospikeError) eqn:Ea; cbn; split_and!; try done;
        intros Hw; by destruct (Hno Hw).
  - assert (Hnext : run (match b !! "nseg" with
                         | Some v => let! n := lift (bin_int v) in Ret (Some n)
                         | None => Ret (Some 1) end) (set_client w c') =
      (match b !! "nseg" with
       | Some v => match bin_int v with inr n => inr (Some n) | inl e => inl e end
       | None => inr (Some 1) end, set_client w c')).
    { destruct (b !! "nseg") as [v|]; [|done]. by destruct (bin_int v). }
    rewrite Hnext. split_and!; [done|done| |].
    + destruct (b !! "nseg") as [v|]; [|done]. destruct (bin_int v) as [e|n] eqn:Ev; [|done].
      by eapply bin_int_error.
    + intros Hw. destruct (Hh Hw) as (H1 & H2 & H3). split; [done|].
      split; [intros E; rewrite E in H3; by destruct H3 as (? & ? & _)|]. intros full Hfull.
      rewrite Hfull in H3. injection H3 as ->. by rewrite project_lookup by apply list_elem_of_here.
Qed.

Lemma remove_segments_keys ck n : batch_key <$> (BRemove <$> segs_of ck n) = segs_of ck n.
Proof. rewrite <- list_fmap_compose. by apply list_fmap_id. Qed.

Lemma run_remove_segments ck n (w : world C) :
  let '(r, w') := run (remove_segments to_string self ck n) w in
  unowned_same ck (st w) (st w') /\ st w' !! mk_of ck = st w !! mk_of ck /\
  w_heap w' = w_heap w /\ (forall e, r = inl e -> not_client e) /\
  (healthy (w_client w) -> r = inr true /\ steady w w' /\
     (1 < n -> forall k, k ∈ segs_of ck n -> st w' !! k = None)).
Proof.
  unfold remove_segments. destruct (n >? 1) eqn:En; zbool.
  2:{ cbn. split_and!; try done. intros Hw. split_and!; [done|by split|lia]. }
  cbn [trigger bind run handle]. unfold on_client. set (ops := BRemove <$> segs_of ck n).
  assert (Hkeys : batch_key <$> ops = segs_of ck n) by apply remove_segments_keys.
  pose proof (batch_write_frame ops (w_client w)) as Hfr. rewrite Hkeys in Hfr.
  assert (Hcap : Forall (fun op => match op with
    | BWrite _ l _ _ => payload_size l <= capacity (w_client w) | BRemove _ => True end) ops)
    by (unfold ops; rewrite Forall_fmap; by apply Forall_true).
  pose proof (fun Hw => healthy_batch_write ops (w_client w) Hw Hcap) as Hh.
  destruct (client_batch_write ops (w_client w)) as [r c']. simpl in Hfr, Hh. unfold untouched in Hfr.
  assert (Hun : unowned_same ck (st w) (store c')).
  { intros k Hk. apply Hfr. intros Hs. by apply Hk, (segs_owned to_string self ck n). }
  assert (Hmk : store c' !! mk_of ck = st w !! mk_of ck).
  { apply Hfr. intros (i & Hi & E)%elem_of_segs. eapply mk_of_seg_of; [|exact E]. lia. }
  destruct r as [e|codes].
  - assert (Hno : healthy (w_client w) -> False) by (intros Hw; by destruct (Hh Hw) as (_ & _ & ? & ? & _)).
    destruct (isinstance e AerospikeError) eqn:Ea; cbn; split_and!; try done;
      try (intros Hw; by destruct (Hno Hw)). by intros ? [= <-].
  - cbn. split_and!; [done..|]. intros Hw. destruct (Hh Hw) as (H1 & H2 & codes' & [= <-] & Hc).
    split_and!; [done|by split|]. intros _ k Hk. unfold ops in Hc. rewrite Forall2_fmap_l in Hc.
    apply list_elem_of_lookup in Hk as [j Hj].
    destruct (Forall2_lookup_l _ _ _ _ _ Hc Hj) as (z & _ & Hz). apply Hz.
    change (NoDup (batch_key <$> ops)). rewrite Hkeys. apply segment_keys_NoDup.
Qed.

(** The removal of the meta record, then of [n] segments. *)
Definition remove_records (ck : CK) (n : Z) : prog ev bool :=
  let! r := trigger (ClientRemove (mk_of ck)) in
  catch_ax r (fun _ => remove_segments to_string self ck n) (Ret false)
    (fun e => Raise (map_aerospike_error "remove" e)).

Lemma run_remove_records ck n (w : world C) :
  let '(r, w') := run (remove_records ck n) w in
  unowned_same ck (st w) (st w') /\ (forall b, r = inr b -> st w' !! mk_of ck = None) /\
  (forall e, r = inl e -> not_client e) /\
  (healthy (w_client w) ->
     r = inr (bool_decide (present (st w) ck)) /\ st w' !! mk_of ck = None /\
     (1 < n -> present (st w) ck -> forall k, k ∈ segs_of ck n -> st w' !! k = None) /\ steady w w').
Proof.
  unfold remove_records. cbn [trigger bind run handle]. unfold on_client.
  pose proof (remove_frame (mk_of ck) (w_client w)) as Hfr.
  pose proof (remove_ok (mk_of ck) (w_client w)) as Hok.
  pose proof (remove_missing (mk_of ck) (w_client w)) as Hmiss.
  pose proof (healthy_remove (mk_of ck) (w_client w)) as Hh.
  destruct (client_remove _ (w_client w)) as [[e|[]] c']; simpl in *; unfold untouched, catch_ax in *.
  - assert (Hun : unowned_same ck (st w) (store c')) by (intros k Hk; apply Hfr; intros ->; apply Hk; by left).
    assert (Hno : healthy (w_client w) -> isinstance e RecordNotFound = true /\
                    store (w_client w) !! mk_of ck = None /\ steady w (set_client w c')).
    { intros Hw. destruct (Hh Hw) as (? & ? & H3). destruct (store (w_client w) !! mk_of ck); [done|].
      destruct H3 as (? & [= <-] & ?). by split_and!. }
    destruct (isinstance e RecordNotFound) eqn:Er; cbn.
    + specialize (Hmiss e eq_refl Er). split_and!; [done|done|done|].
      intros Hw. destruct (Hno Hw) as (_ & E & Hst).
      assert (Hp : ~ present (st w) ck) by (intros [? ?]; congruence).
      split_and!; [by rewrite bool_decide_false|done|done|done].
    + destruct (isinstance e AerospikeError) eqn:Ea; cbn;
        (split_and!; [done|done| |intros Hw; by destruct (Hno Hw)]); intros ? [= <-]; [apply isinstance_map|done].
  - pose proof (run_remove_segments ck n (set_client w c')) as Hs.
    destruct (run (remove_segments _ _ _ _) _) as [r w2]. destruct Hs as (Hun & Hmk & _ & He & Hhs).
    simpl in Hun, Hmk, Hhs. rewrite Hok in Hmk by done. split_and!; [|done|done|].
    + intros k Hk. rewrite Hun by done. apply Hfr. intros ->. apply Hk. by left.
    + intros Hw. destruct (Hh Hw) as (Hw' & Hcap & H3). destruct (Hhs Hw') as (-> & [Hs1 Hs2] & Hsegs).
      assert (Hp : present (st w) ck).
      { unfold present. destruct (store (w_client w) !! mk_of ck); [by eexists|].
        by destruct H3 as (? & ? & _). }
      split_and!; [by rewrite bool_decide_true|done|auto|]. split; [done|]. cbn in Hs2. congruence.
Qed.

Lemma run_remove_healthy ck (w : world C) :
  healthy (w_client w) -> (forall b, st w !! mk_of ck = Some b -> wf_meta b) ->
  let '(r, w') := run (remove to_string self ck) w in
  r = inr (bool_decide (present (st w) ck)) /\ steady w w' /\ st w' !! mk_of ck = None /\
  unowned_same ck (st w) (st w').
Proof.
  intros Hw Hwf. unfold remove. rewrite run_bind. pose proof (run_remove_nseg ck w) as Hs.
  destruct (run (remove_nseg _ _ _) w) as [r w1]; destruct Hs as (Es & _ & _ & Hh).
  destruct (Hh Hw) as ([Hw1 Hc1] & Hnone & Hb). destruct (st w !! mk_of ck) as [b|] eqn:E.
  - specialize (Hb b eq_refl). assert (Hn : exists n, r = inr (Some n)).
    { destruct (b !! "nseg") as [v|] eqn:Ev; [|by eexists].
      destruct (wf_nseg _ (Hwf b eq_refl) v Ev) as (n & -> & _). exists n; exact Hb. }
    destruct Hn as [n ->]. fold (remove_records ck n). pose proof (run_remove_records ck n w1) as Hr.
    destruct (run (remove_records _ _) w1) as [r w2]. rewrite Es in Hr.
    destruct Hr as (Hun & _ & _ & Hhr). destruct (Hhr Hw1) as (-> & Hgone & _ & [Hh2 Hc2]).
    split_and!; [done|split; congruence|done|done].
  - rewrite (Hnone eq_refl). cbn. rewrite Es. rewrite bool_decide_false by (intros [? ?]; congruence).
    split_and!; done.
Qed.

(** C13: [remove] under any fault changes no other entry and returns a value only when the key has
    no entry any more.  On a healthy cluster it returns whether the key had a meta record and
    deletes that record and all the segment records it counts.  Its exceptions are the
    connector's. *)
Theorem remove_spec (ck : CK) (w : world C) :
  let '(r, w') := run (remove to_string self ck) w in
  (forall ck', ck' <> ck -> entry (st w') ck' = entry (st w) ck') /\
  (forall b, r = inr b -> entry (st w') ck = None) /\
  (forall e, r = inl e -> not_client e) /\
  (healthy (w_client w) -> (forall b, st w !! mk_of ck = Some b -> wf_meta b) ->
     r = inr (bool_decide (present (st w) ck)) /\ st w' !! mk_of ck = None /\
     forall b n i, st w !! mk_of ck = Some b -> b !! "nseg" = Some (BInt n) -> 1 < n -> 0 <= i < n ->
       st w' !! seg_of to_string self ck i = None).
Proof.
  assert (Hgone : forall s : gmap key bins, s !! mk_of ck = None -> entry s ck = None)
    by (intros s E; unfold Store.entry; by rewrite E).
  unfold remove. rewrite run_bind. pose proof (run_remove_nseg ck w) as Hs.
  destruct (run (remove_nseg _ _ _) w) as [[e|[n|]] w1]; destruct Hs as (Es & _ & Hs & Hh).
  - cbn. rewrite Es. split_and!; [done|done|by intros ? [= <-]|]. intros Hw Hwf.
    destruct (Hh Hw) as (_ & Hnone & Hb). destruct (st w !! mk_of ck) as [b|] eqn:E; [|by specialize (Hnone eq_refl)].
    specialize (Hb b eq_refl). destruct (b !! "nseg") as [v|] eqn:Ev; [|done].
    by destruct (wf_nseg _ (Hwf b eq_refl) v Ev) as (n & -> & _).
  - fold (remove_records ck n). pose proof (run_remove_records ck n w1) as Hr.
    destruct (run (remove_records _ _) w1) as [r w2]. rewrite Es in Hr.
    destruct Hr as (Hun & Hret & He & Hhr). split_and!; [|eauto|done|].
    + intros ck' Hne. by apply entry_frame_other with (ck := ck).
    + intros Hw Hwf. destruct (Hh Hw) as ([Hw1 _] & _ & Hb). destruct (Hhr Hw1) as (-> & Hnone & Hsegs & _).
      split_and!; [done|done|]. intros b n' i Hst Hn' Hlt Hi. specialize (Hb b Hst).
      rewrite Hn' in Hb. injection Hb as ->. apply Hsegs; [done|by exists b|].
      apply elem_of_segs. by exists i.
  - cbn. rewrite Es. split_and!; [done|auto|done|]. intros Hw Hwf.
    rewrite bool_decide_false by (intros [? ?]; congruence). split_and!; [done|done|].
    intros b n i E. congruence.
Qed.
End keyops.

Lemma pinning_preserves_entries_witness :
  entry demo_str demo_engine
    (store (w_client (snd (run (pin_keys demo_str demo_engine ["k"; "other"]) demo_after)))) "k" =
  entry demo_str demo_engine (store (w_client demo_after)) "k".
Proof.
  assert (Hnd : NoDup ["k"; "other"]) by (apply (bool_decide_unpack _); vm_compute; exact I).
  pose proof (proj1 (pinning_preserves_entries demo_str demo_engine ["k"; "other"] "k" demo_after Hnd))
    as Hp.
  destruct (run (pin_keys _ _ _) _) as [r w']. apply (proj1 Hp).
Defined.

Lemma remove_spec_witness :
  fst (run (remove demo_str demo_engine "k") demo_after) = inr true /\
  entry demo_str demo_engine
    (store (w_client (snd (run (remove demo_str demo_engine "k") demo_after)))) "k" = None.
Proof.
  assert (E : fst (run (remove demo_str demo_engine "k") demo_after) = inr true)
    by (vm_compute; reflexivity).
  split; [exact E|].
  pose proof (remove_spec demo_str demo_engine "k" demo_after) as Hr.
  destruct (run (remove _ _ _) _) as [r w']. destruct Hr as (_ & Hr & _). exact (Hr true E).
Defined.

(** Pinning a key that was never stored creates a record for it: afterwards [exists] is true and
    [batched_contains] counts the key, while [get] is a miss. *)
Theorem pin_creates_ghost :
  let w := snd (run (pin_keys demo_str demo_engine ["k"]) demo_start) in
  entry demo_str demo_engine (store (w_client demo_start)) "k" = None /\
  present demo_str demo_engine (store (w_client w)) "k" /\
  fst (run (exists_ demo_str demo_engine "k") w) = inr true /\
  fst (run (batched_contains demo_str demo_engine ["k"]) w) = inr 1 /\
  fst (run (get demo_str demo_engine "k" (Some 1%nat)) w) = inr None.
Proof.
  split; [vm_compute; reflexivity|]. split; [apply (bool_decide_unpack _); vm_compute; exact I|].
  split_and!; vm_compute; reflexivity.
Qed.
