(* ===== verification/Interleave.v ===== *)
(** * Programs of several threads

    Threads take turns event by event ([interleave]).  [safe R G Q p w] is a rely-guarantee
    judgement: whatever steps allowed by [R] other threads take in between, every step of [p]
    is one of [G], and if [p] ends it ends with [Q].  [Ownership] and [Gather] put threads together;
    with the identity for [R] the judgement speaks about a crash after any event. *)

From S2P Require Import Prelude Errors Keys Crc32 Runtime Metrics Serde.

Section interleave.
Context {C : Type} `{AerospikeClient C} `{Env}.
Implicit Types (R G : world C -> world C -> Prop).

Fixpoint safe {A} R G (Q : result A -> world C -> Prop) (p : prog ev A) (w : world C) : Prop :=
  forall w1, R w w1 ->
  match p with
  | Ret a => Q (inr a) w1
  | Raise e => Q (inl e) w1
  | Vis e k => G w1 (snd (handle e w1)) /\ safe R G Q (k (fst (handle e w1))) (snd (handle e w1))
  end.

(** The thread that moves at each turn; a thread that has ended skips its turn. *)
Fixpoint interleave {A B} (turns : list bool) (p : prog ev A) (q : prog ev B) (w : world C)
    : prog ev A * prog ev B * world C :=
  match turns with
  | [] => (p, q, w)
  | true :: turns =>
      match step p w with
      | Some (p', w') => interleave turns p' q w'
      | None => interleave turns p q w
      end
  | false :: turns =>
      match step q w with
      | Some (q', w') => interleave turns p q' w'
      | None => interleave turns p q w
      end
  end.

Section rules.
Context R G `{!PreOrder R}.

Lemma safe_rely {A} (Q : result A -> world C -> Prop) p w w' :
  R w w' -> safe R G Q p w -> safe R G Q p w'.
Proof.
  intros HR Hs. destruct p as [a|e|X e k]; intros w1 H1; apply Hs; by transitivity w'.
Qed.

Lemma safe_weaken {A} (Q Q' : result A -> world C -> Prop) p w :
  (forall r w', Q r w' -> Q' r w') -> safe R G Q p w -> safe R G Q' p w.
Proof.
  intros HQ. revert w. induction p as [a|e|X e k IH]; intros w Hs w1 H1; [by apply HQ, Hs..|].
  destruct (Hs w1 H1) as [Hg Hk]. split; [done|]. by apply IH.
Qed.

Lemma safe_ret {A} (Q : result A -> world C -> Prop) a w :
  (forall w1, R w w1 -> Q (inr a) w1) -> safe R G Q (Ret a) w.
Proof. done. Qed.

Lemma safe_bind {A B} (Q : result B -> world C -> Prop) (p : prog ev A) (f : A -> prog ev B) w :
  safe R G (fun r w' => match r with
                        | inr a => safe R G Q (f a) w'
                        | inl e => Q (inl e) w'
                        end) p w ->
  safe R G Q (bind p f) w.
Proof.
  revert w. induction p as [a|e|X e k IH]; intros w Hs; simpl.
  - apply Hs. reflexivity.
  - exact Hs.
  - intros w1 H1. destruct (Hs w1 H1) as [Hg Hk]. split; [done|]. by apply IH.
Qed.

Lemma safe_attempt {A} (Q : result (result A) -> world C -> Prop) (p : prog ev A) w :
  safe R G (fun r w' => Q (inr r) w') p w -> safe R G Q (attempt p) w.
Proof.
  revert w. induction p as [a|e|X e k IH]; intros w Hs; simpl; [exact Hs|exact Hs|].
  intros w1 H1. destruct (Hs w1 H1) as [Hg Hk]. split; [done|]. by apply IH.
Qed.

Lemma safe_lift {A} (Q : result A -> world C -> Prop) r w :
  (forall w1, R w w1 -> Q r w1) -> safe R G Q (lift r) w.
Proof. by destruct r. Qed.

(** A timer adds one observation at the end. *)
Lemma safe_with_timer {A} (Q : result A -> world C -> Prop) op
    (body : OpTimer -> prog ev (OpTimer * result A)) w :
  (forall o lb w, G w (observed o lb w)) ->
  (forall r o lb w, Q r w -> Q r (observed o lb w)) ->
  (forall r w w', R w w' -> Q r w -> Q r w') ->
  safe R G (fun r w' => match r with inl e => Q (inl e) w' | inr (_, out) => Q out w' end)
    (body (OpTimer_init op)) w ->
  safe R G Q (with_timer op body) w.
Proof.
  intros HG HQ HR Hs. unfold with_timer. apply safe_bind, safe_attempt.
  eapply safe_weaken; [|exact Hs]. intros [e|[t out]] w' Hq; simpl.
  - intros w1 H1. split; [apply HG|]. intros w2 H2. apply (HR _ _ _ H2), HQ. by apply (HR _ w').
  - unfold finish. destruct (finished t); simpl.
    + apply safe_lift. intros w1 H1. by apply (HR _ w').
    + intros w1 H1. split; [apply HG|]. apply safe_lift.
      intros w2 H2. apply (HR _ _ _ H2), HQ. by apply (HR _ w').
Qed.
End rules.

Lemma safe_mono {A} R R' G G' (Q : result A -> world C -> Prop) p w :
  (forall w w', R' w w' -> R w w') -> (forall w w', G w w' -> G' w w') ->
  safe R G Q p w -> safe R' G' Q p w.
Proof.
  intros HR HG. revert w. induction p as [a|e|X e k IH]; intros w Hs w1 H1; [by apply Hs, HR..|].
  destruct (Hs w1 (HR _ _ H1)) as [Hg Hk]. split; auto.
Qed.

(** A crash: an invariant kept by every step holds after any number of events. *)
Lemma safe_steps {A} (I : world C -> Prop) (Q : result A -> world C -> Prop) n : forall p w,
  safe eq (fun w1 w2 => I w1 -> I w2) Q p w -> I w -> I (snd (steps n p w)).
Proof.
  induction n as [|n IH]; intros p w Hs Hw; simpl; [done|].
  destruct p as [a|e|X e k]; simpl; [done|done|].
  destruct (Hs w eq_refl) as [Hg Hk]. destruct (handle e w) as [x w']. apply IH; auto.
Qed.

(** Any number of threads: [turns] names the thread that moves next; the world they leave. *)
Fixpoint schedule (turns : list nat) (ps : nat -> prog ev unit) (w : world C) : world C :=
  match turns with
  | [] => w
  | i :: turns =>
      match step (ps i) w with
      | Some (p', w') => schedule turns (fun j => if (j =? i)%nat then p' else ps j) w'
      | None => schedule turns ps w
      end
  end.

(** Nothing is relied on. *)
Definition anything {W} (_ _ : W) : Prop := True.

#[export] Instance anything_preorder W : PreOrder (@anything W).
Proof. by split. Qed.

(** An invariant that every event of every thread keeps holds under every schedule. *)
Lemma schedule_invariant (I : world C -> Prop) turns : forall ps w,
  (forall i w, safe anything (fun w1 w2 => I w1 -> I w2) (fun _ _ => True) (ps i) w) ->
  I w -> I (schedule turns ps w).
Proof.
  induction turns as [|i turns IH]; intros ps w Hps Hw; simpl; [done|].
  pose proof (Hps i w) as Hi. destruct (ps i) as [a|e|X e k]; simpl; [by apply IH..|].
  destruct (Hi w) as [Hg Hk]; [done|]. destruct (handle e w) as [x w']. apply IH; [|by apply Hg].
  intros j w2. destruct (j =? i)%nat; [|apply Hps].
  eapply safe_rely; [apply _| |exact Hk]. done.
Qed.

(** ** Programs on one object *)

(** The events of [p] read and write the object at [l] only. *)
Inductive mem_prog {A} (l : loc) : prog ev A -> Prop :=
| mp_ret a : mem_prog l (Ret a)
| mp_raise e : mem_prog l (Raise e)
| mp_bytes k : (forall x, mem_prog l (k x)) -> mem_prog l (Vis (MemBytes l) k)
| mp_tensor k : (forall x, mem_prog l (k x)) -> mem_prog l (Vis (MemTensor l) k)
| mp_store o d k : (forall x, mem_prog l (k x)) -> mem_prog l (Vis (MemStore l o d) k)
| mp_down k : (forall x, mem_prog l (k x)) -> mem_prog l (Vis (MemRefDown l) k)
| mp_reshape n k : (forall x, mem_prog l (k x)) -> mem_prog l (Vis (MemReshape l n) k).

Lemma mem_prog_bind {A B} l (p : prog ev A) (f : A -> prog ev B) :
  mem_prog l p -> (forall a, mem_prog l (f a)) -> mem_prog l (bind p f).
Proof. intros Hp Hf. induction Hp; simpl; try constructor; auto. Qed.

Lemma mem_prog_attempt {A} l (p : prog ev A) : mem_prog l p -> mem_prog l (attempt p).
Proof. intros Hp. induction Hp; simpl; constructor; auto. Qed.

Lemma mem_prog_lift {A} l (r : result A) : mem_prog l (lift r).
Proof. destruct r; constructor. Qed.

(** Such a program does the same wherever the object is the same. *)
Lemma mem_prog_safe {A} R G l (p : prog ev A) :
  mem_prog l p ->
  (forall w w', R w w' -> w_heap w' !! l = w_heap w !! l) ->
  (forall w w', only_mem l w w' -> (is_Some (w_heap w !! l) -> is_Some (w_heap w' !! l)) -> G w w') ->
  forall w w0, w_heap w !! l = w_heap w0 !! l ->
  safe R G (fun r w' => r = fst (run p w0) /\ w_heap w' !! l = w_heap (snd (run p w0)) !! l) p w.
Proof.
  intros Hp HR HG. assert (Hrefl : forall w, G w w) by (intros w; by apply HG).
  assert (Halter : forall f w, G w (on_mem f l w)).
  { intros f w. apply HG; [apply only_mem_on_mem|]. unfold on_mem, set_heap. simpl. rewrite lookup_alter_eq. by intros [m ->]. }
  induction Hp as [a|e|k Hk IH|k Hk IH|o d k Hk IH|k Hk IH|n k Hk IH];
    intros w w0 Hw w1 H1; pose proof (HR w w1 H1) as Hw1; rewrite Hw in Hw1; simpl.
  - done.
  - done.
  - split; [done|]. unfold mem. rewrite Hw1. by apply IH.
  - split; [done|]. unfold mem. rewrite Hw1. by apply IH.
  - split; [by apply Halter|]. apply IH. unfold on_mem, set_heap. simpl.
    by rewrite !lookup_alter_eq, Hw1.
  - split; [by apply Halter|]. apply IH. unfold on_mem, set_heap. simpl.
    by rewrite !lookup_alter_eq, Hw1.
  - unfold reshape_in, mem. rewrite Hw1. destruct (lm_reshape _ n) as [e|m]; cbn [fst snd]; [split; [done|by apply IH]|].
    split; [apply HG; [split_and!; try done; intros l' Hne; simpl; by rewrite lookup_insert_ne|simpl; by rewrite lookup_insert_eq]|].
    apply IH. simpl. by rewrite !lookup_insert_eq.
Qed.
End interleave.

#[export] Hint Resolve mem_prog_attempt mem_prog_lift : model.
#[export] Hint Constructors mem_prog : model.
