(* ===== verification/Threads.v ===== *)
(** * Threads over a shared state

    Programs ([Runtime.prog]) whose events act on a state, taking turns event by event, any number
    of them and in any order.  [race_inv] is the Owicki-Gries rule; threads whose events act on
    different places of the state behave as if each were alone ([race_disjoint]); some schedule
    ends them all ([race_ends]). *)

From S2P Require Import Prelude Errors Keys Runtime.

(** ** Lists of threads

    Over the Standard Library's lists: stdpp's lookups put lists and programs in incompatible
    universes. *)

Section lists.
Context {T : Type}.
Implicit Types (ps : list T).

(** The state of one thread replaced. *)
Fixpoint set_thread (i : nat) (p : T) ps : list T :=
  match ps, i with
  | [], _ => []
  | _ :: ps, O => p :: ps
  | q :: ps, S i => q :: set_thread i p ps
  end.

Lemma set_thread_eq i p q : forall ps, nth_error ps i = Some q -> nth_error (set_thread i p ps) i = Some p.
Proof. induction i as [|i IH]; intros [|x ps] Hi; try done. cbn in *. by apply IH. Qed.

Lemma set_thread_ne i j p : forall ps, i <> j -> nth_error (set_thread i p ps) j = nth_error ps j.
Proof.
  revert j. induction i as [|i IH]; intros [|j] [|x ps] Hne; try done; cbn. apply IH. congruence.
Qed.

Lemma set_thread_length i p : forall ps, length (set_thread i p ps) = length ps.
Proof. induction i as [|i IH]; intros [|x ps]; try done. cbn. by rewrite IH. Qed.

Lemma set_thread_id i p : forall ps, nth_error ps i = Some p -> set_thread i p ps = ps.
Proof. induction i as [|i IH]; intros [|x ps] Hi; cbn in *; simplify_eq; [done|]. by rewrite IH. Qed.

Lemma set_thread_twice i p q : forall ps, set_thread i q (set_thread i p ps) = set_thread i q ps.
Proof. induction i as [|i IH]; intros [|x ps]; cbn; [done..|]. by rewrite IH. Qed.

Lemma nth_error_lt i p ps : nth_error ps i = Some p -> (i < length ps)%nat.
Proof. intros Hi. apply nth_error_Some. by rewrite Hi. Qed.

Lemma length_threads {X} (f : X -> T) xs : length (List.map f xs) = length xs.
Proof. induction xs as [|x xs IH]; [done|]. cbn. by rewrite IH. Qed.

Lemma nth_threads {X} (f : X -> T) xs : forall i p, nth_error (List.map f xs) i = Some p -> exists x, xs !! i = Some x /\ p = f x.
Proof. induction xs as [|x xs IH]; intros [|i] p Hi; cbn in *; try done; [exists x|by apply IH]. by injection Hi as <-. Qed.

Lemma set_threads {X} (f : X -> T) xs : forall i x x0,
  xs !! i = Some x0 -> set_thread i (f x) (List.map f xs) = List.map f (<[i := x]> xs).
Proof. induction xs as [|y xs IH]; intros [|i] x x0 Hi; simpl in *; try done. f_equal. by eapply IH. Qed.
End lists.

(** ** The machine *)

Section machine.
Context {E : Type -> Type} {S : Type} (act : forall X, E X -> S -> X * S) {A : Type}.
Arguments act {X}.
Implicit Types (s : S) (p : prog E A) (ps : list (prog E A)).

Fixpoint alone p s : result A * S :=
  match p with
  | Ret a => (inr a, s)
  | Raise e => (inl e, s)
  | Vis e k => let '(x, s) := act e s in alone (k x) s
  end.

(** How a thread has ended. *)
Definition ended p : option (result A) :=
  match p with Ret a => Some (inr a) | Raise e => Some (inl e) | Vis _ _ => None end.

Definition move p s : option (prog E A * S) :=
  match p with Vis e k => let '(x, s) := act e s in Some (k x, s) | _ => None end.

(** [turns] names the thread that moves next. *)
Fixpoint race (turns : list nat) ps s : list (prog E A) * S :=
  match turns with
  | [] => (ps, s)
  | i :: turns =>
      match nth_error ps i with
      | Some p =>
          match move p s with
          | Some (p, s) => race turns (set_thread i p ps) s
          | None => race turns ps s
          end
      | None => race turns ps s
      end
  end.

Lemma alone_ended p r s : ended p = Some r -> alone p s = (r, s).
Proof. destruct p; cbn; congruence. Qed.

(** Owicki-Gries: thread [i] keeps its assertion [I i] by its own steps and by those of the
    others, and all keep [G]. *)
Lemma race_inv (G : S -> Prop) (I : nat -> prog E A -> S -> Prop) :
  (forall i X (e : E X) k s, G s -> I i (Vis e k) s -> let '(x, s') := act e s in
     G s' /\ I i (k x) s' /\ forall j q, j <> i -> I j q s -> I j q s') ->
  forall turns ps s, G s -> (forall i p, nth_error ps i = Some p -> I i p s) ->
  let '(ps', s') := race turns ps s in
  G s' /\ length ps' = length ps /\ forall i p, nth_error ps' i = Some p -> I i p s'.
Proof.
  intros Hstep. induction turns as [|t turns IH]; intros ps s HG Hps; cbn [race]; [done|].
  destruct (nth_error ps t) as [p|] eqn:Et; [|by apply IH].
  destruct p as [a|e|X e k]; cbn [move]; [by apply IH..|].
  pose proof (Hstep t X e k s HG (Hps t _ Et)) as Hs. destruct (act e s) as [x s1].
  destruct Hs as (HG1 & Hown & Hoth). specialize (IH (set_thread t (k x) ps) s1 HG1). rewrite set_thread_length in IH.
  apply IH. intros i p Hi. destruct (decide (i = t)) as [->|Hne].
  - rewrite (set_thread_eq _ _ _ _ Et) in Hi. by injection Hi as <-.
  - rewrite set_thread_ne in Hi by done. apply Hoth; [done|]. by apply Hps.
Qed.

(** ** Every thread can end *)

Lemma race_app t1 t2 : forall ps s, race (t1 ++ t2) ps s = let '(ps, s) := race t1 ps s in race t2 ps s.
Proof.
  induction t1 as [|i t1 IH]; intros ps s; cbn [race app]; [done|].
  destruct (nth_error ps i) as [p|]; [|apply IH]. destruct (move p s) as [[p1 s1]|]; apply IH.
Qed.

Lemma race_one p : forall i ps s, nth_error ps i = Some p ->
  exists turns p', is_Some (ended p') /\ fst (race turns ps s) = set_thread i p' ps.
Proof.
  induction p as [a|e|X e k IH]; intros i ps s Hi.
  - exists [], (Ret a). split; [by eexists|]. cbn. by rewrite set_thread_id.
  - exists [], (Raise e). split; [by eexists|]. cbn. by rewrite set_thread_id.
  - destruct (act e s) as [x s1] eqn:Eh.
    destruct (IH x i (set_thread i (k x) ps) s1) as (turns & p' & He & Hr).
    { by eapply set_thread_eq. }
    exists (i :: turns), p'. split; [done|]. cbn [race]. rewrite Hi. cbn [move]. rewrite Eh, Hr. by rewrite set_thread_twice.
Qed.

Definition all_ended ps : Prop := forall i p, nth_error ps i = Some p -> is_Some (ended p).

(** From any state of any threads. *)
Lemma race_ends ps s : exists turns, all_ended (fst (race turns ps s)).
Proof.
  assert (Hn : forall n, (n <= length ps)%nat -> exists turns,
    length (fst (race turns ps s)) = length ps /\
    forall i p, (i < n)%nat -> nth_error (fst (race turns ps s)) i = Some p -> is_Some (ended p)).
  { induction n as [|n IH]; intros Hle; [exists []; split; [done|intros; lia]|].
    destruct IH as (t1 & Hl & Hend); [lia|]. destruct (race t1 ps s) as [ps1 s1] eqn:E1. cbn [fst] in *.
    destruct (nth_error ps1 n) as [p|] eqn:Hp; [|apply nth_error_None in Hp; lia]. destruct (race_one p n ps1 s1 Hp) as (t2 & p' & He & Hr).
    exists (t1 ++ t2). rewrite race_app, E1, Hr, set_thread_length. split; [done|]. intros i q Hi Hq.
    destruct (decide (i = n)) as [->|Hne].
    - rewrite (set_thread_eq _ _ _ _ Hp) in Hq. by injection Hq as <-.
    - rewrite set_thread_ne in Hq by done. apply (Hend i); [lia|done]. }
  destruct (Hn (length ps)) as (turns & Hl & Hend); [done|]. exists turns. intros i p Hi.
  apply (Hend i); [|done]. rewrite <- Hl. by eapply nth_error_lt.
Qed.

(** ** Threads on different places of the state *)

Context {K V : Type} `{Countable K} (place : forall X, E X -> K) (view : K -> S -> V).
Arguments place {X}.
(** An event depends on its place only, and changes no other. *)
Hypothesis act_local : forall X (e : E X) s s', view (place e) s = view (place e) s' ->
  fst (act e s) = fst (act e s') /\ view (place e) (snd (act e s)) = view (place e) (snd (act e s')).
Hypothesis act_other : forall X (e : E X) s k, k <> place e -> view k (snd (act e s)) = view k s.
Implicit Types (Ks : gset K).

Fixpoint touches Ks p : Prop :=
  match p with
  | Ret _ | Raise _ => True
  | Vis e k => place e ∈ Ks /\ forall x, touches Ks (k x)
  end.

Definition agree Ks s s' : Prop := forall k, k ∈ Ks -> view k s = view k s'.

Lemma alone_local Ks p : forall s s', touches Ks p -> agree Ks s s' ->
  fst (alone p s) = fst (alone p s') /\ agree Ks (snd (alone p s)) (snd (alone p s')).
Proof.
  induction p as [a|e|X e k IH]; intros s s' Ht Hag; cbn [alone]; [done..|]. destruct Ht as [Hin Ht].
  destruct (act_local X e s s' (Hag _ Hin)) as [Ex Ev].
  assert (Hag' : agree Ks (snd (act e s)) (snd (act e s'))).
  { intros k' Hk'. destruct (decide (k' = place e)) as [->|Hne]; [done|]. rewrite !act_other by done. by apply Hag. }
  destruct (act e s) as [x s1], (act e s') as [x' s1']. cbn in *. subst x'. by apply IH.
Qed.

(** Each thread goes on as if it were alone, whatever the schedule. *)
Lemma race_disjoint (places : nat -> gset K) turns ps s :
  (forall i j, i <> j -> places i ## places j) -> (forall i p, nth_error ps i = Some p -> touches (places i) p) ->
  let '(ps', s') := race turns ps s in
  (forall k, (forall i, (i < length ps)%nat -> k ∉ places i) -> view k s' = view k s) /\ length ps' = length ps /\
  forall i p', nth_error ps' i = Some p' -> touches (places i) p' /\ exists p, nth_error ps i = Some p /\
    fst (alone p' s') = fst (alone p s) /\ agree (places i) (snd (alone p' s')) (snd (alone p s)).
Proof.
  intros Hd Ht. apply (race_inv
    (fun s' => forall k, (forall i, (i < length ps)%nat -> k ∉ places i) -> view k s' = view k s)
    (fun i p' s' => touches (places i) p' /\ exists p, nth_error ps i = Some p /\
       fst (alone p' s') = fst (alone p s) /\ agree (places i) (snd (alone p' s')) (snd (alone p s)))).
  - intros i X e c s1 HG ([Hin Htc] & p & Hp & Hf & Ha). cbn [alone] in Hf, Ha.
    assert (Ho : forall k, k ∉ places i -> view k (snd (act e s1)) = view k s1)
      by (intros k Hk; apply act_other; set_solver).
    destruct (act e s1) as [x s2]. cbn [snd] in Ho. split; [|split].
    + intros k Hk. rewrite Ho; [by apply HG|]. apply Hk. by eapply nth_error_lt.
    + split; [done|]. by exists p.
    + intros j q Hne (Htq & pj & Hpj & Hfj & Haj). split; [done|]. exists pj. split; [done|].
      destruct (alone_local (places j) q s2 s1 Htq) as [Ef Ea].
      { intros k Hk. apply Ho. specialize (Hd i j ltac:(congruence)). set_solver. }
      rewrite Ef. split; [done|]. intros k Hk. rewrite (Ea k Hk). by apply Haj.
  - done.
  - intros i p Hp. split; [by apply Ht|]. by exists p.
Qed.
End machine.
