(* ===== verification/Ownership.v ===== *)
(** * Threads that own an object

    The judgement of [Interleave] with one addition: what a thread relies on grows with the object
    it has allocated.  A [get] is such a thread, into an object it is given or into one it
    allocates; its steps are shown safe once for everything the other threads may do to the records
    ([Rs]), and used next to a writer ([Concurrency]) and next to other readers ([GatherReads]). *)

From S2P Require Import Prelude PyStr Errors Sharding Config Limits Crc32 Keys.
From S2P Require Import Runtime Policies Metrics Serde Engine ClientSpec Store GetFacts Concrete.
From S2P Require Import PutFacts KeyOps Interleave.

(** ** Threads that may come to own one object *)

Section owning.
Context {C : Type} `{AerospikeClient C} `{!ClientSpec C} `{Env}.
Context (Rs : gmap key bins -> gmap key bins -> Prop) `{!PreOrder Rs}.
Implicit Types (w : world C) (own : option loc).

Abbreviation st w := (store (w_client w)).

Definition keeps_objects w w' : Prop := forall l, is_Some (w_heap w !! l) -> is_Some (w_heap w' !! l).

(** What the others do: they change records as [Rs] says, leave the owned object alone, and no object
    disappears. *)
Definition others own w w' : Prop :=
  Rs (st w) (st w') /\ keeps_objects w w' /\ forall l, own = Some l -> w_heap w' !! l = w_heap w !! l.

(** What the thread does: records and the objects it does not own stay; it may take a new object. *)
Definition own_step own own' w w' : Prop :=
  st w' = st w /\ keeps_objects w w' /\ (forall l, own' <> Some l -> w_heap w' !! l = w_heap w !! l) /\
  (own' = own \/ own = None /\ exists l, own' = Some l /\ w_heap w !! l = None /\ is_Some (w_heap w' !! l)).

#[export] Instance others_preorder own : PreOrder (others own).
Proof.
  split; [intros w; split_and!; [done|by intros l|done]|]. intros w1 w2 w3 (A1 & A2 & A3) (B1 & B2 & B3).
  split_and!; [by etrans| |].
  - intros l Hl. by apply B2, A2.
  - intros l E. by rewrite B3, A3.
Qed.

Lemma own_quiet_step own w w' : st w' = st w -> w_heap w' = w_heap w -> own_step own own w w'.
Proof. intros Es Eh. split_and!; [done| |intros l _; by rewrite Eh|by left]. intros l. by rewrite Eh. Qed.

Lemma own_mem_step l w w' : only_mem l w w' -> (is_Some (w_heap w !! l) -> is_Some (w_heap w' !! l)) ->
  own_step (Some l) (Some l) w w'.
Proof.
  intros (Hc & _ & _ & _ & Hh) Hl. split_and!; [by rewrite Hc| | |by left].
  - intros l' Hl'. destruct (decide (l' = l)) as [->|Hne]; [by apply Hl|by rewrite Hh].
  - intros l' Hne. apply Hh. congruence.
Qed.

Fixpoint osafe {A} (Q : result A -> option loc -> world C -> Prop) (p : prog ev A) own w : Prop :=
  forall w1, others own w w1 ->
  match p with
  | Ret a => Q (inr a) own w1
  | Raise e => Q (inl e) own w1
  | Vis e k => exists own', own_step own own' w1 (snd (handle e w1)) /\
      osafe Q (k (fst (handle e w1))) own' (snd (handle e w1))
  end.

Lemma osafe_rely {A} (Q : result A -> option loc -> world C -> Prop) p own w w' :
  others own w w' -> osafe Q p own w -> osafe Q p own w'.
Proof. intros HR Hs. destruct p as [a|e|X e k]; intros w1 H1; apply Hs; by transitivity w'. Qed.

Lemma osafe_weaken {A} (Q Q' : result A -> option loc -> world C -> Prop) p own w :
  (forall r own' w', Q r own' w' -> Q' r own' w') -> osafe Q p own w -> osafe Q' p own w.
Proof.
  intros HQ. revert own w. induction p as [a|e|X e k IH]; intros own w Hs w1 H1; [by apply HQ, Hs..|].
  destruct (Hs w1 H1) as (own' & Hg & Hk). exists own'. split; [done|]. by apply IH.
Qed.

Lemma osafe_bind {A B} (Q : result B -> option loc -> world C -> Prop) (p : prog ev A) (f : A -> prog ev B) own w :
  osafe (fun r own' w' => match r with inr a => osafe Q (f a) own' w' | inl e => Q (inl e) own' w' end) p own w ->
  osafe Q (bind p f) own w.
Proof.
  revert own w. induction p as [a|e|X e k IH]; intros own w Hs; simpl.
  - apply Hs. reflexivity.
  - exact Hs.
  - intros w1 H1. destruct (Hs w1 H1) as (own' & Hg & Hk). exists own'. split; [done|]. by apply IH.
Qed.

Lemma osafe_attempt {A} (Q : result (result A) -> option loc -> world C -> Prop) (p : prog ev A) own w :
  osafe (fun r own' w' => Q (inr r) own' w') p own w -> osafe Q (attempt p) own w.
Proof.
  revert own w. induction p as [a|e|X e k IH]; intros own w Hs; simpl; [exact Hs|exact Hs|].
  intros w1 H1. destruct (Hs w1 H1) as (own' & Hg & Hk). exists own'. split; [done|]. by apply IH.
Qed.

Lemma osafe_lift {A} (Q : result A -> option loc -> world C -> Prop) r own w :
  (forall w1, others own w w1 -> Q r own w1) -> osafe Q (lift r) own w.
Proof. by destruct r. Qed.

(** With its object in hand a thread is one of [Interleave]. *)
Lemma osafe_owner {A} (Q : result A -> world C -> Prop) p l w :
  safe (others (Some l)) (own_step (Some l) (Some l)) Q p w ->
  osafe (fun r own' w' => own' = Some l /\ Q r w') p (Some l) w.
Proof.
  revert w. induction p as [a|e|X e k IH]; intros w Hs w1 H1; [by split; [|apply Hs]..|].
  destruct (Hs w1 H1) as [Hg Hk]. exists (Some l). split; [done|]. by apply IH.
Qed.

Lemma osafe_with_timer {A} (Q : result A -> option loc -> world C -> Prop) op
    (body : OpTimer -> prog ev (OpTimer * result A)) own w :
  (forall r own w w', w_heap w' = w_heap w -> Q r own w -> Q r own w') ->
  (forall r own w w', others own w w' -> Q r own w -> Q r own w') ->
  osafe (fun r own' w' => match r with inl e => Q (inl e) own' w' | inr (_, out) => Q out own' w' end)
    (body (OpTimer_init op)) own w ->
  osafe Q (with_timer op body) own w.
Proof.
  intros HQ HR Hs. unfold with_timer. apply osafe_bind, osafe_attempt.
  assert (Hobs : forall o lb own w, own_step own own w (observed o lb w)) by (intros; by apply own_quiet_step).
  eapply osafe_weaken; [|exact Hs]. intros [e|[t out]] own' w' Hq; simpl.
  - intros w1 H1. exists own'. split; [apply Hobs|]. intros w2 H2. apply (HR _ _ _ _ H2), (HQ _ _ w1); [done|]. by apply (HR _ _ w').
  - unfold finish. destruct (finished t); simpl.
    + apply osafe_lift. intros w1 H1. by apply (HR _ _ w').
    + intros w1 H1. exists own'. split; [apply Hobs|]. apply osafe_lift.
      intros w2 H2. apply (HR _ _ _ _ H2), (HQ _ _ w1); [done|]. by apply (HR _ _ w').
Qed.
End owning.

(** Next to a thread that allocates nothing and works on the object at [l]. *)
Section interleaving.
Context {C : Type} `{AerospikeClient C} `{!ClientSpec C} `{Env}.
Context (Rs : gmap key bins -> gmap key bins -> Prop) `{!PreOrder Rs} (R G : world C -> world C -> Prop) `{!PreOrder R} (l : loc).
Implicit Types (w : world C) (own : option loc).

Abbreviation st w := (store (w_client w)).

Hypothesis HG : forall w w', G w w' -> Rs (st w) (st w') /\ w_heap w' = w_heap w.
Hypothesis HR : forall w w', st w' = st w -> w_heap w' !! l = w_heap w !! l -> R w w'.

(** Since [w0], what the second thread owns is what it was given or a new object. *)
Record next_to w0 given own w : Prop := {
  nt_object : is_Some (w_heap w !! l);
  nt_apart : own <> Some l;
  nt_keeps : keeps_objects w0 w;
  nt_own : own = given \/ given = None /\ exists d, own = Some d /\ w_heap w0 !! d = None
}.

Lemma next_to_quiet w0 given own w w' : w_heap w' = w_heap w -> next_to w0 given own w -> next_to w0 given own w'.
Proof. intros E [H1 H2 H3 H4]. split; rewrite ?E; [done..| |done]. intros d Hd. rewrite E. by apply H3. Qed.

Lemma next_to_step w0 given own own' w w' : own_step own own' w w' -> next_to w0 given own w ->
  next_to w0 given own' w' /\ R w w'.
Proof.
  intros (Es & Hk & Hh & Hc) [[m Hm] Hne Hkeep Hown].
  assert (Hl : own' <> Some l).
  { destruct Hc as [->|(_ & d & -> & Hd & _)]; [done|]. intros [= ->]. congruence. }
  split; [|by apply HR; [|apply Hh]]. split; [apply Hk; by exists m|done|intros d Hd; by apply Hk, Hkeep|].
  destruct Hc as [->|(-> & d & -> & Hd & _)]; [done|]. right. destruct Hown as [<-|(_ & ? & [=] & _)].
  split; [done|]. exists d. split; [done|]. apply eq_None_not_Some. intros Hs%Hkeep. rewrite Hd in Hs. by destruct Hs.
Qed.

Lemma interleave_owned {A B} (Q1 : result A -> world C -> Prop) (Q2 : result B -> option loc -> world C -> Prop)
    turns w0 given : forall p q w own,
  next_to w0 given own w -> safe R G Q1 p w -> osafe Rs Q2 q own w ->
  let '(p', q', w') := interleave turns p q w in
  exists own', next_to w0 given own' w' /\ safe R G Q1 p' w' /\ osafe Rs Q2 q' own' w'.
Proof.
  induction turns as [|turn turns IH]; intros p q w own Hn Hp Hq; simpl; [by exists own|]. destruct turn.
  - destruct p as [a|e|X e k]; simpl; [by eapply IH..|].
    destruct (Hp w ltac:(reflexivity)) as [[Hs Hh]%HG Hk]. destruct (handle e w) as [x w']. cbn [fst snd] in *.
    apply (IH _ _ _ own); [by eapply next_to_quiet|done|].
    apply (osafe_rely Rs _ _ _ w); [|done]. split_and!; [done|by intros d; rewrite Hh|by intros d _; rewrite Hh].
  - destruct q as [a|e|X e k]; simpl; [by eapply IH..|].
    destruct (Hq w ltac:(reflexivity)) as (own' & Hg & Hk). destruct (handle e w) as [x w']. cbn [fst snd] in *.
    destruct (next_to_step _ _ _ _ _ _ Hg Hn) as [Hn' Hr].
    apply (IH _ _ _ own'); [done|by eapply safe_rely|done].
Qed.
End interleaving.

(** ** Reading is memory work on one object, after the batch read *)

Section reader_prog.
Context `{Env} {CK : Type} (to_string : CK -> string) (self : Engine).

Lemma write_payload_mem_prog l v n : mem_prog l (write_payload_into l v n).
Proof.
  unfold write_payload_into. apply mem_prog_bind; [apply mem_prog_lift|]. intros k.
  constructor. intros [numel|]; cbn [bind].
  - destruct (_ <? _)%nat; [constructor|]. apply mem_prog_bind; [apply mem_prog_lift|]. intros data.
    apply mem_prog_bind; [apply mem_prog_lift|]. intros src. repeat constructor.
  - constructor. intros buf. cbn [bind]. destruct (_ <? _)%nat; [constructor|].
    apply mem_prog_bind; [apply mem_prog_lift|]. intros data. repeat constructor.
Qed.

Lemma read_segments_mem_prog l recs total n : mem_prog l (read_segments l recs total n).
Proof.
  revert total n. induction recs as [|[code [b|]] recs IH]; intros total n; cbn [read_segments br_record br_result].
  - constructor.
  - destruct (negb _); [repeat constructor|]. destruct (b !! "b") as [v|]; [|constructor].
    apply mem_prog_bind; [apply write_payload_mem_prog|]. intros k.
    apply mem_prog_bind; [apply mem_prog_lift|]. intros len. apply IH.
  - repeat constructor.
Qed.

(** That the hook which reshapes the object, where it is used, works on that object only. *)
Definition reshapes_one (er : bool) l : Prop := er = true -> forall n, mem_prog l (reshape self l n).

Lemma get_finish_mem_prog t b l er n : reshapes_one er l -> mem_prog l (get_finish self t b l er n).
Proof.
  intros Her. unfold get_finish. apply mem_prog_bind.
  - unfold crc_matches. destruct (enable_crc32 _); [|constructor]. destruct (b !! "crc32"); repeat constructor.
  - intros []; [|repeat constructor]. apply mem_prog_bind; [destruct er; [by apply Her|constructor]|constructor].
Qed.

(** The part of [get_fill] behind the batch read. *)
Lemma get_fill_shape t ck b n l er : reshapes_one er l ->
  mem_prog l (get_fill to_string self t ck b n l er) \/
  exists k, get_fill to_string self t ck b n l er =
              Vis (ClientBatchRead (segs_of to_string self ck n) ["b"]) k /\ forall x, mem_prog l (k x).
Proof.
  intros Her.
  assert (Hrest : forall r : result (OpTimer * result (option loc)), mem_prog l (match r with
    | inr out => Ret out
    | inl e => trigger (MemRefDown l) ;; Ret (set_result "error" t, inl e) end))
    by (intros []; repeat constructor).
  unfold get_fill, get_payload. destruct (n =? 1).
  - left. apply mem_prog_bind; [|apply Hrest]. apply mem_prog_attempt.
    destruct (b !! "b") as [v|]; [|constructor].
    apply mem_prog_bind; [apply write_payload_mem_prog|]. intros k. by apply get_finish_mem_prog.
  - right. eexists. split; [reflexivity|]. intros r. simpl.
    apply mem_prog_bind; [|apply Hrest]. apply mem_prog_attempt.
    apply mem_prog_bind; [apply mem_prog_lift|]. intros recs.
    apply mem_prog_bind; [apply read_segments_mem_prog|]. intros [k|]; [by apply get_finish_mem_prog|constructor].
Qed.
End reader_prog.

(** ** One [get] *)

(** The hooks of the engine as programs: reshaping works on the one object, allocation is one event. *)
Class OneObjectHooks `{Env} (self : Engine) : Prop := {
  one_reshape l n : mem_prog l (reshape self l n);
  one_alloc b : (exists e, alloc_for_read self b = Raise e) \/ (exists er, alloc_for_read self b = Ret (None, er)) \/
    exists s er, alloc_for_read self b = Vis (MemAllocate s) (fun mo => Ret (mo, er))
}.

#[export] Instance connector_one_object `{Env} cfg scm spec r : OneObjectHooks (connector_engine cfg scm spec r).
Proof.
  split; cbn; unfold connector_reshape, allocate_for_read.
  - intros l n. constructor. intros [e|l']; constructor.
  - intros b. destruct scm, (b !! "md") as [md|]; try (right; right; by eexists _, _).
    destruct (bin_buffer md) as [e|buf]; cbn; [left; by eexists|].
    destruct (lm_deserialize buf) as [e|rm]; cbn; [left; by eexists|right; right; by eexists _, _].
Qed.

#[export] Instance l2_one_object `{Env} cfg r : OneObjectHooks (build_engine_l2 cfg r).
Proof. split; cbn; [constructor|]. intros b. right. left. by eexists. Qed.

(** The object at [l] starts with the payload of the entry of [k]. *)
Definition holds {C} `{AerospikeClient C} `{!ClientSpec C} {CK} (to_string : CK -> string) (self : Engine)
    (s : gmap key bins) (k : CK) (l : loc) (w : world C) : Prop :=
  exists p m, Store.entry to_string self s k = Some p /\ w_heap w !! l = Some m /\ take (length p) (mo_raw m) = p.

(** The record that makes [get] keep its object: one segment, no payload bin. *)
Definition hollow {CK} (to_string : CK -> string) (self : Engine) (s : gmap key bins) (k : CK) : Prop :=
  exists b, s !! mk_of to_string self k = Some b /\ bins_nseg b = inr 1 /\ b !! "b" = None.

Section get.
Context {C : Type} `{AerospikeClient C} `{!ClientSpec C} `{Env}.
Context {CK : Type} (to_string : CK -> string) (self : Engine) `{!EngineHooks C self} `{!OneObjectHooks self}.
Context (Hbuf : frombuffer_ok) (k : CK).
Context (Rs : gmap key bins -> gmap key bins -> Prop) `{!PreOrder Rs} (knows settled : gmap key bins -> Prop).
Implicit Types (w : world C) (own given : option loc) (s : gmap key bins).

Abbreviation st w := (store (w_client w)).
Abbreviation mk := (mk_of to_string self k).
Abbreviation osafe := (osafe Rs).

(** What is known of the records stays known; a ready record settles the key, and then the records
    stay as they are. *)
Hypothesis Hknows : forall s s', knows s -> Rs s s' -> knows s'.
Hypothesis Hsettle : forall s b, knows s -> s !! mk = Some b -> is_ready b = true -> settled s.
Hypothesis Hstays : forall s s', settled s -> Rs s s' -> s' = s.

(** How a [get] ends: with the object it owns, released as often as before and filled with a
    settled payload, or without one; then an object it has allocated is released, except for a
    record without payload. *)
Definition got_some given (d : nat) (out : result (option loc)) own w : Prop :=
  match out with
  | inr (Some l) => own = Some l /\ downs w l = d /\ exists s, settled s /\ holds to_string self s k l w
  | _ => given = None -> forall l, own = Some l ->
      downs w l = S d \/ downs w l = d /\ exists s, settled s /\ hollow to_string self s k
  end.

Lemma got_some_heap given d out own w w' : (forall l, own = Some l -> w_heap w' !! l = w_heap w !! l) ->
  got_some given d out own w -> got_some given d out own w'.
Proof.
  intros Hh. unfold got_some, downs, holds. destruct out as [e|[l|]].
  - intros Hq Hg l E. rewrite (Hh l E). by apply Hq.
  - intros (-> & Hd & Hp). by rewrite (Hh l eq_refl).
  - intros Hq Hg l E. rewrite (Hh l E). by apply Hq.
Qed.

Lemma fill_got_some given d l w w' w'' out : settled (st w) -> downs w l = d ->
  fill_outcome to_string self k l w out w' -> w_heap w'' !! l = w_heap w' !! l -> got_some given d out (Some l) w''.
Proof.
  intros Hs Hd [_ Hout] Hh. apply (got_some_heap _ _ _ _ w'); [by intros ? [= <-]|]. rewrite Hd in Hout.
  destruct out as [e|[l'|]].
  - intros _ ? [= <-]. by left.
  - destruct Hout as (-> & Hd' & p & m' & Hp & Hm' & _ & Hf). split_and!; [done|done|]. exists (st w). split; [done|]. by exists p, m'.
  - intros _ ? [= <-]. destruct Hout as [?|[? ?]]; [by left|right]. split; [done|]. by exists (st w).
Qed.

(** The second half, with the object at hand and the records settled. *)
Lemma get_fill_osafe given d t b n l er w :
  settled (st w) -> buffer_ok l w -> downs w l = d -> st w !! mk = Some b -> is_ready b = true -> bins_nseg b = inr n ->
  osafe (fun r own' w' => match r with inr (_, out) => got_some given d out own' w' | inl _ => False end)
    (get_fill to_string self t k b n l er) (Some l) w.
Proof.
  intros Hs (m & Hm & Hok & Hv) Hd Hb Hr Hn.
  assert (Hrel : forall w w' : world C, others Rs (Some l) w w' -> w_heap w' !! l = w_heap w !! l) by (intros ? ? (_ & _ & Hh); by apply Hh).
  eapply osafe_weaken; [|apply (osafe_owner Rs) with (Q := fun r w' =>
    match r with inr (_, out) => got_some given d out (Some l) w' | inl _ => False end)].
  { by intros r own' w' [-> Hq]. }
  destruct (get_fill_shape to_string self t k b n l er) as [Hmp|(c & Ek & Hmp)]; [intros _; apply one_reshape| |].
  - eapply safe_weaken; [|apply (mem_prog_safe _ _ _ _ Hmp Hrel (own_mem_step l) w w eq_refl)].
    intros r w' [-> Hh].
    destruct (run_get_fill to_string self Hbuf t k b n l er w) as (t' & out & w2 & E & Ho); [by exists m|done..|].
    rewrite E in Hh |- *. cbn in Hh |- *. by eapply fill_got_some.
  - rewrite Ek. intros w1 (Hs1 & Hk1 & Hd1). specialize (Hd1 l eq_refl).
    assert (Es1 : st w1 = st w) by by apply Hstays.
    destruct (run_get_fill to_string self Hbuf t k b n l er w1) as (t' & out & w2 & E & Ho);
      [exists m; by rewrite Hd1|by rewrite Es1|done|done|].
    rewrite Ek in E. cbn [run] in E. split.
    { cbn [handle]. unfold on_client. pose proof (batch_read_store (segs_of to_string self k n) ["b"] (w_client w1)) as Hst.
      destruct (client_batch_read _ _ _) as [r c']. by apply own_quiet_step. }
    destruct (handle _ w1) as [x w1']. cbn [fst snd].
    eapply safe_weaken; [|apply (mem_prog_safe _ _ _ _ (Hmp x) Hrel (own_mem_step l) w1' w1' eq_refl)].
    intros r w' [-> Hh]. rewrite E in Hh |- *. cbn in Hh |- *. eapply fill_got_some; [|..|exact Ho|exact Hh].
    + by rewrite Es1.
    + unfold downs. by rewrite Hd1.
Qed.

(** The rest of [get] once a ready record has been read. *)
Lemma get_ready_osafe given d b n w :
  settled (st w) -> st w !! mk = Some b -> is_ready b = true -> bins_nseg b = inr n ->
  match given with Some l => buffer_ok l w /\ downs w l = d | None => d = 0%nat end ->
  osafe (fun r own' w' => match r with inr (_, out) => got_some given d out own' w' | inl e => got_some given d (inl e) own' w' end)
    (let! (mo, er) := match given with Some mo => Ret (Some mo, false) | None => alloc_for_read self b end in
     match mo with
     | None => Ret (set_result "miss" (OpTimer_init "get"), inr None)
     | Some l => get_fill to_string self (OpTimer_init "get") k b n l er
     end) given w.
Proof.
  intros Hs Hb Hr Hn Hgiven. destruct given as [dst|]; cbn [bind].
  { destruct Hgiven as [Hok Hd]. eapply osafe_weaken; [|by apply (get_fill_osafe (Some dst) d _ b n dst false w)].
    by intros [e|[t out]] own' w'. }
  subst d. destruct (one_alloc (self := self) b) as [[e ->]|[[er ->]|(sp & er & Ea)]]; [by intros w2 _..|]. rewrite Ea. cbn [bind].
  intros w2 (Hs2 & _ & _). pose proof (hook_alloc b w2) as Hal. rewrite Ea in Hal. cbn [run] in Hal.
  cbn [handle] in Hal |- *. destruct (allocate_in sp w2) as [[l|] w3]; cbn [fst snd run] in Hal |- *; cycle 1.
  { subst w3. exists None. split; [by apply own_quiet_step|]. by intros w4 _. }
  destruct Hal as (Hom & Hl & m & Hm & Hmok & Hv & Hd). exists (Some l).
  assert (Hst3 : st w3 = st w) by (destruct Hom as (Hc & _); rewrite Hc; by apply Hstays).
  split.
  - destruct Hom as (Hc & _ & _ & _ & Hh). split_and!; [by rewrite Hc| |intros l' Hne; apply Hh; congruence|].
    + intros l' Hl'. destruct (decide (l' = l)) as [->|Hne]; [by eexists|by rewrite Hh].
    + right. split; [done|]. exists l. split_and!; [done|done|by eexists].
  - eapply osafe_weaken; [|apply (get_fill_osafe None 0 (OpTimer_init "get") b n l er w3)]; rewrite ?Hst3; try done.
    + by intros [e|[t out]] own' w'.
    + by exists m.
    + unfold downs. by rewrite Hm.
Qed.

Lemma get_osafe given d w : knows (st w) ->
  match given with Some l => buffer_ok l w /\ downs w l = d | None => d = 0%nat end ->
  osafe (got_some given d) (get to_string self k given) given w.
Proof.
  intros Hs Hgiven. unfold get. apply (osafe_with_timer Rs).
  { intros r own w1 w2 Hh. apply got_some_heap. intros l _. by rewrite Hh. }
  { intros r own w1 w2 (_ & _ & Hh). by apply got_some_heap. }
  intros w1 (Hs1 & Hk1 & Hd1). exists given. cbn [handle]. unfold on_client.
  pose proof (get_store mk (w_client w1)) as Hst. pose proof (get_ok mk (w_client w1)) as Hgok.
  destruct (client_get mk (w_client w1)) as [r c']. cbn [fst snd] in *. split; [by apply own_quiet_step|].
  assert (Hno : forall (out : result (option loc)) w2, match out with inr (Some _) => False | _ => True end ->
    got_some given d out given w2) by (by intros [e|[l|]] w2 Hout; [intros ->| |intros ->]).
  unfold catch_ax. cbn [bind]. destruct r as [e|b].
  { destruct (isinstance e RecordNotFound); [by intros w2 _; apply Hno|].
    destruct (isinstance e AerospikeError); [|by intros w2 _; apply Hno].
    by destruct (classify e); intros w2 _; apply Hno. }
  specialize (Hgok b eq_refl). destruct (is_ready b) eqn:Hr; cbn [negb]; [|by intros w2 _; apply Hno].
  destruct (bins_nseg b) as [e|n] eqn:Hn; [by intros w2 _; apply Hno|]. cbn [lift bind].
  apply get_ready_osafe; try done; cbn; rewrite ?Hst; try done.
  - eapply Hsettle; [by eapply Hknows|done|done].
  - destruct given as [l|]; [|done]. destruct Hgiven as [(m & Hm & Hok) Hd]. specialize (Hd1 l eq_refl).
    split; [exists m; cbn; by rewrite Hd1|]. unfold downs in *. cbn. by rewrite Hd1.
Qed.
End get.
