(* ===== verification/WellFormed.v ===== *)
(** * The shape of the stored records is an invariant

    Every event of every engine operation keeps the store well formed, whatever other threads
    and the cluster do in between: the judgement [keeps_wf] relies on nothing. *)

From S2P Require Import Prelude PyStr Errors Sharding Config Limits Crc32 Keys.
From S2P Require Import Runtime Policies Metrics Serde Engine ClientSpec Store GetFacts Reads Concrete.
From S2P Require Import PutFacts KeyOps Interleave.

Section wf.
Context {C : Type} `{AerospikeClient C} `{!ClientSpec C} `{Env}.
Context {CK : Type} (to_string : CK -> string) `{!Inj (=) (=) to_string} (self : Engine).

Abbreviation mk_of := (mk_of to_string self).
Abbreviation seg_of := (seg_of to_string self).
Abbreviation wf := (wf_store to_string self).
Abbreviation st w := (store (w_client w)).

Definition wf_steps (w w' : world C) : Prop := wf (st w) -> wf (st w').

(** Every event of [p] keeps the store well formed. *)
Abbreviation keeps_wf p w := (safe anything wf_steps (fun _ _ => True) p w).

Lemma wf_same w w' : st w' = st w -> wf_steps w w'.
Proof. unfold wf_steps. by intros ->. Qed.

(** ** Writes that keep the shape *)

(** Each changed record has the shape its key asks for. *)
Definition shaped (k : key) (old new : option bins) : Prop :=
  new = old \/ new = None \/
  exists b, new = Some b /\
    ((exists ck, k = mk_of ck) -> wf_meta b) /\
    ((exists ck i, 0 <= i /\ k = seg_of ck i) -> wf_seg b).

Lemma shaped_wf s s' :
  wf s -> (forall k, shaped k (s !! k) (s' !! k)) -> wf s'.
Proof.
  intros [Hm Hs] Hk. split.
  - intros ck b E. destruct (Hk (mk_of ck)) as [E'|[E'|(b' & E' & Hb & _)]];
      rewrite E in E'; [by apply (Hm ck)|done|]. injection E' as <-. eauto.
  - intros ck i b Hi E. destruct (Hk (seg_of ck i)) as [E'|[E'|(b' & E' & _ & Hb)]];
      rewrite E in E'; [by apply (Hs ck i)|done|]. injection E' as <-. eauto.
Qed.

(** A meta write, a segment write, a pin write. *)
Definition shaped_write (s : gmap key bins) (k : key) (l : bin_list) : Prop :=
  (exists ck, k = mk_of ck /\
     ((exists v, l = [("pin", v)]) \/
      exists p payload, 1 <= nseg p /\ meta_written self p payload l)) \/
  (exists ck i chunk, 0 <= i /\ k = seg_of ck i /\ dict_of l !! "b" = Some (BBytes chunk)).

Lemma pin_wf_meta old v :
  (forall b, old = Some b -> wf_meta b) -> wf_meta (merged old [("pin", v)]).
Proof.
  intros Hold. assert (Hsame : forall n, n <> "pin" -> merged old [("pin", v)] !! n = default ∅ old !! n).
  { intros n Hn. apply merged_other. unfold dict_of. simpl. by rewrite lookup_insert_ne. }
  destruct old as [b|]; simpl in *.
  - destruct (Hold b eq_refl) as [Hn Hr]. split.
    + intros v'. rewrite Hsame by done. apply Hn.
    + unfold is_ready. rewrite !Hsame by done. apply Hr.
  - split.
    + intros v'. rewrite Hsame, lookup_empty by done. done.
    + unfold is_ready. rewrite Hsame, lookup_empty by done. done.
Qed.

Lemma shaped_write_shaped s k l :
  wf s -> shaped_write s k l -> shaped k (s !! k) (Some (merged (s !! k) l)).
Proof.
  intros [Hm Hs] Hw. right. right. eexists. split; [reflexivity|]. destruct Hw as [(ck & -> & Hl)|Hl].
  - split; [|intros (ck' & i & Hi & E); by apply mk_of_seg_of in E]. intros _.
    destruct Hl as [[v ->]|(p & payload & Hn & Hw)]; [|by eapply meta_written_wf].
    apply pin_wf_meta. intros b. apply Hm.
  - destruct Hl as (ck & i & chunk & Hi & -> & Hb). split.
    + intros [ck' E]. symmetry in E. by apply mk_of_seg_of in E.
    + intros _. exists chunk. by apply merged_named.
Qed.

Lemma put_wf k l ttl wp (w : world C) :
  shaped_write (st w) k l -> wf_steps w (snd (handle (ClientPut k l ttl wp) w)).
Proof.
  intros Hl Hwf. cbn [handle]. unfold on_client.
  pose proof (put_frame k l ttl wp (w_client w)) as Hfr.
  pose proof (put_doubt k l ttl wp (w_client w)) as Hd.
  destruct (client_put k l ttl wp (w_client w)) as [r c']. simpl in *.
  apply (shaped_wf (st w)); [done|]. intros k'. destruct (decide (k' = k)) as [->|Hne].
  - destruct Hd as [E|E]; [by left|]. unfold written in E. rewrite E. by apply shaped_write_shaped.
  - left. by apply Hfr.
Qed.

Lemma operate_wf k l ttl wp (w : world C) :
  shaped_write (st w) k l -> wf_steps w (snd (handle (ClientOperate k l ttl wp) w)).
Proof.
  intros Hl Hwf. cbn [handle]. unfold on_client.
  pose proof (operate_frame k l ttl wp (w_client w)) as Hfr.
  pose proof (operate_doubt k l ttl wp (w_client w)) as Hd.
  destruct (client_operate k l ttl wp (w_client w)) as [r c']. simpl in *.
  apply (shaped_wf (st w)); [done|]. intros k'. destruct (decide (k' = k)) as [->|Hne].
  - destruct Hd as [E|E]; [by left|]. unfold written in E. rewrite E. by apply shaped_write_shaped.
  - left. by apply Hfr.
Qed.

Definition shaped_op (s : gmap key bins) (op : batch_op) : Prop :=
  match op with BWrite k l _ _ => shaped_write s k l | BRemove _ => True end.

Lemma batch_wf ops (w : world C) :
  NoDup (batch_key <$> ops) -> Forall (shaped_op (st w)) ops ->
  wf_steps w (snd (handle (ClientBatchWrite ops) w)).
Proof.
  intros Hnd Hops Hwf. cbn [handle]. unfold on_client.
  pose proof (batch_write_frame ops (w_client w)) as Hfr.
  pose proof (fun op => batch_write_doubt ops (w_client w) op Hnd) as Hd.
  destruct (client_batch_write ops (w_client w)) as [r c']. simpl in *.
  apply (shaped_wf (st w)); [done|]. intros k.
  destruct (decide (k ∈ batch_key <$> ops)) as [Hin|Hnin]; [|left; by apply Hfr].
  apply list_elem_of_fmap in Hin as (op & -> & Hop).
  destruct (Hd op Hop) as [E|E]; [by left|].
  rewrite Forall_forall in Hops. specialize (Hops op Hop).
  destruct op as [k l ttl wp|k]; simpl in *; [|right; by left].
  unfold written in E. rewrite E. by apply shaped_write_shaped.
Qed.

Lemma remove_wf k (w : world C) : wf_steps w (snd (handle (ClientRemove k) w)).
Proof.
  intros Hwf. cbn [handle]. unfold on_client.
  pose proof (remove_frame k (w_client w)) as Hfr. pose proof (remove_doubt k (w_client w)) as Hd.
  destruct (client_remove k (w_client w)) as [r c']. simpl in *.
  apply (shaped_wf (st w)); [done|]. intros k'. destruct (decide (k' = k)) as [->|Hne].
  - destruct Hd as [E|E]; [by left|right; by left].
  - left. by apply Hfr.
Qed.

(** ** Programs without writes *)

(** An event that cannot change a record. *)
Definition read_only {X} (e : ev X) : Prop :=
  match e with
  | ClientPut _ _ _ _ | ClientBatchWrite _ | ClientRemove _ | ClientOperate _ _ _ _ => False
  | _ => True
  end.

Lemma read_only_same {X} (e : ev X) (w : world C) : read_only e -> st (snd (handle e w)) = st w.
Proof.
  destruct e; simpl; try done; unfold on_client; intros _.
  - pose proof (get_store k (w_client w)). by destruct (client_get _ _).
  - pose proof (select_store k names (w_client w)). by destruct (client_select _ _ _).
  - pose proof (batch_read_store ks names (w_client w)). by destruct (client_batch_read _ _ _).
  - pose proof (touch_store k ttl wp (w_client w)). by destruct (client_touch _ _ _ _).
  - unfold allocate_in. by destruct (lm_allocate _ _).
  - unfold reshape_in. by destruct (lm_reshape _ _).
Qed.

Lemma keep_event {X A} (Q : result A -> world C -> Prop) (e : ev X) k (w : world C) :
  (forall w1, wf_steps w1 (snd (handle e w1))) ->
  (forall x w', safe anything wf_steps Q (k x) w') -> safe anything wf_steps Q (Vis e k) w.
Proof. intros He Hk w1 _. split; [apply He|apply Hk]. Qed.

Lemma keep_read {X A} (Q : result A -> world C -> Prop) (e : ev X) k (w : world C) :
  read_only e -> (forall x w', safe anything wf_steps Q (k x) w') ->
  safe anything wf_steps Q (Vis e k) w.
Proof. intros He. apply keep_event. intros w1. by apply wf_same, read_only_same. Qed.

Lemma keep_true {A} (p : prog ev A) (w : world C) :
  keeps_wf p w -> forall Q : result A -> world C -> Prop, (forall r w', Q r w') ->
  safe anything wf_steps Q p w.
Proof. intros Hp Q HQ. eapply safe_weaken; [|exact Hp]. auto. Qed.

Lemma keep_bind {A B} (p : prog ev A) (f : A -> prog ev B) (w : world C) :
  keeps_wf p w -> (forall a w', keeps_wf (f a) w') -> keeps_wf (bind p f) w.
Proof.
  intros Hp Hf. apply safe_bind; [apply _|]. apply (keep_true _ _ Hp). intros [e|a] w'; [done|apply Hf].
Qed.

Lemma keep_attempt {A} (p : prog ev A) (w : world C) : keeps_wf p w -> keeps_wf (attempt p) w.
Proof. intros Hp. by apply safe_attempt. Qed.

Lemma keep_lift {A} (r : result A) (w : world C) : keeps_wf (lift r) w.
Proof. by destruct r. Qed.

Lemma keep_timer {A} op (body : OpTimer -> prog ev (OpTimer * result A)) (w : world C) :
  (forall t, keeps_wf (body t) w) -> keeps_wf (with_timer op body) w.
Proof.
  intros Hb. apply safe_with_timer; [apply _|by intros; apply wf_same|done|done|].
  eapply safe_weaken; [|apply Hb]. by intros [e|[t out]] w' _.
Qed.

Lemma keep_traverse {A B} (f : A -> prog ev B) l (w : world C) :
  (forall a w', keeps_wf (f a) w') -> keeps_wf (traverse f l) w.
Proof.
  intros Hf. revert w. induction l as [|a l IH]; intros w; [done|]. apply keep_bind; [apply Hf|].
  intros b w'. apply keep_bind; [apply IH|]. done.
Qed.

(** A program without writes keeps every record. *)
Lemma calm_keeps {A} (p : prog ev A) (w : world C) : calm p -> keeps_wf p w.
Proof.
  intros Hp. revert w. induction Hp as [a|e|X e k He Hk IH]; intros w; [done..|].
  apply keep_event; [|done]. intros w1. by apply wf_same, calm_event_store.
Qed.

(** ** The operations *)

(** One structural step over a program without writes. *)
Ltac keep_step :=
  match goal with
  | |- safe _ _ _ (Ret _) _ => done
  | |- safe _ _ _ (Raise _) _ => done
  | |- safe _ _ _ (lift _) _ => apply keep_lift
  | |- safe _ _ _ (attempt _) _ => apply keep_attempt
  | |- safe _ _ _ (bind _ _) _ => apply keep_bind; [|intros ? ?]
  | |- safe _ _ _ (trigger _) _ => apply keep_read; [done|intros ? ?; cbv beta]
  | |- safe _ _ _ (Vis _ _) _ => apply keep_read; [done|intros ? ?; cbv beta]
  | |- safe _ _ _ (with_timer _ _) _ => apply keep_timer; intros ?
  | |- safe _ _ _ (match ?x with _ => _ end) _ => destruct x
  end.

Ltac keep := repeat keep_step.

Context `{!CalmHooks self}.

Lemma catch_ax_keeps {A B} (r : result A) (ok : A -> prog ev B) missing failed (w : world C) :
  (forall a, keeps_wf (ok a) w) -> keeps_wf missing w -> (forall e, keeps_wf (failed e) w) ->
  keeps_wf (catch_ax r ok missing failed) w.
Proof. intros Ha Hm Hf. unfold catch_ax. destruct r as [e|a]; [|done]. by repeat case_match. Qed.

Lemma put_except_keeps {A} op t e (w : world C) : keeps_wf (@put_except A op t e) w.
Proof. unfold put_except. keep. Qed.

(** A write of a meta record, and the batch of segment writes. *)
Lemma put_meta_keeps ck p payload bs ttl wp (w : world C) :
  1 <= nseg p -> meta_written self p payload bs ->
  keeps_wf (let! r := trigger (ClientPut (mk_of ck) bs ttl wp) in lift r) w.
Proof.
  intros Hn Hw. apply keep_event; [|intros; apply keep_lift]. intros w1. apply put_wf.
  left. exists ck. split; [done|]. right. by exists p, payload.
Qed.

Lemma put_io_keeps ck l p payload bs ttl wp (w : world C) :
  1 <= nseg p -> meta_written self p payload bs ->
  keeps_wf (put_io to_string self ck l p bs ttl wp) w.
Proof.
  intros Hn Hw. unfold put_io. destruct (nseg p =? 1); [by apply (put_meta_keeps ck p payload)|].
  apply keep_bind; [keep|]. intros view w1.
  apply keep_event.
  - intros w2. apply batch_wf; [rewrite segment_write_keys; apply segment_keys_NoDup|].
    rewrite Forall_fmap. apply Forall_forall. intros i Hi%elem_of_seqZ. right.
    exists ck, i, (slice (Z.to_nat (i * seg_b p)) (Z.to_nat (seg_b p)) view).
    split_and!; [lia|done|]. by destruct (enable_crc32 (cfg self)).
  - intros r w2. cbn [bind]. apply keep_bind; [apply keep_lift|]. intros codes w3.
    apply keep_bind; [apply keep_lift|]. intros _ w4. by apply (put_meta_keeps ck p payload).
Qed.

(** Whatever [meta_bins] reads while it runs, its bins have the shape of a meta record. *)
Lemma meta_bins_keeps p l scm pinned (w : world C) :
  safe anything wf_steps
    (fun r _ => forall bs, r = inr bs -> exists payload, meta_written self p payload bs)
    (meta_bins p l scm (enable_crc32 (cfg self)) pinned) w.
Proof.
  unfold meta_bins. apply keep_read; [done|]. intros payload w1. cbn [bind].
  apply keep_read; [done|]. intros now w2. cbn [bind].
  assert (Hret : forall base w3, dict_of base !! "state" = Some (BStr "ready") ->
    dict_of base !! "nseg" = Some (BInt (nseg p)) ->
    dict_of base !! "seg_b" = Some (BInt (seg_b p)) ->
    dict_of base !! "tot_b" = Some (BInt (Z.of_nat (length payload))) ->
    let with_b := if nseg p =? 1 then base ++ [("b", BBytes payload)] else base in
    safe anything wf_steps (fun r (_ : world C) => forall bs, r = inr bs ->
        exists payload, meta_written self p payload bs)
      (Ret (if enable_crc32 (cfg self)
            then with_b ++ [("crc32", BInt (Z.land (crc32 payload) 0xFFFFFFFF))] else with_b)) w3).
  { intros base w3 H1 H2 H3 H4 with_b w4 _ bs [= <-]. exists payload. unfold with_b.
    destruct (Z.eqb_spec (nseg p) 1), (enable_crc32 (cfg self)) eqn:Ec;
      split; rewrite ?dict_of_snoc, ?lookup_insert_ne, ?lookup_insert_eq by done; congruence || done. }
  destruct scm; cbn [bind].
  - unfold build_remote_metadata. apply keep_read; [done|]. intros buf w3. cbn [bind].
    apply keep_read; [done|]. intros spec w4. cbn [bind].
    destruct (lm_serialize _ _) as [e|md]; cbn [lift bind]; [by intros w5 _|]. by apply Hret.
  - by apply Hret.
Qed.

Lemma put_keeps ck l pinned (w : world C) :
  target_ok self -> keeps_wf (put to_string self ck l pinned) w.
Proof.
  intros Ht. unfold put. apply keep_bind; [keep|]. intros view w1.
  destruct (resolved_plan _ _) as [e|p] eqn:Ep; [done|]. cbn [lift bind].
  assert (Hp : plan_ok (Z.of_nat (length view)) p) by (eapply plan_sound; [|exact Ht|exact Ep]; lia).
  apply keep_bind; [keep|]. intros _ w2.
  destruct (write_policy (cfg self)) as [e|wp]; [done|]. cbn [lift bind].
  apply safe_bind; [apply _|]. eapply safe_weaken; [|apply meta_bins_keeps].
  intros [e|bs] w3 Hbs; [done|]. destruct (Hbs bs eq_refl) as [payload Hw].
  apply keep_timer. intros t. apply keep_bind.
  - apply keep_attempt, (put_io_keeps ck l p payload); [by apply Hp|done].
  - intros [e|[]] w4; [apply put_except_keeps|done].
Qed.

Lemma pin_keys_keeps ks (w : world C) : NoDup ks -> keeps_wf (pin_keys to_string self ks) w.
Proof.
  intros Hnd. destruct ks as [|ck ks]; [done|]. unfold pin_keys, _pin_keys_batch.
  destruct (write_policy (cfg self)) as [e|wp]; [done|]. cbn [lift bind].
  apply keep_event; [|intros r w1; keep]. intros w1. apply batch_wf.
  - rewrite <- list_fmap_compose. apply NoDup_fmap_2; [|done]. intros x y. by apply mk_of_inj.
  - rewrite Forall_fmap. apply Forall_true. intros ck'. left. exists ck'. split; [done|]. left. eauto.
Qed.

Lemma unpin_keeps ck (w : world C) : keeps_wf (unpin to_string self ck) w.
Proof.
  unfold unpin. apply keep_bind; [keep|]. intros wp w1. apply keep_bind.
  - apply keep_attempt. apply keep_bind; [keep|]. intros r w2. apply keep_bind; [keep|]. intros _ w3.
    apply keep_event; [|intros; apply keep_lift]. intros w4. apply operate_wf.
    left. exists ck. split; [done|]. left. eauto.
  - intros r w2. by apply catch_ax_keeps.
Qed.

Lemma pin_keeps ck (w : world C) : keeps_wf (pin to_string self ck) w.
Proof.
  unfold pin. apply keep_bind; [apply calm_keeps, exists_calm|]. intros [] w1; cbn [negb]; [|done].
  apply keep_bind; [apply pin_keys_keeps, NoDup_singleton|done].
Qed.

Lemma remove_keeps ck (w : world C) : keeps_wf (remove to_string self ck) w.
Proof.
  unfold remove. apply keep_bind.
  - unfold remove_nseg. apply keep_bind; [keep|]. intros r w1. apply catch_ax_keeps; [|done|done].
    intros b. destruct (b !! "nseg"); [|done]. keep.
  - intros [n|] w1; [|done]. apply keep_event; [apply remove_wf|]. intros r w2. cbn [bind].
    apply catch_ax_keeps; [|done|done]. intros _. unfold remove_segments.
    destruct (n >? 1); [|done]. apply keep_event; [|intros r' w3; keep].
    intros w3. apply batch_wf; [rewrite remove_segments_keys; apply segment_keys_NoDup|].
    rewrite Forall_fmap. by apply Forall_true.
Qed.

(** A planned entry: its bins have the shape of a meta record for its plan. *)
Definition planned (x : CK * loc * ShardPlan * bin_list) : Prop :=
  let '(_, p, bs) := x in 1 <= nseg p /\ exists payload, meta_written self p payload bs.

Lemma plan_item_keeps pinned item (w : world C) :
  target_ok self ->
  safe anything wf_steps
    (fun r _ => forall x, r = inr x -> planned x /\ fst (fst x) = item)
    (plan_item self pinned item) w.
Proof.
  intros Ht. unfold plan_item. apply keep_read; [done|]. intros view w1. cbn [bind].
  destruct (resolved_plan _ _) as [e|p] eqn:Ep; cbn [lift bind]; [by intros w2 _|].
  assert (Hp : plan_ok (Z.of_nat (length view)) p) by (eapply plan_sound; [|exact Ht|exact Ep]; lia).
  apply keep_read; [done|]. intros _ w2. cbn [bind].
  apply safe_bind; [apply _|]. eapply safe_weaken; [|apply meta_bins_keeps].
  intros [e|bs] w3 Hbs; [done|]. intros w4 _ x [= <-]. split; [|done].
  split; [by apply Hp|]. by apply Hbs.
Qed.

Lemma plan_items_keep pinned items (w : world C) :
  target_ok self ->
  safe anything wf_steps
    (fun r _ => forall xs, r = inr xs -> Forall planned xs /\ (fst ∘ fst) <$> xs = items)
    (traverse (plan_item self pinned) items) w.
Proof.
  intros Ht. revert w. induction items as [|item items IH]; intros w; cbn [traverse].
  - intros w1 _ xs [= <-]. by split.
  - apply safe_bind; [apply _|]. eapply safe_weaken; [|by apply plan_item_keeps].
    intros [e|x] w1 Hx; [done|]. destruct (Hx x eq_refl) as [Hp Hi].
    apply safe_bind; [apply _|]. eapply safe_weaken; [|apply IH].
    intros [e|xs] w2 Hxs; [done|]. destruct (Hxs xs eq_refl) as [Hps His].
    intros w3 _ ys [= <-]. split; [by constructor|]. cbn [fmap list_fmap]. by f_equal.
Qed.

Lemma batched_put_chunk_keeps items pinned (w : world C) :
  target_ok self -> NoDup (fst <$> items) -> keeps_wf (_batched_put_chunk to_string self items pinned) w.
Proof.
  intros Ht Hnd. unfold _batched_put_chunk. apply keep_bind; [keep|]. intros wp w1.
  apply safe_bind; [apply _|]. eapply safe_weaken; [|by apply plan_items_keep].
  intros [e|xs] w2 Hxs; [done|]. destruct (Hxs xs eq_refl) as [Hps His].
  destruct (existsb _ xs).
  - apply keep_traverse. intros [[item p] bs] w3. unfold put_item.
    apply keep_bind; [by apply keep_attempt, put_keeps|]. intros [e|[]] w4; keep.
  - apply keep_event; [|intros r w3; keep]. intros w3. apply batch_wf.
    + rewrite <- list_fmap_compose. rewrite <- His, <- list_fmap_compose in Hnd.
      rewrite (list_fmap_ext _ (mk_of ∘ (fst ∘ (fst ∘ fst)))); [|by intros i [[[ck l] p] bs] _].
      rewrite list_fmap_compose. apply NoDup_fmap_2; [|done]. intros x y. by apply mk_of_inj.
    + rewrite Forall_fmap. eapply Forall_impl; [exact Hps|]. intros [[[ck l] p] bs] [Hn [payload Hw]].
      left. exists ck. split; [done|]. right. by exists p, payload.
Qed.

Lemma batched_put_keeps items pinned (w : world C) :
  target_ok self -> NoDup (fst <$> items) -> keeps_wf (batched_put to_string self items pinned) w.
Proof.
  intros Ht Hnd. unfold batched_put. destruct items as [|item items]; [done|].
  set (its := item :: items) in *. apply keep_timer. intros t. apply keep_bind; [|intros [e|rs] w1;
    [apply put_except_keeps|done]].
  apply keep_attempt. assert (Hc : forall c, c ∈ chunks _BATCH_KEYS_CHUNK its -> NoDup (fst <$> c))
    by (intros c; apply chunks_NoDup; [unfold _BATCH_KEYS_CHUNK; lia|done]).
  revert Hc w. induction (chunks _BATCH_KEYS_CHUNK its) as [|c cs IH]; intros Hc w; [done|].
  cbn [traverse]. apply keep_bind; [apply batched_put_chunk_keeps; [done|]; apply Hc, list_elem_of_here|].
  intros b w1. apply keep_bind; [|done]. apply IH. intros c' Hc'. by apply Hc, list_elem_of_further.
Qed.

(** ** The invariant *)

(** The calls of the engine's interface. *)
Inductive engine_call :=
| CallExists (ck : CK) | CallGet (ck : CK) (pre : option loc) | CallPut (ck : CK) (l : loc) (pinned : bool)
| CallBatchedPut (items : list (CK * loc)) (pinned : bool) | CallBatchedGet (items : list (CK * loc))
| CallContains (ks : list CK) | CallMask (ks : list CK) | CallPinKeys (ks : list CK)
| CallUnpin (ck : CK) | CallPin (ck : CK) | CallRemove (ck : CK).

(** The program of a call; what it returns or raises does not matter here. *)
Definition call_prog (c : engine_call) : prog ev unit :=
  match c with
  | CallExists ck => exists_ to_string self ck ;; Ret tt
  | CallGet ck pre => get to_string self ck pre ;; Ret tt
  | CallPut ck l pinned => put to_string self ck l pinned
  | CallBatchedPut items pinned => batched_put to_string self items pinned ;; Ret tt
  | CallBatchedGet items => batched_get_preallocated to_string self items ;; Ret tt
  | CallContains ks => batched_contains to_string self ks ;; Ret tt
  | CallMask ks => batched_exists_mask to_string self ks ;; Ret tt
  | CallPinKeys ks => pin_keys to_string self ks
  | CallUnpin ck => unpin to_string self ck ;; Ret tt
  | CallPin ck => pin to_string self ck ;; Ret tt
  | CallRemove ck => remove to_string self ck ;; Ret tt
  end.

(** No key twice in one batch of writes. *)
Definition call_ok (c : engine_call) : Prop :=
  match c with
  | CallBatchedPut items _ => NoDup (fst <$> items)
  | CallPinKeys ks => NoDup ks
  | _ => True
  end.

Lemma call_keeps c (w : world C) : target_ok self -> call_ok c -> keeps_wf (call_prog c) w.
Proof.
  intros Ht Hc. destruct c; unfold call_prog; try (apply keep_bind; [|done]).
  - by apply calm_keeps, exists_calm.
  - apply calm_keeps, get_calm, _.
  - by apply put_keeps.
  - by apply batched_put_keeps.
  - by apply calm_keeps, batched_get_calm.
  - by apply calm_keeps, batched_contains_calm.
  - by apply calm_keeps, batched_exists_mask_calm.
  - by apply pin_keys_keeps.
  - apply unpin_keeps.
  - apply pin_keeps.
  - apply remove_keeps.
Qed.
End wf.

#[export] Hint Resolve keep_attempt keep_lift : model.

(** One thread per call. *)
Definition threads `{Env} {CK : Type} (to_string : CK -> string) (self : Engine)
    (calls : list engine_call) (i : nat) : prog ev unit :=
  match calls !! i with Some c => call_prog to_string self c | None => Ret tt end.

Section invariant.
Context {C : Type} `{AerospikeClient C} `{!ClientSpec C} `{Env}.
Context {CK : Type} (to_string : CK -> string) `{!Inj (=) (=) to_string}.

(** C8: The well-formedness of the store is an invariant of the whole engine.  From a well-formed
    store, any number of threads that call any operations of a connector's engine, interleaved
    event by event in any schedule, under any faults, leave a well-formed store. *)
Theorem engine_preserves_wf_store (cfg : AerospikeConfig) (scm : bool) (spec : MemSpec)
    (r : ResolvedLimits) (calls : list engine_call) (turns : list nat) (w : world C) :
  let self := connector_engine cfg scm spec r in
  target_ok self -> Forall call_ok calls -> wf_store to_string self (store (w_client w)) ->
  wf_store to_string self (store (w_client (schedule turns (threads to_string self calls) w))).
Proof.
  intros self Ht Hc Hw.
  apply (schedule_invariant (fun w => wf_store to_string self (store (w_client w)))); [|done].
  intros i w1. unfold threads. destruct (calls !! i) as [c|] eqn:Hi; [|done].
  apply call_keeps; [done|apply _|done|by eapply Forall_lookup_1 in Hi].
Qed.
End invariant.

(** Two writers of one key, a remover and a reader. *)
Definition demo_calls : list (@engine_call string) :=
  [CallPut "k" 0 false; CallPut "k" 2 true; CallRemove "k"; CallGet "k" None].

Lemma engine_preserves_wf_store_witness :
  wf_store demo_str demo_connector (store (w_client (schedule
    (concat (replicate 8 [0; 1; 2; 3]%nat)) (threads demo_str demo_connector demo_calls)
    (demo_world ∅ 65536 [] [demo_source; demo_target; buffer false (lit "ABCDE")])))).
Proof.
  apply (engine_preserves_wf_store demo_str demo_config true (demo_spec 12) demo_limits demo_calls).
  - reflexivity.
  - repeat constructor.
  - apply wf_store_empty.
Defined.
