(* ===== verification/BatchPut.v ===== *)
(** * Batched writes ([engine.batched_put])

    A batch is cut into chunks; a chunk whose entries are all single records is one batch write,
    any other chunk is written entry by entry.  Each true result means what a [put] that returned
    means. *)

From S2P Require Import Prelude PyStr Errors Sharding Config Limits Crc32 Keys.
From S2P Require Import Runtime Policies Metrics Serde Engine ClientSpec Store GetFacts Concrete PutFacts.

Section batch_put.
Context {C : Type} `{AerospikeClient C} `{!ClientSpec C} `{Env}.
Context {CK : Type} (to_string : CK -> string) `{!Inj (=) (=) to_string} (self : Engine).

Abbreviation mk_of := (mk_of to_string self).
Abbreviation entry := (entry to_string self).
Abbreviation owns := (owns to_string self).
Abbreviation st w := (store (w_client w)).
Abbreviation item := (CK * loc)%type.

(** Only records of the keys [cks] differ. *)
Definition touched (cks : list CK) (w w' : world C) : Prop :=
  w_heap w' = w_heap w /\
  forall k, (forall ck, ck ∈ cks -> ~ owns ck k) -> st w' !! k = st w !! k.

Lemma touched_refl cks w : touched cks w w.
Proof. by split. Qed.

Lemma touched_app a b w1 w2 w3 : touched a w1 w2 -> touched b w2 w3 -> touched (a ++ b) w1 w3.
Proof.
  intros [H1 F1] [H2 F2]. split; [congruence|]. intros k Hk.
  rewrite F2, F1; [done| |]; intros ck Hck; apply Hk, elem_of_app; auto.
Qed.

Lemma touched_owned cks w w' ck : touched cks w w' -> ck ∉ cks -> forall k, owns ck k -> st w' !! k = st w !! k.
Proof.
  intros [_ F] Hck k Hk. apply F. intros ck' Hck' Hk'.
  apply Hck. by rewrite (owns_disjoint to_string self ck ck' k).
Qed.

Lemma touched_entry cks w w' ck : touched cks w w' -> ck ∉ cks -> entry (st w') ck = entry (st w) ck.
Proof. intros Ht Hck. apply entry_frame. by apply (touched_owned cks). Qed.

Lemma touched_kept cks w w' ck p :
  touched cks w w' -> ck ∉ cks -> kept to_string self (st w) ck p -> kept to_string self (st w') ck p.
Proof. intros Ht Hck. apply kept_frame. by apply (touched_owned cks). Qed.

(** A true result: the entry of the key is the object's payload. *)
Definition item_stored (h : heap) (s : gmap key bins) (it : item) (ok : bool) : Prop :=
  ok = true -> forall m, h !! snd it = Some m -> kept to_string self s (fst it) (byte_array m).

Definition all_stored (h : heap) (s : gmap key bins) (items : list item) (results : list bool) : Prop :=
  Forall2 (item_stored h s) items results.

Lemma all_stored_touched (w w' : world C) h cks items results :
  touched cks w w' -> (forall it, it ∈ items -> fst it ∉ cks) ->
  all_stored h (st w) items results -> all_stored h (st w') items results.
Proof.
  intros Ht Hd Hs. unfold all_stored in *. induction Hs as [|it ok items results Hi Hs IH]; constructor.
  - intros Hok m Hm. apply (touched_kept cks w w'); [done| |by apply Hi]. apply Hd, list_elem_of_here.
  - apply IH. intros it' Hit. by apply Hd, list_elem_of_further.
Qed.

(** The objects of the items exist. *)
Definition objects (w : world C) (items : list item) : Prop :=
  Forall (fun it => is_Some (w_heap w !! snd it)) items.

(** ** One entry at a time *)

Lemma run_put_item pinned it (w : world C) :
  target_ok self -> is_Some (w_heap w !! snd it) ->
  let '(r, w') := run (put_item to_string self pinned it) w in
  touched [fst it] w w' /\ forall ok, r = inr ok -> item_stored (w_heap w) (st w') it ok.
Proof.
  intros Ht [m Hm]. unfold put_item. rewrite run_bind, run_attempt.
  pose proof (run_put to_string self (fst it) (snd it) pinned w m Hm Ht) as Hp.
  destruct (run (put _ _ _ _ _) w) as [r w']. destruct Hp as [(Hh & Hfr & _ & Hok) _]. cbn [fst snd].
  assert (Htouch : touched [fst it] w w').
  { split; [done|]. intros k Hk. apply Hfr, Hk, list_elem_of_here. }
  destruct r as [e|[]].
  - destruct (_ || _)%bool; cbn; split; try done. by intros ok [= <-].
  - cbn. split; [done|]. intros ok [= <-] _ m' Hm'. rewrite Hm in Hm'. injection Hm' as <-.
    by eapply stored_kept, Hok.
Qed.

Lemma run_put_items pinned items : forall w : world C,
  target_ok self -> objects w items -> NoDup (fst <$> items) ->
  let '(r, w') := run (traverse (put_item to_string self pinned) items) w in
  touched (fst <$> items) w w' /\ forall rs, r = inr rs -> all_stored (w_heap w) (st w') items rs.
Proof.
  induction items as [|it items IH]; intros w Ht Hobj Hnd; cbn [traverse].
  - split; [apply touched_refl|]. intros rs [= <-]. constructor.
  - rewrite fmap_cons in Hnd |- *. apply NoDup_cons in Hnd as [Hit Hnd].
    apply Forall_cons in Hobj as [Ho Hobj].
    rewrite run_bind. pose proof (run_put_item pinned it w Ht Ho) as Hp.
    destruct (run (put_item _ _ _ _) w) as [[e|ok] w1]; destruct Hp as [[Hh1 F1] Hok].
    { split; [|done]. split; [done|]. intros k Hk. apply F1. intros ck ->%list_elem_of_singleton.
      apply Hk, list_elem_of_here. }
    rewrite run_bind. assert (Hobj1 : objects w1 items) by (unfold objects; by rewrite Hh1).
    specialize (IH w1 Ht Hobj1 Hnd). destruct (run (traverse _ items) w1) as [r w2].
    destruct IH as [Ht2 Hrs].
    assert (Htouch : touched (fst it :: (fst <$> items)) w w2)
      by (by apply (touched_app [fst it] _ w w1 w2)).
    destruct r as [e|rs]; cbn; (split; [done|]); [done|]. intros rs' [= <-].
    rewrite Hh1 in Hrs. constructor; [|by apply Hrs].
    intros E m Hm. apply (touched_kept _ _ _ _ _ Ht2 Hit). by apply (Hok ok eq_refl).
Qed.

(** ** A chunk *)

(** What planning finds out about an entry. *)
Definition plan_spec (h : heap) (x : item * ShardPlan * bin_list) : Prop :=
  let '(it, p, bs) := x in
  forall m, h !! snd it = Some m ->
    plan_ok (Z.of_nat (length (byte_array m))) p /\ meta_written self p (byte_array m) bs.

(** Records and objects are the same. *)
Definition unchanged (w w' : world C) : Prop := w_client w' = w_client w /\ w_heap w' = w_heap w.

Lemma run_plan_items pinned items : forall w : world C,
  target_ok self -> objects w items ->
  let '(r, w') := run (traverse (plan_item self pinned) items) w in
  unchanged w w' /\
  forall xs, r = inr xs -> (fun x => fst (fst x)) <$> xs = items /\ Forall (plan_spec (w_heap w)) xs.
Proof.
  induction items as [|it items IH]; intros w Ht Hobj; cbn [traverse].
  { split; [done|]. intros xs [= <-]. by split. }
  apply Forall_cons in Hobj as [[m Hm] Hobj]. rewrite run_bind.
  unfold plan_item at 1. cbn [trigger bind run handle]. rewrite (mem_lookup _ _ _ Hm).
  set (total := Z.of_nat (length (byte_array m))).
  destruct (resolved_plan _ total) as [e|p] eqn:Ep; cbn [lift bind]; [by split|].
  assert (Hp : plan_ok total p) by (eapply plan_sound; [|exact Ht|exact Ep]; lia).
  cbn [trigger bind run handle]. set (w1 := mkWorld _ _ _ _ _). rewrite run_bind.
  pose proof (run_meta_bins self p (snd it) (save_chunk_meta self) pinned w1 m Hm) as Hb.
  destruct (run (meta_bins _ _ _ _ _) w1) as [[e|bs] w2]; [destruct Hb as [-> _]; by split|].
  destruct Hb as (-> & Hw & _). cbn [run]. rewrite run_bind.
  specialize (IH w1 Ht Hobj). destruct (run (traverse _ items) w1) as [r w3].
  destruct IH as [[Hc Hh] Hxs]. destruct r as [e|xs]; cbn; (split; [by split|]); [done|].
  intros ys [= <-]. destruct (Hxs xs eq_refl) as [Hi Hps]. split; [cbn; by f_equal|].
  constructor; [|done]. intros m' Hm'. rewrite Hm in Hm'. injection Hm' as <-. by split.
Qed.

(** The batch write of single records. *)
Definition single_write (ttl : Z) (wp : policy) (x : item * ShardPlan * bin_list) : batch_op :=
  let '(it, _, bs) := x in BWrite (mk_of (fst it)) bs ttl wp.

Lemma single_writes_stored ttl wp xs (w : world C) :
  Forall (plan_spec (w_heap w)) xs -> Forall (fun x => nseg (snd (fst x)) = 1) xs ->
  Forall (fun x : item * ShardPlan * bin_list => is_Some (w_heap w !! snd (fst (fst x)))) xs ->
  NoDup ((fun x : item * ShardPlan * bin_list => fst (fst (fst x))) <$> xs) ->
  let '(r, c') := client_batch_write (single_write ttl wp <$> xs) (w_client w) in
  touched ((fun x : item * ShardPlan * bin_list => fst (fst (fst x))) <$> xs) w (set_client w c') /\
  forall codes, r = inr codes ->
    all_stored (w_heap w) (store c') ((fun x => fst (fst x)) <$> xs) ((fun c => c =? AEROSPIKE_OK) <$> codes).
Proof.
  intros Hps H1 Hobj Hnd. set (ops := single_write ttl wp <$> xs).
  assert (Hkeys : batch_key <$> ops = mk_of <$> ((fun x => fst (fst (fst x))) <$> xs)).
  { unfold ops. rewrite <- !list_fmap_compose. apply list_fmap_ext. by intros i [[[ck l] p] bs] _. }
  assert (Hnd' : NoDup (batch_key <$> ops)).
  { rewrite Hkeys. apply NoDup_fmap_2; [|done]. intros x y. by apply mk_of_inj. }
  pose proof (batch_write_frame ops (w_client w)) as Hfr.
  pose proof (batch_write_ok ops (w_client w)) as Hok.
  destruct (client_batch_write ops (w_client w)) as [r c']. simpl in Hfr, Hok. split.
  - split; [done|]. intros k Hk. apply Hfr. rewrite Hkeys. intros (ck & -> & Hck)%list_elem_of_fmap.
    apply (Hk ck Hck). by left.
  - intros codes ->. specialize (Hok codes Hnd' eq_refl). unfold all_stored, ops in *.
    rewrite Forall2_fmap_l in Hok. apply Forall2_fmap.
    apply Forall2_same_length_lookup in Hok as [Hlen Hok]. apply Forall2_same_length_lookup.
    split; [done|]. intros i [[[ck l] p] bs] c Hx Hc E%Z.eqb_eq m Hm. simpl in Hm |- *.
    specialize (Hok i _ _ Hx Hc E). simpl in Hok. unfold written in Hok.
    pose proof (Forall_lookup_1 _ _ _ _ Hps Hx) as Hp. destruct (Hp m Hm) as [Hplan Hw].
    pose proof (Forall_lookup_1 _ _ _ _ H1 Hx) as Hn. simpl in Hn.
    eapply stored_kept. exists p, bs. split_and!; [done|done|]. split; [exact Hok|]. intros Hno. by destruct (Hno Hn).
Qed.

(** The loop of single puts looks at the items of the plans only. *)
Lemma traverse_plans pinned (xs : list (item * ShardPlan * bin_list)) : forall w : world C,
  run (traverse (fun '(it, _, _) => put_item to_string self pinned it) xs) w =
  run (traverse (put_item to_string self pinned) ((fun x => fst (fst x)) <$> xs)) w.
Proof.
  induction xs as [|[[it p] bs] xs IH]; intros w; [done|].
  cbn [traverse fmap list_fmap fst]. rewrite !run_bind.
  destruct (run (put_item _ _ _ it) w) as [[e|ok] w2]; [done|]. rewrite !run_bind. by rewrite IH.
Qed.

Lemma run_batched_put_chunk items pinned (w : world C) :
  target_ok self -> objects w items -> NoDup (fst <$> items) ->
  let '(r, w') := run (_batched_put_chunk to_string self items pinned) w in
  touched (fst <$> items) w w' /\ forall rs, r = inr rs -> all_stored (w_heap w) (st w') items rs.
Proof.
  intros Ht Hobj Hnd. unfold _batched_put_chunk.
  destruct (write_policy (cfg self)) as [e|wp]; cbn [lift bind]; [by split|].
  rewrite run_bind. pose proof (run_plan_items pinned items w Ht Hobj) as Hpl.
  destruct (run (traverse _ items) w) as [[e|xs] w1]; destruct Hpl as [[Hc Hh] Hxs];
    (assert (Hun : touched (fst <$> items) w w1) by (split; [done|]; intros k _; by rewrite Hc)).
  { by split. }
  destruct (Hxs xs eq_refl) as [Hi Hps]. destruct (existsb _ xs) eqn:Ex.
  - rewrite (traverse_plans pinned xs w1), Hi. pose proof (run_put_items pinned items w1 Ht) as Hp. unfold objects in Hp.
    rewrite Hh in Hp. specialize (Hp Hobj Hnd). destruct (run (traverse _ items) w1) as [r w2].
    destruct Hp as [Ht2 Hrs]. split; [|done]. destruct Hun as [_ F1], Ht2 as [H2 F2].
    split; [congruence|]. intros k Hk. by rewrite F2, F1.
  - cbn [trigger bind run handle]. unfold on_client. fold (single_write (_ttl_value self pinned) wp).
    pose proof (single_writes_stored (_ttl_value self pinned) wp xs w1) as Hs. rewrite Hh in Hs.
    assert (Hitems : (fun x : item * ShardPlan * bin_list => fst (fst (fst x))) <$> xs = fst <$> items).
    { rewrite <- Hi, <- list_fmap_compose. done. }
    rewrite Hitems, Hi in Hs. specialize (Hs Hps).
    change (fun '(it, _, bs) => BWrite (mk_of (fst it)) bs (_ttl_value self pinned) wp)
      with (single_write (_ttl_value self pinned) wp).
    destruct (client_batch_write _ (w_client w1)) as [r c'].
    destruct Hs as [Ht2 Hrs]; [| |done|].
    + apply Forall_forall. intros [[it p] bs] Hx. simpl.
      rewrite Forall_forall in Hps. specialize (Hps _ Hx). simpl in Hps.
      assert (Hin : it ∈ items) by (rewrite <- Hi; apply list_elem_of_fmap; by exists (it, p, bs)).
      unfold objects in Hobj. rewrite Forall_forall in Hobj. destruct (Hobj it Hin) as [m Hm].
      destruct (Hps m Hm) as [[Hpos _ _ _ _] _].
      destruct (Z.gtb_spec (nseg p) 1) as [Hgt|Hle]; [|lia].
      rewrite <- not_true_iff_false, existsb_exists in Ex. destruct Ex.
      exists (it, p, bs). split; [by apply list_elem_of_In|]. rewrite Z.gtb_ltb. by apply Z.ltb_lt.
    + rewrite <- Hi in Hobj. unfold objects in Hobj. by rewrite Forall_fmap in Hobj.
    + assert (Htouch : touched (fst <$> items) w (set_client w1 c')).
      { destruct Hun as [_ F1], Ht2 as [H2 F2]. split; [simpl in *; congruence|].
        intros k Hk. by rewrite F2, F1. }
      destruct r as [e|codes]; cbn; (split; [done|]); [done|]. intros rs [= <-]. by apply Hrs.
Qed.

(** ** The whole batch *)

Lemma run_put_chunks cs pinned : forall w : world C,
  target_ok self -> objects w (concat cs) -> NoDup (fst <$> concat cs) ->
  let '(r, w') := run (traverse (fun c => _batched_put_chunk to_string self c pinned) cs) w in
  touched (fst <$> concat cs) w w' /\
  forall rss, r = inr rss -> all_stored (w_heap w) (st w') (concat cs) (concat rss).
Proof.
  induction cs as [|c cs IH]; intros w Ht Hobj Hnd; cbn [traverse concat].
  { split; [apply touched_refl|]. intros rss [= <-]. constructor. }
  cbn [concat] in Hobj, Hnd. rewrite fmap_app in Hnd |- *.
  apply NoDup_app in Hnd as (Hndc & Hdisj & Hnd). apply Forall_app in Hobj as [Hc Hobj].
  rewrite run_bind. pose proof (run_batched_put_chunk c pinned w Ht Hc Hndc) as Hp.
  destruct (run (_batched_put_chunk _ _ _ _) w) as [[e|rs] w1]; destruct Hp as [[Hh1 F1] Hrs].
  { split; [|done]. split; [done|]. intros k Hk. apply F1. intros ck Hck.
    apply Hk, elem_of_app. by left. }
  rewrite run_bind. assert (Hobj1 : objects w1 (concat cs)) by (unfold objects; by rewrite Hh1).
  specialize (IH w1 Ht Hobj1 Hnd). destruct (run (traverse _ cs) w1) as [r w2].
  destruct IH as [Ht2 Hrss].
  assert (Htouch : touched ((fst <$> c) ++ (fst <$> concat cs)) w w2)
    by (by apply (touched_app _ _ w w1 w2)).
  destruct r as [e|rss]; cbn; (split; [done|]); [done|]. intros rss' [= <-]. cbn [concat].
  rewrite Hh1 in Hrss. apply Forall2_app; [|by apply Hrss].
  apply (all_stored_touched w1 w2 _ (fst <$> concat cs)); [done| |by apply Hrs].
  intros it Hit Hin. apply (Hdisj (fst it)); [by apply list_elem_of_fmap_2|done].
Qed.

Lemma run_batched_put (items : list (CK * loc)) (pinned : bool) (w : world C) :
  target_ok self -> objects w items -> NoDup (fst <$> items) ->
  let '(r, w') := run (batched_put to_string self items pinned) w in
  touched (fst <$> items) w w' /\
  (forall results, r = inr results -> all_stored (w_heap w) (st w') items results) /\
  (forall e, r = inl e -> not_client e).
Proof.
  intros Ht Hobj Hnd. unfold batched_put. destruct items as [|it items].
  { split_and!; [apply touched_refl| |done]. intros ? [= <-]. constructor. }
  set (its := it :: items) in *. rewrite run_with_timer, run_bind, run_attempt.
  assert (Hcs : concat (chunks _BATCH_KEYS_CHUNK its) = its)
    by (apply chunks_concat; unfold _BATCH_KEYS_CHUNK; lia).
  pose proof (run_put_chunks (chunks _BATCH_KEYS_CHUNK its) pinned w Ht) as Hp. rewrite Hcs in Hp.
  specialize (Hp Hobj Hnd). destruct (run (traverse _ _) w) as [r w1]. destruct Hp as [Htouch Hrs].
  cbn [fst snd]. destruct r as [e|rss].
  - destruct (run_put_except (A := list bool) "batched_put" (OpTimer_init "batched_put") e w1)
      as (r & -> & He).
    destruct r as [e'|[t' [e'|rs]]]; [| |done]; split_and!; try done;
      try (by intros ? [= <-]); destruct (finished t'); done.
  - cbn. split_and!; [done| |done]. intros rs [= <-]. by apply (Hrs rss).
Qed.

(** ** A healthy cluster *)

(** An entry a healthy cluster can take. *)
Definition putable (w : world C) (it : item) : Prop :=
  exists m, w_heap w !! snd it = Some m /\ fits self m w /\ serializable self m.

(** Only the records differ, and the cluster stays healthy. *)
Definition served (w w' : world C) : Prop := steady w w' /\ w_heap w' = w_heap w.

Lemma served_refl (w : world C) : healthy (w_client w) -> served w w.
Proof. by split; [split|]. Qed.

Lemma served_trans (w1 w2 w3 : world C) : served w1 w2 -> served w2 w3 -> served w1 w3.
Proof. intros [[A1 A2] A3] [[B1 B2] B3]. split; [split|]; congruence. Qed.

Lemma putable_served w w' items : served w w' -> Forall (putable w) items -> Forall (putable w') items.
Proof.
  intros [[_ Hc] Hh] Hit. eapply Forall_impl; [exact Hit|]. intros it (m & Hm & Hf & Hs). exists m.
  rewrite Hh. unfold fits. by rewrite Hc.
Qed.

Section healthy.
Context (wp : policy) (Hl : limits_fit self) (Hwp : write_policy (cfg self) = inr wp).

Lemma run_put_items_healthy pinned items : forall w : world C,
  healthy (w_client w) -> Forall (putable w) items ->
  exists w', run (traverse (put_item to_string self pinned) items) w =
      (inr (replicate (length items) true), w') /\ served w w'.
Proof.
  induction items as [|it items IH]; intros w Hh Hit; cbn [traverse length replicate].
  { exists w. split; [done|]. by apply served_refl. }
  inversion Hit as [|? ? (m & Hm & Hf & Hs) Hits]; subst. rewrite run_bind.
  unfold put_item at 1. rewrite run_bind, run_attempt.
  pose proof (run_put_healthy to_string self (fst it) (snd it) pinned w m wp Hm Hh Hl Hwp Hf Hs) as Hp.
  pose proof (run_put to_string self (fst it) (snd it) pinned w m Hm (proj1 Hl)) as Hp'.
  destruct (run (put _ _ _ _ _) w) as [r w1]. destruct Hp as [-> Hst]. destruct Hp' as [[Hheap _] _].
  cbn [fst snd run]. rewrite run_bind. assert (Hsv : served w w1) by by split.
  destruct (IH w1) as (w2 & -> & Hsv2); [apply Hst|by eapply putable_served|].
  exists w2. split; [done|]. by eapply served_trans.
Qed.

Lemma run_plan_items_healthy pinned items : forall w : world C,
  Forall (putable w) items ->
  exists xs w1, run (traverse (plan_item self pinned) items) w = (inr xs, w1) /\
    unchanged w w1 /\ length xs = length items /\
    Forall (fun x : item * ShardPlan * bin_list => payload_size (snd x) <= capacity (w_client w)) xs.
Proof.
  induction items as [|it items IH]; intros w Hit; cbn [traverse].
  { exists [], w. split_and!; [done|done|done|constructor]. }
  inversion Hit as [|? ? (m & Hm & Hf & Hs) Hits]; subst. rewrite run_bind.
  destruct (plan_and_bins_fit self (snd it) pinned w m Hl Hf Hs) as (p & Ep & _ & Hbins).
  unfold plan_item at 1. cbn [trigger bind run handle]. rewrite (mem_lookup _ _ _ Hm), Ep.
  cbn [lift bind trigger run handle]. set (w1 := mkWorld _ _ _ _ _).
  rewrite run_bind. destruct (Hbins w1 Hm) as (bs & -> & Hbs). cbn [run]. rewrite run_bind.
  destruct (IH w1) as (xs & w2 & -> & [Hc Hhp] & Hlen & Hxs); [done|].
  exists ((it, p, bs) :: xs), w2. split_and!; [done|by split|cbn; congruence|by constructor].
Qed.

Lemma all_true codes ops :
  Forall2 (fun (_ : batch_op) code => code = 0) ops codes ->
  (fun c => c =? AEROSPIKE_OK) <$> codes = replicate (length ops) true.
Proof. induction 1 as [|op c ops codes -> Hr IH]; [done|]. cbn. by f_equal. Qed.

Lemma run_batched_put_chunk_healthy items pinned (w : world C) :
  healthy (w_client w) -> Forall (putable w) items ->
  exists w', run (_batched_put_chunk to_string self items pinned) w =
      (inr (replicate (length items) true), w') /\ served w w'.
Proof.
  intros Hh Hit. unfold _batched_put_chunk. rewrite Hwp. cbn [lift bind]. rewrite run_bind.
  assert (Hobj : objects w items) by (eapply Forall_impl; [exact Hit|]; intros it (m & Hm & _); by exists m).
  pose proof (run_plan_items pinned items w (proj1 Hl) Hobj) as Hpl.
  destruct (run_plan_items_healthy pinned items w Hit) as (xs & w1 & E & [Hc Hhp] & Hlen & Hxs).
  rewrite E in Hpl |- *. destruct Hpl as [_ Hpl]. destruct (Hpl xs eq_refl) as [Hi _].
  assert (Hsv : served w w1) by (split; [split|]; rewrite ?Hc; done).
  destruct (existsb _ xs).
  - rewrite (traverse_plans pinned xs w1), Hi.
    destruct (run_put_items_healthy pinned items w1) as (w2 & -> & Hsv2);
      [by rewrite Hc|by eapply putable_served|]. exists w2. split; [done|]. by eapply served_trans.
  - cbn [trigger bind run handle]. unfold on_client.
    change (fun '(it, _, bs) => BWrite (mk_of (fst it)) bs (_ttl_value self pinned) wp)
      with (single_write (_ttl_value self pinned) wp).
    set (ops := single_write _ _ <$> xs).
    destruct (healthy_batch_write ops (w_client w1)) as (Hh' & Hc' & codes & Ec & Hcodes).
    { by rewrite Hc. }
    { unfold ops. apply Forall_fmap. eapply Forall_impl; [exact Hxs|]. intros [[it p] bs]. simpl. by rewrite Hc. }
    destruct (client_batch_write ops (w_client w1)) as [r c']. simpl in Hh', Hc', Ec. subst r.
    cbn [bind lift run]. exists (set_client w1 c'). split.
    + f_equal. f_equal. replace (length items) with (length ops) by (unfold ops; by rewrite length_fmap).
      apply all_true. eapply Forall2_impl_elem; [exact Hcodes|]. intros op code Hop.
      apply list_elem_of_fmap in Hop as ([[it p] bs] & -> & _). done.
    + split; [split; [done|]|done]. simpl. congruence.
Qed.

Lemma run_put_chunks_healthy cs pinned : forall w : world C,
  healthy (w_client w) -> Forall (putable w) (concat cs) ->
  exists rss w', run (traverse (fun c => _batched_put_chunk to_string self c pinned) cs) w = (inr rss, w') /\
    concat rss = replicate (length (concat cs)) true /\ served w w'.
Proof.
  induction cs as [|c cs IH]; intros w Hh Hit; cbn [traverse concat].
  { exists [], w. split_and!; [done|done|by apply served_refl]. }
  cbn [concat] in Hit. apply Forall_app in Hit as [Hc Hcs]. rewrite run_bind.
  destruct (run_batched_put_chunk_healthy c pinned w Hh Hc) as (w1 & -> & Hsv). rewrite run_bind.
  destruct (IH w1) as (rss & w2 & -> & Hrss & Hsv2); [apply Hsv|by eapply putable_served|].
  exists (replicate (length c) true :: rss), w2. split_and!; [done| |by eapply served_trans].
  cbn [concat]. by rewrite Hrss, length_app, replicate_add.
Qed.

Lemma run_batched_put_healthy items pinned (w : world C) :
  healthy (w_client w) -> Forall (putable w) items ->
  exists w', run (batched_put to_string self items pinned) w =
      (inr (replicate (length items) true), w') /\ served w w'.
Proof.
  intros Hh Hit. unfold batched_put. destruct items as [|it items].
  { exists w. split; [done|]. by apply served_refl. }
  set (its := it :: items) in *. rewrite run_with_timer, run_bind, run_attempt.
  assert (Hcs : concat (chunks _BATCH_KEYS_CHUNK its) = its)
    by (apply chunks_concat; unfold _BATCH_KEYS_CHUNK; lia).
  destruct (run_put_chunks_healthy (chunks _BATCH_KEYS_CHUNK its) pinned w Hh) as (rss & w1 & -> & Hrss & Hsv);
    [by rewrite Hcs|]. rewrite Hcs in Hrss. cbn. rewrite Hrss. by eexists.
Qed.
End healthy.

(** C10: [batched_put] of different keys, under any fault: it answers every entry in order, a true
    answer means the key's entry is now the payload of its object, and entries of keys outside
    the batch are the same however it ends.  None of the client's exceptions leaves it.  On a
    healthy cluster whose records are large enough every answer is true. *)
Theorem batched_put_sound (items : list (CK * loc)) (pinned : bool) (w : world C) :
  target_ok self -> objects w items -> NoDup (fst <$> items) ->
  let '(r, w') := run (batched_put to_string self items pinned) w in
  (forall ck, ck ∉ (fst <$> items) -> entry (st w') ck = entry (st w) ck) /\
  (forall results, r = inr results ->
     Forall2 (fun it (ok : bool) => ok = true ->
       forall m, w_heap w !! snd it = Some m -> entry (st w') (fst it) = Some (byte_array m))
       items results) /\
  (forall e, r = inl e -> not_client e) /\
  (healthy (w_client w) -> limits_fit self -> (exists wp, write_policy (cfg self) = inr wp) ->
     Forall (putable w) items -> r = inr (replicate (length items) true)).
Proof.
  intros Ht Hobj Hnd. pose proof (run_batched_put items pinned w Ht Hobj Hnd) as Hp.
  pose proof (fun wp Hl Hwp => run_batched_put_healthy wp Hl Hwp items pinned w) as Hhe.
  destruct (run _ w) as [r w']. destruct Hp as (Htouch & Hall & He). split_and!; [| |done|].
  - intros ck. by apply touched_entry.
  - intros results Er. eapply Forall2_impl; [exact (Hall results Er)|]. intros it ok Hs Hok m Hm. by apply (Hs Hok).
  - intros Hh Hl [wp Hwp] Hit.
    by destruct (Hhe wp Hl Hwp Hh Hit) as (w1 & [= -> _] & _).
Qed.
End batch_put.

(** Two entries, one of them in three segments; the batch of the second one's segments fails. *)
Definition demo_batch : list (string * loc) := [("a", 0); ("b", 1)]%nat.

Definition demo_batch_world : world MemClient :=
  demo_world ∅ 65536 [Served; Partial [0; 14; 0]] [buffer false (lit "abc"); demo_source].

Lemma batched_put_sound_witness :
  let w' := snd (run (batched_put demo_str demo_engine demo_batch false) demo_batch_world) in
  fst (run (batched_put demo_str demo_engine demo_batch false) demo_batch_world) =
    inr [true; false] /\
  entry demo_str demo_engine (store (w_client w')) "a" = Some (lit "abc").
Proof.
  assert (E : fst (run (batched_put demo_str demo_engine demo_batch false) demo_batch_world) =
    inr [true; false]) by (vm_compute; reflexivity).
  split; [exact E|].
  assert (Hnd : NoDup (fst <$> demo_batch)) by (apply (bool_decide_unpack _); vm_compute; exact I).
  pose proof (batched_put_sound demo_str demo_engine demo_batch false demo_batch_world eq_refl) as Hb.
  destruct (run _ _) as [r w']. destruct Hb as (_ & Hs & _); [|exact Hnd|].
  - repeat constructor; eexists; reflexivity.
  - specialize (Hs _ E). inversion Hs as [|? ? ? ? Ha]; subst. exact (Ha eq_refl _ eq_refl).
Defined.
