(* ===== verification/BatchGet.v ===== *)
(** * Batched reads ([engine.batched_get_preallocated])

    Meta records are read chunk by chunk; single records are copied at once, entries of several
    segments go through [get].  A true result means the entry's payload is in the buffer. *)

From S2P Require Import Prelude PyStr Errors Sharding Config Limits Crc32 Keys.
From S2P Require Import Runtime Policies Metrics Serde Engine ClientSpec Store GetFacts Reads Concrete PutFacts.

Section batch_get.
Context {C : Type} `{AerospikeClient C} `{!ClientSpec C} `{Env}.
Context {CK : Type} (to_string : CK -> string) (self : Engine).
Context `{!EngineHooks C self}.
Hypothesis Hbuf : frombuffer_ok.

Abbreviation mk_of := (mk_of to_string self).
Abbreviation entry := (entry to_string self).
Abbreviation st w := (store (w_client w)).
Abbreviation item := (CK * loc)%type.

(** The buffer of the item holds the payload of its entry. *)
Definition item_filled (s : gmap key bins) (w : world C) (it : item) : Prop :=
  exists p m, entry s (fst it) = Some p /\ w_heap w !! snd it = Some m /\
    take (length p) (mo_raw m) = p.

Definition buffers (w : world C) (items : list item) : Prop :=
  Forall (fun it => buffer_ok (snd it) w) items.

(** Records are the same, and objects outside [ls]. *)
Definition reads_in (ls : list loc) (w w' : world C) : Prop :=
  st w' = st w /\ forall l, l ∉ ls -> w_heap w' !! l = w_heap w !! l.

Lemma reads_in_refl ls w : reads_in ls w w.
Proof. by split. Qed.

Lemma reads_in_trans ls w1 w2 w3 : reads_in ls w1 w2 -> reads_in ls w2 w3 -> reads_in ls w1 w3.
Proof. intros [A1 A2] [B1 B2]. split; [congruence|]. intros l Hl. by rewrite B2, A2. Qed.

Lemma reads_in_weaken ls ls' w w' : ls ⊆ ls' -> reads_in ls w w' -> reads_in ls' w w'.
Proof. intros Hs [A1 A2]. split; [done|]. intros l Hl. apply A2. by intros ?%Hs. Qed.

Lemma item_filled_reads s w w' it ls :
  reads_in ls w w' -> snd it ∉ ls -> item_filled s w it -> item_filled s w' it.
Proof.
  intros [_ Hh] Hl (p & m & He & Hm & Hp). exists p, m. by rewrite Hh.
Qed.

Lemma buffers_reads w w' items ls :
  reads_in ls w w' -> (forall it, it ∈ items -> snd it ∉ ls) -> buffers w items -> buffers w' items.
Proof.
  intros [_ Hh] Hl Hb. unfold buffers in *. rewrite Forall_forall in Hb |- *. intros it Hit.
  destruct (Hb it Hit) as (m & Hm & Hok). exists m. by rewrite Hh by auto.
Qed.

(** ** One single record *)

Lemma run_read_single full mo v (w : world C) m :
  w_heap w !! mo = Some m -> mem_ok m -> exact_view m ->
  let '(r, w') := run (read_single self (project _META_READ_BINS full) mo v) w in
  only_mem mo w w' /\
  (r = inr true -> exists data m', v = BBytes data /\ crc_fits self full data = true /\
     w_heap w' !! mo = Some m' /\ take (length data) (mo_raw m') = data).
Proof.
  intros Hm Hok Hv. unfold read_single. rewrite run_bind.
  pose proof (run_write_payload_any mo v 0 w m Hbuf Hm Hok) as Hw.
  destruct (run (write_payload_into mo v 0) w) as [[e|k] w1]; [by subst|].
  destruct Hw as (data & -> & -> & Hle & ->).
  assert (Hfit : (0 + length data <= length (mo_raw m))%nat) by (pose proof (room_le m Hok); lia).
  pose proof (rewritten_store 0 data m Hfit) as Hrw.
  assert (Hv' : exact_view (store_at 0 data m))
    by (unfold exact_view; by rewrite (rewritten_room _ _ _ Hrw)).
  pose proof (filled_store m 0 [] data Hfit (filled_0 m)) as Hfill. cbn [app Nat.add] in Hfill.
  rewrite (run_crc_matches self mo (project _META_READ_BINS full) data
    (on_mem (store_at 0 data) mo w) (store_at 0 data m)).
  - split; [apply only_mem_on_mem|]. intros [= Hc]. exists data, (store_at 0 data m).
    split_and!; [done| |by apply on_mem_lookup|by apply Hfill].
    revert Hc. unfold crc_fits. rewrite project_lookup; [done|]. apply (bool_decide_unpack _). done.
  - by apply on_mem_lookup.
  - done.
  - by apply (rewritten_ok _ _ _ Hrw).
  - by rewrite (rewritten_room _ _ _ Hrw).
  - done.
Qed.

(** ** The loop over the meta records *)

Abbreviation multi := (nat * CK * loc)%type.

(** The state of the loop over the items from index [i] on: what holds when it ends. *)
Record metas_post (s : gmap key bins) (items : list item) (i : nat) (results : list bool)
    (ms : list multi) (w : world C) (results' : list bool) (ms' : list multi) (w' : world C) : Prop := {
  mp_reads : reads_in (snd <$> items) w w';
  mp_length : length results' = length results;
  mp_outside : forall j, (j < i \/ i + length items <= j)%nat -> results' !! j = results !! j;
  mp_filled : forall j it, items !! j = Some it -> results' !! (i + j)%nat = Some true ->
    item_filled s w' it;
  mp_multi : exists new, ms' = ms ++ new /\ (snd <$> new) `sublist_of` (snd <$> items) /\
    forall k ck mo, (k, ck, mo) ∈ new -> w_heap w' !! mo = w_heap w !! mo /\
      exists j, items !! j = Some (ck, mo) /\ k = (i + j)%nat /\ results' !! k = Some false
}.

(** Nothing has happened to the items yet. *)
Definition unread (results : list bool) (i n : nat) : Prop :=
  forall j, (j < n)%nat -> results !! (i + j)%nat = Some false.

Lemma metas_post_stop s items i results ms (w : world C) :
  unread results i (length items) -> metas_post s items i results ms w results ms w.
Proof.
  intros Hun. split; [apply reads_in_refl|done|done| |].
  - intros j it Hj Ht. rewrite Hun in Ht by by eapply lookup_lt_Some. done.
  - exists []. rewrite app_nil_r. split_and!; [done|apply sublist_nil_l|]. intros k ck mo. by rewrite elem_of_nil.
Qed.

(** The step: the first item is decided by [flag] or deferred, the loop goes on with the rest. *)
Lemma metas_post_cons s it items i results ms (w w1 : world C) flag defer results' ms' w' :
  NoDup (snd <$> it :: items) -> unread results i (S (length items)) ->
  reads_in [snd it] w w1 -> (flag = true -> item_filled s w1 it) ->
  (defer = true -> flag = false /\ w_heap w1 !! snd it = w_heap w !! snd it) ->
  metas_post s items (S i) (if flag : bool then <[i := true]> results else results)
    (if defer : bool then ms ++ [(i, fst it, snd it)] else ms) w1 results' ms' w' ->
  metas_post s (it :: items) i results ms w results' ms' w'.
Proof.
  intros Hnd Hun Hrd Hflag Hdefer [Hr Hlen Hout Hfill Hmulti].
  rewrite fmap_cons in Hnd. apply NoDup_cons in Hnd as [Hit Hnd].
  assert (Hi : results !! i = Some false) by (rewrite <- (Nat.add_0_r i); apply Hun; lia).
  assert (Hi' : results' !! i = Some flag).
  { rewrite Hout by lia. destruct flag; [|done]. apply list_lookup_insert_eq. by eapply lookup_lt_Some. }
  split.
  - eapply reads_in_trans; (eapply reads_in_weaken; [|eassumption]).
    + intros l ->%list_elem_of_singleton. apply list_elem_of_here.
    + intros l. apply list_elem_of_further.
  - rewrite Hlen. destruct flag; [by rewrite length_insert|done].
  - intros j Hj. rewrite Hout by (simpl in Hj; lia). destruct flag; [|done].
    apply list_lookup_insert_ne. simpl in Hj. lia.
  - intros [|j] it' Hj Ht; simpl in Hj.
    + injection Hj as <-. rewrite Nat.add_0_r, Hi' in Ht. injection Ht as ->.
      eapply item_filled_reads; [exact Hr|done|auto].
    + apply (Hfill j); [done|]. by rewrite Nat.add_succ_r in Ht.
  - destruct Hmulti as (new & -> & Hsub & Hnew). destruct defer.
    + destruct (Hdefer eq_refl) as [-> Hheap]. exists ((i, fst it, snd it) :: new).
      split_and!; [by rewrite <- app_assoc|by apply sublist_skip|]. intros k ck mo Hin.
      apply elem_of_cons in Hin as [[= -> -> ->]|Hin].
      * split; [destruct Hr as [_ Hr]; by rewrite Hr|]. exists 0%nat. destruct it. rewrite Nat.add_0_r. done.
      * destruct (Hnew _ _ _ Hin) as (Hh & j & Hj & -> & Hf). split.
        -- rewrite Hh. destruct Hrd as [_ Hrd]. apply Hrd. rewrite list_elem_of_singleton. intros ->.
           apply Hit, list_elem_of_fmap. exists (ck, snd it). split; [done|]. by eapply list_elem_of_lookup_2.
        -- exists (S j). rewrite Nat.add_succ_r. done.
    + exists new. split_and!; [done|by apply sublist_cons|]. intros k ck mo Hin.
      destruct (Hnew _ _ _ Hin) as (Hh & j & Hj & -> & Hf). split.
      * rewrite Hh. destruct Hrd as [_ Hrd]. apply Hrd. rewrite list_elem_of_singleton. intros ->.
        apply Hit, list_elem_of_fmap. exists (ck, snd it). split; [done|]. by eapply list_elem_of_lookup_2.
      * exists (S j). rewrite Nat.add_succ_r. done.
Qed.

Lemma only_mem_reads_in mo w w' : only_mem mo w w' -> reads_in [mo] w w'.
Proof.
  intros (E & _ & _ & _ & F). split; [by rewrite E|]. intros l Hl. apply F. intros ->.
  by apply Hl, list_elem_of_here.
Qed.

(** The bins a batched read asks for are those the decisions are made on. *)
Lemma project_meta full :
  is_ready (project _META_READ_BINS full) = is_ready full /\
  bins_nseg (project _META_READ_BINS full) = bins_nseg full /\
  project _META_READ_BINS full !! "b" = full !! "b".
Proof.
  assert (Hproj : forall n, n ∈ _META_READ_BINS -> project _META_READ_BINS full !! n = full !! n)
    by (intros n; apply project_lookup).
  unfold is_ready, bins_nseg.
  rewrite !Hproj by (apply (bool_decide_unpack _); done). done.
Qed.

(** One entry of a single record. *)
Lemma run_read_single_item full ck mo payload (w : world C) m :
  w_heap w !! mo = Some m -> mem_ok m -> exact_view m ->
  st w !! mk_of ck = Some full -> is_ready full = true -> bins_nseg full = inr 1 ->
  full !! "b" = Some payload ->
  let '(r, w1) := run (read_single self (project _META_READ_BINS full) mo payload) w in
  reads_in [mo] w w1 /\ (r = inr true -> item_filled (st w) w1 (ck, mo)).
Proof.
  intros Hm Hok Hv Hst Hr Hn Hp. pose proof (run_read_single full mo payload w m Hm Hok Hv) as Hrs.
  destruct (run (read_single _ _ _ _) w) as [r w1]. destruct Hrs as [Hom Hfill].
  split; [by apply only_mem_reads_in|]. intros Er. destruct (Hfill Er) as (data & m' & -> & Hcrc & Hm' & Hd).
  exists data, m'. split_and!; [|done|done]. cbn [fst]. unfold Store.entry. rewrite Hst, Hr.
  unfold payload_of. rewrite Hn, Hp. change (1 =? 1) with true. cbv iota. by rewrite Hcrc.
Qed.

Definition metas_end (s : gmap key bins) (items : list item) (i : nat) (results : list bool)
    (ms : list multi) (w : world C)
    (end_ : result (list bool * list multi * result unit) * world C) : Prop :=
  let '(out, w') := end_ in
  exists results' ms' r, out = inr (results', ms', r) /\ metas_post s items i results ms w results' ms' w'.

(** The rest of the loop gives the loop, whatever was decided on the first item. *)
Lemma metas_end_cons s it items i results ms (w w1 : world C) flag defer e :
  NoDup (snd <$> it :: items) -> unread results i (S (length items)) ->
  reads_in [snd it] w w1 -> (flag = true -> item_filled s w1 it) ->
  (defer = true -> flag = false /\ w_heap w1 !! snd it = w_heap w !! snd it) ->
  metas_end s items (S i) (if flag : bool then <[i := true]> results else results)
    (if defer : bool then ms ++ [(i, fst it, snd it)] else ms) w1 e ->
  metas_end s (it :: items) i results ms w e.
Proof.
  destruct e as [out w']. intros Hnd Hun Hr Hf Hd (results' & ms' & r & -> & Hp).
  exists results', ms', r. split; [done|]. by eapply metas_post_cons.
Qed.

Lemma run_read_metas s recs : forall items i results ms (w : world C),
  st w = s ->
  Forall2 (fun it r => read_hit s _META_READ_BINS (mk_of (fst it)) r \/ read_miss r) items recs ->
  buffers w items -> NoDup (snd <$> items) -> unread results i (length items) ->
  metas_end s items i results ms w (run (read_metas self recs items i results ms) w).
Proof.
  induction recs as [|[code rec] recs IH]; intros items i results ms w Hs Hrecs Hb Hnd Hun;
    inversion Hrecs as [|[ck mo] ? items' ? Hk Hks]; subst.
  { eexists _, _, _. split; [reflexivity|]. by apply metas_post_stop. }
  cbn [read_metas br_record br_result].
  apply Forall_cons in Hb as [(m & Hm & Hok & Hv) Hb]. simpl in Hm.
  pose proof Hnd as Hnd0. rewrite fmap_cons in Hnd0. apply NoDup_cons in Hnd0 as [Hn Hnd'].
  assert (Hmo : forall it, it ∈ items' -> snd it ∉ [mo])
    by (intros it Hit Hmo%list_elem_of_singleton; apply Hn, list_elem_of_fmap; by exists it).
  assert (Hun' : forall flag : bool, unread (if flag then <[i := true]> results else results) (S i) (length items')).
  { intros flag j Hj. assert (E : results !! (S i + j)%nat = Some false)
      by (replace (S i + j)%nat with (i + S j)%nat by lia; apply Hun; simpl; lia).
    destruct flag; [by rewrite list_lookup_insert_ne by lia|done]. }
  (* the rest of the loop, from a world where the first item is decided *)
  assert (Hrest : forall flag defer w1, reads_in [mo] w w1 -> (flag = true -> item_filled (st w) w1 (ck, mo)) ->
    (defer = true -> flag = false /\ w_heap w1 !! mo = w_heap w !! mo) ->
    metas_end (st w) ((ck, mo) :: items') i results ms w
      (run (read_metas self recs items' (S i) (if flag : bool then <[i := true]> results else results)
              (if defer : bool then ms ++ [(i, ck, mo)] else ms)) w1)).
  { intros flag defer w1 Hr Hf Hd. apply (metas_end_cons _ _ _ _ _ _ w w1 flag defer); [done..|].
    apply IH; [apply Hr|done|by eapply buffers_reads|done|apply Hun']. }
  pose proof (Hrest false false w (reads_in_refl _ _) ltac:(done) ltac:(done)) as Hskip.
  destruct rec as [b|]; [|exact Hskip].
  destruct (Z.eqb_spec code AEROSPIKE_OK) as [Hc|Hc]; cbn [negb]; [|exact Hskip].
  destruct Hk as [(_ & full & Hst & [= ->])|Hmiss]; [|done].
  destruct (project_meta full) as (-> & -> & ->).
  destruct (is_ready full) eqn:Hr; cbn [negb]; [|exact Hskip].
  destruct (bins_nseg full) as [e|n] eqn:En.
  { eexists _, _, _. split; [reflexivity|]. by apply metas_post_stop. }
  destruct (Z.eqb_spec n 1) as [->|Hne]; cbn [negb].
  - destruct (full !! "b") as [payload|] eqn:Hp; [|exact Hskip]. rewrite run_bind, run_attempt.
    pose proof (run_read_single_item full ck mo payload w m Hm Hok Hv Hst Hr En Hp) as Hrs.
    destruct (run (read_single _ _ _ _) w) as [r w1]. destruct Hrs as [Hom Hfill]. cbn [fst snd].
    destruct r as [e|[|]]; [by apply (Hrest false false)|by apply (Hrest true false); [done|auto|done]|by apply (Hrest false false)].
  - apply (Hrest false true); [apply reads_in_refl|done|done].
Qed.

(** ** The loop over the deferred entries *)

Abbreviation multi_loc := (snd : multi -> loc).

(** What the loop leaves of the entries [ms]. *)
Definition multi_post (ms : list multi) (results : list bool) (w : world C)
    (end_ : result (list bool * result unit) * world C) : Prop :=
  let '(out, w') := end_ in
  exists results' r, out = inr (results', r) /\
    reads_in (multi_loc <$> ms) w w' /\ length results' = length results /\
    (forall j, (forall ck mo, (j, ck, mo) ∉ ms) -> results' !! j = results !! j) /\
    (forall j, results' !! j = Some true -> results !! j = Some true \/
       exists ck mo, (j, ck, mo) ∈ ms /\ item_filled (st w) w' (ck, mo)).

(** One entry decided, the rest of the loop after it. *)
Lemma multi_post_cons k ck mo ms results (flag : bool) (w w1 : world C) e :
  mo ∉ multi_loc <$> ms -> reads_in [mo] w w1 -> (flag = true -> item_filled (st w) w1 (ck, mo)) ->
  multi_post ms (if flag then <[k := true]> results else results) w1 e ->
  multi_post ((k, ck, mo) :: ms) results w e.
Proof.
  destruct e as [out w2]. intros Hn Hrd Hflag (rs & r & -> & Hrd2 & Hl & Ho & Ht).
  eexists _, _. split; [reflexivity|]. split_and!.
  - eapply reads_in_trans; (eapply reads_in_weaken; [|eassumption]).
    + intros l ->%list_elem_of_singleton. apply list_elem_of_here.
    + intros l. apply list_elem_of_further.
  - rewrite Hl. destruct flag; [by rewrite length_insert|done].
  - intros j Hj. rewrite Ho by (intros ck' mo' Hin; by apply (Hj ck' mo'), list_elem_of_further).
    destruct flag; [|done]. apply list_lookup_insert_ne. intros ->. apply (Hj ck mo), list_elem_of_here.
  - intros j Hj. destruct (Ht j Hj) as [Hj1|(ck' & mo' & Hin & Hf)].
    + destruct flag; [|by left]. destruct (decide (j = k)) as [->|Hne].
      * right. exists ck, mo. split; [apply list_elem_of_here|]. eapply item_filled_reads; [exact Hrd2|done|auto].
      * left. by rewrite list_lookup_insert_ne in Hj1.
    + right. exists ck', mo'. split; [by apply list_elem_of_further|]. destruct Hrd as [<- _]. exact Hf.
Qed.

Lemma run_read_multi ms : forall results (w : world C),
  Forall (fun x : multi => buffer_ok (snd x) w) ms -> NoDup (multi_loc <$> ms) ->
  multi_post ms results w (run (read_multi to_string self ms results) w).
Proof.
  induction ms as [|[[k ck] mo] ms IH]; intros results w Hb Hnd; cbn [read_multi].
  { eexists _, _. split; [reflexivity|]. split_and!; [apply reads_in_refl|done|done|by left]. }
  apply Forall_cons in Hb as [Hmo Hb]. rewrite fmap_cons in Hnd.
  apply NoDup_cons in Hnd as [Hn Hnd]. simpl in Hmo, Hn.
  rewrite run_bind, run_attempt. pose proof (run_get to_string self Hbuf ck (Some mo) w Hmo) as Hg.
  destruct (run (get _ _ _ _) w) as [out w1]. cbn [fst snd].
  assert (Hrd : reads_in [mo] w w1).
  { destruct Hg as [Es [[Eh _]|(l & -> & [[_ Hfr] _])]]; (split; [done|]); intros l' Hl'.
    - by rewrite Eh.
    - apply Hfr. intros ->. by apply Hl', list_elem_of_here. }
  assert (Hb1 : Forall (fun x : multi => buffer_ok (snd x) w1) ms).
  { rewrite Forall_forall in Hb |- *. intros x Hx. destruct (Hb x Hx) as (m & Hm & Hok).
    exists m. destruct Hrd as [_ Hrd]. rewrite Hrd; [done|]. intros E%list_elem_of_singleton.
    apply Hn. rewrite <- E. apply list_elem_of_fmap. by exists x. }
  destruct out as [e|[l|]].
  - eexists _, _. split; [reflexivity|]. split_and!; [|done|done|by left].
    eapply reads_in_weaken; [|exact Hrd]. intros l ->%list_elem_of_singleton. apply list_elem_of_here.
  - apply (multi_post_cons _ _ _ _ _ true w w1); [done|done| |by apply IH]. intros _.
    destruct Hg as [_ [[_ Hno]|(l' & -> & _ & Hout)]]; [by destruct (Hno l)|].
    destruct Hout as (_ & _ & p & m & He & Hm & _ & Hp). by exists p, m.
  - apply (multi_post_cons _ _ _ _ _ false w w1); [done|done|done|by apply IH].
Qed.

(** ** A chunk and the whole batch *)

(** What a chunk of items, at index [i] of the results, leaves. *)
Definition chunk_post (items : list item) (i : nat) (results : list bool) (w : world C)
    (results' : list bool) (w' : world C) : Prop :=
  reads_in (snd <$> items) w w' /\ length results' = length results /\
  (forall j, (j < i \/ i + length items <= j)%nat -> results' !! j = results !! j) /\
  (forall j it, items !! j = Some it -> results' !! (i + j)%nat = Some true ->
     item_filled (st w) w' it).

Lemma chunk_post_same items i results (w w' : world C) :
  reads_in (snd <$> items) w w' -> unread results i (length items) ->
  chunk_post items i results w results w'.
Proof.
  intros Hr Hun. split_and!; [done|done|done|]. intros j it Hj Ht.
  rewrite Hun in Ht by by eapply lookup_lt_Some. done.
Qed.

(** The deferred entries after the loop over the meta records. *)
Lemma metas_multi_post items i results (w w1 w2 : world C) results1 ms1 results2 :
  NoDup (snd <$> items) -> metas_post (st w) items i results [] w results1 ms1 w1 ->
  reads_in (multi_loc <$> ms1) w1 w2 -> length results2 = length results1 ->
  (forall j, (forall ck mo, (j, ck, mo) ∉ ms1) -> results2 !! j = results1 !! j) ->
  (forall j, results2 !! j = Some true -> results1 !! j = Some true \/
     exists ck mo, (j, ck, mo) ∈ ms1 /\ item_filled (st w1) w2 (ck, mo)) ->
  chunk_post items i results w results2 w2.
Proof.
  intros Hnd [Hr Hlen Hout Hfill (new & -> & Hsub & Hnew)] Hr2 Hlen2 Hout2 Ht2.
  rewrite app_nil_l in *.
  assert (Hin : forall l, l ∈ multi_loc <$> new -> l ∈ snd <$> items).
  { intros l Hl. eapply elem_of_sublist; [exact Hl|exact Hsub]. }
  split_and!.
  - eapply reads_in_trans; [exact Hr|]. eapply reads_in_weaken; [exact Hin|exact Hr2].
  - congruence.
  - intros j Hj. rewrite Hout2; [by apply Hout|]. intros ck mo Hm.
    destruct (Hnew _ _ _ Hm) as (_ & j' & Hj' & -> & _). apply lookup_lt_Some in Hj'. lia.
  - intros j it Hj Ht. destruct (Ht2 _ Ht) as [Ht1|(ck & mo & Hm & Hf)].
    + eapply item_filled_reads; [exact Hr2| |by eapply Hfill].
      intros ([[k ck] mo] & E & Hm)%list_elem_of_fmap. simpl in E.
      destruct (Hnew _ _ _ Hm) as (_ & j' & Hj' & -> & Hf).
      assert (j' = j) as ->; [|congruence].
      eapply (NoDup_lookup (snd <$> items)); [done| |]; rewrite list_lookup_fmap.
      * rewrite Hj'. reflexivity.
      * rewrite Hj. simpl. congruence.
    + destruct (Hnew _ _ _ Hm) as (_ & j' & Hj' & E & _). assert (j' = j) as -> by lia.
      rewrite Hj in Hj'. injection Hj' as ->. destruct Hr as [<- _]. exact Hf.
Qed.

Lemma run_get_chunk items results i (w : world C) :
  buffers w items -> NoDup (snd <$> items) -> unread results i (length items) ->
  let '(out, w') := run (_batched_get_preallocated_chunk to_string self items results i) w in
  exists results' r, out = inr (results', r) /\ chunk_post items i results w results' w'.
Proof.
  intros Hb Hnd Hun. unfold _batched_get_preallocated_chunk.
  cbn [trigger bind run handle]. unfold on_client.
  pose proof (batch_read_store ((fun it => mk_of (fst it)) <$> items) _META_READ_BINS (w_client w)) as Hst.
  pose proof (batch_read_ok ((fun it => mk_of (fst it)) <$> items) _META_READ_BINS (w_client w)) as Hrd.
  destruct (client_batch_read _ _ _) as [[e|recs] c']; simpl in Hst, Hrd.
  { cbn [run]. eexists _, _. split; [reflexivity|]. apply chunk_post_same; [by split|done]. }
  specialize (Hrd recs eq_refl). rewrite Forall2_fmap_l in Hrd.
  set (w0 := set_client w c'). assert (Es : st w0 = st w) by done. rewrite <- Es in Hrd.
  rewrite run_bind. pose proof (run_read_metas (st w0) recs items i results [] w0 eq_refl Hrd Hb Hnd Hun) as Hm.
  destruct (run (read_metas _ _ _ _ _ _) w0) as [out w1]. destruct Hm as (rs1 & ms1 & r & -> & Hp).
  assert (Hp' : metas_post (st w) items i results [] w rs1 ms1 w1).
  { destruct Hp as [[A1 A2] B1 B2 B3 B4]. split; [|done|done|by rewrite <- Es|done].
    split; [congruence|done]. }
  destruct r as [e|[]].
  - cbn [run]. eexists _, _. split; [reflexivity|].
    eapply (metas_multi_post items i results w w1 w1); [done|exact Hp'|apply reads_in_refl|done|done|by left].
  - destruct (mp_multi _ _ _ _ _ _ _ _ _ Hp') as (new & En & Hsub & Hnew). rewrite app_nil_l in En. subst ms1.
    assert (Hnd1 : NoDup (multi_loc <$> new)) by (eapply sublist_NoDup; [exact Hnd|exact Hsub]).
    assert (Hb1 : Forall (fun x : multi => buffer_ok (snd x) w1) new).
    { apply Forall_forall. intros [[k ck] mo] Hx. simpl.
      destruct (Hnew _ _ _ Hx) as (Hh & j & Hj & _). unfold buffers in Hb.
      destruct (Forall_lookup_1 _ _ _ _ Hb Hj) as (m & Hm & Hok). exists m. by rewrite Hh. }
    pose proof (run_read_multi new rs1 w1 Hb1 Hnd1) as Hmu.
    destruct (run (read_multi _ _ _ _) w1) as [out w2].
    destruct Hmu as (rs2 & r & -> & Hr2 & Hl2 & Ho2 & Ht2). eexists _, _. split; [reflexivity|].
    by eapply (metas_multi_post items i results w w1 w2).
Qed.

Lemma chunk_post_app c items i results results1 results2 (w w1 w2 : world C) :
  NoDup (snd <$> c ++ items) ->
  chunk_post c i results w results1 w1 -> chunk_post items (i + length c) results1 w1 results2 w2 ->
  chunk_post (c ++ items) i results w results2 w2.
Proof.
  rewrite fmap_app. intros (_ & Hdisj & _)%NoDup_app (Hr1 & Hl1 & Ho1 & Hf1) (Hr2 & Hl2 & Ho2 & Hf2).
  split_and!.
  - eapply reads_in_trans; (eapply reads_in_weaken; [|eassumption]);
      intros l; rewrite fmap_app, elem_of_app; auto.
  - congruence.
  - intros j Hj. rewrite length_app in Hj. rewrite Ho2, Ho1 by lia. done.
  - intros j it Hj Ht. apply lookup_app_Some in Hj as [Hj|[Hge Hj]].
    + pose proof (lookup_lt_Some _ _ _ Hj). rewrite Ho2 in Ht by lia.
      eapply item_filled_reads; [exact Hr2| |by eapply Hf1].
      apply Hdisj. apply list_elem_of_fmap. exists it. split; [done|]. by eapply list_elem_of_lookup_2.
    + destruct Hr1 as [<- _]. apply (Hf2 (j - length c)%nat); [done|].
      by replace (i + length c + (j - length c))%nat with (i + j)%nat by lia.
Qed.

Lemma run_read_chunks cs : forall results i (w : world C),
  buffers w (concat cs) -> NoDup (snd <$> concat cs) -> unread results i (length (concat cs)) ->
  let '(out, w') := run (read_chunks to_string self cs results i) w in
  exists results' r, out = inr (results', r) /\ chunk_post (concat cs) i results w results' w'.
Proof.
  induction cs as [|c cs IH]; intros results i w Hb Hnd Hun; cbn [read_chunks concat].
  { cbn [run]. eexists _, _. split; [reflexivity|]. by apply chunk_post_same; [apply reads_in_refl|]. }
  cbn [concat] in Hb, Hnd, Hun. rewrite length_app in Hun.
  apply Forall_app in Hb as [Hbc Hb]. pose proof Hnd as Hnd'. rewrite fmap_app in Hnd'.
  apply NoDup_app in Hnd' as (Hndc & Hdisj & Hnds).
  assert (Hunc : unread results i (length c)) by (intros j Hj; apply Hun; lia).
  rewrite run_bind. pose proof (run_get_chunk c results i w Hbc Hndc Hunc) as Hc.
  destruct (run (_batched_get_preallocated_chunk _ _ _ _ _) w) as [out w1].
  destruct Hc as (rs1 & r & -> & Hp1). pose proof Hp1 as (Hr1 & Hl1 & Ho1 & _).
  assert (Hun1 : unread rs1 (i + length c) (length (concat cs))).
  { intros j Hj. rewrite Ho1 by lia. rewrite <- Nat.add_assoc. apply Hun. lia. }
  destruct r as [e|[]].
  - cbn [run]. eexists _, _. split; [reflexivity|]. eapply chunk_post_app; [done|exact Hp1|].
    apply chunk_post_same; [apply reads_in_refl|done].
  - assert (Hb1 : buffers w1 (concat cs)).
    { eapply buffers_reads; [exact Hr1| |exact Hb]. intros it Hit Hin.
      apply (Hdisj _ Hin), list_elem_of_fmap. by exists it. }
    specialize (IH rs1 (i + length c)%nat w1 Hb1 Hnds Hun1).
    destruct (run (read_chunks _ _ _ _ _) w1) as [out w2]. destruct IH as (rs2 & r & -> & Hp2).
    eexists _, _. split; [reflexivity|]. by eapply chunk_post_app.
Qed.

Lemma run_batched_get (items : list (CK * loc)) (w : world C) :
  buffers w items -> NoDup (snd <$> items) ->
  let '(r, w') := run (batched_get_preallocated to_string self items) w in
  st w' = st w /\ (forall l, l ∉ (snd <$> items) -> w_heap w' !! l = w_heap w !! l) /\
  (forall results, r = inr results ->
     Forall2 (fun it (ok : bool) => ok = true -> item_filled (st w) w' it) items results) /\
  (forall e, r = inl e -> not_client e).
Proof.
  intros Hb Hnd. unfold batched_get_preallocated. destruct items as [|it items].
  { split_and!; [done|done| |done]. intros ? [= <-]. constructor. }
  set (its := it :: items) in *. rewrite run_with_timer, run_bind.
  assert (Hcs : concat (chunks _BATCH_KEYS_CHUNK its) = its)
    by (apply chunks_concat; unfold _BATCH_KEYS_CHUNK; lia).
  pose proof (run_read_chunks (chunks _BATCH_KEYS_CHUNK its) (replicate (length its) false) 0 w) as Hc.
  rewrite Hcs in Hc.
  specialize (Hc Hb Hnd (fun j Hj => proj2 (lookup_replicate _ _ _ _) (conj eq_refl Hj))).
  destruct (run (read_chunks _ _ _ _ _) w) as [out w1].
  destruct Hc as (rs & r & -> & (Est & Hh) & Hlen & _ & Hfill).
  assert (Hall : Forall2 (fun it (ok : bool) => ok = true -> item_filled (st w) w1 it) its rs).
  { apply Forall2_same_length_lookup. split; [by rewrite Hlen, length_replicate|].
    intros j it' ok Hj Hok ->. by apply (Hfill j). }
  destruct r as [e|[]].
  - destruct (isinstance e AerospikeError) eqn:Ea.
    + destruct (classify e) eqn:Ec; cbn; split_and!; try done; intros ? [= <-];
        solve [exact Hall|apply isinstance_map|done].
    + cbn. split_and!; [done|done|done|]. by intros ? [= <-].
  - cbn. split_and!; [done|done| |done]. by intros ? [= <-].
Qed.

(** ** Every entry of a healthy cluster is found *)

Abbreviation no_empty_piece := (no_empty_piece to_string self).

(** The buffer of the item has room for the entry of its key; without an entry there is no record
    that is ready. *)
Definition findable (s : gmap key bins) (w : world C) (it : item) : Prop :=
  exists m, w_heap w !! snd it = Some m /\ mem_ok m /\ exact_view m /\
    match entry s (fst it) with
    | Some p => (length p <= room m)%nat /\ (mo_tensor m = false \/ no_empty_piece s (fst it))
    | None => forall b, s !! mk_of (fst it) = Some b -> is_ready b = false
    end.

(** The answer to an item, and the part of it the loop over the meta records decides. *)
Definition has_entry (s : gmap key bins) (it : item) : bool := bool_decide (is_Some (entry s (fst it))).

Definition one_segment (s : gmap key bins) (it : item) : bool :=
  match s !! mk_of (fst it) with
  | Some b => match bins_nseg b with inr n => n =? 1 | inl _ => false end
  | None => false
  end.

Definition found_single s it : bool := has_entry s it && one_segment s it.

Definition defers s it : bool := has_entry s it && negb (one_segment s it).

Fixpoint deferred (s : gmap key bins) (i : nat) (items : list item) : list multi :=
  match items with
  | [] => []
  | it :: items =>
      (if defers s it then [(i, fst it, snd it)] else []) ++ deferred s (S i) items
  end.

Lemma findable_buffer s w it : findable s w it -> buffer_ok (snd it) w.
Proof. intros (m & Hm & Hok & Hv & _). by exists m. Qed.

Lemma findable_same s w w' it :
  w_heap w' !! snd it = w_heap w !! snd it -> findable s w it -> findable s w' it.
Proof. intros E (m & Hm & Hf). exists m. by rewrite E. Qed.

Lemma findable_reads s w w' items ls :
  reads_in ls w w' -> (forall it, it ∈ items -> snd it ∉ ls) ->
  Forall (findable s w) items -> Forall (findable s w') items.
Proof.
  intros [_ Hh] Hl Hf. rewrite Forall_forall in Hf |- *. intros it Hit.
  eapply findable_same; [|by apply Hf]. by apply Hh, Hl.
Qed.

Lemma findable_buffers s w items : Forall (findable s w) items -> buffers w items.
Proof. intros Hf. eapply Forall_impl; [exact Hf|]. intros it. apply findable_buffer. Qed.

(** The copy of a single record that fits. *)
Lemma run_read_single_hit full mo p (w : world C) m :
  w_heap w !! mo = Some m -> mem_ok m -> exact_view m -> (length p <= room m)%nat ->
  p <> [] \/ mo_tensor m = false -> crc_fits self full p = true ->
  fst (run (read_single self (project _META_READ_BINS full) mo (BBytes p)) w) = inr true.
Proof.
  intros Hm Hok Hv Hle Hne Hc. pose proof (room_le m Hok). unfold read_single.
  rewrite run_bind, run_write_payload_ok with (m := m); [|done..].
  assert (Hfit : (0 + length p <= length (mo_raw m))%nat) by lia.
  pose proof (rewritten_store 0 p m Hfit) as Hrw. unfold exact_view in *.
  rewrite (run_crc_matches self mo (project _META_READ_BINS full) p _ (store_at 0 p m)).
  - cbn. rewrite <- Hc. unfold crc_fits. rewrite project_lookup; [done|]. by apply (bool_decide_unpack _).
  - by apply on_mem_lookup.
  - unfold exact_view. by rewrite (rewritten_room _ _ _ Hrw).
  - by apply (rewritten_ok _ _ _ Hrw).
  - by rewrite (rewritten_room _ _ _ Hrw).
  - apply (filled_store m 0 [] p Hfit (filled_0 m)).
Qed.

(** What an entry says of its meta record. *)
Lemma entry_meta s ck p :
  entry s ck = Some p ->
  exists full n, s !! mk_of ck = Some full /\ is_ready full = true /\ bins_nseg full = inr n /\
    (n = 1 -> full !! "b" = Some (BBytes p) /\ crc_fits self full p = true /\
       (no_empty_piece s ck -> p <> [])).
Proof.
  unfold Store.entry. destruct (s !! mk_of ck) as [b|] eqn:Hb; [|done].
  destruct (is_ready b) eqn:Hr; [|done]. unfold payload_of.
  destruct (bins_nseg b) as [e|n] eqn:Hn; [done|]. intros E. exists b, n. split_and!; [done..|].
  intros ->. cbn in E. destruct (b !! "b") as [[| |data|]|] eqn:Hd; try done.
  destruct (crc_fits self b data) eqn:Hc; [|done]. injection E as ->. split_and!; [done..|].
  intros Hne. apply (Hne (mk_of ck)).
  - unfold pieces. rewrite Hb, Hn. by apply list_elem_of_here.
  - unfold seg_data. by rewrite Hb, Hd.
Qed.

(** A healthy cluster's answer to the read of a key. *)
Definition answered (s : gmap key bins) (it : item) (r : batch_rec) : Prop :=
  match s !! mk_of (fst it) with
  | Some _ => read_hit s _META_READ_BINS (mk_of (fst it)) r
  | None => read_miss r
  end.

Lemma insert_middle {A} (pre rest : list A) x y : <[length pre := y]> (pre ++ x :: rest) = (pre ++ [y]) ++ rest.
Proof. induction pre as [|z pre IH]; [done|]. cbn. f_equal. exact IH. Qed.

Lemma run_read_metas_step code rec recs ck mo items pre tail ms (w : world C) :
  answered (st w) (ck, mo) (mkBatchRec code rec) -> findable (st w) w (ck, mo) ->
  exists w1, reads_in [mo] w w1 /\
    run (read_metas self (mkBatchRec code rec :: recs) ((ck, mo) :: items) (length pre) (pre ++ false :: tail) ms) w =
    run (read_metas self recs items (S (length pre)) (pre ++ found_single (st w) (ck, mo) :: tail)
           (ms ++ (if defers (st w) (ck, mo) then [(length pre, ck, mo)] else []))) w1.
Proof.
  intros Hk (m & Hm & Hok & Hv & Hent). simpl in Hm, Hent. unfold answered in Hk. cbn [fst] in Hk.
  cbn [read_metas].
  assert (Hmiss : has_entry (st w) (ck, mo) = false -> exists w1, reads_in [mo] w w1 /\
    run (read_metas self recs items (S (length pre)) (pre ++ false :: tail) ms) w =
    run (read_metas self recs items (S (length pre)) (pre ++ found_single (st w) (ck, mo) :: tail)
           (ms ++ (if defers (st w) (ck, mo) then [(length pre, ck, mo)] else []))) w1).
  { intros E. exists w. split; [apply reads_in_refl|]. unfold found_single, defers. rewrite E. cbn [andb].
    by rewrite app_nil_r. }
  cbn [br_record br_result].
  destruct (entry (st w) ck) as [p|] eqn:He.
  - destruct (entry_meta _ _ _ He) as (full & n & Hst & Hr & Hn' & Hone). rewrite Hst in Hk.
    destruct Hk as (Hcode & full' & Hst' & Hrec). cbn in Hcode, Hrec. subst code rec.
    rewrite Hst in Hst'. injection Hst' as <-. change (0 =? AEROSPIKE_OK) with true. cbn [negb].
    destruct (project_meta full) as (-> & -> & ->). rewrite Hr, Hn'. cbn [negb].
    assert (Hh : has_entry (st w) (ck, mo) = true)
      by (apply bool_decide_eq_true; cbn [fst]; rewrite He; by eexists).
    assert (Ho : one_segment (st w) (ck, mo) = (n =? 1)) by (unfold one_segment; cbn [fst]; by rewrite Hst, Hn').
    unfold found_single, defers. rewrite Hh, Ho. cbn [andb].
    destruct (Z.eqb_spec n 1) as [->|Hne]; cbn [negb andb].
    + destruct (Hone eq_refl) as (-> & Hc & Hpiece). destruct Hent as [Hle Htens].
      rewrite run_bind, run_attempt.
      pose proof (run_read_single_hit full mo p w m Hm Hok Hv Hle ltac:(tauto) Hc) as Hhit.
      pose proof (run_read_single full mo (BBytes p) w m Hm Hok Hv) as Hrs.
      destruct (run (read_single _ _ _ _) w) as [r w1]. destruct Hrs as [Hom _]. cbn [fst] in Hhit. subst r.
      exists w1. split; [by apply only_mem_reads_in|]. cbn [fst snd]. by rewrite insert_middle, <- app_assoc, app_nil_r.
    + exists w. split; [apply reads_in_refl|done].
  - assert (Hh : has_entry (st w) (ck, mo) = false)
      by (apply bool_decide_eq_false; cbn [fst]; rewrite He; by intros [? ?]).
    destruct rec as [b|]; [|by apply Hmiss]. destruct (Z.eqb_spec code AEROSPIKE_OK) as [Hc|]; cbn [negb]; [|by apply Hmiss].
    destruct (st w !! mk_of ck) as [full|] eqn:Hst; [|done]. destruct Hk as (_ & full' & Hst' & [= ->]).
    rewrite Hst in Hst'. injection Hst' as <-.
    destruct (project_meta full) as (-> & _ & _). rewrite (Hent full) by done. cbn [negb]. by apply Hmiss.
Qed.

Lemma run_read_metas_exact s recs : forall items pre suf ms (w : world C),
  st w = s -> Forall2 (answered s) items recs -> Forall (findable s w) items -> NoDup (snd <$> items) ->
  fst (run (read_metas self recs items (length pre)
              (pre ++ replicate (length items) false ++ suf) ms) w) =
    inr (pre ++ (found_single s <$> items) ++ suf, ms ++ deferred s (length pre) items, inr tt).
Proof.
  induction recs as [|[code rec] recs IH]; intros items pre suf ms w Hs Hrecs Hf Hnd;
    inversion Hrecs as [|[ck mo] ? items' ? Hk Hks]; subst.
  { cbn. by rewrite app_nil_r. }
  apply Forall_cons in Hf as [Hit Hf]. rewrite fmap_cons in Hnd. apply NoDup_cons in Hnd as [Hn Hnd].
  cbn [length replicate app].
  destruct (run_read_metas_step code rec recs ck mo items' pre (replicate (length items') false ++ suf) ms w Hk Hit)
    as (w1 & Hr & ->).
  specialize (IH items' (pre ++ [found_single (st w) (ck, mo)]) suf
    (ms ++ (if defers (st w) (ck, mo) then [(length pre, ck, mo)] else [])) w1).
  rewrite length_app, Nat.add_1_r, <- !app_assoc in IH. apply IH; [apply Hr|done| |done].
  eapply findable_reads; [exact Hr| |done]. intros it Hin E%list_elem_of_singleton. simpl in Hn.
  apply Hn. rewrite <- E. by apply list_elem_of_fmap_2.
Qed.

(** The loop over what was deferred turns the answers into those of all segments. *)
Lemma run_read_multi_exact s items : forall pre suf (w : world C),
  st w = s -> healthy (w_client w) -> Forall (fun it => defers s it = true -> findable s w it) items ->
  NoDup (snd <$> items) ->
  fst (run (read_multi to_string self (deferred s (length pre) items)
              (pre ++ (found_single s <$> items) ++ suf)) w) =
    inr (pre ++ (has_entry s <$> items) ++ suf, inr tt).
Proof.
  induction items as [|[ck mo] items IH]; intros pre suf w Hs Hh Hf Hnd; [done|]. subst s.
  apply Forall_cons in Hf as [Hit Hf]. rewrite fmap_cons in Hnd. apply NoDup_cons in Hnd as [Hn Hnd].
  assert (Hrest : forall results w1, st w1 = st w -> healthy (w_client w1) ->
    (forall l, l <> mo -> w_heap w1 !! l = w_heap w !! l) ->
    results = pre ++ has_entry (st w) (ck, mo) :: (found_single (st w) <$> items) ++ suf ->
    fst (run (read_multi to_string self (deferred (st w) (S (length pre)) items) results) w1) =
      inr (pre ++ (has_entry (st w) (ck, mo) :: (has_entry (st w) <$> items)) ++ suf, inr tt)).
  { intros results w1 Es Hh1 Hfr ->.
    specialize (IH (pre ++ [has_entry (st w) (ck, mo)]) suf w1 Es Hh1).
    rewrite length_app, Nat.add_1_r, <- !app_assoc in IH. apply IH; [|done].
    rewrite Forall_forall in Hf |- *. intros it Hin Hd. eapply findable_same; [|by apply Hf].
    apply Hfr. simpl in Hn. intros E. apply Hn. rewrite <- E. by apply list_elem_of_fmap_2. }
  cbn [deferred fmap list_fmap fst snd]. unfold found_single at 1. unfold defers in Hit |- * at 1.
  destruct (has_entry (st w) (ck, mo)) eqn:He; [|cbn [andb app]; by apply Hrest].
  destruct (one_segment (st w) (ck, mo)); [cbn [andb negb app]; by apply Hrest|].
  cbn [andb negb app read_multi]. rewrite run_bind, run_attempt.
  destruct (Hit eq_refl) as (m & Hm & Hok & Hv & Hent). cbn [fst snd] in *.
  apply bool_decide_eq_true in He as [p Hp]. cbn [fst] in Hp. rewrite Hp in Hent. destruct Hent as [Hle Htens].
  pose proof (run_get_hit to_string self Hbuf ck mo p w m Hh Hm Hv Hok Hp Hle Htens) as Hhit.
  pose proof (run_get to_string self Hbuf ck (Some mo) w (ex_intro _ m (conj Hm (conj Hok Hv)))) as Hg.
  destruct (run_calm _ (get_into_calm to_string self ck mo) w) as [_ Hcalm].
  destruct (run (get _ _ _ _) w) as [out w1]. cbn [fst snd] in *. subst out.
  destruct Hg as [Es [[_ Hno]|(l & -> & [[_ Hfr] _])]]; [by destruct (Hno mo)|].
  apply Hrest; [done|by apply Hcalm|done|]. by rewrite insert_middle, <- app_assoc.
Qed.

Lemma unread_middle pre suf n : unread (pre ++ replicate n false ++ suf) (length pre) n.
Proof.
  intros j Hj. rewrite lookup_app_r by lia. replace (length pre + j - length pre)%nat with j by lia.
  rewrite lookup_app_l by (by rewrite length_replicate). by apply lookup_replicate_2.
Qed.

Lemma deferred_in s items : forall i j it,
  items !! j = Some it -> defers s it = true -> ((i + j)%nat, fst it, snd it) ∈ deferred s i items.
Proof.
  induction items as [|it' items IH]; intros i j it Hj Hd; [done|]. cbn [deferred]. apply elem_of_app.
  destruct j as [|j]; simpl in Hj.
  - injection Hj as ->. left. rewrite Hd, Nat.add_0_r. apply list_elem_of_here.
  - right. rewrite Nat.add_succ_r. by apply (IH (S i) j).
Qed.

(** One chunk, at index [length pre] of the results. *)
Lemma run_get_chunk_exact items pre suf (w : world C) :
  healthy (w_client w) -> Forall (findable (st w) w) items -> NoDup (snd <$> items) ->
  fst (run (_batched_get_preallocated_chunk to_string self items
              (pre ++ replicate (length items) false ++ suf) (length pre)) w) =
    inr (pre ++ (has_entry (st w) <$> items) ++ suf, inr tt).
Proof.
  intros Hh Hf Hnd. unfold _batched_get_preallocated_chunk. cbn [trigger bind run handle]. unfold on_client.
  pose proof (batch_read_store ((fun it => mk_of (fst it)) <$> items) _META_READ_BINS (w_client w)) as Hst.
  destruct (healthy_batch_read ((fun it => mk_of (fst it)) <$> items) _META_READ_BINS (w_client w) Hh)
    as (Hh0 & _ & recs & E & Hrecs).
  destruct (client_batch_read _ _ _) as [r c']. cbn [fst snd] in *. subst r.
  rewrite Forall2_fmap_l in Hrecs. set (w0 := set_client w c'). assert (Es : st w0 = st w) by done.
  rewrite run_bind. set (rs := pre ++ replicate (length items) false ++ suf).
  pose proof (run_read_metas_exact (st w) recs items pre suf [] w0 Es Hrecs Hf Hnd) as Hex.
  pose proof (run_read_metas (st w) recs items (length pre) rs [] w0 Es) as Hm.
  destruct (run_calm _ (read_metas_calm self recs items (length pre) rs []) w0) as [Est1 Hcalm].
  fold rs in Hex. destruct (run (read_metas _ _ _ _ _ _) w0) as [out w1]. cbn [fst snd] in *. subst out.
  destruct Hm as (rs1 & ms1 & r & [= <- <- <-] & Hp); [|exact (findable_buffers _ _ _ Hf)|done|apply unread_middle|].
  { eapply Forall2_impl; [exact Hrecs|]. intros it rec. simpl. destruct (st w !! _); auto. }
  destruct (mp_multi _ _ _ _ _ _ _ _ _ Hp) as (new & En & _ & Hnew). cbn [app] in En. subst new.
  rewrite app_nil_l. replace (st w) with (st w1) by congruence.
  apply run_read_multi_exact; [done|by apply Hcalm| |done].
  replace (st w1) with (st w) by congruence. apply Forall_lookup. intros j it Hj Hd.
  pose proof (Hnew _ _ _ (deferred_in (st w) items (length pre) j it Hj Hd)) as (Hheap & _).
  rewrite Forall_lookup in Hf. eapply findable_same; [exact Hheap|by eapply Hf].
Qed.

Lemma run_read_chunks_exact cs : forall pre suf (w : world C),
  healthy (w_client w) -> Forall (findable (st w) w) (concat cs) -> NoDup (snd <$> concat cs) ->
  fst (run (read_chunks to_string self cs (pre ++ replicate (length (concat cs)) false ++ suf) (length pre)) w) =
    inr (pre ++ (has_entry (st w) <$> concat cs) ++ suf, inr tt).
Proof.
  induction cs as [|c cs IH]; intros pre suf w Hh Hf Hnd; [done|]. cbn [concat read_chunks] in *.
  apply Forall_app in Hf as [Hfc Hf]. rewrite fmap_app in Hnd. apply NoDup_app in Hnd as (Hndc & Hdis & Hnd).
  rewrite length_app, replicate_add, <- app_assoc, run_bind.
  set (suf1 := replicate (length (concat cs)) false ++ suf).
  pose proof (run_get_chunk_exact c pre suf1 w Hh Hfc Hndc) as Hex.
  pose proof (run_get_chunk c (pre ++ replicate (length c) false ++ suf1) (length pre) w
    (findable_buffers _ _ _ Hfc) Hndc (unread_middle _ _ _)) as Hc.
  destruct (run_calm _ (get_chunk_calm to_string self c (pre ++ replicate (length c) false ++ suf1) (length pre)) w)
    as [_ Hcalm].
  destruct (run (_batched_get_preallocated_chunk _ _ _ _ _) w) as [out w1]. cbn [fst snd] in *. subst out.
  destruct Hc as (rs & r & [= <- <-] & ([Es Hheap] & _)). rewrite <- Es. rewrite <- Es in Hf.
  specialize (IH (pre ++ (has_entry (st w1) <$> c)) suf w1). rewrite length_app, length_fmap, <- !app_assoc in IH.
  rewrite fmap_app, <- app_assoc. apply IH; [by apply Hcalm| |done].
  eapply findable_reads; [split; [exact Es|exact Hheap]| |exact Hf].
  intros it Hit Hin. by apply (Hdis _ Hin), list_elem_of_fmap_2.
Qed.

(** On a healthy cluster the answers of a batched read are exact. *)
Lemma run_batched_get_healthy (items : list item) (w : world C) :
  healthy (w_client w) -> Forall (findable (st w) w) items -> NoDup (snd <$> items) ->
  fst (run (batched_get_preallocated to_string self items) w) = inr (has_entry (st w) <$> items).
Proof.
  intros Hh Hf Hnd. unfold batched_get_preallocated. destruct items as [|it items]; [done|].
  set (its := it :: items) in *. rewrite run_with_timer, run_bind.
  assert (Hcs : concat (chunks _BATCH_KEYS_CHUNK its) = its)
    by (apply chunks_concat; unfold _BATCH_KEYS_CHUNK; lia).
  pose proof (run_read_chunks_exact (chunks _BATCH_KEYS_CHUNK its) [] [] w Hh) as Hex.
  rewrite Hcs in Hex. specialize (Hex Hf Hnd). cbn [app length] in Hex. rewrite !app_nil_r in Hex.
  destruct (run (read_chunks _ _ _ _ _) w) as [out w1]. cbn [fst] in Hex. by subst out.
Qed.

(** C11: [batched_get_preallocated] into different buffers, under any fault: it answers every entry
    in order, and a true answer means the buffer starts with the payload of the key's entry.  It
    changes no record and no object outside the batch, and no client exception leaves it.  On a
    healthy cluster, with room in every buffer, the answers are exactly which keys have an entry. *)
Theorem batched_get_sound (items : list (CK * loc)) (w : world C) :
  buffers w items -> NoDup (snd <$> items) ->
  let '(r, w') := run (batched_get_preallocated to_string self items) w in
  st w' = st w /\ (forall l, l ∉ (snd <$> items) -> w_heap w' !! l = w_heap w !! l) /\
  (forall results, r = inr results ->
     Forall2 (fun it (ok : bool) => ok = true -> item_filled (st w) w' it) items results) /\
  (forall e, r = inl e -> not_client e) /\
  (healthy (w_client w) -> Forall (findable (st w) w) items -> r = inr (has_entry (st w) <$> items)).
Proof.
  intros Hb Hnd. pose proof (run_batched_get items w Hb Hnd) as Hg.
  pose proof (fun Hh Hf => run_batched_get_healthy items w Hh Hf Hnd) as Hex.
  destruct (run _ w) as [r w']. destruct Hg as (? & ? & ? & ?). by split_and!.
Qed.
End batch_get.

(** The records of a batch of one single and one segmented entry, read back. *)
Definition demo_stored : gmap key bins :=
  store (w_client (snd (run (batched_put demo_str demo_engine [("a", 0); ("b", 1)]%nat false)
    (demo_world ∅ 65536 [] [buffer false (lit "abc"); demo_source])))).

Definition demo_get_items : list (string * loc) := [("b", 0); ("a", 1); ("c", 2)]%nat.

Definition demo_get_world : world MemClient :=
  demo_world demo_stored 65536 [] [demo_target; demo_target; demo_target].

Lemma batched_get_sound_witness :
  fst (run (batched_get_preallocated demo_str demo_engine demo_get_items) demo_get_world) =
    inr [true; true; false] /\
  item_filled demo_str demo_engine demo_stored
    (snd (run (batched_get_preallocated demo_str demo_engine demo_get_items) demo_get_world))
    ("b", 0%nat).
Proof.
  assert (E : fst (run (batched_get_preallocated demo_str demo_engine demo_get_items) demo_get_world) =
    inr [true; true; false]) by (vm_compute; reflexivity).
  split; [exact E|].
  assert (Hnd : NoDup (snd <$> demo_get_items)) by (apply (bool_decide_unpack _); vm_compute; exact I).
  pose proof (batched_get_sound demo_str demo_engine demo_frombuffer_ok demo_get_items
    demo_get_world) as Hb.
  destruct (run _ _) as [r w']. destruct Hb as (_ & _ & Hs & _ & _); [|exact Hnd|].
  - repeat constructor; (exists demo_target; split; [reflexivity|apply demo_target_ok]).
  - specialize (Hs _ E). inversion Hs as [|? ? ? ? Hb]; subst. exact (Hb eq_refl).
Defined.
