(* ===== verification/CacheRefinement.v ===== *)
(** * The engine refines a map

    The specification of the engine as one object: a finite map from cache keys to payloads, in
    which a key can also be known without a payload (a record that only pinning has written).
    Every sequence of operations of the engine on a healthy cluster answers what this map
    answers.  The callers hand over objects: a [put] one that holds its bytes, a [get] a buffer. *)

From S2P Require Import Prelude PyStr Errors Sharding Config Limits Crc32 Keys Runtime Policies Metrics Serde.
From S2P Require Import Engine ClientSpec Store GetFacts Reads Concrete PutFacts KeyOps WellFormed BatchPut BatchGet.

(** ** Operations and their specification *)

Section spec.
Context {CK : Type} `{Countable CK}.

Inductive operation :=
| OPut (k : CK) (m : memobj) (pinned : bool)
| OGet (k : CK) (m : memobj)
| OExists (k : CK)
| OContains (ks : list CK)
| OMask (ks : list CK)
| ORemove (k : CK)
| OPinKeys (ks : list CK)
| OPin (k : CK)
| OUnpin (k : CK)
| OPutAll (items : list (CK * memobj)) (pinned : bool)
| OGetAll (items : list (CK * memobj)).

(** [Hit] carries the payload, or the whole buffer it was read into. *)
Inductive answer :=
| Done
| Hit (data : bytes)
| Miss
| Said (b : bool)
| Counted (n : Z)
| Mask (l : list bool)
| Got (l : list (option bytes))
| Failed (e : exc).

Abbreviation cache := (gmap CK (option bytes)).

Implicit Types (c : cache).

Definition known c (k : CK) : bool := bool_decide (is_Some (c !! k)).

Fixpoint known_prefix c (ks : list CK) : Z :=
  match ks with
  | [] => 0
  | k :: ks => if known c k then 1 + known_prefix c ks else 0
  end.

(** Pinning makes a key known. *)
Definition remember (k : CK) c : cache := <[k := mjoin (c !! k)]> c.

Definition store_all (items : list (CK * memobj)) c : cache :=
  foldl (fun c it => <[fst it := Some (byte_array (snd it))]> c) c items.

Definition spec_op (o : operation) c : answer * cache :=
  match o with
  | OPut k m _ => (Done, <[k := Some (byte_array m)]> c)
  | OGet k _ => (match mjoin (c !! k) with Some p => Hit p | None => Miss end, c)
  | OExists k => (Said (known c k), c)
  | OContains ks => (Counted (known_prefix c ks), c)
  | OMask ks => (Mask (known c <$> ks), c)
  | ORemove k => (Said (known c k), delete k c)
  | OPinKeys ks => (Done, foldr remember c ks)
  | OPin k => (Said (known c k), c)
  | OUnpin k => (Said (known c k), c)
  | OPutAll items _ => (Mask (replicate (length items) true), store_all items c)
  | OGetAll items => (Got ((fun it => mjoin (c !! fst it)) <$> items), c)
  end.

Fixpoint spec_ops (os : list operation) c : list answer * cache :=
  match os with
  | [] => ([], c)
  | o :: os =>
      let '(a, c) := spec_op o c in
      let '(l, c) := spec_ops os c in (a :: l, c)
  end.

(** The buffer starts with the payload. *)
Definition read_agrees (spec seen : option bytes) : Prop :=
  match spec, seen with
  | Some p, Some raw => take (length p) raw = p
  | _, _ => seen = spec
  end.

(** What the map says, and what the caller of the engine sees. *)
Definition agrees (spec seen : answer) : Prop :=
  match spec, seen with
  | Hit p, Hit raw => take (length p) raw = p
  | Got ps, Got raws => Forall2 read_agrees ps raws
  | _, _ => seen = spec
  end.
End spec.
Arguments operation : clear implicits.

Section engine.
Context {CK : Type} (to_string : CK -> string) `{Env} (self : Engine) {C : Type} `{AerospikeClient C}.

(** A new object in the heap. *)
Definition hand_over (m : memobj) (w : world C) : loc * world C :=
  let l := fresh (dom (w_heap w)) in (l, set_heap w (<[l := m]> (w_heap w))).

Fixpoint hand_over_all (ms : list memobj) (w : world C) : list loc * world C :=
  match ms with
  | [] => ([], w)
  | m :: ms =>
      let '(l, w) := hand_over m w in
      let '(ls, w) := hand_over_all ms w in (l :: ls, w)
  end.

(** What a batched read left in the buffers. *)
Definition contents (w : world C) (rs : list bool) (ls : list loc) : list (option bytes) :=
  zip_with (fun (ok : bool) l => if ok then Some (mo_raw (mem w l)) else None) rs ls.

Definition said {A} (f : A -> answer) (r : result A) : answer :=
  match r with inr a => f a | inl e => Failed e end.

Definition engine_op (o : operation CK) (w : world C) : answer * world C :=
  match o with
  | OPut k m pinned =>
      let '(l, w) := hand_over m w in
      let '(r, w) := run (put to_string self k l pinned) w in (said (fun _ => Done) r, w)
  | OGet k m =>
      let '(l, w) := hand_over m w in
      let '(r, w) := run (get to_string self k (Some l)) w in
      (said (fun out => match out with Some l => Hit (mo_raw (mem w l)) | None => Miss end) r, w)
  | OExists k => let '(r, w) := run (exists_ to_string self k) w in (said Said r, w)
  | OContains ks => let '(r, w) := run (batched_contains to_string self ks) w in (said Counted r, w)
  | OMask ks => let '(r, w) := run (batched_exists_mask to_string self ks) w in (said Mask r, w)
  | ORemove k => let '(r, w) := run (remove to_string self k) w in (said Said r, w)
  | OPinKeys ks => let '(r, w) := run (pin_keys to_string self ks) w in (said (fun _ => Done) r, w)
  | OPin k => let '(r, w) := run (pin to_string self k) w in (said Said r, w)
  | OUnpin k => let '(r, w) := run (unpin to_string self k) w in (said Said r, w)
  | OPutAll items pinned =>
      let '(ls, w) := hand_over_all (snd <$> items) w in
      let '(r, w) := run (batched_put to_string self (zip (fst <$> items) ls) pinned) w in (said Mask r, w)
  | OGetAll items =>
      let '(ls, w) := hand_over_all (snd <$> items) w in
      let '(r, w) := run (batched_get_preallocated to_string self (zip (fst <$> items) ls)) w in
      (said (fun rs => Got (contents w rs ls)) r, w)
  end.

Fixpoint engine_ops (os : list (operation CK)) (w : world C) : list answer * world C :=
  match os with
  | [] => ([], w)
  | o :: os =>
      let '(a, w) := engine_op o w in
      let '(l, w) := engine_ops os w in (a :: l, w)
  end.
End engine.

(** ** The simulation *)

Section refinement.
Context {C : Type} `{AerospikeClient C} `{!ClientSpec C} `{Env}.
Context {CK : Type} `{Countable CK} (to_string : CK -> string) `{!Inj (=) (=) to_string} (self : Engine).
Context `{!EngineHooks C self}.
Implicit Types (c : gmap CK (option bytes)) (w : world C) (k : CK) (s : gmap key bins).

Abbreviation mk_of := (mk_of to_string self).
Abbreviation entry := (entry to_string self).
Abbreviation owns := (owns to_string self).
Abbreviation st w := (store (w_client w)).

(** The largest payload in play, and the record size of the cluster. *)
Context (N : nat) (cap : Z).

Definition view s k : option (option bytes) :=
  match s !! mk_of k with Some _ => Some (entry s k) | None => None end.

(** The record of a key is ready and complete, or was only ever pinned. *)
Definition key_ok s k : Prop :=
  match s !! mk_of k with
  | None => True
  | Some b => wf_meta b /\
      if is_ready b then exists p, entry s k = Some p /\ (length p <= N)%nat /\ no_empty_piece to_string self s k
      else True
  end.

Definition key_agrees s c k : Prop := c !! k = view s k /\ key_ok s k.

Record refines w c : Prop := {
  rf_healthy : healthy (w_client w);
  rf_capacity : capacity (w_client w) = cap;
  rf_keys : forall k, key_agrees (st w) c k
}.

(** The objects the callers hand over. *)
Definition put_fits (m : memobj) : Prop :=
  byte_array m <> [] /\ (length (byte_array m) <= N)%nat /\ serializable self m /\
  0 <= r_max_segment_bytes (resolved self) /\
  r_max_segment_bytes (resolved self) +
    md_size (save_chunk_meta self) (Z.of_nat (length (byte_array m))) (mo_spec m) <= cap.

Definition get_fits (m : memobj) : Prop := mem_ok m /\ exact_view m /\ (N <= room m)%nat.

Definition op_ok (o : operation CK) : Prop :=
  match o with
  | OPut _ m _ => put_fits m
  | OGet _ m => get_fits m
  | OPinKeys ks => NoDup ks
  | OPutAll items _ => NoDup (fst <$> items) /\ Forall put_fits (snd <$> items)
  | OGetAll items => Forall get_fits (snd <$> items)
  | _ => True
  end.

(** *** Frames *)

Lemma key_agrees_frame s s' c c' k :
  (forall x, owns k x -> s' !! x = s !! x) -> c' !! k = c !! k -> key_agrees s c k -> key_agrees s' c' k.
Proof.
  intros Hs Hc [Hv Hk]. assert (Hm : s' !! mk_of k = s !! mk_of k) by (apply Hs; by left).
  assert (He : entry s' k = entry s k) by by apply entry_frame.
  unfold key_agrees, view, key_ok in *. rewrite Hc, Hv, Hm, He. split; [done|].
  destruct (s !! mk_of k) as [b|] eqn:Eb; [|done]. destruct Hk as [Hwf Hr]. split; [done|].
  destruct (is_ready b); [|done]. destruct Hr as (p & Hp & Hle & Hne). exists p. split_and!; [done|done|].
  by apply (no_empty_piece_frame to_string self s).
Qed.

Lemma key_agrees_other s s' c c' k k' :
  k' <> k -> unowned_same to_string self k s s' -> c' !! k' = c !! k' ->
  key_agrees s c k' -> key_agrees s' c' k'.
Proof.
  intros Hne Hun Hc. apply key_agrees_frame; [|done]. intros x Hx. apply Hun. intros Hx'.
  apply Hne. by eapply owns_disjoint.
Qed.

Lemma refines_same w w' c : refines w c -> st w' = st w -> steady w w' -> refines w' c.
Proof. intros [Hh Hc Hk] Es [Hh' Hc']. split; [done|congruence|]. by rewrite Es. Qed.

(** The entries are the payloads of the map. *)
Lemma refines_entry w c k : refines w c -> entry (st w) k = mjoin (c !! k).
Proof. intros [_ _ Hk]. destruct (Hk k) as [-> _]. unfold view, Store.entry. by destruct (st w !! mk_of k). Qed.

Lemma known_present w c k : refines w c -> known c k = bool_decide (present to_string self (st w) k).
Proof.
  intros [_ _ Hk]. destruct (Hk k) as [Hv _]. unfold known. apply bool_decide_ext. rewrite Hv. unfold view, present.
  destruct (st w !! mk_of k); [split; intros _; by eexists|]. by split; intros [? ?].
Qed.

Lemma hand_over_all_spec ms : forall w,
  let '(ls, w1) := hand_over_all ms w in
  w_client w1 = w_client w /\ w_heap w ⊆ w_heap w1 /\ NoDup ls /\ (forall l, l ∈ ls -> w_heap w !! l = None) /\
  Forall2 (fun l m => w_heap w1 !! l = Some m) ls ms.
Proof.
  induction ms as [|m ms IH]; intros w; cbn [hand_over_all].
  { split_and!; [done|done|constructor|by intros l ?%not_elem_of_nil|constructor]. }
  cbn [hand_over]. set (l := fresh (dom (w_heap w))). set (w1 := set_heap w _).
  assert (Hl : w_heap w !! l = None) by apply not_elem_of_dom, is_fresh.
  specialize (IH w1). destruct (hand_over_all ms w1) as [ls w2]. destruct IH as (Hc & Hsub & Hnd & Hnew & Hall).
  assert (Hw1 : w_heap w ⊆ w_heap w1) by (unfold w1; cbn; by apply insert_subseteq).
  assert (Hls : forall x, x ∈ ls -> x <> l).
  { intros x Hx ->. specialize (Hnew l Hx). unfold w1 in Hnew. cbn in Hnew. by rewrite lookup_insert_eq in Hnew. }
  split_and!; [done|by etrans| | |].
  - constructor; [|done]. by intros Hin%Hls.
  - intros x [->|Hx]%elem_of_cons; [done|]. specialize (Hnew x Hx). unfold w1 in Hnew. cbn in Hnew.
    rewrite lookup_insert_ne in Hnew; [done|]. intros <-. by apply (Hls l).
  - constructor; [|done]. apply (lookup_weaken (w_heap w1)); [|done]. unfold w1. cbn. by rewrite lookup_insert_eq.
Qed.

Lemma hand_over_refines m w c : refines w c ->
  let '(l, w1) := hand_over m w in refines w1 c /\ w_client w1 = w_client w /\ w_heap w1 !! l = Some m.
Proof. intros [Hh Hc Hk]. cbn. split_and!; [by split|done|by rewrite lookup_insert_eq]. Qed.

(** *** One operation at a time *)

Hypothesis (Hbuf : frombuffer_ok) (Hconst : client_constants) (Hcfg : config_ok (cfg self)).
Hypothesis (Hlimits : limits_fit self) (Hcap : 0 <= cap).

(** An operation and what the map says it does. *)
Definition simulated w c (o : operation CK) : Prop :=
  let '(a, w') := engine_op to_string self o w in
  let '(b, c') := spec_op o c in agrees b a /\ refines w' c'.

Lemma stored_agrees k payload s s' c : key_ok s k -> stored to_string self k payload s s' ->
  payload <> [] -> (length payload <= N)%nat -> key_agrees s' (<[k := Some payload]> c) k.
Proof.
  intros Hk Hst Hne Hle. pose proof (stored_entry _ _ _ _ _ _ Hst) as He.
  pose proof (stored_nonempty _ _ _ _ _ _ Hst Hne) as Hp. destruct Hst as (p & bs & Hpo & Hw & [Hm _]).
  unfold key_agrees, view, key_ok. rewrite lookup_insert_eq, Hm, He. split; [done|]. split; [|by case_match; [exists payload|]].
  eapply meta_written_wf; [exact Hw|apply Hpo].
Qed.

Lemma put_refines w c k l m pinned : refines w c -> w_heap w !! l = Some m -> put_fits m ->
  let '(r, w') := run (put to_string self k l pinned) w in
  r = inr tt /\ w_heap w' = w_heap w /\ refines w' (<[k := Some (byte_array m)]> c).
Proof.
  intros [Hh Hc Hk] Hm (Hne & Hle & Hser & Hmx & Hfit). destruct (write_policy_ok _ Hconst Hcfg) as [wp Hwp].
  pose proof (run_put to_string self k l pinned w m Hm (proj1 Hlimits)) as Hput.
  pose proof (run_put_healthy to_string self k l pinned w m wp Hm Hh Hlimits Hwp) as Hhp.
  destruct (run (put _ _ _ _ _) w) as [r w'].
  destruct Hhp as [-> [Hh' Hc']]; [split; [done|by rewrite Hc]|done|].
  destruct Hput as [(Eh & Hfr & _ & Hok) _]. specialize (Hok eq_refl). split_and!; [done|done|].
  split; [done|congruence|]. intros k'. destruct (decide (k' = k)) as [->|Hne'].
  - eapply stored_agrees; [apply Hk|done..].
  - eapply key_agrees_other; [done|exact Hfr|by rewrite lookup_insert_ne|apply Hk].
Qed.

Lemma put_simulated w c k m pinned : refines w c -> put_fits m -> simulated w c (OPut k m pinned).
Proof.
  intros Hr Hfits. unfold simulated. cbn [engine_op spec_op].
  pose proof (hand_over_refines m w c Hr) as Ho. destruct (hand_over m w) as [l w1]. destruct Ho as (Hr1 & _ & Hm).
  pose proof (put_refines w1 c k l m pinned Hr1 Hm Hfits) as Hp. destruct (run (put _ _ _ _ _) w1) as [r w2].
  by destruct Hp as (-> & _ & Hr2).
Qed.

Lemma run_get_miss k pre w : healthy (w_client w) ->
  match st w !! mk_of k with Some b => is_ready b = false | None => True end ->
  fst (run (get to_string self k pre) w) = inr None.
Proof.
  intros Hh Hr. unfold get. rewrite run_with_timer, run_bind.
  destruct (run_client_get (mk_of k) w) as (c' & -> & Hst & ->).
  destruct (healthy_get (mk_of k) (w_client w) Hh) as (_ & _ & Hg).
  destruct (st w !! mk_of k) as [b|].
  - rewrite Hg. unfold catch_ax. by rewrite Hr.
  - destruct Hg as (e & -> & He). unfold catch_ax. by rewrite He.
Qed.

Lemma get_simulated w c k m : refines w c -> get_fits m -> simulated w c (OGet k m).
Proof.
  intros Hr (Hok & Hv & Hroom). unfold simulated. cbn [engine_op spec_op].
  pose proof (hand_over_refines m w c Hr) as Ho. destruct (hand_over m w) as [l w1].
  destruct Ho as (Hr1 & _ & Hm). pose proof Hr1 as [Hh _ Hk]. destruct (Hk k) as [Hc Hko]. rewrite Hc.
  destruct (run_calm _ (get_into_calm to_string self k l) w1) as [Es Hst]. specialize (Hst Hh).
  pose proof (run_get to_string self Hbuf k (Some l) w1 (ex_intro _ m (conj Hm (conj Hok Hv)))) as Hg.
  unfold view, key_ok in *. destruct (st w1 !! mk_of k) as [b|] eqn:Eb; [destruct Hko as [_ Hko]|].
  2:{ pose proof (run_get_miss k (Some l) w1 Hh ltac:(by rewrite Eb)) as Hmiss.
      destruct (run (get _ _ _ _) w1) as [r w2]. cbn [fst snd] in *. subst r.
      split; [done|by eapply refines_same]. }
  destruct (is_ready b) eqn:Er.
  - destruct Hko as (p & He & Hle & Hne).
    pose proof (run_get_hit to_string self Hbuf k l p w1 m Hh Hm Hv Hok He ltac:(lia) (or_intror Hne)) as Hhit.
    destruct (run (get _ _ _ _) w1) as [r w2]. cbn [fst snd] in *. subst r.
    split; [|by eapply refines_same]. rewrite He. cbn [mjoin option_join said].
    destruct Hg as [_ [[_ Hno]|(l' & -> & _ & Ho)]]; [by destruct (Hno l)|].
    destruct Ho as (_ & _ & p' & m' & He' & Hm' & _ & Hp). rewrite He in He'. injection He' as <-.
    cbn. by rewrite (mem_lookup _ _ _ Hm').
  - pose proof (run_get_miss k (Some l) w1 Hh ltac:(by rewrite Eb)) as Hmiss.
    destruct (run (get _ _ _ _) w1) as [r w2]. cbn [fst snd] in *. subst r.
    assert (He : entry (st w1) k = None) by (unfold Store.entry; by rewrite Eb, Er).
    rewrite He. split; [done|by eapply refines_same].
Qed.

Lemma exists_simulated w c k : refines w c -> simulated w c (OExists k).
Proof.
  intros Hr. unfold simulated. cbn [engine_op spec_op]. pose proof (run_exists to_string self k w) as Hx.
  destruct (run _ w) as [r w']. destruct Hx as (Es & _ & _ & _ & Hh).
  destruct (Hh (rf_healthy _ _ Hr)) as [Hst ->]. split; [|by eapply refines_same].
  cbn. by rewrite (known_present w c k Hr).
Qed.

Lemma known_prefix_spec w c ks : refines w c -> forall n, present_prefix to_string self (st w) ks n ->
  (forall k, ks !! Z.to_nat n = Some k -> ~ present to_string self (st w) k) -> known_prefix c ks = n.
Proof.
  intros Hr. induction ks as [|k ks IH]; intros n [Hn Hp] Hex; cbn [known_prefix].
  { cbn in Hn. lia. }
  rewrite (known_present w c k Hr). destruct (decide (n = 0)) as [->|Hne].
  - rewrite bool_decide_eq_false_2; [done|]. by apply Hex.
  - replace (Z.to_nat n) with (S (Z.to_nat (n - 1))) in * by lia. cbn in Hp, Hex.
    apply Forall_cons in Hp as [Hk Hp]. rewrite bool_decide_eq_true_2 by done.
    rewrite (IH (n - 1)); [lia| |done]. split; [cbn in Hn; lia|done].
Qed.

Lemma contains_simulated w c ks : refines w c -> simulated w c (OContains ks).
Proof.
  intros Hr. unfold simulated. cbn [engine_op spec_op]. pose proof (run_batched_contains to_string self ks w) as Hx.
  destruct (run _ w) as [r w']. destruct Hx as (Es & _ & Hp & _ & Hh).
  destruct (Hh (rf_healthy _ _ Hr)) as (Hst & n & -> & Hex). split; [|by eapply refines_same].
  cbn. by rewrite (known_prefix_spec w c ks Hr n (Hp n eq_refl) Hex).
Qed.

Lemma mask_simulated w c ks : refines w c -> simulated w c (OMask ks).
Proof.
  intros Hr. unfold simulated. cbn [engine_op spec_op]. pose proof (run_batched_exists_mask to_string self ks w) as Hx.
  destruct (run_calm _ (batched_exists_mask_calm to_string self ks) w) as [Es Hst].
  destruct (run _ w) as [r w']. destruct Hx as (_ & _ & _ & _ & Hh). rewrite (Hh (rf_healthy _ _ Hr)).
  split; [|by eapply refines_same; [..|apply Hst, (rf_healthy _ _ Hr)]]. cbn. f_equal.
  apply list_fmap_ext. intros i k _. symmetry. by apply known_present.
Qed.

Lemma remove_simulated w c k : refines w c -> simulated w c (ORemove k).
Proof.
  intros Hr. pose proof Hr as [Hh Hc Hk]. unfold simulated. cbn [engine_op spec_op].
  assert (Hwf : forall b, st w !! mk_of k = Some b -> wf_meta b).
  { intros b Hb. destruct (Hk k) as [_ Hko]. unfold key_ok in Hko. rewrite Hb in Hko. by destruct Hko. }
  pose proof (run_remove_healthy to_string self k w Hh Hwf) as Hx. destruct (run _ w) as [r w'].
  destruct Hx as (-> & [Hh' Hc'] & Hgone & Hun). split; [cbn; by rewrite (known_present w c k Hr)|].
  split; [done|congruence|]. intros k'. destruct (decide (k' = k)) as [->|Hne].
  - unfold key_agrees, view, key_ok. by rewrite Hgone, lookup_delete_eq.
  - eapply key_agrees_other; [done|exact Hun|by rewrite lookup_delete_ne|apply Hk].
Qed.

(** *** Pinning *)

(** A record whose [pin] bin has been written says the same. *)
Lemma pin_agrees v0 s s' c c' k : pin_only to_string self s s' ->
  s' !! mk_of k = Some (merged (s !! mk_of k) [("pin", v0)]) ->
  c' !! k = Some (mjoin (c !! k)) -> key_agrees s c k -> key_agrees s' c' k.
Proof.
  intros Hpin Hm Hc' [Hv Hk]. pose proof (pin_only_entry to_string self s s' k Hpin) as He.
  assert (Hsame : forall n, n <> "pin" ->
    merged (s !! mk_of k) [("pin", v0)] !! n = default ∅ (s !! mk_of k) !! n).
  { intros n Hn. apply merged_other. unfold dict_of. simpl. by rewrite lookup_insert_ne. }
  unfold key_agrees, view, key_ok in *. rewrite Hm, Hc', Hv, He.
  destruct (s !! mk_of k) as [b|] eqn:Eb.
  - destruct Hk as [Hwf Hr]. split; [done|]. split; [apply pin_wf_meta; by intros ? [= <-]|].
    unfold is_ready in *. rewrite Hsame by done. cbn [default from_option id].
    destruct (bool_decide _); [|done]. destruct Hr as (p & Hp & Hle & Hne). exists p. split_and!; [done|done|].
    intros x d Hx Hd. unfold pieces, bins_nseg in *. rewrite Hm, Hsame in Hx by done. cbn in Hx.
    apply (Hne x d); [unfold pieces, bins_nseg; by rewrite Eb|]. unfold seg_data in *.
    destruct (Hpin x) as [<-|(k2 & v & -> & E)]; [done|]. rewrite E in Hd.
    rewrite merged_other in Hd by (unfold dict_of; simpl; by rewrite lookup_insert_ne).
    destruct (s !! mk_of k2) as [b2|]; cbn in Hd; [done|by rewrite lookup_empty in Hd].
  - split; [unfold Store.entry; by rewrite Eb|]. split; [by apply pin_wf_meta|].
    unfold is_ready. rewrite Hsame by done. cbn. by rewrite lookup_empty.
Qed.

Lemma remember_lookup c ks k :
  foldr remember c ks !! k = if decide (k ∈ ks) then Some (mjoin (c !! k)) else c !! k.
Proof.
  induction ks as [|k0 ks IH]; cbn [foldr]; [done|]. unfold remember at 1.
  destruct (decide (k = k0)) as [->|Hne].
  - rewrite lookup_insert_eq, decide_True by by left. f_equal. rewrite IH. case_decide; [|done].
    by destruct (c !! k0) as [[?|]|].
  - rewrite lookup_insert_ne, IH by done. destruct (decide (k ∈ ks)).
    + by rewrite decide_True by by right.
    + rewrite decide_False; [done|]. by intros [?|?]%elem_of_cons.
Qed.

Lemma remember_known c ks : Forall (fun k => known c k = true) ks -> foldr remember c ks = c.
Proof.
  intros Hks. apply map_eq. intros k. rewrite remember_lookup. case_decide as Hk; [|done].
  rewrite Forall_forall in Hks. specialize (Hks k Hk). apply bool_decide_eq_true in Hks as [v Hv]. by rewrite Hv.
Qed.

Lemma pin_keys_refines w c ks : refines w c -> NoDup ks ->
  let '(r, w') := run (pin_keys to_string self ks) w in r = inr tt /\ refines w' (foldr remember c ks).
Proof.
  intros Hr Hnd. pose proof Hr as [Hh Hc Hk].
  pose proof (run_pin_keys to_string self ks w Hnd) as Hp.
  pose proof (fun k => run_pin_keys_frame to_string self ks w k) as Hf.
  pose proof (run_pin_keys_healthy to_string self ks w Hnd Hconst Hcfg Hh ltac:(by rewrite Hc)) as Hx.
  destruct (run _ w) as [r w']. destruct Hx as (-> & [Hh' Hc'] & Hin). destruct Hp as (Hp & _ & _).
  split; [done|]. split; [done|congruence|]. intros k. cbn [snd] in Hf.
  pose proof (remember_lookup c ks k) as Hl. destruct (decide (k ∈ ks)) as [Hks|Hks].
  - eapply pin_agrees; [done|by apply Hin|done|apply Hk].
  - eapply key_agrees_frame; [|done|apply Hk]. intros x [->|(i & Hi & ->)]; [by apply Hf|].
    destruct (Hp (seg_of to_string self k i)) as [E|(k2 & v & E & _)]; [done|].
    symmetry in E. by apply mk_of_seg_of in E.
Qed.

Lemma pin_simulated w c k : refines w c -> simulated w c (OPin k).
Proof.
  intros Hr. unfold simulated. cbn [engine_op spec_op]. unfold pin. rewrite run_bind.
  pose proof (run_exists to_string self k w) as Hx. destruct (run (exists_ _ _ _) w) as [r w1].
  destruct Hx as (Es & _ & _ & _ & Hh). destruct (Hh (rf_healthy _ _ Hr)) as [Hst ->].
  assert (Hr1 : refines w1 c) by by eapply refines_same.
  rewrite <- (known_present w c k Hr). destruct (known c k) eqn:Ek; cbn [negb]; [|by split].
  rewrite run_bind. pose proof (pin_keys_refines w1 c [k] Hr1 (NoDup_singleton k)) as Hp.
  destruct (run (pin_keys _ _ _) w1) as [r w2]. destruct Hp as [-> Hr2]. split; [done|].
  by rewrite remember_known in Hr2 by by constructor.
Qed.

(** Unpinning writes the [pin] bin of a known key. *)
Lemma unpin_simulated w c k : refines w c -> simulated w c (OUnpin k).
Proof.
  intros Hr. pose proof Hr as [Hh Hc Hk]. unfold simulated. cbn [engine_op spec_op].
  pose proof (run_unpin_healthy to_string self k w Hconst Hcfg Hh ltac:(by rewrite Hc)) as Hx.
  pose proof (run_unpin to_string self k w) as Hp.
  destruct (run _ w) as [r w']. destruct Hx as (-> & [Hh' Hc'] & Hoth & Hm). destruct Hp as (Hp & _).
  split; [cbn; by rewrite (known_present w c k Hr)|]. split; [done|congruence|]. intros k'.
  destruct (Hk k') as [Hv Hko]. destruct (decide (k' = k)) as [->|Hne].
  - destruct (st w !! mk_of k) as [b|] eqn:Eb.
    + apply (pin_agrees (BBool false) (st w) (st w') c); [done|by rewrite Hm, Eb| |by split]. unfold view in Hv. rewrite Eb in Hv. by rewrite Hv.
    + unfold key_agrees, view, key_ok in *. rewrite Eb in Hv. by rewrite Hm, Hv.
  - eapply key_agrees_frame; [|done|by split]. intros x [->|(i & Hi & ->)]; apply Hoth.
    + by intros ?%mk_of_inj.
    + intros E. symmetry in E. by apply mk_of_seg_of in E.
Qed.

(** *** Batches *)

Lemma store_all_other items : forall c k, k ∉ (fst <$> items) -> store_all items c !! k = c !! k.
Proof.
  induction items as [|[k0 m] items IH]; intros c k Hk; [done|]. apply not_elem_of_cons in Hk as [Hne Hk].
  unfold store_all. cbn [foldl fst snd]. fold (store_all items (<[k0 := Some (byte_array m)]> c)).
  rewrite IH by done. by rewrite lookup_insert_ne.
Qed.

Lemma store_all_in items : forall c i k m, NoDup (fst <$> items) -> items !! i = Some (k, m) ->
  store_all items c !! k = Some (Some (byte_array m)).
Proof.
  induction items as [|[k0 m0] items IH]; intros c [|i] k m Hnd Hi; try done;
    apply NoDup_cons in Hnd as [Hk0 Hnd]; cbn in Hi.
  - injection Hi as -> ->. unfold store_all. cbn. fold (store_all items (<[k := Some (byte_array m)]> c)).
    rewrite store_all_other by done. by rewrite lookup_insert_eq.
  - by apply (IH _ i).
Qed.

Lemma kept_agrees s c k p : kept to_string self s k p -> p <> [] -> (length p <= N)%nat -> c !! k = Some (Some p) ->
  key_agrees s c k.
Proof.
  intros (He & Hne & b & Hb & Hwf) Hp Hle Hc. unfold key_agrees, view, key_ok. rewrite Hb, Hc, He.
  split; [done|]. split; [done|]. destruct (is_ready b); [|done]. exists p. auto.
Qed.

Lemma put_all_refines w c (ks : list CK) (ls : list loc) (ms : list memobj) pinned :
  refines w c -> NoDup ks -> Forall put_fits ms -> length ks = length ms ->
  Forall2 (fun l m => w_heap w !! l = Some m) ls ms ->
  let '(r, w') := run (batched_put to_string self (zip ks ls) pinned) w in
  r = inr (replicate (length ks) true) /\ w_heap w' = w_heap w /\ refines w' (store_all (zip ks ms) c).
Proof.
  intros [Hh Hc Hk] Hnd Hfit Hlen Hms. pose proof (Forall2_length _ _ _ Hms) as Hll.
  assert (Hfst : fst <$> zip ks ls = ks) by (apply fst_zip; lia).
  assert (Hfst' : fst <$> zip ks ms = ks) by (apply fst_zip; lia).
  destruct (write_policy_ok _ Hconst Hcfg) as [wp Hwp].
  assert (Hput : Forall (putable self w) (zip ks ls)).
  { apply Forall_lookup. intros i [k l] (x & y & [= <- <-] & _ & Hl)%lookup_zip_with_Some.
    destruct (Forall2_lookup_l _ _ _ _ _ Hms Hl) as (m & Hm & Hheap).
    destruct (Forall_lookup_1 _ _ _ _ Hfit Hm) as (_ & _ & Hser & Hmx & Hcp). exists m.
    split_and!; [done|split; [done|by rewrite Hc]|done]. }
  pose proof (run_batched_put to_string self (zip ks ls) pinned w (proj1 Hlimits)) as Hb.
  destruct (run_batched_put_healthy to_string self wp Hlimits Hwp (zip ks ls) pinned w Hh Hput)
    as (w' & E & [[Hh' Hc'] Hheap]). rewrite E in *.
  destruct Hb as (Htouch & Hall & _).
  { eapply Forall_impl; [exact Hput|]. intros it (m & Hm & _). by exists m. }
  { by rewrite Hfst. }
  rewrite Hfst in Htouch. assert (Hlz : length (zip ks ls) = length ks) by (rewrite length_zip_with; lia).
  split_and!; [by rewrite Hlz|done|]. split; [done|congruence|]. intros k. destruct (decide (k ∈ ks)) as [Hin|Hin].
  - apply list_elem_of_lookup in Hin as [i Hi].
    destruct (lookup_lt_is_Some_2 ms i) as [m Hm]; [rewrite <- Hlen; by eapply lookup_lt_Some|].
    destruct (Forall2_lookup_r _ _ _ _ _ Hms Hm) as (l & Hl & Hml).
    specialize (Hall _ eq_refl). rewrite Hlz in Hall. unfold all_stored in Hall.
    assert (Hit : zip ks ls !! i = Some (k, l)) by (apply lookup_zip_with_Some; eauto).
    destruct (Forall2_lookup_l _ _ _ _ _ Hall Hit) as (ok & [-> _]%lookup_replicate & Hok).
    destruct (Forall_lookup_1 _ _ _ _ Hfit Hm) as (Hne & Hle & _).
    apply (kept_agrees _ _ _ (byte_array m)); [by apply Hok|done|done|].
    apply (store_all_in _ _ i); [by rewrite Hfst'|]. apply lookup_zip_with_Some. eauto.
  - eapply key_agrees_frame; [by eapply touched_owned| |apply Hk]. apply store_all_other. by rewrite Hfst'.
Qed.

Lemma zip_fst_snd {A B} (l : list (A * B)) : zip (fst <$> l) (snd <$> l) = l.
Proof. induction l as [|[a b] l IH]; [done|]. cbn. by f_equal. Qed.

Lemma put_all_simulated w c items pinned : refines w c -> NoDup (fst <$> items) -> Forall put_fits (snd <$> items) ->
  simulated w c (OPutAll items pinned).
Proof.
  intros Hr Hnd Hfit. unfold simulated. cbn [engine_op spec_op].
  pose proof (hand_over_all_spec (snd <$> items) w) as Ho. destruct (hand_over_all _ w) as [ls w1].
  destruct Ho as (Hcl & _ & _ & _ & Hms). assert (Hr1 : refines w1 c) by (destruct Hr; by split; rewrite Hcl).
  pose proof (put_all_refines w1 c (fst <$> items) ls (snd <$> items) pinned Hr1 Hnd Hfit ltac:(by rewrite !length_fmap) Hms) as Hp.
  rewrite length_fmap, zip_fst_snd in Hp. destruct (run _ w1) as [r w2]. destruct Hp as (-> & _ & Hr2). done.
Qed.

Lemma refines_findable w c k l m : refines w c -> w_heap w !! l = Some m -> get_fits m ->
  findable to_string self (st w) w (k, l).
Proof.
  intros [_ _ Hk] Hm (Hok & Hv & Hroom). exists m. split_and!; [done|done|done|]. cbn [fst].
  destruct (Hk k) as [_ Hko]. unfold key_ok in Hko. unfold Store.entry in *.
  destruct (st w !! mk_of k) as [b|] eqn:Eb; [|by intros ? [=]]. destruct Hko as [_ Hko].
  destruct (is_ready b) eqn:Er; [|by intros ? [= <-]]. destruct Hko as (p & He & Hle & Hne).
  rewrite He. split; [lia|by right].
Qed.

Lemma get_all_reads w c (ks : list CK) (ls : list loc) (ms : list memobj) :
  refines w c -> NoDup ls -> Forall get_fits ms -> length ks = length ms ->
  Forall2 (fun l m => w_heap w !! l = Some m) ls ms ->
  let '(r, w') := run (batched_get_preallocated to_string self (zip ks ls)) w in
  r = inr ((fun k => bool_decide (is_Some (entry (st w) k))) <$> ks) /\ refines w' c /\
  Forall2 read_agrees ((fun k => mjoin (c !! k)) <$> ks)
    (contents w' ((fun k => bool_decide (is_Some (entry (st w) k))) <$> ks) ls).
Proof.
  intros Hr Hnd Hfit Hlen Hms. pose proof (Forall2_length _ _ _ Hms) as Hll. pose proof Hr as [Hh Hc Hk].
  assert (Hfst : fst <$> zip ks ls = ks) by (apply fst_zip; lia).
  assert (Hsnd : snd <$> zip ks ls = ls) by (apply snd_zip; lia).
  assert (Hf : Forall (findable to_string self (st w) w) (zip ks ls)).
  { apply Forall_lookup. intros i [k l] (x & y & [= <- <-] & _ & Hl)%lookup_zip_with_Some.
    destruct (Forall2_lookup_l _ _ _ _ _ Hms Hl) as (m & Hm & Hheap).
    eapply refines_findable; [done|done|by eapply Forall_lookup_1]. }
  rewrite <- Hsnd in Hnd.
  pose proof (run_batched_get to_string self Hbuf (zip ks ls) w (findable_buffers _ _ _ _ _ Hf) Hnd) as Hg.
  pose proof (run_batched_get_healthy to_string self Hbuf (zip ks ls) w Hh Hf Hnd) as He.
  destruct (run_calm _ (batched_get_calm to_string self (zip ks ls)) w) as [Es Hst].
  destruct (run _ w) as [r w']. cbn [fst snd] in *. subst r. destruct Hg as (_ & _ & Hall & _).
  specialize (Hall _ eq_refl).
  assert (Hans : has_entry to_string self (st w) <$> zip ks ls = (fun k => bool_decide (is_Some (entry (st w) k))) <$> ks).
  { rewrite <- Hfst at 2. by rewrite <- list_fmap_compose. }
  split_and!; [by rewrite Hans|by eapply refines_same; [done|done|apply Hst]|].
  rewrite Hans in Hall. apply Forall2_same_length_lookup. unfold contents.
  split; [rewrite length_fmap, length_zip_with, length_fmap; lia|].
  intros i p q Hp Hq. rewrite list_lookup_fmap in Hp. destruct (ks !! i) as [k|] eqn:Ek; [|done].
  injection Hp as <-. apply lookup_zip_with_Some in Hq as (ok & l & -> & Hok & Hl).
  rewrite list_lookup_fmap, Ek in Hok. injection Hok as <-. destruct (Hk k) as [-> _].
  assert (Hv : mjoin (view (st w) k) = entry (st w) k).
  { unfold view, Store.entry. by destruct (st w !! mk_of k). }
  rewrite Hv. destruct (entry (st w) k) as [p|] eqn:Ep.
  2:{ by rewrite bool_decide_eq_false_2 by by intros [? ?]. }
  rewrite bool_decide_eq_true_2 by by eexists. cbn.
  assert (Hit : zip ks ls !! i = Some (k, l)) by (apply lookup_zip_with_Some; eauto).
  destruct (Forall2_lookup_l _ _ _ _ _ Hall Hit) as (ok & Hoki & Hfill).
  rewrite list_lookup_fmap, Ek in Hoki. cbn in Hoki. rewrite Ep, bool_decide_eq_true_2 in Hoki by by eexists.
  injection Hoki as <-. destruct (Hfill eq_refl) as (p' & m & He' & Hm & Htake). cbn in He', Hm.
  rewrite Ep in He'. injection He' as <-. by rewrite (mem_lookup _ _ _ Hm).
Qed.

Lemma get_all_simulated w c items : refines w c -> Forall get_fits (snd <$> items) -> simulated w c (OGetAll items).
Proof.
  intros Hr Hfit. unfold simulated. cbn [engine_op spec_op].
  pose proof (hand_over_all_spec (snd <$> items) w) as Ho. destruct (hand_over_all _ w) as [ls w1].
  destruct Ho as (Hcl & _ & Hnd & _ & Hms). assert (Hr1 : refines w1 c) by (destruct Hr; by split; rewrite Hcl).
  pose proof (get_all_reads w1 c (fst <$> items) ls (snd <$> items) Hr1 Hnd Hfit ltac:(by rewrite !length_fmap) Hms) as Hg.
  destruct (run _ w1) as [r w2]. destruct Hg as (-> & Hr2 & Hall). split; [|done]. cbn.
  by rewrite <- list_fmap_compose in Hall.
Qed.

Lemma op_simulated w c o : refines w c -> op_ok o -> simulated w c o.
Proof.
  intros Hr Ho. destruct o; cbn in Ho.
  - by apply put_simulated.
  - by apply get_simulated.
  - by apply exists_simulated.
  - by apply contains_simulated.
  - by apply mask_simulated.
  - by apply remove_simulated.
  - pose proof (pin_keys_refines w c ks Hr Ho) as Hp. unfold simulated. cbn [engine_op spec_op].
    destruct (run _ w) as [r w']. by destruct Hp as [-> Hp].
  - by apply pin_simulated.
  - by apply unpin_simulated.
  - destruct Ho. by apply put_all_simulated.
  - by apply get_all_simulated.
Qed.

Lemma ops_simulated os : forall w c, refines w c -> Forall op_ok os ->
  let '(l, w') := engine_ops to_string self os w in
  let '(l', c') := spec_ops os c in Forall2 agrees l' l /\ refines w' c'.
Proof.
  induction os as [|o os IH]; intros w c Hr Hos; cbn [engine_ops spec_ops]; [by split; [constructor|]|].
  apply Forall_cons in Hos as [Ho Hos]. pose proof (op_simulated w c o Hr Ho) as Hs. unfold simulated in Hs.
  destruct (engine_op _ _ o w) as [a w1], (spec_op o c) as [b c1]. destruct Hs as [Ha Hr1].
  specialize (IH w1 c1 Hr1 Hos). destruct (engine_ops _ _ os w1), (spec_ops os c1).
  destruct IH as [Hl Hr2]. split; [by constructor|done].
Qed.

Lemma refines_empty w : healthy (w_client w) -> capacity (w_client w) = cap -> st w = ∅ -> refines w ∅.
Proof.
  intros Hh Hc Es. split; [done|done|]. intros k. unfold key_agrees, view, key_ok.
  by rewrite Es, !lookup_empty.
Qed.
End refinement.

Section theorem.
Context {C : Type} `{AerospikeClient C} `{!ClientSpec C} `{Env}.
Context {CK : Type} `{Countable CK} (to_string : CK -> string) `{!Inj (=) (=) to_string} (self : Engine).
Context `{!EngineHooks C self}.

(** C1: The engine is a map.  On a healthy cluster that starts empty, every sequence of puts, reads,
    lookups (single, prefix, mask), removals, pinnings and unpinnings, and batched puts and reads, of
    any keys in any order, gets from the engine the answers of a finite map from keys to payloads (in
    which pinning makes a key known): a put returns, a read is a hit exactly when the map has a payload
    and the buffer then starts with it, lookups, removals and unpinnings tell exactly the known keys,
    nothing raises; and the entries of the store at the end are the map's. *)
Theorem engine_refines_map (N : nat) (cap : Z) (os : list (operation CK)) (w : world C) :
  frombuffer_ok -> client_constants -> config_ok (cfg self) -> limits_fit self -> 0 <= cap ->
  healthy (w_client w) -> capacity (w_client w) = cap -> store (w_client w) = ∅ ->
  Forall (op_ok self N cap) os ->
  let '(l, w') := engine_ops to_string self os w in
  let '(l', c') := spec_ops os ∅ in
  Forall2 agrees l' l /\
  forall k, Store.entry to_string self (store (w_client w')) k = mjoin (c' !! k).
Proof.
  intros Hbuf Hconst Hcfg Hl Hcap Hh Hc Es Hos.
  pose proof (ops_simulated to_string self N cap Hbuf Hconst Hcfg Hl Hcap os w ∅
    (refines_empty to_string self N cap w Hh Hc Es) Hos) as Hs.
  destruct (engine_ops _ _ os w) as [l w'], (spec_ops os ∅) as [l' c']. destruct Hs as [Ha Hr].
  split; [done|]. intros k. by apply (refines_entry to_string self N cap).
Qed.
End theorem.

(** ** Witness: a segmented entry is stored, pinned, read and removed; a ghost is pinned and then stored; a batch *)

Definition demo_operations : list (operation string) :=
  [OGet "k" demo_target; OPut "k" demo_source false; OPinKeys ["k"; "z"]; OContains ["k"; "z"; "y"];
   OGet "z" demo_target; OGet "k" demo_target; OMask ["y"; "k"]; OPin "y"; OPut "z" (buffer false (lit "ABC")) true;
   OGet "z" demo_target; OUnpin "k"; OUnpin "y"; ORemove "k"; OGet "k" demo_target; OExists "k";
   OPutAll [("k", buffer false (lit "XY")); ("a", demo_source)] false;
   OGetAll [("a", demo_target); ("y", demo_target); ("z", demo_target)]; ORemove "k"].

Lemma engine_refines_map_witness :
  let '(l, w') := engine_ops demo_str demo_engine demo_operations (demo_world ∅ 65536 [] []) in
  Forall2 agrees [Miss; Done; Done; Counted 2; Miss; Hit (lit "0123456789"); Mask [false; true]; Said false; Done;
    Hit (lit "ABC"); Said true; Said false; Said true; Miss; Said false; Mask [true; true];
    Got [Some (lit "0123456789"); None; Some (lit "ABC")]; Said true] l /\
  entry demo_str demo_engine (store (w_client w')) "k" = None /\
  entry demo_str demo_engine (store (w_client w')) "z" = Some (lit "ABC").
Proof.
  assert (Hfit : forall m, byte_array m <> [] -> (length (byte_array m) <=? 12)%nat = true -> put_fits demo_engine 12 65536 m).
  { intros m Hne Hle. split_and!; [exact Hne|by apply Nat.leb_le|intros [=]|discriminate|vm_compute; discriminate]. }
  assert (Hget : mem_ok demo_target /\ exact_view demo_target /\ (12 <= room demo_target)%nat)
    by (split_and!; [apply demo_target_ok..|vm_compute; repeat constructor]).
  pose proof (engine_refines_map demo_str demo_engine 12 65536 demo_operations (demo_world ∅ 65536 [] [])
    demo_frombuffer_ok demo_client_constants demo_config_ok demo_limits_ok ltac:(lia) eq_refl eq_refl eq_refl) as Hr.
  assert (Es : fst (spec_ops demo_operations ∅) = [Miss; Done; Done; Counted 2; Miss; Hit (lit "0123456789");
    Mask [false; true]; Said false; Done; Hit (lit "ABC"); Said true; Said false; Said true; Miss; Said false;
    Mask [true; true]; Got [Some (lit "0123456789"); None; Some (lit "ABC")]; Said true]) by (vm_compute; reflexivity).
  assert (Ek : mjoin (snd (spec_ops demo_operations ∅) !! "k") = None) by (vm_compute; reflexivity).
  assert (Ez : mjoin (snd (spec_ops demo_operations ∅) !! "z") = Some (lit "ABC")) by (vm_compute; reflexivity).
  destruct (engine_ops _ _ _ _) as [l w'], (spec_ops _ _) as [l' c']. cbn [fst snd] in Es, Ek, Ez. subst l'.
  destruct Hr as [Ha He].
  - repeat (apply Forall_cons; split); try apply Forall_nil; try exact I; try exact Hget.
    + apply Hfit; [discriminate|vm_compute; reflexivity].
    + apply (bool_decide_unpack _). vm_compute. exact I.
    + apply Hfit; [discriminate|vm_compute; reflexivity].
    + split; [apply (bool_decide_unpack _); vm_compute; exact I|].
      constructor; [|constructor; [|constructor]]; (apply Hfit; [discriminate|vm_compute; reflexivity]).
  - split_and!; [exact Ha|rewrite He; exact Ek|rewrite He; exact Ez].
Defined.
