(* ===== verification/Concurrency.v ===== *)
(** * A put under crashes and concurrent readers

    The first [put] of a key against a [get] of the same key in another thread, in any
    interleaving of their events, and against a crash of the writer after any event.  The last
    part shows what the order of writes does not protect: overwriting a key. *)

From S2P Require Import Prelude PyStr Errors Sharding Config Limits Crc32 Keys.
From S2P Require Import Runtime Policies Metrics Serde Engine ClientSpec Store GetFacts Concrete.
From S2P Require Import PutFacts KeyOps Interleave Ownership.

(** The bins of the meta record, computed between steps of other threads that leave the object
    alone. *)
Lemma meta_bins_rel {C : Type} `{AerospikeClient C} `{Env} (self : Engine) (l : loc) (payload : bytes)
    (R G : world C -> world C -> Prop) `{!PreOrder R} p scm pinned (w : world C) m :
  (forall w w' : world C, R w w' -> w_heap w' !! l = w_heap w !! l) -> (forall w, G w w) ->
  w_heap w !! l = Some m -> byte_array m = payload ->
  safe R G
    (fun r w' => R w w' /\ (forall bs, r = inr bs -> meta_written self p payload bs) /\
       forall e, r = inl e -> exists n s, lm_serialize n s = inl e)
    (meta_bins p l scm (enable_crc32 (cfg self)) pinned) w.
Proof.
  intros Hobj Hquiet Hm Hpay.
  assert (Hbins : forall t md,
    let base := [ ("ver", BInt 1); ("state", BStr "ready"); ("nseg", BInt (nseg p));
      ("seg_b", BInt (seg_b p)); ("tot_b", BInt (Z.of_nat (length payload)));
      ("created_at", BInt t); ("pin", BBool pinned) ] ++ md in
    md = [] \/ (exists x, md = [("md", BBytes x)]) ->
    let with_b := if nseg p =? 1 then base ++ [("b", BBytes payload)] else base in
    meta_written self p payload
      (if enable_crc32 (cfg self)
       then with_b ++ [("crc32", BInt (Z.land (crc32 payload) 0xFFFFFFFF))] else with_b)).
  { intros t md base Hmd with_b. unfold with_b, base.
    destruct Hmd as [->|[x ->]];
      destruct (Z.eqb_spec (nseg p) 1), (enable_crc32 (cfg self)) eqn:Ec; split; try done;
      intros; congruence. }
  unfold meta_bins. intros w1 H1. split; [by apply Hquiet|]. cbn [bind fst snd handle].
  assert (Hm1 : w_heap w1 !! l = Some m) by (rewrite (Hobj w w1); done).
  rewrite (mem_lookup _ _ _ Hm1), Hpay.
  intros w2 H2. split; [by apply Hquiet|]. cbn [bind fst snd handle].
  assert (H02 : R w w2) by (by transitivity w1).
  destruct scm; cbn [bind].
  - unfold build_remote_metadata. intros w3 H3. split; [by apply Hquiet|].
    intros w4 H4. split; [by apply Hquiet|]. cbn [bind fst snd handle].
    assert (H04 : R w w4) by (by transitivity w3; [transitivity w2|]).
    destruct (lm_serialize _ _) as [e|md] eqn:Es; cbn [lift bind].
    + intros w5 H5. split_and!; [by transitivity w4|done|]. intros e' [= <-]. eauto.
    + intros w5 H5. split_and!; [by transitivity w4| |done]. intros bs [= <-]. apply (Hbins _ [_]). right. eauto.
  - intros w3 H3. split_and!; [by transitivity w2| |done]. intros bs [= <-]. apply (Hbins _ []). by left.
Qed.

Section fresh.
Context {C : Type} `{AerospikeClient C} `{!ClientSpec C} `{Env}.
Context {CK : Type} (to_string : CK -> string) `{!Inj (=) (=) to_string} (self : Engine).
Context (ck : CK) (l : loc) (payload : bytes).

Abbreviation mk := (mk_of to_string self ck).
Abbreviation entry := (entry to_string self).
Abbreviation st w := (store (w_client w)).

(** No meta record yet, or the whole payload. *)
Definition fresh_key (s : gmap key bins) : Prop := s !! mk = None.
Definition complete (s : gmap key bins) : Prop := entry s ck = Some payload.

(** What the writer relies on: other threads change no record and not its object. *)
Definition writer_relies (w w' : world C) : Prop :=
  st w' = st w /\ w_heap w' !! l = w_heap w !! l.

(** What the writer guarantees: other records stay; the key goes from no record to the whole
    payload; a key with a record is left alone; no object changes. *)
Definition writer_steps (w w' : world C) : Prop :=
  w_heap w' = w_heap w /\
  (forall k, ~ owns to_string self ck k -> st w' !! k = st w !! k) /\
  (fresh_key (st w) -> fresh_key (st w') \/ complete (st w')) /\
  (~ fresh_key (st w) -> st w' = st w).

#[export] Instance writer_relies_preorder : PreOrder writer_relies.
Proof.
  split; [by split|]. intros w1 w2 w3 [A1 A2] [B1 B2]. split; congruence.
Qed.

Lemma writer_quiet w w' : st w' = st w -> w_heap w' = w_heap w -> writer_steps w w'.
Proof. intros Es Eh. unfold writer_steps. rewrite Es. split_and!; [done|done|by left|done]. Qed.

Abbreviation wsafe := (safe writer_relies writer_steps (fun _ _ => True)).

Lemma complete_not_fresh s : complete s -> ~ fresh_key s.
Proof. unfold complete, fresh_key, Store.entry. intros Hc Hf. by rewrite Hf in Hc. Qed.

(** One request that stores the meta record over segments that are in place. *)
Lemma put_meta_safe p bs ttl wp (w : world C) :
  plan_ok (Z.of_nat (length payload)) p -> meta_written self p payload bs -> fresh_key (st w) ->
  (nseg p <> 1 ->
     mapM (seg_data (st w)) (segs_of to_string self ck (nseg p)) = Some (cut p payload)) ->
  wsafe (let! r := trigger (ClientPut mk bs ttl wp) in lift r) w.
Proof.
  intros Hp Hw Hf Hsegs w1 [Es Eh]. split; [|by apply safe_lift].
  pose proof (run_put_meta to_string self ck p payload bs ttl wp w1 w1 eq_refl
    (fun _ _ => eq_refl) eq_refl) as Hput.
  rewrite Es in Hput. specialize (Hput Hsegs). cbn [trigger bind run] in Hput.
  destruct (handle _ w1) as [r w2]. rewrite run_lift in Hput.
  destruct Hput as (Hh & Hfr & Hd & _). cbn [snd].
  split_and!; [done|intros k Hk; by rewrite Hfr, Es| |rewrite Es; done].
  intros _. destruct Hd as [Hd|Hd]; [left; unfold fresh_key in *; congruence|right].
  by eapply committed_entry.
Qed.

Lemma put_io_safe p bs ttl wp (w : world C) m :
  w_heap w !! l = Some m -> byte_array m = payload ->
  plan_ok (Z.of_nat (length payload)) p -> meta_written self p payload bs -> fresh_key (st w) ->
  wsafe (put_io to_string self ck l p bs ttl wp) w.
Proof.
  intros Hm Hpay Hp Hw Hf. unfold put_io. destruct (Z.eqb_spec (nseg p) 1) as [E|E].
  { by apply (put_meta_safe p). }
  intros w1 [Es1 Eh1]. split; [by apply writer_quiet|]. cbn [bind fst snd handle].
  assert (Hm1 : w_heap w1 !! l = Some m) by congruence. rewrite (mem_lookup _ _ _ Hm1), Hpay.
  intros w2 [Es2 Eh2]. cbn [handle fst snd]. unfold on_client.
  pose proof (segment_batch to_string self ck payload p ttl wp (w_client w2) Hp) as Hb.
  destruct (client_batch_write _ (w_client w2)) as [r c']. destruct Hb as [Hfr Hok]. cbn [fst snd].
  assert (Hmeta : store c' !! mk = None) by (rewrite Hfr by apply mk_not_seg; congruence).
  split.
  { split_and!; [done| |intros _; left; exact Hmeta|].
    - intros k Hk. apply Hfr. intros Hs. by apply Hk, (segs_owned to_string self ck (nseg p)).
    - intros Hno. destruct Hno. unfold fresh_key in *. congruence. }
  destruct r as [e|codes]; [by intros w3 _|]. cbn [lift bind].
  destruct (check_segments codes) as [e|[]] eqn:Hc; [by intros w3 _|]. cbn [lift bind].
  apply (put_meta_safe p); [done|done|exact Hmeta|]. intros _. by apply (Hok codes).
Qed.

(** The bins of the meta record, computed between other threads' steps. *)
Lemma meta_bins_safe p scm pinned (w : world C) m :
  w_heap w !! l = Some m -> byte_array m = payload ->
  safe writer_relies writer_steps
    (fun r w' => writer_relies w w' /\ forall bs, r = inr bs -> meta_written self p payload bs)
    (meta_bins p l scm (enable_crc32 (cfg self)) pinned) w.
Proof.
  intros. eapply safe_weaken; [|apply (meta_bins_rel self l payload _ _ p scm pinned w m)];
    [|by intros ? ? []| |done|done].
  - by intros r w' (? & ? & _).
  - intros w'. by apply writer_quiet.
Qed.

Lemma put_except_safe {A} R G op t e (w : world C) :
  safe R G (fun (r : result (OpTimer * result A)) _ => True) (put_except op t e) w.
Proof.
  destruct (run_put_except (A := A) op t e w) as (r & _). unfold put_except.
  destruct (isinstance e RecordTooBig); [done|]. destruct (isinstance e AerospikeError); [|done].
  by destruct (classify e).
Qed.

(** Every step of a [put] of a fresh key is a writer's step. *)
Lemma put_safe pinned (w : world C) m :
  w_heap w !! l = Some m -> byte_array m = payload -> target_ok self -> fresh_key (st w) ->
  wsafe (put to_string self ck l pinned) w.
Proof.
  intros Hm Hpay Ht Hf. unfold put. intros w1 H1. split; [by apply writer_quiet|].
  cbn [bind fst snd handle].
  assert (Hm1 : w_heap w1 !! l = Some m) by (destruct H1; congruence).
  rewrite (mem_lookup _ _ _ Hm1), Hpay.
  destruct (resolved_plan _ _) as [e|p] eqn:Ep; [done|].
  assert (Hp : plan_ok (Z.of_nat (length payload)) p) by (eapply plan_sound; [|exact Ht|exact Ep]; lia).
  cbn [lift bind]. intros w2 H2. split; [by apply writer_quiet|]. cbn [bind fst snd handle].
  set (w2' := mkWorld _ _ _ _ _).
  assert (H2' : writer_relies w w2') by (transitivity w1; [done|]; by destruct H2).
  destruct (write_policy (cfg self)) as [e|wp]; [done|]. cbn [lift bind].
  apply safe_bind; [apply _|]. assert (Hm2 : w_heap w2' !! l = Some m) by (destruct H2'; congruence).
  eapply safe_weaken; [|by apply (meta_bins_safe p _ pinned w2' m)].
  intros [e|bs] w3 [H3 Hbs]; [done|]. specialize (Hbs bs eq_refl).
  assert (H03 : writer_relies w w3) by (by transitivity w2').
  apply safe_with_timer; [apply _|by intros; apply writer_quiet|done|done|].
  apply safe_bind; [apply _|]. apply safe_attempt.
  eapply safe_weaken; [|apply (put_io_safe p bs _ wp w3 m)].
  - intros [e|[]] w4 _; [|done]. eapply safe_weaken; [|apply put_except_safe]. by intros [?|[??]].
  - destruct H03; congruence.
  - done.
  - done.
  - done.
  - destruct H03 as [E _]. unfold fresh_key in *. by rewrite E.
Qed.
End fresh.

(** ** A reader next to the writer *)

Section reader.
Context {C : Type} `{AerospikeClient C} `{!ClientSpec C} `{Env}.
Context {CK : Type} (to_string : CK -> string) `{!Inj (=) (=) to_string} (self : Engine).
Context `{!EngineHooks C self} `{!OneObjectHooks self}.
Context (ck : CK) (payload : bytes).
Hypothesis Hbuf : frombuffer_ok.

Abbreviation fresh_key := (fresh_key to_string self ck).
Abbreviation complete := (complete to_string self ck payload).
Abbreviation st w := (store (w_client w)).

(** What the writer does to the records, as far as the reader sees it: the key may become complete
    once and then stays. *)
Definition completes_once (s s' : gmap key bins) : Prop :=
  (fresh_key s -> fresh_key s' \/ complete s') /\ (~ fresh_key s -> s' = s).

#[export] Instance completes_once_preorder : PreOrder completes_once.
Proof.
  split; [intros s; split; [by left|done]|]. intros s1 s2 s3 [A1 A2] [B1 B2].
  split; [|intros Hn; rewrite (A2 Hn) in B2; auto].
  intros Hf. destruct (A1 Hf) as [Hf2|Hc2]; [auto|]. right. rewrite B2; [done|].
  by apply (complete_not_fresh to_string self ck payload).
Qed.

(** A [get], into the object it is given or into one it allocates, with the key fresh or complete. *)
Lemma get_next_to_put given d (w : world C) :
  fresh_key (st w) ->
  match given with Some l => buffer_ok l w /\ downs w l = d | None => d = 0%nat end ->
  osafe completes_once (got_some to_string self ck complete given d) (get to_string self ck given) given w.
Proof.
  intros Hf Hg. pose proof (complete_not_fresh to_string self ck payload) as Hcf.
  apply (get_osafe to_string self Hbuf ck completes_once (fun s => fresh_key s \/ complete s)).
  - intros s s' [Hs|Hs] [H1 H2]; [by apply H1|right]. rewrite H2; [done|by apply Hcf].
  - intros s b [Hs|Hs] Hb _; [|done]. unfold Concurrency.fresh_key in Hs. congruence.
  - intros s s' Hs [_ H2]. by apply H2, Hcf.
  - by left.
  - done.
Qed.
End reader.

(** ** Properties *)

Section theorems.
Context {C : Type} `{AerospikeClient C} `{!ClientSpec C} `{Env}.
Context {CK : Type} (to_string : CK -> string) `{!Inj (=) (=) to_string} (self : Engine).

Abbreviation entry := (entry to_string self).
Abbreviation mk_of := (mk_of to_string self).
Abbreviation st w := (store (w_client w)).

(** C5: The first put of a key against a concurrent [get] of it, into a buffer of the caller or into an
    object the [get] allocates itself, under every interleaving of their events and every fault of
    the cluster: if the [get] has returned an object, the object is the caller's buffer or, when none
    was given, one that did not exist before; it has not been released and starts with the whole
    payload. *)
Theorem concurrent_first_put_get `{!EngineHooks C self} `{!OneObjectHooks self} (turns : list bool) (ck : CK)
    (l : loc) (pre : option loc) (pinned : bool) (w : world C) (m : memobj) :
  frombuffer_ok -> target_ok self -> w_heap w !! l = Some m ->
  (forall dst, pre = Some dst -> buffer_ok dst w /\ dst <> l) -> st w !! mk_of ck = None ->
  let '(_, reader, w') :=
    interleave turns (put to_string self ck l pinned) (get to_string self ck pre) w in
  forall d, reader = Ret (Some d) ->
    match pre with Some dst => d = dst | None => w_heap w !! d = None end /\ downs w' d = downs w d /\
    exists m', w_heap w' !! d = Some m' /\ take (length (byte_array m)) (mo_raw m') = byte_array m.
Proof.
  intros Hbuf Ht Hm Hpre Hf.
  pose proof (put_safe to_string self ck l (byte_array m) pinned w m Hm eq_refl Ht Hf) as Hput.
  set (n := match pre with Some dst => downs w dst | None => 0%nat end).
  assert (Hget : osafe (completes_once to_string self ck (byte_array m))
    (got_some to_string self ck (complete to_string self ck (byte_array m)) pre n) (get to_string self ck pre) pre w).
  { apply get_next_to_put; [done..|]. destruct pre as [dst|]; [|done]. by destruct (Hpre dst eq_refl). }
  assert (Hstart : next_to l w pre pre w).
  { split; [by exists m|intros E; by destruct (Hpre l E)|by intros d|by left]. }
  pose proof (interleave_owned (completes_once to_string self ck (byte_array m)) (writer_relies l)
    (writer_steps to_string self ck (byte_array m)) l) as Hpar.
  specialize (Hpar ltac:(by intros w1 w2 (Hh & _ & Hc & Hs)) ltac:(done) _ _ _ _ turns w pre _ _ w pre Hstart Hput Hget).
  destruct (interleave turns _ _ w) as [[pw pr] w']. destruct Hpar as (own & [_ _ _ Hown] & _ & Hr).
  intros d ->. destruct (Hr w' ltac:(reflexivity)) as (-> & Hd & s & Hs & p & m' & He & Hm' & Hp).
  unfold complete in Hs. rewrite Hs in He. injection He as <-.
  destruct Hown as [<-|(-> & d' & [= <-] & Hn)]; [by split_and!; [| |exists m']|].
  split_and!; [done| |by exists m']. rewrite Hd. unfold downs. by rewrite Hn.
Qed.

(** C9: A writer that stops after any number of events, in the middle of the first put of a key,
    leaves the key without an entry or with the whole payload, and other entries as they were. *)
Theorem put_crash_atomic (n : nat) (ck : CK) (l : loc) (pinned : bool) (w : world C) (m : memobj) :
  w_heap w !! l = Some m -> target_ok self -> st w !! mk_of ck = None ->
  let w' := snd (steps n (put to_string self ck l pinned) w) in
  (entry (st w') ck = None \/ entry (st w') ck = Some (byte_array m)) /\
  forall ck', ck' <> ck -> entry (st w') ck' = entry (st w) ck'.
Proof.
  intros Hm Ht Hf w'.
  pose proof (put_safe to_string self ck l (byte_array m) pinned w m Hm eq_refl Ht Hf) as Hput.
  set (I := fun w1 : world C =>
    (fresh_key to_string self ck (st w1) \/ complete to_string self ck (byte_array m) (st w1)) /\
    forall k, ~ owns to_string self ck k -> st w1 !! k = st w !! k).
  assert (HI : I w').
  { apply (safe_steps I (fun _ _ => True)); [|split; [by left|done]].
    eapply safe_mono; [| |exact Hput]; [intros w1 ? <-; reflexivity|].
    intros w1 w2 (_ & Hfr & Hc & Hs) [Hphase Hother]. split.
    - destruct Hphase as [Hfr1|Hc1]; [auto|]. right. rewrite Hs; [done|].
      by apply (complete_not_fresh _ _ _ (byte_array m)).
    - intros k Hk. by rewrite Hfr, Hother. }
  destruct HI as [Hphase Hother]. split.
  - destruct Hphase as [Hf'|Hc]; [left|by right]. unfold Store.entry.
    unfold fresh_key in Hf'. by rewrite Hf'.
  - intros ck' Hne. by apply entry_frame_other with (ck := ck).
Qed.
End theorems.

(** ** Witnesses and counterexamples *)

Lemma demo_target_buffer_start : buffer_ok 1 demo_start.
Proof. exists demo_target. split; [reflexivity|apply demo_target_ok]. Qed.

(** The writer stores its last record, the reader reads, the writer makes its observation. *)
Definition demo_turns (n : nat) : list bool := replicate n true ++ replicate 30 false ++ [true].

Lemma concurrent_first_put_get_witness :
  (let '(_, reader, w') := interleave (demo_turns 7) (put demo_str demo_engine "k" 0 false)
    (get demo_str demo_engine "k" (Some 1%nat)) demo_start in
   reader = Ret (Some 1%nat) /\
   exists m', w_heap w' !! 1%nat = Some m' /\ take 10 (mo_raw m') = lit "0123456789") /\
  (let '(_, reader, w') := interleave (demo_turns 9) (put demo_str demo_connector "k" 0 false)
    (get demo_str demo_connector "k" None) demo_start in
   reader = Ret (Some 2%nat) /\
   exists m', w_heap w' !! 2%nat = Some m' /\ take 10 (mo_raw m') = lit "0123456789").
Proof.
  split.
  - pose proof (concurrent_first_put_get demo_str demo_engine (demo_turns 7) "k" 0 (Some 1%nat) false demo_start
      demo_source demo_frombuffer_ok eq_refl eq_refl) as Hc.
    specialize (Hc ltac:(intros dst [= <-]; split; [exact demo_target_buffer_start|discriminate]) eq_refl).
    assert (E : snd (fst (interleave (demo_turns 7) (put demo_str demo_engine "k" 0 false)
      (get demo_str demo_engine "k" (Some 1%nat)) demo_start)) = Ret (Some 1%nat)) by (vm_compute; reflexivity).
    destruct (interleave _ _ _ _) as [[pw pr] w']. simpl in E.
    split; [exact E|]. apply (Hc 1%nat E).
  - pose proof (concurrent_first_put_get demo_str demo_connector (demo_turns 9) "k" 0 None false demo_start
      demo_source demo_frombuffer_ok eq_refl eq_refl ltac:(discriminate) eq_refl) as Hc.
    assert (E : snd (fst (interleave (demo_turns 9) (put demo_str demo_connector "k" 0 false)
      (get demo_str demo_connector "k" None) demo_start)) = Ret (Some 2%nat)) by (vm_compute; reflexivity).
    destruct (interleave _ _ _ _) as [[pw pr] w']. simpl in E.
    split; [exact E|]. apply (Hc 2%nat E).
Defined.

Lemma put_crash_atomic_witness :
  let w' := snd (steps 6 (put demo_str demo_engine "k" 0 false) demo_start) in
  entry demo_str demo_engine (store (w_client w')) "k" = None.
Proof.
  pose proof (put_crash_atomic demo_str demo_engine 6 "k" 0 false demo_start demo_source
    eq_refl eq_refl eq_refl) as [[Hn|Hs] _].
  - exact Hn.
  - exfalso. revert Hs. vm_compute. discriminate.
Defined.

(** An engine without checksums, and a second object to overwrite the first with. *)
Definition plain_engine : Engine := build_engine_l2 default_config demo_limits.

Definition overwrite_world (fates : list fate) : world MemClient :=
  demo_world ∅ 65536 fates [demo_source; demo_target; buffer false (lit "ABCDEFGHIJ")].

(** Overwriting is not atomic.  When one segment of the second write fails, [put] raises, and
    without checksums a later [get] returns bytes that are neither payload; with checksums the
    old entry is lost. *)
Theorem failed_overwrite_mixes_payloads :
  let overwrite self := put demo_str self "k" 0 false ;; put demo_str self "k" 2 false in
  let fates := [Served; Served; Partial [0; 14; 0]] in
  let w := snd (run (overwrite plain_engine) (overwrite_world fates)) in
  fst (run (overwrite plain_engine) (overwrite_world fates)) = inl (Conn AerospikeBusyError "put-segment") /\
  fst (run (get demo_str plain_engine "k" (Some 1%nat)) w) = inr (Some 1%nat) /\
  take 10 (mo_raw (mem (snd (run (get demo_str plain_engine "k" (Some 1%nat)) w)) 1)) =
    lit "ABCD4567IJ" /\
  entry demo_str demo_engine
    (store (w_client (snd (run (overwrite demo_engine) (overwrite_world fates))))) "k" = None.
Proof. cbv zeta. split_and!; vm_compute; reflexivity. Qed.
