(* ===== verification/Gather.v ===== *)
(** * Gathered writes ([batched_put] of [connector.py])

    [asyncio.gather] over one [put] per key: the puts run in the threads of the executor and take
    turns event by event; the result is the list of values once all have returned, or the first
    exception, while the other puts go on.  The judgement of [Interleave] gives what each put that
    has returned has stored, whatever the schedule. *)

From S2P Require Import Prelude PyStr Errors Sharding Config Limits Crc32 Keys.
From S2P Require Import Runtime Policies Metrics Serde Engine ClientSpec Store GetFacts Concrete.
From S2P Require Import PutFacts KeyOps Interleave Threads Concurrency.

(** ** [asyncio.gather] *)

Section gather.
Context {C : Type} `{AerospikeClient C} `{Env} {A : Type}.
Implicit Types (ps : list (prog ev A)) (w : world C).

Fixpoint first_exception ps : option exc :=
  match ps with
  | [] => None
  | Raise e :: _ => Some e
  | _ :: ps => first_exception ps
  end.

(** The values in order, once every thread has returned. *)
Fixpoint values ps : option (list A) :=
  match ps with
  | [] => Some []
  | Ret a :: ps => match values ps with Some vs => Some (a :: vs) | None => None end
  | _ :: _ => None
  end.

Definition gather_result ps : option (result (list A)) :=
  match first_exception ps with
  | Some e => Some (inl e)
  | None => match values ps with Some vs => Some (inr vs) | None => None end
  end.

(** [turns] names the thread that moves next; the result when there is one, what is left of the
    threads, and the world. *)
Fixpoint gather (turns : list nat) ps w : option (result (list A)) * list (prog ev A) * world C :=
  match gather_result ps with
  | Some out => (Some out, ps, w)
  | None =>
      match turns with
      | [] => (None, ps, w)
      | i :: turns =>
          match nth_error ps i with
          | Some p =>
              match step p w with
              | Some (p', w') => gather turns (set_thread i p' ps) w'
              | None => gather turns ps w
              end
          | None => gather turns ps w
          end
      end
  end.

Lemma first_exception_in ps e : first_exception ps = Some e -> exists i, nth_error ps i = Some (Raise e).
Proof.
  induction ps as [|[a|e'|X ev k] ps IH]; simpl; [done| | |]; intros E;
    [destruct (IH E) as [i Hi]; by exists (S i)|injection E as ->; by exists 0%nat|
     destruct (IH E) as [i Hi]; by exists (S i)].
Qed.

Lemma gather_result_raise ps e : gather_result ps = Some (inl e) -> exists i, nth_error ps i = Some (Raise e).
Proof.
  unfold gather_result. destruct (first_exception ps) as [e'|] eqn:E.
  - intros [= ->]. by apply first_exception_in.
  - by destruct (values ps).
Qed.

Lemma gather_result_values ps vs : gather_result ps = Some (inr vs) -> ps = List.map Ret vs.
Proof.
  unfold gather_result. destruct (first_exception ps); [done|].
  intros E. assert (Ev : values ps = Some vs) by (destruct (values ps); congruence). clear E.
  revert vs Ev. induction ps as [|[a|e|X ev k] ps IH]; intros vs Ev; simplify_eq/=; [done|].
  destruct (values ps) as [vs'|]; simplify_eq. cbn. f_equal. by apply IH.
Qed.

Lemma nth_error_returned (vs : list unit) i :
  nth_error (List.map (@Ret ev unit) vs) i <> None -> nth_error (List.map (@Ret ev unit) vs) i = Some (Ret tt).
Proof. revert i. induction vs as [|[] vs IH]; intros [|i] Hi; try done. by apply IH. Qed.

(** The result is that of the threads as they are left. *)
Lemma gather_result_end turns : forall ps w out ps' w',
  gather turns ps w = (Some out, ps', w') -> gather_result ps' = Some out.
Proof.
  induction turns as [|i turns IH]; intros ps w out ps' w'; simpl;
    destruct (gather_result ps) as [out0|] eqn:E; try (by intros [= <- <- <-]).
  destruct (nth_error ps i) as [p|]; [|apply IH]. destruct (step p w) as [[p1 w1]|]; apply IH.
Qed.

(** Threads whose guarantees are what the others rely on stay safe together, and [S] holds
    between the worlds when every guarantee implies it. *)
Lemma gather_safe (R G : nat -> world C -> world C -> Prop) (Q : nat -> result A -> world C -> Prop)
    (S : world C -> world C -> Prop) turns :
  (forall i, PreOrder (R i)) -> PreOrder S ->
  (forall i j w w', i <> j -> G i w w' -> R j w w') -> (forall i w w', G i w w' -> S w w') ->
  forall ps w, (forall i p, nth_error ps i = Some p -> safe (R i) (G i) (Q i) p w) ->
  let '(_, ps', w') := gather turns ps w in
  S w w' /\ length ps' = length ps /\ forall i p, nth_error ps' i = Some p -> safe (R i) (G i) (Q i) p w'.
Proof.
  intros HR HS HG HGS. induction turns as [|t turns IH]; intros ps w Hps; simpl;
    destruct (gather_result ps) as [out|]; try done.
  destruct (nth_error ps t) as [p|] eqn:Hp; [|by apply IH].
  destruct p as [a|e|X ev k]; simpl; [by apply IH..|].
  destruct (Hps t _ Hp w) as [Hg Hk]; [reflexivity|]. destruct (handle ev w) as [x w1]. cbn [fst snd] in *.
  assert (Hps1 : forall i p, nth_error (set_thread t (k x) ps) i = Some p -> safe (R i) (G i) (Q i) p w1).
  { intros i p Hi. destruct (decide (i = t)) as [->|Hne].
    - rewrite (set_thread_eq _ _ _ _ Hp) in Hi. by injection Hi as <-.
    - rewrite set_thread_ne in Hi by done. eapply safe_rely; [apply _| |by apply Hps].
      apply (HG t); [done|exact Hg]. }
  specialize (IH _ w1 Hps1). destruct (gather turns _ w1) as [[out ps'] w']. destruct IH as (HS' & Hlen & Hsafe).
  split_and!; [by transitivity w1; [apply (HGS t)|]|by rewrite set_thread_length in Hlen|done].
Qed.

(** ** The result comes *)

Definition running (p : prog ev A) : bool := match p with Vis _ _ => true | _ => false end.

Lemma gather_result_some ps : count running ps = 0%nat -> is_Some (gather_result ps).
Proof.
  unfold gather_result. induction ps as [|[a|e|X ev k] ps IH]; cbn; [by eexists| |by eexists|done].
  intros Hn. specialize (IH Hn). destruct (first_exception ps); [by eexists|].
  destruct (values ps); [by eexists|]. by destruct IH.
Qed.

Lemma running_exists ps : (0 < count running ps)%nat -> exists i p, nth_error ps i = Some p /\ running p = true.
Proof.
  induction ps as [|p ps IH]; cbn; [lia|]. destruct (running p) eqn:E; [by exists 0%nat, p|].
  intros Hn. destruct (IH Hn) as (i & q & Hi & Hq). by exists (S i), q.
Qed.

(** There is a schedule under which the result comes, from any threads in any world. *)
Lemma gather_completes_n n : forall ps w, (count running ps <= n)%nat ->
  exists turns, is_Some (fst (fst (gather turns ps w))).
Proof.
  induction n as [|n IHn]; intros ps w Hn.
  - exists []. simpl. destruct (gather_result_some ps) as [out ->]; [lia|]. by eexists.
  - destruct (decide (count running ps = 0)%nat) as [E|E]; [by apply IHn; lia|].
    destruct (running_exists ps) as (i & p & Hi & Hp); [lia|].
    revert ps w Hn E Hi Hp. induction p as [a|e|X ev k IH]; intros ps w Hn E Hi Hp; try done.
    destruct (gather_result ps) as [out|] eqn:Er; [exists []; simpl; rewrite Er; by eexists|].
    destruct (handle ev w) as [x w1] eqn:Eh.
    assert (Hnext : exists turns, is_Some (fst (fst (gather turns (set_thread i (k x) ps) w1)))).
    { assert (Hc : (count running (set_thread i (k x) ps) + 1 = count running ps + Nat.b2n (running (k x)))%nat).
      { clear -Hi. revert i Hi. induction ps as [|q ps IHp]; intros [|i] Hi; try done; cbn in *.
        - injection Hi as ->. cbn. lia.
        - rewrite <- Nat.add_assoc, (IHp i Hi). lia. }
      destruct (running (k x)) eqn:Ek; cbn in Hc.
      - apply (IH x); [lia|lia| |done]. by eapply set_thread_eq.
      - apply IHn. lia. }
    destruct Hnext as [turns Ht]. exists (i :: turns). simpl. rewrite Er, Hi. simpl. by rewrite Eh.
Qed.

Lemma gather_completes ps w : exists turns, is_Some (fst (fst (gather turns ps w))).
Proof. by eapply gather_completes_n. Qed.
End gather.

(** ** One put among others *)

Section put.
Context {C : Type} `{AerospikeClient C} `{!ClientSpec C} `{Env}.
Context {CK : Type} (to_string : CK -> string) `{!Inj (=) (=) to_string} (self : Engine).
Context (ck : CK) (l : loc) (payload : bytes).

Abbreviation mk := (mk_of to_string self ck).
Abbreviation entry := (entry to_string self).
Abbreviation owns := (owns to_string self).
Abbreviation st w := (store (w_client w)).

(** The others leave the records of the key and the object alone; the put leaves all other
    records and all objects alone. *)
Definition others_relies (w w' : world C) : Prop :=
  (forall k, owns ck k -> st w' !! k = st w !! k) /\ w_heap w' !! l = w_heap w !! l.

Definition own_steps (w w' : world C) : Prop :=
  w_heap w' = w_heap w /\ forall k, ~ owns ck k -> st w' !! k = st w !! k.

#[export] Instance others_relies_preorder : PreOrder others_relies.
Proof.
  split; [by split|]. intros w1 w2 w3 [A1 A2] [B1 B2]. split; [|congruence].
  intros k Hk. by rewrite B1, A1.
Qed.

Lemma own_quiet (w w' : world C) : st w' = st w -> w_heap w' = w_heap w -> own_steps w w'.
Proof. intros E1 E2. split; [done|]. intros k _. by rewrite E1. Qed.

(** The end of the writes: the payload is in place when they return. *)
Definition writes_end (r : result unit) (w : world C) : Prop :=
  r = inr tt -> entry (st w) ck = Some payload.

Lemma writes_end_stable r (w w' : world C) : others_relies w w' -> writes_end r w -> writes_end r w'.
Proof. intros [Hst _] Hw E. rewrite (entry_frame to_string self (st w)); [by apply Hw|done]. Qed.

Lemma put_meta_own p bs ttl wp (w : world C) :
  plan_ok (Z.of_nat (length payload)) p -> meta_written self p payload bs ->
  (nseg p <> 1 ->
     mapM (seg_data (st w)) (segs_of to_string self ck (nseg p)) = Some (cut p payload)) ->
  safe others_relies own_steps writes_end (let! r := trigger (ClientPut mk bs ttl wp) in lift r) w.
Proof.
  intros Hp Hw Hsegs w1 [Es Eh].
  assert (Hsegs1 : nseg p <> 1 ->
    mapM (seg_data (st w1)) (segs_of to_string self ck (nseg p)) = Some (cut p payload)).
  { intros Hn. rewrite <- Hsegs by done. apply mapM_ext_elem. intros k Hk. unfold seg_data.
    rewrite Es; [done|by eapply segs_owned]. }
  pose proof (run_put_meta to_string self ck p payload bs ttl wp w1 w1 eq_refl
    (fun _ _ => eq_refl) eq_refl Hsegs1) as Hput.
  cbn [trigger bind run] in Hput. destruct (handle _ w1) as [r w2]. rewrite run_lift in Hput.
  destruct Hput as (Hh & Hfr & _ & Hok). cbn [fst snd]. split; [by split|].
  apply safe_lift. intros w3 H3. apply (writes_end_stable _ w2); [done|]. intros ->.
  eapply committed_entry; [done|done|]. by apply Hok.
Qed.

Lemma put_io_own p bs ttl wp (w : world C) m :
  w_heap w !! l = Some m -> byte_array m = payload ->
  plan_ok (Z.of_nat (length payload)) p -> meta_written self p payload bs ->
  safe others_relies own_steps writes_end (put_io to_string self ck l p bs ttl wp) w.
Proof.
  intros Hm Hpay Hp Hw. unfold put_io. destruct (Z.eqb_spec (nseg p) 1) as [E|E]; [by apply (put_meta_own p)|].
  intros w1 [Es1 Eh1]. split; [by apply own_quiet|]. cbn [bind fst snd handle].
  assert (Hm1 : w_heap w1 !! l = Some m) by congruence. rewrite (mem_lookup _ _ _ Hm1), Hpay.
  intros w2 [Es2 Eh2]. cbn [handle fst snd]. unfold on_client.
  pose proof (segment_batch to_string self ck payload p ttl wp (w_client w2) Hp) as Hb.
  destruct (client_batch_write _ (w_client w2)) as [r c']. destruct Hb as [Hfr Hok]. cbn [fst snd].
  split.
  { split; [done|]. intros k Hk. apply Hfr. intros Hs. by apply Hk, (segs_owned to_string self ck (nseg p)). }
  destruct r as [e|codes]; [by intros w3 _|]. cbn [lift bind].
  destruct (check_segments codes) as [e|[]] eqn:Hc; [by intros w3 _|]. cbn [lift bind].
  apply (put_meta_own p); [done|done|]. intros _. by apply (Hok codes).
Qed.

(** How the whole put ends. *)
Definition put_ends (r : result unit) (w : world C) : Prop :=
  writes_end r w /\ forall e, r = inl e -> serializer_ok -> not_client e.

Lemma put_except_own op t e R G (w : world C) :
  safe R G (fun (r : result (OpTimer * result unit)) _ =>
    match r with
    | inl e' | inr (_, inl e') => not_client e'
    | inr (_, inr _) => False
    end) (put_except op t e) w.
Proof.
  unfold put_except. destruct (isinstance e RecordTooBig); [done|].
  destruct (isinstance e AerospikeError) eqn:Ei; [|by intros w1 _].
  repeat case_bool_decide; cbn; intros w1 _; try done; apply isinstance_map.
Qed.

Lemma put_own pinned (w : world C) m :
  w_heap w !! l = Some m -> byte_array m = payload -> target_ok self ->
  safe others_relies own_steps put_ends (put to_string self ck l pinned) w.
Proof.
  intros Hm Hpay Ht. unfold put. intros w1 H1. split; [by apply own_quiet|]. cbn [bind fst snd handle].
  assert (Hm1 : w_heap w1 !! l = Some m) by (destruct H1; congruence).
  rewrite (mem_lookup _ _ _ Hm1), Hpay.
  assert (Hraise : forall e (w' : world C), not_client e -> put_ends (inl e) w')
    by (intros e w' He; split; [done|]; intros ? [= <-]; done).
  destruct (resolved_plan _ _) as [e|p] eqn:Ep; cbn [lift bind].
  { intros w2 _. apply Hraise. by eapply plan_error. }
  assert (Hp : plan_ok (Z.of_nat (length payload)) p) by (eapply plan_sound; [|exact Ht|exact Ep]; lia).
  intros w2 H2. split; [by apply own_quiet|]. cbn [bind fst snd handle]. set (w2' := mkWorld _ _ _ _ _).
  assert (H2' : others_relies w w2') by (transitivity w1; [done|]; by destruct H2).
  destruct (write_policy (cfg self)) as [e|wp] eqn:Ew; cbn [lift bind].
  { intros w3 _. apply Hraise. by eapply write_policy_error. }
  apply safe_bind; [apply _|]. assert (Hm2 : w_heap w2' !! l = Some m) by (destruct H2'; congruence).
  eapply safe_weaken; [|apply (meta_bins_rel self l payload _ _ p _ pinned w2' m);
    [by intros ? ? []|by intros; apply own_quiet|done|done]].
  intros [e|bs] w3 (H3 & Hbs & He).
  { split; [done|]. intros ? [= <-] Hser. destruct (He e eq_refl) as (n & s & Es). by eapply Hser. }
  specialize (Hbs bs eq_refl). assert (H03 : others_relies w w3) by (by transitivity w2').
  assert (Hm3 : w_heap w3 !! l = Some m) by (destruct H03; congruence).
  apply safe_with_timer; [apply _|by intros; apply own_quiet|done| |].
  { intros r w4 w5 H45 [Hr Hr']. split; [by eapply writes_end_stable|done]. }
  apply safe_bind; [apply _|]. apply safe_attempt.
  eapply safe_weaken; [|by apply (put_io_own p bs _ wp w3 m)].
  intros [e|[]] w4 Hend.
  - eapply safe_weaken; [|apply put_except_own].
    intros [e'|[t' [e'|[]]]] w5 Hn; try done; by apply Hraise.
  - intros w5 H45. split; [|done]. by eapply writes_end_stable.
Qed.
End put.

(** ** [batched_put] of the connector *)

Section batched_put.
Context {C : Type} `{AerospikeClient C} `{Env}.
Context {CK : Type} (to_string : CK -> string) (self : Engine).

(** The coroutines [self.put(k, mo)]. *)
Fixpoint put_coroutines (keys : list CK) (memory_objs : list loc) : list (prog ev unit) :=
  match keys, memory_objs with
  | k :: keys, mo :: memory_objs => put to_string self k mo false :: put_coroutines keys memory_objs
  | _, _ => []
  end.

(** [batched_put]; the semaphore and the gauge around it are left out. *)
Definition remote_batched_put (turns : list nat) (keys : list CK) (memory_objs : list loc)
    (w : world C) : option (result (list unit)) * list (prog ev unit) * world C :=
  gather turns (put_coroutines keys memory_objs) w.

Lemma put_coroutines_lookup keys : forall objs i,
  nth_error (put_coroutines keys objs) i =
    match keys !! i, objs !! i with
    | Some k, Some mo => Some (put to_string self k mo false)
    | _, _ => None
    end.
Proof.
  induction keys as [|k keys IH]; intros [|mo objs] [|i]; cbn; try done.
  by destruct (keys !! i).
Qed.

End batched_put.

(** ** Properties *)

Section theorems.
Context {C : Type} `{AerospikeClient C} `{!ClientSpec C} `{Env}.
Context {CK : Type} (to_string : CK -> string) `{!Inj (=) (=) to_string} (self : Engine).

Abbreviation entry := (entry to_string self).
Abbreviation owns := (owns to_string self).
Abbreviation st w := (store (w_client w)).

(** What thread [i] of the puts of [keys] relies on, guarantees and ends with. *)
Definition thread_relies (keys : list CK) (objs : list loc) (i : nat) : world C -> world C -> Prop :=
  match keys !! i, objs !! i with
  | Some k, Some l => others_relies to_string self k l
  | _, _ => fun _ _ => True
  end.

Definition thread_steps (keys : list CK) (objs : list loc) (i : nat) (w w' : world C) : Prop :=
  match keys !! i, objs !! i with
  | Some k, Some _ => own_steps to_string self k w w'
  | _, _ => False
  end.

Definition thread_ends (w0 : world C) (keys : list CK) (objs : list loc) (i : nat) :
    result unit -> world C -> Prop :=
  match keys !! i, objs !! i with
  | Some k, Some l => put_ends to_string self k (byte_array (mem w0 l))
  | _, _ => fun _ _ => True
  end.

#[export] Instance thread_relies_preorder keys objs i : PreOrder (thread_relies keys objs i).
Proof. unfold thread_relies. by destruct (keys !! i), (objs !! i); try apply _. Qed.

Lemma thread_steps_rely keys objs i j (w w' : world C) :
  NoDup keys -> i <> j -> thread_steps keys objs i w w' -> thread_relies keys objs j w w'.
Proof.
  intros Hnd Hne. unfold thread_steps, thread_relies.
  destruct (keys !! i) as [ki|] eqn:Ei, (objs !! i); try done.
  destruct (keys !! j) as [kj|] eqn:Ej, (objs !! j); try done. intros [Hh Hst]. split; [|by rewrite Hh].
  intros k Hj. apply Hst. intros Hi. apply Hne. eapply NoDup_lookup; [exact Hnd|exact Ei|].
  by rewrite (owns_disjoint to_string self ki kj k).
Qed.

(** What all the puts together leave alone. *)
Definition puts_frame (keys : list CK) (w w' : world C) : Prop :=
  w_heap w' = w_heap w /\
  forall k, (forall ck, ck ∈ keys -> ~ owns ck k) -> st w' !! k = st w !! k.

#[export] Instance puts_frame_preorder keys : PreOrder (puts_frame keys).
Proof.
  split; [by split|]. intros w1 w2 w3 [A1 A2] [B1 B2]. split; [congruence|].
  intros k Hk. by rewrite B2, A2.
Qed.

(** C12: A batched put runs the puts of distinct keys in any interleaving of their events and under
    every fault of the cluster.  Every put that has returned has stored its own payload, whatever
    the others did; entries of other keys and all objects stay as they were; the call returns only
    when all puts have, and what it raises is no exception of the client; and from every state
    some schedule makes it end. *)
Theorem remote_batched_put_sound (turns : list nat) (keys : list CK) (objs : list loc) (w : world C) :
  NoDup keys -> Forall (fun l => is_Some (w_heap w !! l)) objs -> target_ok self ->
  let '(out, ps, w') := remote_batched_put to_string self turns keys objs w in
  (forall i k l m, keys !! i = Some k -> objs !! i = Some l -> w_heap w !! l = Some m ->
     nth_error ps i = Some (Ret tt) -> entry (st w') k = Some (byte_array m)) /\
  (forall k, k ∉ keys -> entry (st w') k = entry (st w) k) /\
  w_heap w' = w_heap w /\
  (forall vs, out = Some (inr vs) ->
     forall i k l, keys !! i = Some k -> objs !! i = Some l -> nth_error ps i = Some (Ret tt)) /\
  (forall e, out = Some (inl e) -> serializer_ok -> not_client e) /\
  exists more, is_Some (fst (fst (gather more ps w'))).
Proof.
  intros Hnd Hobjs Ht. unfold remote_batched_put.
  pose proof (gather_safe (thread_relies keys objs) (thread_steps keys objs) (thread_ends w keys objs)
    (puts_frame keys) turns _ _ (fun i j w1 w2 => thread_steps_rely keys objs i j w1 w2 Hnd)) as Hsafe.
  lapply Hsafe; clear Hsafe; [intros Hsafe|].
  2:{ intros i w1 w2. unfold thread_steps. destruct (keys !! i) as [k|] eqn:E, (objs !! i); try done.
      intros [Hh Hst]. split; [done|]. intros k' Hk. apply Hst, Hk. by eapply list_elem_of_lookup_2. }
  specialize (Hsafe (put_coroutines to_string self keys objs) w).
  pose proof (gather_result_end turns (put_coroutines to_string self keys objs) w) as Hend.
  lapply Hsafe; clear Hsafe; [intros Hsafe|].
  2:{ intros i p. rewrite put_coroutines_lookup. unfold thread_relies, thread_steps, thread_ends.
      destruct (keys !! i) as [k|], (objs !! i) as [l|] eqn:El; try done. intros [= <-].
      destruct (Forall_lookup_1 _ _ _ _ Hobjs El) as [m Hm]. rewrite (mem_lookup _ _ _ Hm).
      by eapply put_own. }
  destruct (gather turns _ w) as [[out ps] w']. destruct Hsafe as ([Hh Hfr] & Hlen & Hps).
  specialize (fun o => Hend o ps w').
  split_and!.
  - intros i k l m Ek El Hm Hi. specialize (Hps i _ Hi). revert Hps.
    unfold thread_relies, thread_ends. rewrite Ek, El, (mem_lookup _ _ _ Hm).
    intros Hps. destruct (Hps w') as [Hps' _]; [reflexivity|]. by apply Hps'.
  - intros k Hk. apply entry_frame. intros k' Hk'. apply Hfr. intros ck Hck Ho.
    apply Hk. by rewrite (owns_disjoint to_string self k ck k').
  - done.
  - intros vs -> i k l Ek El. specialize (Hend _ eq_refl). apply gather_result_values in Hend as ->.
    assert (Hi : nth_error (List.map (@Ret ev unit) vs) i <> None).
    { apply nth_error_Some. rewrite Hlen. apply nth_error_Some. by rewrite put_coroutines_lookup, Ek, El. }
    by apply nth_error_returned.
  - intros e -> Hser. specialize (Hend _ eq_refl). apply gather_result_raise in Hend as [i Hi].
    assert (Hlt : (i < length ps)%nat) by (apply nth_error_Some; congruence).
    rewrite Hlen in Hlt. apply nth_error_Some in Hlt. rewrite put_coroutines_lookup in Hlt.
    specialize (Hps i _ Hi). revert Hps. unfold thread_relies, thread_ends.
    destruct (keys !! i) as [k|], (objs !! i) as [l|]; try done. intros Hps.
    destruct (Hps w') as [_ He]; [reflexivity|]. by apply He.
  - apply gather_completes.
Qed.
End theorems.

(** ** Witness *)

(** Two puts of three and one segments, their events alternating. *)
Definition demo_put_turns : list nat := concat (replicate 12 [0%nat; 1%nat]).

Definition demo_put_world : world MemClient :=
  demo_world ∅ 65536 [] [demo_source; buffer false (lit "ABC")].

Lemma remote_batched_put_sound_witness :
  let '(out, _, w') := remote_batched_put demo_str demo_engine demo_put_turns ["k"; "j"] [0%nat; 1%nat]
    demo_put_world in
  out = Some (inr [tt; tt]) /\
  entry demo_str demo_engine (store (w_client w')) "k" = Some (lit "0123456789") /\
  entry demo_str demo_engine (store (w_client w')) "j" = Some (lit "ABC").
Proof.
  pose proof (remote_batched_put_sound demo_str demo_engine demo_put_turns ["k"; "j"] [0%nat; 1%nat]
    demo_put_world ltac:(vm_compute; repeat constructor; set_solver)
    ltac:(repeat constructor; eexists; reflexivity) eq_refl) as Hb.
  assert (E : fst (fst (remote_batched_put demo_str demo_engine demo_put_turns ["k"; "j"] [0%nat; 1%nat]
    demo_put_world)) = Some (inr [tt; tt])) by (vm_compute; reflexivity).
  destruct (remote_batched_put _ _ _ _ _ _) as [[out ps] w']. simpl in E. subst out.
  destruct Hb as (Hput & _ & _ & Hall & _). split; [done|].
  split.
  - exact (Hput 0%nat "k" 0%nat demo_source eq_refl eq_refl eq_refl (Hall _ eq_refl 0%nat "k" 0%nat eq_refl eq_refl)).
  - exact (Hput 1%nat "j" 1%nat (buffer false (lit "ABC")) eq_refl eq_refl eq_refl
      (Hall _ eq_refl 1%nat "j" 1%nat eq_refl eq_refl)).
Defined.
