(* ===== verification/ClientHolder.v ===== *)
(** * The registry of shared clients ([client.py]) and the connector factory ([adapter.py])

    [AerospikeClientHolder] keeps one connected client per cluster, namespace and TLS name, counted
    by reference.  The registry and the holder objects are an explicit state; each method runs
    under the class lock, so a method is one step.  What the client library's constructor,
    [connect] and [close] do is an argument of the step. *)

From S2P Require Import Prelude PyStr Errors Config Limits Runtime Policies Concrete.

(** The registry key [(cfg.hosts, cfg.namespace, cfg.tls_name)]. *)
Definition hkey : Type := list (string * Z) * string * string.

#[global] Instance hkey_eq_dec : EqDecision hkey.
Proof. unfold hkey. apply _. Defined.
#[global] Instance hkey_countable : Countable hkey.
Proof. unfold hkey. apply _. Defined.

Definition holder_key (cfg : AerospikeConfig) : hkey := (hosts cfg, namespace cfg, tls_name cfg).

(** The dict handed to [aerospike.client]. *)
Record ClientConfig := mkClientConfig {
  cc_hosts : list (string * Z);
  cc_read : policy;
  cc_write : policy;
  cc_batch : policy;
  cc_user : option string;
  cc_password : option string;
  cc_tls : option string
}.

Definition if_set (s : string) : option string := if String.eqb s "" then None else Some s.

Definition client_config `{Env} (cfg : AerospikeConfig) : result ClientConfig :=
  let? rp := read_policy cfg in
  let? wp := write_policy cfg in
  inr (mkClientConfig (hosts cfg) rp wp (batch_policy cfg) (if_set (username cfg))
        (if_set (password cfg)) (if_set (tls_name cfg))).

(** A holder object; [h_open] is true from [connect] to [close]. *)
Record Holder := mkHolder { h_cfg : AerospikeConfig; h_refcount : Z; h_open : bool }.

(** Holder objects by identity, and the class registry. *)
Record Registry := mkRegistry { r_holders : list Holder; r_registry : gmap hkey nat }.

Section registry.
Context `{Env}.
(** [aerospike.client(config).connect()]. *)
Context (connect : ClientConfig -> result unit).

(** [__init__]. *)
Definition Holder_init (cfg : AerospikeConfig) : result Holder :=
  let? config := client_config cfg in
  let? _ := connect config in
  inr (mkHolder cfg 0 true).

Definition set_refcount (h : Holder) (n : Z) : Holder := mkHolder (h_cfg h) n (h_open h).

Definition get_or_create (cfg : AerospikeConfig) (r : Registry) : result nat * Registry :=
  match r_registry r !! holder_key cfg with
  | Some i =>
      (inr i, mkRegistry (alter (fun h => set_refcount h (h_refcount h + 1)) i (r_holders r))
                (r_registry r))
  | None =>
      match Holder_init cfg with
      | inl e => (inl e, r)
      | inr h =>
          let i := length (r_holders r) in
          (inr i, mkRegistry (r_holders r ++ [set_refcount h (h_refcount h + 1)])
                    (<[holder_key cfg := i]> (r_registry r)))
      end
  end.

(** [release] of the holder [i]; an exception of [close] is logged. *)
Definition release (i : nat) (r : Registry) : Registry :=
  match r_holders r !! i with
  | None => r
  | Some h =>
      if h_refcount h <=? 0 then r
      else
        let h1 := set_refcount h (h_refcount h - 1) in
        if h_refcount h1 >? 0 then mkRegistry (<[i := h1]> (r_holders r)) (r_registry r)
        else mkRegistry (<[i := mkHolder (h_cfg h1) (h_refcount h1) false]> (r_holders r))
               (delete (holder_key (h_cfg h1)) (r_registry r))
  end.

(** ** The invariant *)

(** A registered holder is the live holder of its key, and every live holder is registered. *)
Record registry_ok (r : Registry) : Prop := {
  ro_registered : forall k i, r_registry r !! k = Some i ->
    exists h, r_holders r !! i = Some h /\ holder_key (h_cfg h) = k /\ 0 < h_refcount h;
  ro_live : forall i h, r_holders r !! i = Some h ->
    0 <= h_refcount h /\ h_open h = (0 <? h_refcount h) /\
    (0 < h_refcount h -> r_registry r !! holder_key (h_cfg h) = Some i)
}.

Definition empty_registry : Registry := mkRegistry [] ∅.

Lemma registry_ok_empty : registry_ok empty_registry.
Proof. by split; simpl; [intros k i; rewrite lookup_empty|intros i h; rewrite lookup_nil]. Qed.

(** References held to a holder. *)
Definition refs (r : Registry) (i : nat) : Z :=
  match r_holders r !! i with Some h => h_refcount h | None => 0 end.

Lemma refs_nonneg r : registry_ok r -> forall i, 0 <= refs r i.
Proof.
  intros Hok i. unfold refs. destruct (r_holders r !! i) as [h|] eqn:Hi; [|done].
  by apply (ro_live _ Hok i h).
Qed.

Lemma holder_init_ok cfg h : Holder_init cfg = inr h -> h = mkHolder cfg 0 true.
Proof.
  unfold Holder_init. destruct (client_config cfg) as [e|config]; [done|].
  destruct (connect config); [done|]. by intros [= <-].
Qed.

(** The registry with the live holder [i] of refcount [n > 0] in place of the one there. *)
Lemma registry_ok_update r i h n :
  registry_ok r -> r_holders r !! i = Some h -> 0 < h_refcount h -> 0 < n ->
  registry_ok (mkRegistry (<[i := set_refcount h n]> (r_holders r)) (r_registry r)).
Proof.
  intros [Hr Hl] Hi Hh Hn. pose proof (lookup_lt_Some _ _ _ Hi) as Hlt. split; simpl.
  - intros k j Hk. destruct (Hr k j Hk) as (h' & Hj & Hkey & Hpos).
    destruct (decide (i = j)) as [<-|Hne].
    + rewrite list_lookup_insert_eq by done. rewrite Hi in Hj. injection Hj as <-.
      by exists (set_refcount h n).
    + rewrite list_lookup_insert_ne by done. eauto.
  - intros j h' Hj. destruct (decide (i = j)) as [<-|Hne].
    + rewrite list_lookup_insert_eq in Hj by done. injection Hj as <-. simpl.
      destruct (Hl i h Hi) as (_ & Ho & Hk). split_and!; [lia| |auto].
      rewrite Ho. by rewrite !(proj2 (Z.ltb_lt _ _)).
    + rewrite list_lookup_insert_ne in Hj by done. eauto.
Qed.

(** What a successful [get_or_create] leaves. *)
Definition acquired (cfg : AerospikeConfig) (i : nat) (r r' : Registry) : Prop :=
  registry_ok r' /\
  (exists h, r_holders r' !! i = Some h /\ holder_key (h_cfg h) = holder_key cfg /\ h_open h = true) /\
  refs r' i = refs r i + 1 /\ forall j, j <> i -> refs r' j = refs r j.

Lemma alter_insert {A} (f : A -> A) i (l : list A) x : l !! i = Some x -> alter f i l = <[i := f x]> l.
Proof.
  intros Hi. apply list_eq. intros j. destruct (decide (i = j)) as [<-|Hne].
  - rewrite list_lookup_alter_eq, Hi, list_lookup_insert_eq; [done|by eapply lookup_lt_Some].
  - by rewrite list_lookup_alter_ne, list_lookup_insert_ne.
Qed.

Lemma share_holder_ok cfg i r :
  registry_ok r -> r_registry r !! holder_key cfg = Some i ->
  acquired cfg i r (mkRegistry (alter (fun h => set_refcount h (h_refcount h + 1)) i (r_holders r))
                      (r_registry r)).
Proof.
  intros Hok Ei. destruct (ro_registered _ Hok _ _ Ei) as (h & Hi & Hk & Hpos).
  rewrite (alter_insert _ _ _ _ Hi). pose proof (lookup_lt_Some _ _ _ Hi) as Hlt.
  split; [by apply registry_ok_update; [..|lia]|].
  unfold refs. simpl. rewrite list_lookup_insert_eq, Hi by done. split_and!.
  - eexists. split_and!; [done|done|]. simpl. destruct (ro_live _ Hok _ _ Hi) as (_ & -> & _).
    by apply Z.ltb_lt.
  - done.
  - intros j Hj. by rewrite list_lookup_insert_ne.
Qed.

Lemma lookup_snoc {A} (l : list A) x j y :
  (l ++ [x]) !! j = Some y <-> l !! j = Some y \/ (j = length l /\ y = x).
Proof.
  rewrite lookup_app_Some, list_lookup_singleton_Some. split.
  - intros [?|[? [? <-]]]; [by left|right]. split; [lia|done].
  - intros [?|[-> ->]]; [by left|right]. rewrite Nat.sub_diag. done.
Qed.

Lemma new_holder_ok cfg r :
  registry_ok r -> r_registry r !! holder_key cfg = None ->
  acquired cfg (length (r_holders r)) r
    (mkRegistry (r_holders r ++ [mkHolder cfg (0 + 1) true])
       (<[holder_key cfg := length (r_holders r)]> (r_registry r))).
Proof.
  intros [Hr Hl] Ei. set (n := length (r_holders r)). set (h0 := mkHolder cfg (0 + 1) true).
  assert (Hnew : (r_holders r ++ [h0]) !! n = Some h0) by (apply lookup_snoc; by right).
  split; [split; simpl|split_and!].
  - intros k j Hk. destruct (decide (k = holder_key cfg)) as [->|Hne].
    + rewrite lookup_insert_eq in Hk. injection Hk as <-. by exists h0.
    + rewrite lookup_insert_ne in Hk by done. destruct (Hr k j Hk) as (h & Hj & Hh).
      exists h. split; [by apply lookup_app_l_Some|done].
  - intros j h [Hj|[-> ->]]%lookup_snoc.
    + destruct (Hl j h Hj) as (? & ? & Hreg). split_and!; [done|done|]. intros Hp.
      rewrite lookup_insert_ne; [auto|]. intros E. specialize (Hreg Hp). congruence.
    + split_and!; [done|done|]. intros _. by rewrite lookup_insert_eq.
  - by exists h0.
  - unfold refs. cbn [r_holders]. by rewrite Hnew, lookup_ge_None_2.
  - intros j Hj. unfold refs. cbn [r_holders]. destruct (r_holders r !! j) as [h|] eqn:Ej.
    + by rewrite (lookup_app_l_Some _ _ _ _ Ej).
    + destruct ((r_holders r ++ [h0]) !! j) as [h|] eqn:Ej'; [|done].
      apply lookup_snoc in Ej' as [?|[-> _]]; [congruence|by destruct Hj].
Qed.

Lemma get_or_create_ok cfg r :
  registry_ok r ->
  let '(out, r') := get_or_create cfg r in
  match out with
  | inl _ => r' = r
  | inr i => acquired cfg i r r'
  end.
Proof.
  intros Hok. unfold get_or_create. destruct (r_registry r !! holder_key cfg) as [i|] eqn:Ei.
  - by apply share_holder_ok.
  - destruct (Holder_init cfg) as [e|h] eqn:Eh; [done|]. apply holder_init_ok in Eh as ->.
    by apply new_holder_ok.
Qed.

Lemma release_ok i r :
  registry_ok r ->
  registry_ok (release i r) /\ refs (release i r) i = Z.max 0 (refs r i - 1) /\
  forall j, j <> i -> refs (release i r) j = refs r j.
Proof.
  intros Hok. unfold release. destruct (r_holders r !! i) as [h|] eqn:Hi.
  2:{ unfold refs. rewrite Hi. by split_and!. }
  pose proof (lookup_lt_Some _ _ _ Hi) as Hlt.
  destruct (ro_live _ Hok _ _ Hi) as (Hnn & Ho & Hreg).
  destruct (Z.leb_spec (h_refcount h) 0) as [Hz|Hp].
  { split_and!; [done| |done]. unfold refs. rewrite Hi. lia. }
  assert (Hrefs : forall h', refs (mkRegistry (<[i := h']> (r_holders r)) (r_registry r)) i = h_refcount h')
    by (intros h'; unfold refs; simpl; by rewrite list_lookup_insert_eq).
  cbn [set_refcount h_refcount h_cfg]. destruct (Z.gtb_spec (h_refcount h - 1) 0) as [Hgt|Hle].
  - split_and!.
    + by apply registry_ok_update.
    + rewrite Hrefs. unfold refs. rewrite Hi. simpl. lia.
    + intros j Hj. unfold refs. simpl. by rewrite list_lookup_insert_ne.
  - assert (h_refcount h = 1) as E1 by lia. destruct Hok as [Hr Hl]. split_and!; [split; simpl| |].
    + intros k j Hk. apply lookup_delete_Some in Hk as [Hne Hk].
      destruct (Hr k j Hk) as (h' & Hj & Hkey & Hpos). exists h'.
      rewrite list_lookup_insert_ne; [done|]. intros ->. rewrite Hi in Hj. injection Hj as <-. congruence.
    + intros j h' Hj. destruct (decide (i = j)) as [<-|Hne].
      * rewrite list_lookup_insert_eq in Hj by done. injection Hj as <-. simpl. rewrite E1. simpl.
        split_and!; [lia|done|lia].
      * rewrite list_lookup_insert_ne in Hj by done. destruct (Hl j h' Hj) as (? & ? & Hreg').
        split_and!; [done|done|]. intros Hp'. rewrite lookup_delete_ne; [auto|].
        intros E. specialize (Hreg' Hp'). rewrite <- E, Hreg in Hreg' by lia. congruence.
    + unfold refs. simpl. rewrite list_lookup_insert_eq, Hi by done. simpl. lia.
    + intros j Hj. unfold refs. simpl. by rewrite list_lookup_insert_ne.
Qed.
(** ** Histories *)

Inductive holder_op := Acquire (cfg : AerospikeConfig) | Release (i : nat).
Inductive holder_event := Acquired (i : nat) | AcquireFailed (e : exc) | Released (i : nat).

Definition holder_step (op : holder_op) (r : Registry) : holder_event * Registry :=
  match op with
  | Acquire cfg =>
      let '(out, r') := get_or_create cfg r in
      (match out with inr i => Acquired i | inl e => AcquireFailed e end, r')
  | Release i => (Released i, release i r)
  end.

Fixpoint holder_run (ops : list holder_op) (tr : list holder_event) (r : Registry)
    : list holder_event * Registry :=
  match ops with
  | [] => (tr, r)
  | op :: ops => let '(e, r') := holder_step op r in holder_run ops (tr ++ [e]) r'
  end.

(** The references to holder [i] that a history leaves: a release without a reference is
    ignored. *)
Definition tally_event (i : nat) (n : Z) (e : holder_event) : Z :=
  match e with
  | Acquired j => if decide (j = i) then n + 1 else n
  | AcquireFailed _ => n
  | Released j => if decide (j = i) then Z.max 0 (n - 1) else n
  end.

Definition tally (i : nat) (tr : list holder_event) : Z := fold_left (tally_event i) tr 0.

Lemma holder_step_ok op r :
  registry_ok r ->
  let '(e, r') := holder_step op r in
  registry_ok r' /\ forall i, refs r' i = tally_event i (refs r i) e.
Proof.
  intros Hok. destruct op as [cfg|i]; simpl.
  - pose proof (get_or_create_ok cfg r Hok) as Hg. destruct (get_or_create cfg r) as [[e|i] r'].
    + by subst.
    + destruct Hg as (Hok' & _ & Hi & Hne). split; [done|]. intros j. simpl.
      destruct (decide (i = j)) as [<-|]; [done|]. by apply Hne.
  - destruct (release_ok i r Hok) as (Hok' & Hi & Hne). split; [done|]. intros j. simpl.
    destruct (decide (i = j)) as [<-|]; [done|]. by apply Hne.
Qed.

Lemma holder_run_ok ops : forall tr r,
  registry_ok r -> (forall i, refs r i = tally i tr) ->
  let '(tr', r') := holder_run ops tr r in registry_ok r' /\ forall i, refs r' i = tally i tr'.
Proof.
  induction ops as [|op ops IH]; intros tr r Hok Ht; simpl; [done|].
  pose proof (holder_step_ok op r Hok) as Hs. destruct (holder_step op r) as [e r'].
  destruct Hs as [Hok' Hi]. apply IH; [done|]. intros i. unfold tally. rewrite fold_left_app. simpl.
  fold (tally i tr). by rewrite <- Ht.
Qed.

(** C22: After any history of [get_or_create] and [release], the reference count of every holder
    is the number of references the history leaves, its client is open exactly while that
    number is positive, no two open clients have the same hosts, namespace and TLS name, and
    [get_or_create] for the key of an open client shares it instead of connecting again. *)
Theorem client_open_iff_referenced (ops : list holder_op) :
  let '(tr, r) := holder_run ops [] empty_registry in
  (forall i h, r_holders r !! i = Some h ->
     h_refcount h = tally i tr /\ (h_open h = true <-> 0 < tally i tr)) /\
  (forall i j h h', r_holders r !! i = Some h -> r_holders r !! j = Some h' ->
     h_open h = true -> h_open h' = true -> holder_key (h_cfg h) = holder_key (h_cfg h') ->
     i = j) /\
  (forall i h cfg, r_holders r !! i = Some h -> h_open h = true ->
     holder_key (h_cfg h) = holder_key cfg -> fst (get_or_create cfg r) = inr i).
Proof.
  pose proof (holder_run_ok ops [] empty_registry registry_ok_empty) as Hrun.
  destruct (holder_run ops [] empty_registry) as [tr r]. destruct Hrun as [Hok Ht].
  { by intros []. }
  assert (Hlive : forall i h, r_holders r !! i = Some h -> h_open h = true ->
            r_registry r !! holder_key (h_cfg h) = Some i).
  { intros i h Hi Ho. destruct (ro_live _ Hok i h Hi) as (_ & Hop & Hreg). apply Hreg.
    apply Z.ltb_lt. congruence. }
  split_and!.
  - intros i h Hi. destruct (ro_live _ Hok i h Hi) as (_ & Hop & _).
    assert (E : h_refcount h = tally i tr) by (rewrite <- Ht; unfold refs; by rewrite Hi).
    split; [done|]. rewrite Hop, E. apply Z.ltb_lt.
  - intros i j h h' Hi Hj Ho Ho' Hk. pose proof (Hlive _ _ Hi Ho) as H1.
    pose proof (Hlive _ _ Hj Ho') as H2. congruence.
  - intros i h cfg Hi Ho Hk. unfold get_or_create. rewrite <- Hk, (Hlive i h Hi Ho). done.
Qed.
End registry.
