(* ===== verification/Backends.v ===== *)
(** * Opening and closing a backend ([adapter.py], the constructors and [close] of
      [connector.py], [storage_plugin.py] and [l2_plugin.py])

    A backend takes a reference to a shared client when it is constructed and gives it back when
    it is closed.  The state is the registry of [ClientHolder]; the thread pools a backend owns
    are left out. *)

From S2P Require Import Prelude PyStr Errors Config Limits Runtime Policies Concrete ClientHolder.

(** What a constructed backend keeps of its construction. *)
Record Backend := mkBackend {
  b_cfg : AerospikeConfig;
  b_holder : nat;
  b_resolved : ResolvedLimits;
  b_closed : bool
}.

Section adapter.
(** LMCache's [extract_plugin_type]. *)
Context (extract_plugin_type : string -> option string).

Definition can_parse (url : string) : bool :=
  if startswith url "aerospike://" then true
  else if startswith url "plugin://" then
    bool_decide (extract_plugin_type (drop_chars 9 url) = Some "aerospike")
  else false.
End adapter.

Section backends.
Context `{Env} (connect : ClientConfig -> result unit).
(** The answer of the cluster to the namespace info call of a client of this configuration. *)
Context (info : AerospikeConfig -> result string).

(** The reference to the client, and the engine built over it; an exception of
    [discover_and_resolve] leaves the reference taken. *)
Definition open_backend (cfg : AerospikeConfig) (r : Registry) : result Backend * Registry :=
  let '(out, r) := get_or_create connect cfg r in
  match out with
  | inl e => (inl e, r)
  | inr holder =>
      match discover_and_resolve (info cfg) cfg with
      | inl e => (inl e, r)
      | inr resolved => (inr (mkBackend cfg holder resolved false), r)
      end
  end.

Definition open_parsed (parsed : result AerospikeConfig) (r : Registry) : result Backend * Registry :=
  match parsed with
  | inl e => (inl e, r)
  | inr cfg => open_backend cfg r
  end.

(** [create_connector], with [config.extra_config] ([None] without a config) and
    [context.plugin_name]. *)
Definition create_connector (extra_config : option dict) (plugin_name : option string)
    (r : Registry) : result Backend * Registry :=
  let name := match plugin_name with Some n => if String.eqb n "" then "aerospike" else n
                                   | None => "aerospike" end in
  open_parsed (from_extra_config extra_config name None) r.

(** [AerospikeStoragePlugin.__init__], given or not a config (with its [extra_config]) and metadata. *)
Definition storage_plugin_init (config : option (option dict)) (metadata : bool) (plugin_name : string)
    (r : Registry) : result Backend * Registry :=
  match config, metadata with
  | Some extra_config, true => open_parsed (from_storage_plugin_config extra_config plugin_name) r
  | _, _ => (inl (Py ValueError), r)
  end.

(** The fields of [AerospikeL2PluginConfig] the client configuration is made of. *)
Record AerospikeL2PluginConfig := mkL2PluginConfig {
  l2_hosts : string;
  l2_namespace : string;
  l2_set_name : string;
  l2_default_ttl_seconds : Z;
  l2_plugin_name : string
}.

(** [AerospikeL2Plugin.__init__] *)
Definition l2_plugin_init (config : AerospikeL2PluginConfig) (r : Registry)
    : result Backend * Registry :=
  let params := list_to_map [("hosts", VStr (l2_hosts config));
    ("namespace", VStr (l2_namespace config)); ("set", VStr (l2_set_name config));
    ("default_ttl_seconds", VInt (l2_default_ttl_seconds config))] in
  open_parsed (from_adapter_params (Some params) (l2_plugin_name config)) r.

(** [close] of the connector and of the storage plugin. *)
Definition close (b : Backend) (r : Registry) : Backend * Registry :=
  if b_closed b then (b, r)
  else (mkBackend (b_cfg b) (b_holder b) (b_resolved b) true, release (b_holder b) r).

(** [close] of the L2 plugin. *)
Definition l2_close (b : Backend) (r : Registry) : Backend * Registry :=
  (b, release (b_holder b) r).

(** ** Theorems *)

(** What opening a backend of configuration [parsed] and closing it do to the registry. *)
Definition lifecycle (r : Registry) (opened : result Backend * Registry) : Prop :=
  let '(out, r1) := opened in
  registry_ok r1 /\
  match out with
  | inr b =>
      (exists h, r_holders r1 !! b_holder b = Some h /\ h_open h = true /\
         holder_key (h_cfg h) = holder_key (b_cfg b)) /\
      refs r1 (b_holder b) = refs r (b_holder b) + 1 /\
      (let '(b2, r2) := close b r1 in
       registry_ok r2 /\ (forall i, refs r2 i = refs r i) /\ close b2 r2 = (b2, r2))
  | inl e =>
      r1 = r \/ exists cfg i, discover_and_resolve (info cfg) cfg = inl e /\
        refs r1 i = refs r i + 1 /\ forall j, j <> i -> refs r1 j = refs r j
  end.

Lemma open_parsed_lifecycle parsed r : registry_ok r -> lifecycle r (open_parsed parsed r).
Proof.
  intros Hok. unfold lifecycle, open_parsed. destruct parsed as [e|cfg]; [by split; [|left]|].
  unfold open_backend. pose proof (get_or_create_ok connect cfg r Hok) as Hg.
  destruct (get_or_create connect cfg r) as [[e|i] r1].
  { subst r1. by split; [|left]. }
  destruct Hg as (Hok1 & (h & Hi & Hk & Ho) & Hrefs & Hother).
  destruct (discover_and_resolve (info cfg) cfg) as [e|res] eqn:Ed; (split; [done|]).
  { right. by exists cfg, i. }
  cbn [b_holder b_cfg]. split_and!; [by exists h|done|]. unfold close. cbn [b_closed b_holder].
  destruct (release_ok i r1 Hok1) as (Hok2 & Hi2 & Hj2). split_and!; [done| |done].
  intros j. destruct (decide (j = i)) as [->|Hne].
  - rewrite Hi2, Hrefs. pose proof (refs_nonneg r Hok i). lia.
  - rewrite Hj2 by done. by apply Hother.
Qed.

(** C23: The life of a connector or a storage plugin.  A successful construction takes one reference
    to an open client of the configuration's key, and closing gives back exactly that reference,
    once, however often it is called.  A construction that fails leaves the registry as it was,
    except when the limits cannot be resolved: then the reference it took is kept. *)
Theorem backend_lifecycle (extra_config : option dict) (plugin_name : option string)
    (config : option (option dict)) (metadata : bool) (storage_name : string) (r : Registry) :
  registry_ok r ->
  lifecycle r (create_connector extra_config plugin_name r) /\
  lifecycle r (storage_plugin_init config metadata storage_name r).
Proof.
  intros Hok. split; [by apply open_parsed_lifecycle|]. unfold storage_plugin_init.
  destruct config as [extra|], metadata; try (by split; [|left]). by apply open_parsed_lifecycle.
Qed.
End backends.

(** ** Concrete runs *)

Definition connect_ok (c : ClientConfig) : result unit := inr tt.
Definition info_ok (cfg : AerospikeConfig) : result string := inr "max-record-size=1048576;nsup-period=120".
Definition info_down (cfg : AerospikeConfig) : result string :=
  inl (failure_exc FTimeout).

Definition demo_extra : dict :=
  list_to_map [("remote_storage_plugin.aerospike.hosts", VStr "a:3000");
               ("remote_storage_plugin.aerospike.namespace", VStr "ns");
               ("remote_storage_plugin.aerospike.set", VStr "s")].

Lemma backend_lifecycle_witness :
  exists b r1, create_connector connect_ok info_ok (Some demo_extra) None empty_registry = (inr b, r1) /\
    refs r1 0 = 1 /\ refs (snd (close b r1)) 0 = 0.
Proof.
  pose proof (proj1 (backend_lifecycle connect_ok info_ok (Some demo_extra) None None false "aerospike"
    empty_registry registry_ok_empty)) as Hl.
  destruct (create_connector _ _ _ _ _) as [[e|b] r1] eqn:E; [vm_compute in E; discriminate|].
  exists b, r1. split; [reflexivity|]. destruct Hl as (_ & _ & Hrefs & Hclose).
  assert (Eb : b_holder b = 0%nat) by (vm_compute in E; by injection E as <- _).
  rewrite Eb in Hrefs. split; [exact Hrefs|]. destruct (close b r1) as [b2 r2]. by apply Hclose.
Defined.

(** A connector whose construction fails after the client was opened is never closed: the
    client stays open with a reference nobody holds. *)
Theorem failed_construction_leaks_client :
  let '(out, r1) := create_connector connect_ok info_down (Some demo_extra) None empty_registry in
  out = inl (Conn AerospikeNamespaceProbeError "info") /\
  exists h, r_holders r1 !! 0%nat = Some h /\ h_open h = true /\ h_refcount h = 1.
Proof. vm_compute. split; [done|]. by eexists. Qed.

Definition demo_l2_config : AerospikeL2PluginConfig :=
  mkL2PluginConfig "a:3000" "ns" "s" 86400 "aerospike".

(** Closing an L2 plugin twice gives back a reference it does not hold: the client of another
    plugin of the same cluster is closed under it. *)
Theorem l2_double_close_closes_shared_client :
  let '(first, r1) := l2_plugin_init connect_ok info_ok demo_l2_config empty_registry in
  let '(second, r2) := l2_plugin_init connect_ok info_ok demo_l2_config r1 in
  match first, second with
  | inr b1, inr b2 =>
      b_holder b1 = b_holder b2 /\
      let r3 := snd (l2_close b1 (snd (l2_close b1 r2))) in
      exists h, r_holders r2 !! b_holder b2 = Some h /\ h_open h = true /\
        exists h', r_holders r3 !! b_holder b2 = Some h' /\ h_open h' = false
  | _, _ => False
  end.
Proof. vm_compute. split; [done|]. eexists. split_and!; [done|done|]. by eexists. Qed.
