(* ===== verification/L2Entry.v ===== *)
(** * The package entry and the construction of the L2 plugin ([__init__.py], [l2_plugin.py])

    [lmcache_aerospike.__getattr__] and [AerospikeL2Plugin.__init__] from the [adapter_params] of a
    JSON document: defaults, conversions, capacity, dtype, client configuration and client. *)

From S2P Require Import Prelude PyStr Errors Config Floats Limits Runtime Policies Concrete ClientHolder Backends.

Section package.
(** Whether the L2 interfaces of LMCache can be imported, and the import of a submodule. *)
Context (L2_MP_AVAILABLE : bool) (import_module : string -> result unit).

Definition _require_l2_mp : result unit := if L2_MP_AVAILABLE then inr tt else inl (Py ImportError).

(** [__getattr__]: the submodule whose class of that name is returned. *)
Definition getattr (name : string) : result string :=
  if String.eqb name "AerospikeStoragePlugin" then
    let? _ := import_module "storage_plugin" in inr "storage_plugin"
  else if String.eqb name "AerospikeL2Plugin" then
    let? _ := import_module "l2_plugin" in let? _ := _require_l2_mp in inr "l2_plugin"
  else if String.eqb name "AerospikeL2PluginConfig" then
    let? _ := import_module "l2_plugin" in let? _ := _require_l2_mp in inr "l2_plugin"
  else if String.eqb name "AerospikeNativeConnector" then
    let? _ := import_module "native_connector" in inr "native_connector"
  else inl (Py AttributeError).

Definition __all__ : list string :=
  ["AerospikeConnectorAdapter"; "AerospikeRemoteConnector"; "AerospikeStoragePlugin"; "AerospikeL2Plugin";
   "AerospikeL2PluginConfig"; "AerospikeNativeConnector"].

(** The names imported eagerly; [__getattr__] is asked for the others. *)
Definition eager : list string := ["AerospikeConnectorAdapter"; "AerospikeRemoteConnector"].

(** With importable submodules and the L2 interfaces, [__getattr__] serves exactly the exported names
    that are not imported eagerly; without the interfaces the two L2 names are an [ImportError], and
    any other name is an [AttributeError]. *)
Lemma getattr_exports name : (forall m, import_module m = inr tt) ->
  match getattr name with
  | inr _ => name ∈ __all__ /\ name ∉ eager
  | inl e => name ∉ __all__ \/ name ∈ eager /\ e = Py AttributeError \/
      L2_MP_AVAILABLE = false /\ name ∈ ["AerospikeL2Plugin"; "AerospikeL2PluginConfig"] /\ e = Py ImportError
  end.
Proof.
  intros Hi. unfold getattr. rewrite !Hi. unfold _require_l2_mp.
  destruct (String.eqb_spec name "AerospikeStoragePlugin") as [->|N1]; [split; set_solver|].
  destruct (String.eqb_spec name "AerospikeL2Plugin") as [->|N2].
  { destruct L2_MP_AVAILABLE; cbn; [split; set_solver|right; right; set_solver]. }
  destruct (String.eqb_spec name "AerospikeL2PluginConfig") as [->|N3].
  { destruct L2_MP_AVAILABLE; cbn; [split; set_solver|right; right; set_solver]. }
  destruct (String.eqb_spec name "AerospikeNativeConnector") as [->|N4]; [split; set_solver|].
  destruct (decide (name ∈ eager)); [by auto|left]. set_solver.
Qed.
End package.

(** ** The parameters of the L2 plugin *)

Record L2Params := mkL2Params {
  lp_config : AerospikeL2PluginConfig;
  lp_max_capacity_gb : float64;
  lp_dtype : string
}.

(** [d.get(k, v)] *)
Definition dict_get_or (d : dict) (k : string) (v : pyval) : pyval := default v (d !! k).

(** [AerospikeL2PluginConfig.from_dict] *)
Definition from_dict (d : dict) : result L2Params :=
  let hosts := py_str (dict_get_or d "hosts" (VStr "127.0.0.1:3000")) in
  let namespace := py_str (dict_get_or d "namespace" (VStr "lmcache")) in
  let set_name := py_str (dict_get_or d "set" (dict_get_or d "set_name" (VStr "kv_chunks"))) in
  let? default_ttl_seconds := py_int (dict_get_or d "default_ttl_seconds" (VInt 86400)) in
  let? max_capacity_gb := py_float (dict_get_or d "max_capacity_gb" (VInt 0)) in
  let dtype := py_str (dict_get_or d "dtype" (VStr "bfloat16")) in
  let plugin_name := py_str (dict_get_or d "plugin_name" (VStr "aerospike")) in
  inr (mkL2Params (mkL2PluginConfig hosts namespace set_name default_ttl_seconds plugin_name)
         max_capacity_gb dtype).

(** [AerospikeL2PluginConfig.help]: its lines, each ended by a line feed. *)
Definition help_lines : list string :=
  ["AerospikeL2Plugin adapter_params:";
   "- hosts (str): Aerospike seed hosts host:port[,...]";
   "- namespace (str): Aerospike namespace";
   "- set / set_name (str): Aerospike set name";
   "- default_ttl_seconds (int): record TTL";
   "- max_capacity_gb (float): 0 = unknown capacity (no global eviction)";
   "- dtype (str): torch dtype name for ObjectKey mapping"].

Definition help : string := String.concat "" ((fun l => l +:+ String (Ascii.ascii_of_nat 10) "") <$> help_lines).

(** [int(config.max_capacity_gb * (1024**3))] *)
Definition capacity_bytes (max_capacity_gb : float64) : result Z := int_of_float (times_pow2 30 max_capacity_gb).

(** [_DTYPE_MAP.get(config.dtype.lower(), torch.bfloat16)], a dtype being its name. *)
Definition l2_dtype (dtype : string) : string :=
  let name := lower dtype in
  if mem_str name ["float16"; "bfloat16"; "float32"] then name else "bfloat16".

(** What LMCache's base class and the plugin keep of the parameters. *)
Record L2Instance := mkL2Instance { li_backend : Backend; li_max_capacity_bytes : Z; li_dtype : string }.

Section construction.
Context `{Env} (connect : ClientConfig -> result unit) (info : AerospikeConfig -> result string).

(** [AerospikeL2Plugin(d)]; without the L2 interfaces of LMCache the class only raises. *)
Definition l2_plugin_new (L2_MP_AVAILABLE : bool) (d : dict) (r : Registry) : result L2Instance * Registry :=
  match (let? _ := _require_l2_mp L2_MP_AVAILABLE in
         let? params := from_dict d in
         let? cap_bytes := capacity_bytes (lp_max_capacity_gb params) in inr (params, cap_bytes)) with
  | inl e => (inl e, r)
  | inr (params, cap_bytes) =>
      let '(out, r) := l2_plugin_init connect info (lp_config params) r in
      (let? b := out in inr (mkL2Instance b cap_bytes (l2_dtype (lp_dtype params))), r)
  end.

(** A construction of the L2 plugin.  When it succeeds, the number parameters converted, the client
    configuration is the one of the parameters, one reference to an open client was taken, the
    capacity is the gigabytes of the parameters in bytes (exact for integers, rounded once for decimals) and
    the dtype is one of three.  When it fails, an [ImportError] means the interfaces of LMCache are missing;
    otherwise a conversion failed, the configuration was rejected or the client could not be had,
    with the registry as before, or the limits could not be resolved, with the reference kept. *)
Theorem l2_plugin_new_spec (mp : bool) (d : dict) (r : Registry) :
  registry_ok r ->
  let ttl := dict_get_or d "default_ttl_seconds" (VInt 86400) in
  let gb := dict_get_or d "max_capacity_gb" (VInt 0) in
  let '(out, r1) := l2_plugin_new mp d r in
  registry_ok r1 /\
  match out with
  | inr p =>
      mp = true /\ (exists t, py_int ttl = inr t) /\
      (exists f, py_float gb = inr f /\ capacity_bytes f = inr (li_max_capacity_bytes p)) /\
      (forall z, gb = VInt z -> 0 <= z < 2 ^ 53 -> li_max_capacity_bytes p = z * 2 ^ 30) /\
      li_dtype p ∈ ["float16"; "bfloat16"; "float32"] /\
      (exists h, r_holders r1 !! b_holder (li_backend p) = Some h /\ h_open h = true /\
         holder_key (h_cfg h) = holder_key (b_cfg (li_backend p))) /\
      refs r1 (b_holder (li_backend p)) = refs r (b_holder (li_backend p)) + 1
  | inl e =>
      r1 = r /\ (mp = false -> e = Py ImportError) \/
      mp = true /\ exists cfg i, discover_and_resolve (info cfg) cfg = inl e /\
        refs r1 i = refs r i + 1 /\ forall j, j <> i -> refs r1 j = refs r j
  end.
Proof.
  intros Hok. cbv zeta. unfold l2_plugin_new, _require_l2_mp. destruct mp; [|by split; [|left]].
  unfold from_dict. set (gb := dict_get_or d "max_capacity_gb" _).
  destruct (py_int _) as [e|t] eqn:Et; [by split; [|left]|].
  destruct (py_float gb) as [e|f] eqn:Ef; [by split; [|left]|]. cbn [lp_max_capacity_gb lp_config lp_dtype].
  destruct (capacity_bytes f) as [e|cap] eqn:Ec; [by split; [|left]|].
  unfold l2_plugin_init. set (parsed := from_adapter_params _ _).
  pose proof (open_parsed_lifecycle connect info parsed r Hok) as Hl. unfold lifecycle in Hl.
  destruct (open_parsed connect info parsed r) as [[e|b] r1]; destruct Hl as [Hok1 Hl]; (split; [done|]).
  { destruct Hl as [->|Hl]; [by left|by right]. }
  destruct Hl as (Hh & Hrefs & _). cbn [li_max_capacity_bytes li_dtype li_backend]. split_and!; [done|by exists t|by exists f| | |done|done].
  - intros z Ez Hz. rewrite Ez in Ef. cbn [py_float] in Ef.
    destruct (int_of_scaled z 30 Hz ltac:(lia)) as (f' & Ef' & Hf'). rewrite Ef' in Ef. injection Ef as ->.
    unfold capacity_bytes in Ec. rewrite Hf' in Ec. by injection Ec.
  - unfold l2_dtype. cbv zeta. destruct (mem_str _ _) eqn:E; [|set_solver]. unfold mem_str in E.
    apply existsb_exists in E as (x & Hx & Ex%String.eqb_eq). rewrite Ex. by apply list_elem_of_In.
Qed.
End construction.

Definition demo_l2_params : dict :=
  list_to_map [("hosts", VStr "a:3000"); ("namespace", VStr "ns"); ("set_name", VStr "s");
    ("max_capacity_gb", VInt 3); ("dtype", VStr "Float16")].

Lemma l2_plugin_new_spec_witness :
  exists p r1, l2_plugin_new connect_ok info_ok true demo_l2_params empty_registry = (inr p, r1) /\
    li_max_capacity_bytes p = 3221225472 /\ refs r1 (b_holder (li_backend p)) = 1.
Proof.
  pose proof (l2_plugin_new_spec connect_ok info_ok true demo_l2_params empty_registry registry_ok_empty) as Hs.
  cbv zeta in Hs. destruct (l2_plugin_new _ _ _ _ _) as [[e|p] r1] eqn:E; [vm_compute in E; discriminate|].
  exists p, r1. split; [reflexivity|]. destruct Hs as (_ & _ & _ & _ & Hcap & _ & _ & Hr).
  split; [exact (Hcap 3 eq_refl ltac:(lia))|exact Hr].
Defined.

(** A dtype the map does not have becomes [bfloat16] without a word. *)
Lemma unknown_dtype_is_bfloat16 : l2_dtype "float8_e4m3fn" = "bfloat16" /\ l2_dtype "int8" = "bfloat16".
Proof. done. Qed.
