(* ===== verification/Connector.v ===== *)
(** * The remote connector ([connector.py])

    The batched reads of [AerospikeRemoteConnector] over the engine's [get], and the methods that
    hand one engine call to the executor.  Here [batched_get_non_blocking] runs its [get]s one
    after the other; what happens with their results, [collect], is proved for any way of running
    them, and [GatherReads] interleaves them.  The semaphore and the in-flight gauge are those of
    [InFlight], the gathered puts those of [Gather]. *)

From S2P Require Import Prelude Errors Config Limits Keys Crc32 Runtime Policies Metrics Serde Engine.
From S2P Require Import ClientSpec Concrete Store GetFacts PutFacts KeyOps Ownership.

(** [list(dict.fromkeys(order))] *)
Fixpoint fromkeys_from {K} `{EqDecision K} (seen order : list K) : list K :=
  match order with
  | [] => []
  | k :: order =>
      if decide (k ∈ seen) then fromkeys_from seen order else k :: fromkeys_from (k :: seen) order
  end.

Definition fromkeys {K} `{EqDecision K} (order : list K) : list K := fromkeys_from [] order.

(** [fetched[k]] for a dict given by its items, in order of insertion. *)
Fixpoint dict_get {K V} `{EqDecision K} (d : list (K * V)) (k : K) : result V :=
  match d with
  | [] => inl (Py KeyError)
  | (k', v) :: d => if decide (k = k') then inr v else dict_get d k
  end.

Section operations.
Context {CK : Type} `{EqDecision CK} (to_string : CK -> string) `{Env} (self : Engine).

(** [_run]: an engine call on the executor, which takes none after its shutdown. *)
Definition _run {A} (up : bool) (fn : prog ev A) : prog ev A := if up then fn else Raise (Py RuntimeError).

Definition remote_exists_sync (key : CK) : prog ev bool := exists_ to_string self key.
Definition remote_exists (up : bool) (key : CK) : prog ev bool := _run up (exists_ to_string self key).
Definition remote_get (up : bool) (key : CK) : prog ev (option loc) := _run up (get to_string self key None).
Definition remote_put (up : bool) (key : CK) (memory_obj : loc) : prog ev unit := _run up (put to_string self key memory_obj false).
Definition remote_batched_contains (keys : list CK) : prog ev Z := batched_contains to_string self keys.
Definition remove_sync (key : CK) : prog ev bool := remove to_string self key.

Definition remote_ttl_value (pinned : bool) : Z := _ttl_value self pinned.

Definition support_batched_get : bool := true.
Definition support_batched_put : bool := true.
Definition support_batched_contains : bool := true.
Definition support_ping : bool := true.

(** [batched_get], whose [get]s run on an executor that is up. *)
Definition remote_batched_get (keys : list CK) : prog ev (list (option loc)) :=
  let unique := fromkeys keys in
  let! values := traverse (fun k => get to_string self k None) unique in
  let fetched := zip unique values in
  traverse (fun k => lift (dict_get fetched k)) keys.

Definition remote_batched_async_contains (keys : list CK) (pin : bool) : prog ev Z :=
  let! count := batched_contains to_string self keys in
  if pin && (count >? 0) then
    pin_keys to_string self (take (Z.to_nat count) keys) ;; Ret count
  else Ret count.

(** The loop over the gathered results. *)
Fixpoint collect (results : list (result (option loc))) (found_failure : bool)
    (memory_objs : list loc) : prog ev (list loc) :=
  match results with
  | [] => Ret memory_objs
  | r :: results =>
      match r with
      | inr (Some mo) =>
          if found_failure then trigger (MemRefDown mo) ;; collect results found_failure memory_objs
          else collect results found_failure (memory_objs ++ [mo])
      | _ => collect results true memory_objs
      end
  end.

Definition batched_get_non_blocking (keys : list CK) : prog ev (list loc) :=
  let! results := traverse (fun k => attempt (get to_string self k None)) keys in
  collect results false [].
End operations.

(** ** Lists *)

Lemma elem_of_fromkeys_from {K} `{EqDecision K} (order : list K) : forall seen k,
  k ∈ fromkeys_from seen order <-> k ∈ order /\ k ∉ seen.
Proof.
  induction order as [|x order IH]; intros seen k; simpl.
  - set_solver.
  - destruct (decide (x ∈ seen)).
    + rewrite IH. set_solver.
    + rewrite elem_of_cons, IH. destruct (decide (k = x)); set_solver.
Qed.

Lemma NoDup_fromkeys_from {K} `{EqDecision K} (order : list K) : forall seen,
  NoDup (fromkeys_from seen order).
Proof.
  induction order as [|x order IH]; intros seen; simpl; [constructor|].
  destruct (decide (x ∈ seen)); [done|]. constructor; [|done].
  rewrite elem_of_fromkeys_from. set_solver.
Qed.

Lemma dict_get_zip {K V} `{EqDecision K} (ks : list K) : forall (vs : list V) i k v,
  NoDup ks -> ks !! i = Some k -> vs !! i = Some v -> dict_get (zip ks vs) k = inr v.
Proof.
  induction ks as [|x ks IH]; intros vs i k v Hnd Hk Hv; [done|].
  destruct vs as [|y vs]; [done|]. inversion Hnd as [|? ? Hx Hnd']; subst. destruct i as [|i].
  - simplify_eq/=. by rewrite decide_True.
  - simpl in *. rewrite decide_False; [by eapply IH|].
    intros ->. by apply Hx, (list_elem_of_lookup_2 _ i).
Qed.

(** ** Lookups *)

Section connector.
Context {C : Type} `{ClientSpec C} `{Env}.
Context {CK : Type} `{EqDecision CK} (to_string : CK -> string) (self : Engine)
  `{!EngineHooks C self} (Hbuf : frombuffer_ok).
Implicit Types (w : world C) (k : CK) (l : loc).

Abbreviation entry := (Store.entry to_string self).
Abbreviation st w := (store (w_client w)).
Abbreviation get k := (get to_string self k None).
Abbreviation holds := (holds to_string self).
Abbreviation hollow := (hollow to_string self).

#[local] Arguments Engine.get : simpl never.

(** Objects of [w] are the same in [w'], where there may be more. *)
Definition heap_grows w w' : Prop := forall l, is_Some (w_heap w !! l) -> w_heap w' !! l = w_heap w !! l.

Lemma run_get_new k w :
  let '(out, w') := run (get k) w in
  st w' = st w /\ heap_grows w w' /\
  (forall l, out = inr (Some l) -> w_heap w !! l = None /\ downs w' l = 0%nat /\ holds (st w) k l w') /\
  (forall l, w_heap w !! l = None -> is_Some (w_heap w' !! l) ->
     out = inr (Some l) \/ downs w' l = 1%nat \/ (downs w' l = 0%nat /\ hollow (st w) k)).
Proof.
  pose proof (run_get to_string self Hbuf k None w I) as Hg. destruct (run _ w) as [out w'].
  destruct Hg as [Hst [[Hh Hno]|(l & Hl & [[_ Hfr] Hout])]]; (split; [done|]).
  - rewrite Hh. split_and!; [by intros l ?; rewrite Hh|by intros l ->; destruct (Hno l)|].
    intros l Hn [m Hm]. congruence.
  - assert (Hd0 : downs w l = 0%nat) by (unfold downs; by rewrite Hl). split_and!.
    + intros l' [m Hm]. apply Hfr. congruence.
    + intros l' ->. destruct Hout as (-> & Hd & p & m' & Hp & Hm' & _ & Hf).
      split_and!; [done|lia|by exists p, m'].
    + intros l' Hn Hs. destruct (decide (l' = l)) as [->|Hne].
      2:{ rewrite Hfr in Hs by done. rewrite Hn in Hs. by destruct Hs. }
      destruct out as [e|[l1|]].
      * right. left. lia.
      * left. by destruct Hout as [-> _].
      * destruct Hout as [Hd|[Hd Hb]]; right; [left; lia|right; by split; [lia|]].
Qed.

(** What [get]s of the keys leave, with these results. *)
Record got (keys : list CK) (rs : list (result (option loc))) w w' : Prop := {
  ga_store : st w' = st w;
  ga_grows : heap_grows w w';
  ga_length : length rs = length keys;
  ga_hit : forall i k l, keys !! i = Some k -> rs !! i = Some (inr (Some l)) ->
    w_heap w !! l = None /\ downs w' l = 0%nat /\ holds (st w) k l w';
  ga_new : forall l, w_heap w !! l = None -> is_Some (w_heap w' !! l) ->
    (exists i, rs !! i = Some (inr (Some l))) \/ downs w' l = 1%nat \/
    (downs w' l = 0%nat /\ exists k, k ∈ keys /\ hollow (st w) k);
  ga_distinct : forall i j l, rs !! i = Some (inr (Some l)) -> rs !! j = Some (inr (Some l)) -> i = j
}.

(** One [get] after the other. *)
Record gathered (keys : list CK) (rs : list (result (option loc))) w w' : Prop := {
  ga_got :> got keys rs w w';
  ga_run : forall i k r, keys !! i = Some k -> rs !! i = Some r ->
    exists w1, st w1 = st w /\ fst (run (get k) w1) = r
}.

Lemma got_nil w : got [] [] w w.
Proof. split; try done. intros l Hn [m Hm]. congruence. Qed.

Lemma gathered_nil w : gathered [] [] w w.
Proof. split; [apply got_nil|done]. Qed.

Lemma holds_grows s k l w w' : heap_grows w w' -> holds s k l w -> holds s k l w'.
Proof. intros Hg (p & m & Hp & Hm & E). exists p, m. split_and!; [done| |done]. by rewrite Hg, Hm. Qed.

Lemma downs_grows l w w' : heap_grows w w' -> is_Some (w_heap w !! l) -> downs w' l = downs w l.
Proof. intros Hg Hs. unfold downs. by rewrite Hg. Qed.

Lemma holds_alloc s k l w : holds s k l w -> is_Some (w_heap w !! l).
Proof. intros (p & m & _ & -> & _). by eexists. Qed.

Lemma gathered_cons k keys r rs w w1 w' :
  run (get k) w = (r, w1) -> gathered keys rs w1 w' -> gathered (k :: keys) (r :: rs) w w'.
Proof.
  intros E Ha. pose proof (run_get_new k w) as Hg. rewrite E in Hg. destruct Hg as (Hst & Hgr & Hhit & Hnew).
  pose proof (ga_grows _ _ _ _ Ha) as Hgr'.
  assert (Hgrow : forall l, is_Some (w_heap w !! l) -> is_Some (w_heap w1 !! l))
    by (intros l Hs; by rewrite Hgr).
  assert (Hold : forall l, r = inr (Some l) -> is_Some (w_heap w1 !! l)).
  { intros l ->. destruct (Hhit l eq_refl) as (_ & _ & Hh). by eapply holds_alloc. }
  assert (Hfresh : forall i l, rs !! i = Some (inr (Some l)) -> w_heap w1 !! l = None).
  { intros i l Hi. destruct (lookup_lt_is_Some_2 keys i) as [k' Hk'].
    - rewrite <- (ga_length _ _ _ _ Ha). by eapply lookup_lt_Some.
    - by apply (ga_hit _ _ _ _ Ha i k' l). }
  assert (Hsep : forall i l, rs !! i = Some (inr (Some l)) -> r <> inr (Some l)).
  { intros i l Hi Er. destruct (Hold l Er) as [m Hm]. rewrite (Hfresh i l Hi) in Hm. done. }
  split; [split|].
  - by rewrite (ga_store _ _ _ _ Ha).
  - intros l Hs. rewrite Hgr' by auto. by apply Hgr.
  - simpl. by rewrite (ga_length _ _ _ _ Ha).
  - intros [|i] k' l Hk Hr; simpl in *; simplify_eq.
    + destruct (Hhit l eq_refl) as (Hn & Hd & Hh). split_and!; [done| |by eapply holds_grows].
      rewrite (downs_grows l w1) by (auto; by eapply holds_alloc). done.
    + destruct (ga_hit _ _ _ _ Ha i k' l Hk Hr) as (Hn & Hd & Hh). rewrite Hst in Hh. split_and!; [|done..].
      apply eq_None_not_Some. intros Hs%Hgrow. rewrite Hn in Hs. by destruct Hs.
  - intros l Hn Hs. destruct (w_heap w1 !! l) as [m|] eqn:Em.
    + destruct (Hnew l Hn ltac:(by rewrite Em)) as [->|[Hd|[Hd Hb]]].
      * left. by exists 0%nat.
      * right. left. by rewrite (downs_grows l w1) by (rewrite ?Em; auto; by eexists).
      * right. right. split; [by rewrite (downs_grows l w1) by (rewrite ?Em; auto; by eexists)|].
        exists k. split; [apply elem_of_cons; by left|done].
    + destruct (ga_new _ _ _ _ Ha l Em Hs) as [[i Hi]|[Hd|(Hd & k' & Hk' & Hb)]].
      * left. by exists (S i).
      * right. by left.
      * right. right. split; [done|]. exists k'. rewrite Hst in Hb. split; [apply elem_of_cons; by right|done].
  - intros [|i] [|j] l Hi Hj; simpl in *; simplify_eq; [done|by destruct (Hsep _ _ Hj)|by destruct (Hsep _ _ Hi)|].
    f_equal. by eapply (ga_distinct _ _ _ _ Ha).
  - intros [|i] k' r' Hk Hr; simpl in *; simplify_eq; [exists w; by rewrite E|].
    destruct (ga_run _ _ _ _ Ha i k' r' Hk Hr) as (w2 & Hw2 & E2). exists w2. by rewrite Hw2.
Qed.

Lemma run_gather keys : forall w,
  exists rs w', run (traverse (fun k => attempt (get k)) keys) w = (inr rs, w') /\ gathered keys rs w w'.
Proof.
  induction keys as [|k keys IH]; intros w; cbn [traverse].
  - exists [], w. split; [done|]. apply gathered_nil.
  - rewrite run_bind, run_attempt. destruct (run (get k) w) as [r w1] eqn:E. cbn [fst snd].
    destruct (IH w1) as (rs & w' & Hr & Ha). rewrite run_bind, Hr.
    exists (r :: rs), w'. split; [done|]. by eapply gathered_cons.
Qed.

(** [get] one after the other, up to the first exception. *)
Lemma run_traverse_get keys : forall w,
  let '(out, w') := run (traverse (fun k => get k) keys) w in
  st w' = st w /\ heap_grows w w' /\
  match out with
  | inr vs => gathered keys (inr <$> vs) w w'
  | inl e => exists k w1, k ∈ keys /\ fst (run (get k) w1) = inl e
  end.
Proof.
  induction keys as [|k keys IH]; intros w; cbn [traverse].
  - split_and!; [done|done|]. apply gathered_nil.
  - rewrite run_bind. pose proof (run_get_new k w) as Hg. destruct (run (get k) w) as [r w1] eqn:E.
    destruct Hg as (Hst & Hgr & _). destruct r as [e|v].
    { split_and!; [done|done|]. exists k, w. split; [apply elem_of_cons; by left|by rewrite E]. }
    rewrite run_bind. specialize (IH w1). destruct (run (traverse _ keys) w1) as [[e|vs] w'];
      destruct IH as (Hst' & Hgr' & Hout).
    + split_and!; [congruence| |].
      * intros l Hs. rewrite Hgr'; [auto|]. by rewrite Hgr.
      * destruct Hout as (k' & w2 & Hk & He). exists k', w2. split; [apply elem_of_cons; by right|done].
    + pose proof (gathered_cons _ _ _ _ _ _ _ E Hout) as Ha.
      cbn [run]. split_and!; [by apply (ga_store _ _ _ _ Ha)|by apply (ga_grows _ _ _ _ Ha)|done].
Qed.
(** ** The gathered results *)

(** The results before the first one that is not an object, and the rest. *)
Fixpoint hit_prefix (rs : list (result (option loc))) : list loc * list (result (option loc)) :=
  match rs with
  | inr (Some l) :: rs => let '(ls, rest) := hit_prefix rs in (l :: ls, rest)
  | _ => ([], rs)
  end.

Definition objects (rs : list (result (option loc))) : list loc :=
  omap (fun r => match r with inr o => o | inl _ => None end) rs.

(** [collect] after the first failure: every object left is released. *)
Lemma run_collect_rest rs : forall acc w,
  run (collect rs true acc) w = (inr acc, foldl (fun w l => on_mem ref_count_down l w) w (objects rs)).
Proof. induction rs as [|[e|[l|]] rs IH]; intros acc w; simpl; [done|..]; by rewrite IH. Qed.

Lemma run_collect rs : forall acc w,
  run (collect rs false acc) w =
    (inr (acc ++ fst (hit_prefix rs)),
     foldl (fun w l => on_mem ref_count_down l w) w (objects (snd (hit_prefix rs)))).
Proof.
  induction rs as [|[e|[l|]] rs IH]; intros acc w; simpl; rewrite ?run_collect_rest, ?app_nil_r; [done..| |done].
  rewrite IH. destruct (hit_prefix rs) as [ls rest]. simpl. by rewrite <- app_assoc.
Qed.

Lemma hit_prefix_app rs ls rest :
  hit_prefix rs = (ls, rest) -> rs = ((fun l => inr (Some l)) <$> ls) ++ rest.
Proof.
  revert ls. induction rs as [|[e|[l|]] rs IH]; intros ls; simpl; try by intros [= <- <-].
  destruct (hit_prefix rs) as [ls' rest']. intros [= <- <-]. simpl. f_equal. by apply IH.
Qed.

Lemma objects_app ls rest : objects (((fun l => inr (Some l)) <$> ls) ++ rest) = ls ++ objects rest.
Proof. unfold objects. rewrite omap_app. f_equal. induction ls as [|l ls IH]; [done|]. simpl. by f_equal. Qed.

(** The prefix ends at the first result that is not an object. *)
Lemma hit_prefix_stops rs : forall ls rest l,
  hit_prefix rs = (ls, rest) -> rs !! length ls = Some (inr (Some l)) -> False.
Proof.
  induction rs as [|[e|[x|]] rs IH]; intros ls rest l; simpl; try by intros [= <- <-].
  destruct (hit_prefix rs) as [ls' rest']. intros [= <- <-] Hl. by eapply IH.
Qed.

(** Releasing a list of different objects. *)
Lemma release_all ls : forall w, NoDup ls ->
  let w' := foldl (fun w l => on_mem ref_count_down l w) w ls in
  st w' = st w /\
  (forall l, l ∉ ls -> w_heap w' !! l = w_heap w !! l) /\
  (forall l, l ∈ ls -> w_heap w' !! l = ref_count_down <$> (w_heap w !! l)).
Proof.
  induction ls as [|x ls IH]; intros w Hnd; simpl; [split_and!; [done|done|by intros l ?%not_elem_of_nil]|].
  inversion Hnd as [|? ? Hx Hnd']; subst. destruct (IH (on_mem ref_count_down x w) Hnd') as (Hst & Hout & Hin).
  split_and!; [done|..].
  - intros l [Hne Hl]%not_elem_of_cons. rewrite Hout by done. simpl. by rewrite lookup_alter_ne.
  - intros l [->|Hl]%elem_of_cons; [rewrite Hout by done; simpl; by rewrite lookup_alter_eq|].
    rewrite Hin by done. simpl. rewrite lookup_alter_ne; [done|]. by intros ->.
Qed.

Lemma elem_of_objects l rs : l ∈ objects rs <-> exists i, rs !! i = Some (inr (Some l)).
Proof.
  unfold objects. rewrite list_elem_of_omap. split.
  - intros (r & (i & Hi)%list_elem_of_lookup & Hr). exists i. destruct r as [e|o]; [done|]. by subst.
  - intros [i Hi]. exists (inr (Some l)). split; [by eapply list_elem_of_lookup_2|done].
Qed.

Lemma NoDup_objects rs :
  (forall i j l, rs !! i = Some (inr (Some l)) -> rs !! j = Some (inr (Some l)) -> i = j) ->
  NoDup (objects rs).
Proof.
  induction rs as [|r rs IH]; intros Hd; [constructor|].
  assert (Hrs : NoDup (objects rs)).
  { apply IH. intros i j l Hi Hj. assert (S i = S j) by (by eapply Hd). congruence. }
  destruct r as [e|[l|]]; [exact Hrs| |exact Hrs]. change (NoDup (l :: objects rs)). constructor; [|done].
  intros [i Hi]%elem_of_objects. by specialize (Hd 0%nat (S i) l eq_refl Hi).
Qed.

(** [collect] on the results of [get]s, however they were run: the objects before the first
    result without one are returned, every other object is released. *)
Definition collected (keys : list CK) (rs : list (result (option loc))) (ls : list loc) w w' : Prop :=
  st w' = st w /\ heap_grows w w' /\ NoDup ls /\
  (forall i l, ls !! i = Some l -> rs !! i = Some (inr (Some l)) /\ exists k, keys !! i = Some k /\
     w_heap w !! l = None /\ downs w' l = 0%nat /\ holds (st w) k l w') /\
  (forall l, rs !! length ls <> Some (inr (Some l))) /\
  (forall l, w_heap w !! l = None -> is_Some (w_heap w' !! l) ->
     l ∈ ls \/ downs w' l = 1%nat \/
     (downs w' l = 0%nat /\ exists k, k ∈ keys /\ hollow (st w) k)).

Lemma run_collect_got keys rs w w1 : got keys rs w w1 ->
  exists ls w', run (collect rs false []) w1 = (inr ls, w') /\ collected keys rs ls w w'.
Proof.
  intros Ha. rewrite run_collect.
  destruct (hit_prefix rs) as [ls rest] eqn:Ep. pose proof (hit_prefix_app _ _ _ Ep) as Ers. cbn [fst snd app].
  pose proof (NoDup_objects rs (ga_distinct _ _ _ _ Ha)) as Hnd.
  assert (Eo : objects rs = ls ++ objects rest) by (rewrite Ers; apply objects_app).
  rewrite Eo in Hnd. apply NoDup_app in Hnd as (Hnl & Hdis & Hnr).
  destruct (release_all (objects rest) w1 Hnr) as (Hst & Hout & Hin).
  set (w' := foldl _ w1 (objects rest)) in *.
  assert (Hls : forall i l, ls !! i = Some l -> rs !! i = Some (inr (Some l)) /\ w_heap w' !! l = w_heap w1 !! l).
  { intros i l Hi. split; [rewrite Ers; apply lookup_app_l_Some; by rewrite list_lookup_fmap, Hi|].
    apply Hout, Hdis. by eapply list_elem_of_lookup_2. }
  assert (Hnew : forall l, l ∈ objects rs -> w_heap w !! l = None /\ downs w1 l = 0%nat /\ is_Some (w_heap w1 !! l)).
  { intros l [i Hi]%elem_of_objects. destruct (lookup_lt_is_Some_2 keys i) as [k Hk].
    - rewrite <- (ga_length _ _ _ _ Ha). by eapply lookup_lt_Some.
    - destruct (ga_hit _ _ _ _ Ha i k l Hk Hi) as (? & ? & Hh). split_and!; [done..|by eapply holds_alloc]. }
  exists ls, w'. split; [done|]. split; [rewrite Hst; apply (ga_store _ _ _ _ Ha)|]. split; [|split; [done|split; [|split]]].
  - intros l Hs. rewrite Hout; [by apply (ga_grows _ _ _ _ Ha)|]. intros Hl.
    destruct (Hnew l) as [Hn _]; [rewrite Eo; apply elem_of_app; by right|]. rewrite Hn in Hs. by destruct Hs.
  - intros i l Hi. destruct (Hls i l Hi) as [Hi' Hsame]. destruct (lookup_lt_is_Some_2 keys i) as [k Hk].
    { rewrite <- (ga_length _ _ _ _ Ha). by eapply lookup_lt_Some. }
    split; [done|]. exists k. destruct (ga_hit _ _ _ _ Ha i k l Hk Hi') as (Hn & Hd & p & m & Hp & Hm & E).
    unfold downs in *. rewrite Hsame. split_and!; [done..|]. exists p, m. by rewrite Hsame.
  - intros l Hl. by eapply hit_prefix_stops.
  - intros l Hn Hs. destruct (decide (l ∈ objects rest)) as [Hl|Hl].
    + right. left. unfold downs. rewrite (Hin l Hl). destruct (Hnew l) as (_ & Hd & [m Hm]).
      { rewrite Eo. apply elem_of_app. by right. }
      unfold downs in Hd. rewrite Hm in Hd |- *. simpl. by rewrite Hd.
    + unfold downs. rewrite Hout in Hs |- * by done.
      destruct (ga_new _ _ _ _ Ha l Hn Hs) as [Hi%elem_of_objects|Hd]; [left|by right].
      rewrite Eo in Hi. by apply elem_of_app in Hi as [?|?].
Qed.

(** [batched_get_non_blocking] always returns: the objects of the keys before the first one
    whose [get] gave none, in order, each a new object that starts with the payload of its key
    and is held by the caller.  Every other object it allocated is released exactly once (except
    for a single-segment record without payload).  Records and existing objects are untouched. *)
Theorem batched_get_non_blocking_sound (keys : list CK) (w : world C) :
  let '(out, w') := run (batched_get_non_blocking to_string self keys) w in
  st w' = st w /\ heap_grows w w' /\
  exists ls, out = inr ls /\ NoDup ls /\
    (forall i l, ls !! i = Some l -> exists k, keys !! i = Some k /\
       w_heap w !! l = None /\ downs w' l = 0%nat /\ holds (st w) k l w') /\
    (forall k, keys !! length ls = Some k -> exists w1, st w1 = st w /\
       forall l, fst (run (get k) w1) <> inr (Some l)) /\
    (forall l, w_heap w !! l = None -> is_Some (w_heap w' !! l) ->
       l ∈ ls \/ downs w' l = 1%nat \/
       (downs w' l = 0%nat /\ exists k, k ∈ keys /\ hollow (st w) k)).
Proof.
  unfold batched_get_non_blocking. rewrite run_bind.
  destruct (run_gather keys w) as (rs & w1 & -> & Ha).
  destruct (run_collect_got keys rs w w1 Ha) as (ls & w' & -> & Hst & Hgr & Hnd & Hhit & Hstop & Hnew).
  split_and!; [done|done|]. exists ls. split_and!; [done|done|by intros i l Hi; apply Hhit in Hi as [_ ?]| |done].
  intros k Hk. destruct (lookup_lt_is_Some_2 rs (length ls)) as [r Hr].
  { rewrite (ga_length _ _ _ _ Ha). by eapply lookup_lt_Some. }
  destruct (ga_run _ _ _ _ Ha _ k r Hk Hr) as (w2 & Hw2 & E). exists w2. split; [done|].
  intros l El. apply (Hstop l). by rewrite Hr, <- E, El.
Qed.

(** ** [batched_get] *)

Lemma run_traverse_lift {A B} (f : A -> result B) (g : A -> B) xs w :
  (forall x, x ∈ xs -> f x = inr (g x)) ->
  run (traverse (fun x => lift (f x)) xs) w = (inr (g <$> xs), w).
Proof.
  intros Hf. induction xs as [|x xs IH]; [done|]. cbn [traverse].
  rewrite run_bind, run_lift, Hf by (apply elem_of_cons; by left).
  rewrite run_bind, IH; [done|]. intros y Hy. apply Hf, elem_of_cons. by right.
Qed.

(** The value under [k], [None] if there is none. *)
Definition found (fetched : list (CK * option loc)) k : option loc :=
  match dict_get fetched k with inr v => v | inl _ => None end.

Lemma dict_get_fetched keys (vs : list (option loc)) k :
  length vs = length (fromkeys keys) -> k ∈ keys ->
  exists i v, fromkeys keys !! i = Some k /\ vs !! i = Some v /\
    dict_get (zip (fromkeys keys) vs) k = inr v.
Proof.
  intros Hlen Hk. assert (Hk' : k ∈ fromkeys keys) by (apply elem_of_fromkeys_from; set_solver).
  apply list_elem_of_lookup in Hk' as [i Hi]. destruct (lookup_lt_is_Some_2 vs i) as [v Hv].
  { rewrite Hlen. by eapply lookup_lt_Some. }
  exists i, v. split_and!; [done|done|]. eapply dict_get_zip; [apply NoDup_fromkeys_from|done..].
Qed.

(** The connector's [batched_get] returns one answer per key, in order, unless the [get] of
    one of the keys raises.  An object it returns starts with the payload of its key and is a new
    one; equal keys share one answer, different keys never share an object.  Records and existing
    objects are untouched. *)
Theorem remote_batched_get_sound (keys : list CK) (w : world C) :
  let '(out, w') := run (remote_batched_get to_string self keys) w in
  st w' = st w /\ heap_grows w w' /\
  match out with
  | inl e => exists k w1, k ∈ keys /\ fst (run (get k) w1) = inl e
  | inr rs =>
      length rs = length keys /\
      (forall i k l, keys !! i = Some k -> rs !! i = Some (Some l) ->
         w_heap w !! l = None /\ downs w' l = 0%nat /\ holds (st w) k l w') /\
      (forall i j k k' l, keys !! i = Some k -> keys !! j = Some k' ->
         rs !! i = Some (Some l) -> (k = k' <-> rs !! j = Some (Some l)))
  end.
Proof.
  unfold remote_batched_get. rewrite run_bind. pose proof (run_traverse_get (fromkeys keys) w) as Hg.
  destruct (run (traverse _ (fromkeys keys)) w) as [[e|vs] w']; destruct Hg as (Hst & Hgr & Ha).
  { split_and!; [done|done|]. destruct Ha as (k & w1 & Hk & E). exists k, w1. split; [|done].
    apply elem_of_fromkeys_from in Hk. tauto. }
  assert (Hlen : length vs = length (fromkeys keys))
    by (rewrite <- (ga_length _ _ _ _ Ha); by rewrite length_fmap).
  rewrite (run_traverse_lift _ (found (zip (fromkeys keys) vs))).
  2:{ intros k Hk. destruct (dict_get_fetched keys vs k Hlen Hk) as (i & v & _ & _ & E).
      unfold found. by rewrite E. }
  assert (Hlook : forall i k o, keys !! i = Some k -> (found (zip (fromkeys keys) vs) <$> keys) !! i = Some o ->
    exists n, fromkeys keys !! n = Some k /\ (inr (A := exc) <$> vs) !! n = Some (inr o)).
  { intros i k o Hi Ho. rewrite list_lookup_fmap, Hi in Ho. injection Ho as <-.
    destruct (dict_get_fetched keys vs k Hlen) as (n & v & Hn & Hv & E); [by eapply list_elem_of_lookup_2|].
    exists n. split; [done|]. unfold found. by rewrite E, list_lookup_fmap, Hv. }
  split_and!; [done|done|by rewrite length_fmap|..].
  - intros i k l Hi Hr. destruct (Hlook i k _ Hi Hr) as (n & Hn & Hv). by eapply (ga_hit _ _ _ _ Ha).
  - intros i j k k' l Hi Hj Hr. split.
    + intros <-. rewrite list_lookup_fmap, Hi in Hr. by rewrite list_lookup_fmap, Hj.
    + intros Hr'. destruct (Hlook i k _ Hi Hr) as (n & Hn & Hv). destruct (Hlook j k' _ Hj Hr') as (n' & Hn' & Hv').
      pose proof (ga_distinct _ _ _ _ Ha _ _ _ Hv Hv'). congruence.
Qed.
End connector.

(** ** [batched_async_contains] *)

Section lookup_and_pin.
Context {C : Type} `{AerospikeClient C} `{!ClientSpec C} `{Env}.
Context {CK : Type} (to_string : CK -> string) `{!Inj (=) (=) to_string} (self : Engine).

Abbreviation entry := (Store.entry to_string self).
Abbreviation mk_of := (mk_of to_string self).
Abbreviation st w := (store (w_client w)).

Definition pinned_record (s : gmap key bins) (ck : CK) : Prop :=
  exists b, s !! mk_of ck = Some b /\ b !! "pin" = Some (BBool true).

(** [batched_async_contains] counts a prefix of present keys and changes no entry, whatever
    the cluster does, and raises none of the client's exceptions.  On a healthy cluster it counts
    the longest such prefix and, when asked to, has pinned the records of exactly that prefix. *)
Theorem lookup_and_pin_spec (keys : list CK) (pin : bool) (w : world C) :
  NoDup keys ->
  let '(r, w') := run (remote_batched_async_contains to_string self keys pin) w in
  (forall ck, entry (st w') ck = entry (st w) ck) /\
  (forall n, r = inr n -> present_prefix to_string self (st w) keys n) /\
  (forall e, r = inl e -> not_client e) /\
  (healthy (w_client w) -> client_constants -> config_ok (cfg self) -> 0 <= capacity (w_client w) ->
     exists n, r = inr n /\ (forall ck, keys !! Z.to_nat n = Some ck -> ~ present to_string self (st w) ck) /\
     (pin = true -> forall ck, ck ∈ take (Z.to_nat n) keys -> pinned_record (st w') ck) /\
     (forall ck, ck ∉ take (Z.to_nat n) keys \/ pin = false -> st w' !! mk_of ck = st w !! mk_of ck)).
Proof.
  intros Hnd. unfold remote_batched_async_contains. rewrite run_bind.
  pose proof (run_batched_contains to_string self keys w) as Hc.
  destruct (run (batched_contains _ _ _) w) as [[e|n] w1]; destruct Hc as (Hst & _ & Hp & He & Hh).
  { split_and!; [by intros ck; rewrite Hst|done|done|]. intros Hw. by destruct (Hh Hw) as (_ & ? & ? & _). }
  assert (Hstop : healthy (w_client w) -> forall ck, keys !! Z.to_nat n = Some ck -> ~ present to_string self (st w) ck)
    by (intros Hw; by destruct (Hh Hw) as (_ & ? & [= <-] & ?)).
  pose proof (Hp n eq_refl) as [[Hn0 Hn1] _].
  destruct (pin && (n >? 0)) eqn:Epin.
  2:{ cbn. split_and!; [by intros ck; rewrite Hst|by intros ? [= <-]; apply Hp|done|].
      intros Hw _ _ _. exists n. split_and!; [done|by apply Hstop| |by intros; rewrite Hst].
      intros -> ck Hck. simpl in Epin. zbool. assert (n = 0) as -> by lia. by apply not_elem_of_nil in Hck. }
  apply andb_true_iff in Epin as [-> Hpos]. zbool. rewrite run_bind.
  assert (Hnd' : NoDup (take (Z.to_nat n) keys)) by (eapply sublist_NoDup; [exact Hnd|apply sublist_take]).
  pose proof (run_pin_keys to_string self _ w1 Hnd') as Hk.
  pose proof (fun A B => run_pin_keys_healthy to_string self _ w1 Hnd' A B) as Hkh.
  pose proof (run_pin_keys_frame to_string self (take (Z.to_nat n) keys) w1) as Hfr.
  destruct (run (pin_keys _ _ _) w1) as [[e|[]] w2]; destruct Hk as (Hpo & _ & He2); cbn; rewrite Hst in *.
  - split_and!; [intros ck; by apply pin_only_entry|done|intros e' [= <-]; by apply He2|].
    intros Hw Hcc Hok Hcap. destruct (Hh Hw) as [[Hw1 Hcap1] _].
    by destruct (Hkh Hcc Hok Hw1 ltac:(by rewrite Hcap1)) as [? _].
  - split_and!; [intros ck; by apply pin_only_entry|by intros ? [= <-]; apply Hp|done|].
    intros Hw Hcc Hok Hcap. destruct (Hh Hw) as [[Hw1 Hcap1] _].
    destruct (Hkh Hcc Hok Hw1 ltac:(by rewrite Hcap1)) as (_ & _ & Hpin).
    exists n. split_and!; [done|by apply Hstop|..].
    + intros _ ck Hck. eexists. split; [by apply Hpin|]. by apply merged_named.
    + intros ck [Hck|?]; [|done]. by apply Hfr.
Qed.
End lookup_and_pin.

(** ** Witnesses *)

(** The entry ["k"] asked for twice, and a key without an entry. *)
Definition reader_world : world MemClient :=
  demo_world (store (w_client demo_after)) 65536 [] [demo_source].

Lemma remote_batched_get_sound_witness :
  exists l w', run (remote_batched_get demo_str demo_connector ["k"; "z"; "k"]) reader_world =
      (inr [Some l; None; Some l], w') /\
    holds demo_str demo_connector (store (w_client reader_world)) "k" l w'.
Proof.
  pose proof (remote_batched_get_sound demo_str demo_connector demo_frombuffer_ok ["k"; "z"; "k"]
    reader_world) as Hs.
  destruct (run _ _) as [out w'] eqn:E. assert (Eo : out = inr [Some 1%nat; None; Some 1%nat]).
  { transitivity (fst (run (remote_batched_get demo_str demo_connector ["k"; "z"; "k"]) reader_world)).
    - by rewrite E.
    - vm_compute. reflexivity. }
  subst out. exists 1%nat, w'. split; [reflexivity|]. destruct Hs as (_ & _ & _ & Hh & _).
  by apply (Hh 2%nat "k" 1%nat).
Defined.

Lemma batched_get_non_blocking_sound_witness :
  exists w', run (batched_get_non_blocking demo_str demo_connector ["k"; "z"; "k"]) reader_world =
      (inr [1%nat], w') /\
    holds demo_str demo_connector (store (w_client reader_world)) "k" 1 w'.
Proof.
  pose proof (batched_get_non_blocking_sound demo_str demo_connector demo_frombuffer_ok
    ["k"; "z"; "k"] reader_world) as Hs.
  destruct (run _ _) as [out w'] eqn:E. assert (Eo : out = inr [1%nat]).
  { transitivity (fst (run (batched_get_non_blocking demo_str demo_connector ["k"; "z"; "k"]) reader_world)).
    - by rewrite E.
    - vm_compute. reflexivity. }
  subst out. exists w'. split; [reflexivity|]. destruct Hs as (_ & _ & ls & [= <-] & _ & Hh & _).
  destruct (Hh 0%nat 1%nat eq_refl) as (k & [= <-] & _ & _ & Hk). exact Hk.
Defined.

Lemma lookup_and_pin_spec_witness :
  pinned_record demo_str demo_engine (store (w_client (snd
    (run (remote_batched_async_contains demo_str demo_engine ["k"; "z"] true) demo_after)))) "k".
Proof.
  assert (Hnd : NoDup ["k"; "z"]) by (apply (bool_decide_unpack _); vm_compute; exact I).
  pose proof (lookup_and_pin_spec demo_str demo_engine ["k"; "z"] true demo_after Hnd) as Hp.
  destruct (run _ _) as [r w'] eqn:E. assert (Er : r = inr 1).
  { transitivity (fst (run (remote_batched_async_contains demo_str demo_engine ["k"; "z"] true) demo_after)).
    - by rewrite E.
    - vm_compute. reflexivity. }
  subst r. destruct Hp as (_ & _ & _ & Hh).
  destruct Hh as (n & [= <-] & _ & Hpin & _);
    [vm_compute; reflexivity|apply demo_client_constants|apply demo_config_ok|vm_compute; discriminate|].
  simpl. apply Hpin; [done|]. apply list_elem_of_here.
Defined.
