(* ===== verification/GatherReads.v ===== *)
(** * Gathered reads ([batched_get_non_blocking] of [connector.py])

    The [get]s run in the threads of the executor and take turns event by event; each allocates
    its own object on the way ([Ownership]).  The semaphore of [_sem_get] only rules out schedules
    ([InFlight]). *)

From S2P Require Import Prelude PyStr Errors Sharding Config Limits Crc32 Keys.
From S2P Require Import Runtime Policies Metrics Serde Engine ClientSpec Store GetFacts Concrete.
From S2P Require Import PutFacts KeyOps Interleave Threads Ownership Gather Connector.

(** ** One [get] *)

Section reader.
Context {C : Type} `{AerospikeClient C} `{!ClientSpec C} `{Env}.
Context {CK : Type} (to_string : CK -> string) (self : Engine) `{!EngineHooks C self} `{!OneObjectHooks self}.
Context (Hbuf : frombuffer_ok) (s0 : gmap key bins) (k : CK).
Implicit Types (w : world C) (own : option loc).

Abbreviation st w := (store (w_client w)).
Abbreviation mk := (mk_of to_string self k).

(** How a [get] ends: with the object it owns, held and filled, or without one; then the object it
    owns, if any, is released, except for a record without payload. *)
Definition got_one (out : result (option loc)) own w : Prop :=
  match out with
  | inr (Some l) => own = Some l /\ downs w l = 0%nat /\ holds to_string self s0 k l w
  | _ => forall l, own = Some l -> downs w l = 1%nat \/ downs w l = 0%nat /\ hollow to_string self s0 k
  end.

(** The records stay as they are. *)
Lemma unchanging_get_osafe w : st w = s0 -> osafe eq got_one (get to_string self k None) None w.
Proof.
  intros Hs. eapply osafe_weaken; [|apply (get_osafe to_string self Hbuf k eq (eq s0) (eq s0)); try done; intros; congruence].
  intros [e|[l|]] own w' Hg; unfold got_some in Hg.
  - intros l E. destruct (Hg eq_refl l E) as [?|(? & ? & <- & ?)]; [by left|by right].
  - destruct Hg as (? & ? & ? & <- & ?). by split_and!.
  - intros l E. destruct (Hg eq_refl l E) as [?|(? & ? & <- & ?)]; [by left|by right].
Qed.
End reader.

(** ** Many threads *)

Section gathering.
Context {C : Type} `{AerospikeClient C} `{!ClientSpec C} `{Env} {A : Type}.
Implicit Types (w : world C) (ps : list (prog ev A)) (owners : nat -> option loc).

Abbreviation st w := (store (w_client w)).

(** Since [w0], only the threads have made objects, each its own. *)
Record owned_apart w0 (n : nat) owners w : Prop := {
  oa_store : st w = st w0;
  oa_old l : is_Some (w_heap w0 !! l) -> w_heap w !! l = w_heap w0 !! l;
  oa_own i l : owners i = Some l -> (i < n)%nat /\ w_heap w0 !! l = None /\ is_Some (w_heap w !! l);
  oa_distinct i j l : owners i = Some l -> owners j = Some l -> i = j;
  oa_new l : w_heap w0 !! l = None -> is_Some (w_heap w !! l) -> exists i, owners i = Some l
}.

Lemma owned_apart_step w0 n owners w t own' w1 :
  owned_apart w0 n owners w -> (t < n)%nat -> own_step (owners t) own' w w1 ->
  let owners1 := fun i => if decide (i = t) then own' else owners i in
  owned_apart w0 n owners1 w1 /\ forall j, j <> t -> others eq (owners j) w w1.
Proof.
  intros [Hst Hold Hown Hdis Hnew] Ht (Es & Hk & Hh & Hcase) owners1.
  assert (Hfree : forall j l, j <> t -> owners j = Some l -> own' <> Some l).
  { intros j l Hj Hl E. destruct Hcase as [Eq|(_ & l' & El' & Hn & _)].
    - rewrite E in Eq. by apply Hj, (Hdis j t l).
    - assert (l' = l) as -> by congruence. destruct (Hown j l Hl) as (_ & _ & [m Hm]). congruence. }
  assert (Hsome : forall l, own' = Some l -> w_heap w0 !! l = None /\ is_Some (w_heap w1 !! l)).
  { intros l El. destruct Hcase as [Eq|(_ & l' & El' & Hn & Hs)].
    - rewrite El in Eq. destruct (Hown t l) as (_ & ? & ?); [done|]. split; [done|by apply Hk].
    - assert (l' = l) as -> by congruence. split; [|done]. apply eq_None_not_Some. intros Hs0. rewrite Hold in Hn by done.
      rewrite Hn in Hs0. by destruct Hs0. }
  split; [split|].
  - congruence.
  - intros l Hl. rewrite <- Hold by done. apply Hh. intros El. destruct (Hsome l El) as [Hn _]. rewrite Hn in Hl. by destruct Hl.
  - intros i l. unfold owners1. destruct (decide (i = t)) as [->|Hne]; [by intros ?%Hsome|].
    intros Hl. destruct (Hown i l Hl) as (? & ? & ?). split_and!; [done..|by apply Hk].
  - intros i j l. unfold owners1. destruct (decide (i = t)) as [->|Hi], (decide (j = t)) as [->|Hj]; try done.
    + intros El Hl. by destruct (Hfree j l Hj Hl).
    + intros Hl El. by destruct (Hfree i l Hi Hl).
    + by apply Hdis.
  - intros l Hn Hs. destruct (decide (own' = Some l)) as [El|El].
    { exists t. unfold owners1. by rewrite decide_True. }
    rewrite Hh in Hs by done. destruct (Hnew l Hn Hs) as [i Hi]. exists i. unfold owners1. rewrite decide_False; [done|].
    intros ->. destruct Hcase as [Eq|(En & _)]; congruence.
  - intros j Hj. split_and!; [done|done|]. intros l Hl. apply Hh. by apply (Hfree j).
Qed.

Lemma gather_osafe (Q : nat -> result A -> option loc -> world C -> Prop) w0 turns : forall ps owners w,
  owned_apart w0 (length ps) owners w ->
  (forall i p, nth_error ps i = Some p -> osafe eq (Q i) p (owners i) w) ->
  let '(_, ps', w') := gather turns ps w in
  exists owners', owned_apart w0 (length ps) owners' w' /\ length ps' = length ps /\
    forall i p, nth_error ps' i = Some p -> osafe eq (Q i) p (owners' i) w'.
Proof.
  induction turns as [|t turns IH]; intros ps owners w Ha Hps; simpl;
    destruct (gather_result ps) as [out|]; try (by exists owners).
  destruct (nth_error ps t) as [p|] eqn:Hp; [|by eapply IH].
  destruct p as [a|e|X ev k]; simpl; [by eapply IH..|].
  destruct (Hps t _ Hp w) as (own' & Hg & Hk); [reflexivity|]. destruct (handle ev w) as [x w1]. cbn [fst snd] in *.
  destruct (owned_apart_step w0 _ owners w t own' w1 Ha) as [Ha1 Hoth]; [by eapply nth_error_lt|done|].
  specialize (IH (set_thread t (k x) ps) (fun i => if decide (i = t) then own' else owners i) w1).
  rewrite set_thread_length in IH. apply (IH Ha1). intros i p Hi. destruct (decide (i = t)) as [->|Hne].
  - rewrite (set_thread_eq _ _ _ _ Hp) in Hi. by injection Hi as <-.
  - rewrite set_thread_ne in Hi by done. apply (osafe_rely eq _ _ _ w); [by apply Hoth|by apply Hps].
Qed.
End gathering.

(** ** [batched_get_non_blocking] *)

Section batch.
Context {C : Type} `{AerospikeClient C} `{!ClientSpec C} `{Env}.
Context {CK : Type} `{EqDecision CK} (to_string : CK -> string) (self : Engine).
Implicit Types (w : world C).

Abbreviation st w := (store (w_client w)).

(** The coroutines [self._sem_get(k)]; [return_exceptions=True] makes an exception a result. *)
Definition get_coroutines (keys : list CK) : list (prog ev (result (option loc))) :=
  List.map (fun k => attempt (get to_string self k None)) keys.

(** [None] while the results are not there. *)
Definition gathered_get_non_blocking (turns : list nat) (keys : list CK) w : option (result (list loc)) * world C :=
  let '(out, _, w) := gather turns (get_coroutines keys) w in
  match out with
  | None => (None, w)
  | Some (inl e) => (Some (inl e), w)
  | Some (inr results) => let '(r, w) := run (collect results false []) w in (Some r, w)
  end.

Context `{!EngineHooks C self} `{!OneObjectHooks self} (Hbuf : frombuffer_ok).

(** How the coroutine of a key ends. *)
Definition got_key (s0 : gmap key bins) (keys : list CK) (i : nat) (r : result (result (option loc))) (own : option loc) w : Prop :=
  exists out k, r = inr out /\ keys !! i = Some k /\ got_one to_string self s0 k out own w.

Lemma gather_values rs ps : gather_result ps = Some (inr rs) ->
  length ps = length rs /\ forall i (r : result (option loc)), rs !! i = Some r -> nth_error ps i = Some (Ret r).
Proof.
  intros ->%gather_result_values. rewrite length_threads. split; [done|].
  induction rs as [|x rs IH]; intros [|i] r Hi; simpl in *; simplify_eq; [done|]. by apply IH.
Qed.

(** What the owners of the objects of ended threads know is what [got] says of their results. *)
Lemma owned_got keys rs owners w w' : length rs = length keys ->
  owned_apart w (length keys) owners w' ->
  (forall i r, rs !! i = Some r -> got_key (st w) keys i (inr r) (owners i) w') -> got to_string self keys rs w w'.
Proof.
  intros Hlen [Hst Hold Hown Hdis Hnew] Hrs.
  assert (Hhit : forall i l, rs !! i = Some (inr (Some l)) -> owners i = Some l /\ exists k, keys !! i = Some k /\
    downs w' l = 0%nat /\ holds to_string self (st w) k l w').
  { intros i l Hi. destruct (Hrs i _ Hi) as (out & k & [= <-] & Hk & Ho & Hd & Hh). split; [done|]. by exists k. }
  split; [done|done|done| | |].
  - intros i k l Hk Hi. destruct (Hhit i l Hi) as (Ho & k' & Hk' & Hd & Hh). simplify_eq.
    destruct (Hown i l Ho) as (_ & Hn & _). done.
  - intros l Hn Hs. destruct (Hnew l Hn Hs) as [i Hi]. destruct (Hown i l Hi) as (Hlt & _ & _). rewrite <- Hlen in Hlt.
    destruct (lookup_lt_is_Some_2 rs i Hlt) as [r Hr]. destruct (Hrs i r Hr) as (out & k & [= <-] & Hk & Hq).
    destruct r as [e|[l'|]].
    + right. destruct (Hq l Hi) as [?|[? ?]]; [by left|right]. split; [done|]. exists k. split; [by eapply list_elem_of_lookup_2|done].
    + left. exists i. destruct Hq as (Ho & _). by simplify_eq.
    + right. destruct (Hq l Hi) as [?|[? ?]]; [by left|right]. split; [done|]. exists k. split; [by eapply list_elem_of_lookup_2|done].
  - intros i j l Hi Hj. destruct (Hhit i l Hi) as [Ho _], (Hhit j l Hj) as [Ho' _]. by eapply Hdis.
Qed.

Lemma gathered_got turns keys w :
  let '(out, _, w') := gather turns (get_coroutines keys) w in
  st w' = st w /\ heap_grows w w' /\ (forall e, out <> Some (inl e)) /\
  forall rs, out = Some (inr rs) -> got to_string self keys rs w w'.
Proof.
  pose proof (gather_osafe (got_key (st w) keys) w turns (get_coroutines keys) (fun _ => None) w) as Hg.
  pose proof (gather_result_end turns (get_coroutines keys) w) as Hend.
  assert (Hlen : length (get_coroutines keys) = length keys) by apply length_threads. rewrite Hlen in Hg.
  destruct (gather turns _ w) as [[out ps] w']. destruct Hg as (owners & Ha & Hl & Hps).
  - split; [done|done|done|done|]. intros l Hn [m Hm]. congruence.
  - intros i p Hi. destruct (nth_threads _ _ _ _ Hi) as (k & Hk & ->). apply osafe_attempt.
    eapply osafe_weaken; [|by apply (unchanging_get_osafe to_string self Hbuf (st w) k)]. intros r own' w2 Hq. by exists r, k.
  - assert (Hret : forall i p r, nth_error ps i = Some p -> match p with Ret a => r = inr a | Raise e => r = inl e | _ => False end ->
      got_key (st w) keys i r (owners i) w').
    { intros i p r Hi Hp. specialize (Hps i p Hi). destruct p; [| |done]; subst r; apply Hps; reflexivity. }
    split_and!; [by apply Ha|intros l Hs; by apply Ha| |].
    + intros e ->. specialize (Hend _ _ _ eq_refl). apply gather_result_raise in Hend as [i Hi].
      by destruct (Hret i _ (inl e) Hi eq_refl) as (out & k & ? & _).
    + intros rs ->. specialize (Hend _ _ _ eq_refl). destruct (gather_values _ _ Hend) as [Hlr Hv].
      apply (owned_got keys rs owners); [congruence|done|]. intros i r Hr. by eapply Hret; [apply Hv|].
Qed.

(** C27: [batched_get_non_blocking] under every interleaving of its gathered [get]s and every fault
    of the cluster: no exception leaves it, records and existing objects are untouched, and once
    all have ended it returns the objects of a prefix of the keys, in order: different new
    objects, each starting with the payload of its key and held by the caller, up to the first
    key without one; every other object it allocated is released exactly once (except for a
    single-segment record without payload).  Some schedule ends it. *)
Theorem gathered_get_non_blocking_sound (turns : list nat) (keys : list CK) w :
  let '(out, w') := gathered_get_non_blocking turns keys w in
  st w' = st w /\ heap_grows w w' /\ (forall e, out <> Some (inl e)) /\
  (forall ls, out = Some (inr ls) -> exists rs, length rs = length keys /\ collected to_string self keys rs ls w w') /\
  exists turns', is_Some (fst (gathered_get_non_blocking turns' keys w)).
Proof.
  assert (Hends : exists turns', is_Some (fst (gathered_get_non_blocking turns' keys w))).
  { destruct (gather_completes (get_coroutines keys) w) as [turns' Hs]. exists turns'. unfold gathered_get_non_blocking.
    destruct (gather turns' _ w) as [[[[e|rs]|] ps] w1]; [by eexists| |by destruct Hs]. destruct (run _ w1). by eexists. }
  unfold gathered_get_non_blocking. pose proof (gathered_got turns keys w) as Hg.
  destruct (gather turns _ w) as [[out ps] w1]. destruct Hg as (Hst & Hgr & Hno & Hgot).
  destruct out as [[e|rs]|]; [by destruct (Hno e)| |by split_and!].
  specialize (Hgot rs eq_refl). destruct (run_collect_got to_string self keys rs w w1 Hgot) as (ls & w' & -> & Hc).
  pose proof Hc as (Hst' & Hgr' & _). split_and!; [done|done|done| |done].
  intros ? [= <-]. exists rs. split; [by apply (ga_length _ _ _ _ _ _ Hgot)|done].
Qed.
End batch.

(** ** Witness *)

(** Two readers of the same key and one of a missing key take turns. *)
Definition demo_get_turns : list nat := concat (replicate 40 [0%nat; 1%nat; 2%nat]).

Lemma gathered_get_non_blocking_sound_witness :
  exists ls w', gathered_get_non_blocking demo_str demo_connector demo_get_turns ["k"; "k"; "z"] reader_world = (Some (inr ls), w') /\
    length ls = 2%nat /\ NoDup ls /\ exists l, ls !! 1%nat = Some l /\ holds demo_str demo_connector (store (w_client reader_world)) "k" l w'.
Proof.
  pose proof (gathered_get_non_blocking_sound demo_str demo_connector demo_frombuffer_ok demo_get_turns ["k"; "k"; "z"] reader_world) as Hs.
  assert (El : match fst (gathered_get_non_blocking demo_str demo_connector demo_get_turns ["k"; "k"; "z"] reader_world) with
    Some (inr ls) => length ls | _ => 0%nat end = 2%nat) by (vm_compute; reflexivity).
  destruct (gathered_get_non_blocking _ _ _ _ _) as [out w']. destruct Hs as (_ & _ & _ & Hls & _). cbn [fst] in El.
  destruct out as [[e|ls]|]; [discriminate| |discriminate]. exists ls, w'. split; [reflexivity|]. split; [exact El|].
  destruct (Hls ls eq_refl) as (rs & _ & _ & _ & Hnd & Hhit & _). split; [exact Hnd|].
  destruct (lookup_lt_is_Some_2 ls 1) as [l Hl]; [rewrite El; lia|]. exists l. split; [exact Hl|].
  destruct (Hhit _ _ Hl) as (_ & k & [= <-] & _ & _ & Hh). exact Hh.
Defined.
