(* ===== verification/StoragePlugin.v ===== *)
(** * The storage plugin ([storage_plugin.py])

    The lookups, reads and background puts of [AerospikeStoragePlugin] over the engine.  The set
    [_put_tasks] is part of the state next to the world; [batched_submit_put_task] adds the keys
    and queues [_put_all], which one executor thread runs.  Allocation is LMCache's
    [AdHocMemoryAllocator]; pin, unpin, remove and [get_blocking] are the engine's operations. *)

From S2P Require Import Prelude Errors Config Limits Keys Crc32 Runtime Policies Metrics Serde Engine.
From S2P Require Import ClientSpec Concrete Store GetFacts PutFacts KeyOps Ownership Connector.

(** ** Allocation *)

Section allocation.
(** The allocator made in [__init__], and the backend of the caller's machine if there is one. *)
Context {A B : Type} (_allocator : A) (local_cpu_backend : option B) (plugin : B).

Definition initialize_allocator (config metadata : dict) : A := _allocator.

Definition get_memory_allocator : A := _allocator.

Definition get_allocator_backend : B :=
  match local_cpu_backend with Some b => b | None => plugin end.

(** [allocate], on the plugin's allocator; [eviction] and [busy_loop] are dropped. *)
Definition allocate (shapes : list (list Z)) (dtypes : list string) (fmt : string) (eviction busy_loop : bool)
    : prog ev (option loc) :=
  trigger (MemAllocate (mkMemSpec shapes dtypes fmt)).

(** [batched_allocate], over the one of the allocator. *)
Definition batched_allocate {R : Type} (allocator_batched_allocate : A -> MemSpec -> Z -> R)
    (shapes : list (list Z)) (dtypes : list string) (batch_size : Z) (fmt : string) (eviction busy_loop : bool) : R :=
  allocator_batched_allocate _allocator (mkMemSpec shapes dtypes fmt) batch_size.

Definition calculate_chunk_budget : Z := 0.
End allocation.

(** ** [_MetadataBridge]: the connector that only lends its metadata stores nothing *)

Definition bridge_exists {CK} (key : CK) : bool := false.
Definition bridge_exists_sync {CK} (key : CK) : bool := false.
Definition bridge_get {CK} (key : CK) : option loc := None.
Definition bridge_put {CK} (key : CK) (memory_obj : loc) : unit := tt.
Definition bridge_list : list string := [].
Definition bridge_close : unit := tt.

(** ** Lookups, reads and puts *)

Section operations.
Context {CK : Type} `{Countable CK} (to_string : CK -> string) `{Env} (self : Engine).
Context {C : Type} `{AerospikeClient C}.

Definition get_blocking (key : CK) : prog ev (option loc) := get to_string self key None.

Definition plugin_pin (key : CK) : prog ev bool := Engine.pin to_string self key.

Definition plugin_unpin (key : CK) : prog ev bool := unpin to_string self key.

Definition plugin_remove (key : CK) (force : bool) : prog ev bool := remove to_string self key.

Definition touch_cache : unit := tt.

Definition contains (key : CK) (pin : bool) : prog ev bool :=
  if pin then
    let! here := exists_ to_string self key in
    if here then Engine.pin to_string self key ;; Ret true else exists_ to_string self key
  else exists_ to_string self key.

Definition plugin_batched_async_contains (keys : list CK) (pin : bool) : prog ev Z :=
  let! count := batched_contains to_string self keys in
  if pin && (count >? 0) then
    pin_keys to_string self (take (Z.to_nat count) keys) ;; Ret count
  else Ret count.

(** The loop of the plugin's [batched_get_non_blocking]. *)
Fixpoint get_until_miss (keys : list CK) (memory_objs : list loc) : prog ev (list loc) :=
  match keys with
  | [] => Ret memory_objs
  | key :: keys =>
      let! mo := get to_string self key None in
      match mo with
      | None => Ret memory_objs
      | Some mo => get_until_miss keys (memory_objs ++ [mo])
      end
  end.

Definition plugin_batched_get_non_blocking (keys : list CK) : prog ev (list loc) :=
  get_until_miss keys [].

(** The world and [_put_tasks]. *)
Abbreviation plugin_state := (world C * gset CK)%type.

Definition exists_in_put_tasks (key : CK) (s : plugin_state) : bool := bool_decide (key ∈ snd s).

(** The loop of [_put_all] over [zip(keys_list, objs, strict=True)]; the [finally] clause runs
    on both exits. *)
Fixpoint _put_all (on_complete_callback : option (CK -> prog ev unit)) (keys : list CK)
    (objs : list loc) (s : plugin_state) : result unit * plugin_state :=
  match keys, objs with
  | [], [] => (inr tt, s)
  | key :: keys, obj :: objs =>
      let '(r, w) := run (put to_string self key obj false ;;
        match on_complete_callback with Some f => f key | None => Ret tt end) (fst s) in
      let s := (w, snd s ∖ {[key]}) in
      match r with
      | inr _ => _put_all on_complete_callback keys objs s
      | inl e => (inl e, s)
      end
  | _, _ => (inl (Py ValueError), s)
  end.

(** [batched_submit_put_task], and its job once the executor has run it. *)
Definition batched_submit_put_task (keys : list CK) (s : plugin_state) : plugin_state :=
  (fst s, snd s ∪ list_to_set keys).

Definition put_job (callback : option (CK -> prog ev unit)) (keys : list CK) (objs : list loc)
    (s : plugin_state) : result unit * plugin_state :=
  _put_all callback keys objs (batched_submit_put_task keys s).
End operations.

Section plugin.
Context {C : Type} `{AerospikeClient C} `{!ClientSpec C} `{Env}.
Context {CK : Type} `{Countable CK} (to_string : CK -> string) `{!Inj (=) (=) to_string} (self : Engine).
Implicit Types (w : world C) (k : CK) (l : loc).

Abbreviation entry := (Store.entry to_string self).
Abbreviation st w := (store (w_client w)).

(** ** Background puts *)

Definition entry_is (w0 w : world C) k l : Prop :=
  exists m, w_heap w0 !! l = Some m /\ entry (st w) k = Some (byte_array m).

Lemma put_one k l w :
  target_ok self -> is_Some (w_heap w !! l) ->
  let '(r, w') := run (put to_string self k l false ;; Ret tt) w in
  w_heap w' = w_heap w /\ (forall k', k' <> k -> entry (st w') k' = entry (st w) k') /\
  (r = inr tt -> entry_is w w' k l).
Proof.
  intros Ht [m Hm]. rewrite run_bind. pose proof (run_put to_string self k l false w m Hm Ht) as Hp.
  destruct (run (put _ _ _ _ _) w) as [[e|[]] w']; destruct Hp as [(Eh & Hfr & Hd & Hok) _]; cbn [run].
  - split_and!; [done| |done]. intros k' Hne. by apply entry_frame_other with (ck := k).
  - split_and!; [done| |].
    + intros k' Hne. by apply entry_frame_other with (ck := k).
    + intros _. exists m. split; [done|]. by eapply stored_entry, Hok.
Qed.

(** What a run of [_put_all] has done when it ends: [n] keys were taken off the set. *)
Definition put_all_post (keys : list CK) (objs : list loc) (w : world C) (T : gset CK)
    (r : result unit) (w' : world C) (T' : gset CK) : Prop :=
  w_heap w' = w_heap w /\ exists n, (n <= length keys)%nat /\
    T' = T ∖ list_to_set (take n keys) /\
    (forall k, k ∉ take n keys -> entry (st w') k = entry (st w) k) /\
    (r = inr tt -> n = length keys /\ length objs = n) /\
    (forall i k l, (S i < n \/ (r = inr tt /\ i < n))%nat -> keys !! i = Some k -> objs !! i = Some l ->
       entry_is w w' k l).

Lemma run_put_all (Ht : target_ok self) keys : forall objs w (T : gset CK),
  NoDup keys -> Forall (fun l => is_Some (w_heap w !! l)) objs ->
  let '(r, (w', T')) := _put_all to_string self None keys objs (w, T) in
  put_all_post keys objs w T r w' T'.
Proof.
  induction keys as [|k keys IH]; intros objs w T Hnd Hobjs.
  - assert (Hbase : forall r, (r = inr tt -> objs = []) -> put_all_post [] objs w T r w T).
    { intros r Hr. split; [done|]. exists 0%nat. split_and!; [done|set_solver|done| |done].
      by intros E; rewrite (Hr E). }
    destruct objs as [|l objs]; by apply Hbase.
  - inversion Hnd as [|? ? Hk Hnd']; subst. destruct objs as [|l objs].
    { split; [done|]. exists 0%nat. split_and!; [lia|set_solver|done|done|intros; lia]. }
    inversion Hobjs as [|? ? Hl Hobjs']; subst. cbn [_put_all fst snd].
    pose proof (put_one k l w Ht Hl) as Hone. destruct (run _ w) as [[e|[]] w1];
      destruct Hone as (Hh & Hother & Hst).
    { split; [done|]. exists 1%nat. cbn [take length]. rewrite take_0.
      split_and!; [lia|set_solver| |done|intros; destruct_or?; [lia|by destruct_and?]].
      intros k' Hk'. apply Hother. set_solver. }
    assert (Hobjs1 : Forall (fun l => is_Some (w_heap w1 !! l)) objs) by (by rewrite Hh).
    pose proof (IH objs w1 (T ∖ {[k]}) Hnd' Hobjs1) as Hrest.
    destruct (_put_all _ _ _ keys objs _) as [r [w' T']].
    destruct Hrest as (Hh' & n & Hn & HT & Hout & Hr & Hin). split; [congruence|].
    exists (S n). cbn [take length]. split_and!.
    + lia.
    + rewrite HT, list_to_set_cons. set_solver.
    + intros k' [Hne Hk']%not_elem_of_cons. rewrite Hout by done. by apply Hother.
    + intros E. destruct (Hr E). lia.
    + intros [|i] k' l' Hi Hk' Hl'; simpl in Hk', Hl'.
      * simplify_eq. destruct (Hst eq_refl) as (m & Hm & He). exists m. split; [done|].
        rewrite Hout; [done|]. intros Hin'%elem_of_take. destruct Hin' as (j & Hj & _).
        by apply Hk, (list_elem_of_lookup_2 _ j).
      * destruct (Hin i k' l') as (m & Hm & He); [|done|done|].
        { destruct Hi as [Hi|[? Hi]]; [left; lia|right; split; [done|lia]]. }
        exists m. by rewrite <- Hh.
Qed.

(** A job of [batched_submit_put_task] for different keys, under any fault.  When it succeeds,
    every key has its payload as entry and none is a put task of the plugin any more.  When it
    fails at some key, the keys before it are stored, the keys after it keep their entries, and
    they remain put tasks although nothing will store them. *)
Theorem put_job_spec (keys : list CK) (objs : list loc) (w : world C) (T : gset CK) :
  target_ok self -> NoDup keys -> Forall (fun l => is_Some (w_heap w !! l)) objs ->
  let '(r, s') := put_job to_string self None keys objs (w, T) in
  match r with
  | inr _ =>
      length keys = length objs /\
      (forall i k l, keys !! i = Some k -> objs !! i = Some l ->
         entry_is w (fst s') k l /\ exists_in_put_tasks k s' = false) /\
      (forall k, k ∉ keys -> entry (st (fst s')) k = entry (st w) k /\
         exists_in_put_tasks k s' = exists_in_put_tasks k (w, T))
  | inl e =>
      exists n, (n <= length keys)%nat /\
      (forall i k l, (S i < n)%nat -> keys !! i = Some k -> objs !! i = Some l -> entry_is w (fst s') k l) /\
      (forall i k, (n <= i)%nat -> keys !! i = Some k ->
         entry (st (fst s')) k = entry (st w) k /\ exists_in_put_tasks k s' = true)
  end.
Proof.
  intros Ht Hnd Hobjs. unfold put_job, batched_submit_put_task, exists_in_put_tasks. cbn [fst snd].
  pose proof (run_put_all Ht keys objs w (T ∪ list_to_set keys) Hnd Hobjs) as Hrun.
  destruct (_put_all _ _ _ _ _ _) as [r [w' T']]. destruct Hrun as (Hh & n & Hn & -> & Hout & Hr & Hin).
  cbn [fst snd]. destruct r as [e|[]].
  - exists n. split_and!; [done|by intros; eapply Hin; eauto|]. intros i k Hi Hk.
    assert (Hnk : k ∉ take n keys).
    { intros (j & Hj & Hlt)%elem_of_take. pose proof (NoDup_lookup keys i j k Hnd Hk Hj). lia. }
    split; [by apply Hout|]. apply bool_decide_eq_true. apply list_elem_of_lookup_2 in Hk. set_solver.
  - destruct (Hr eq_refl) as [-> Hlen]. rewrite firstn_all in *. split_and!; [done|..].
    + intros i k l Hk Hl. split.
      * eapply (Hin i); [right; split; [done|by eapply lookup_lt_Some]|done..].
      * apply bool_decide_eq_false. apply list_elem_of_lookup_2 in Hk. set_solver.
    + intros k Hk. split; [by apply Hout|]. apply bool_decide_ext. set_solver.
Qed.
(** ** [contains] *)

(** [contains], pinning or not, changes no entry, answers true only for keys with a meta
    record and raises none of the client's exceptions, whatever the cluster does; on a healthy
    cluster it answers exactly whether the record is there. *)
Theorem contains_spec (key : CK) (do_pin : bool) (w : world C) :
  let '(r, w') := run (contains to_string self key do_pin) w in
  (forall k, entry (st w') k = entry (st w) k) /\
  (r = inr true -> present to_string self (st w) key) /\
  (forall e, r = inl e -> not_client e) /\
  (client_constants -> config_ok (cfg self) -> healthy (w_client w) -> 0 <= capacity (w_client w) ->
     r = inr (bool_decide (present to_string self (st w) key))).
Proof.
  assert (Hplain : forall w1 : world C, let '(r, w') := run (exists_ to_string self key) w1 in
    st w' = st w1 /\ (r = inr true -> present to_string self (st w1) key) /\
    (forall e, r = inl e -> not_client e) /\
    (healthy (w_client w1) -> steady w1 w' /\ r = inr (bool_decide (present to_string self (st w1) key)))).
  { intros w1. pose proof (run_exists to_string self key w1) as Hx. destruct (run _ w1). tauto. }
  unfold contains. pose proof (Hplain w) as Hx. destruct do_pin.
  2:{ destruct (run _ w) as [r w']. destruct Hx as (Hst & Hp & He & Hh). rewrite Hst.
      split_and!; [done..|]. intros _ _ Hw _. by apply Hh. }
  rewrite run_bind. destruct (run (exists_ _ _ _) w) as [[e|here] w1]; destruct Hx as (Hst & Hp & He & Hh).
  { rewrite Hst. split_and!; [done..|]. intros _ _ Hw _. by apply Hh. }
  destruct here.
  - rewrite run_bind. pose proof (run_pin to_string self key w1) as Hpin.
    destruct (run (Engine.pin _ _ _) w1) as [[e|b] w2]; destruct Hpin as (Hpo & _ & He2 & Hh2); rewrite Hst in *; cbn.
    + split_and!; [intros k; by apply pin_only_entry|done|by intros ? [= <-]; apply He2|].
      intros Hc Hok Hw Hcap. destruct (Hh Hw) as [[Hw1 Hc1] _].
      by specialize (Hh2 Hc Hok Hw1 ltac:(by rewrite Hc1)).
    + split_and!; [intros k; by apply pin_only_entry|by intros _; apply Hp|done|].
      intros _ _ _ _. by rewrite bool_decide_true by auto.
  - pose proof (Hplain w1) as Hx1. destruct (run _ w1) as [r w2]. destruct Hx1 as (Hst1 & Hp1 & He1 & Hh1).
    rewrite Hst1, Hst in *. split_and!; [done..|]. intros _ _ Hw _. apply Hh1. by apply Hh.
Qed.
End plugin.

(** ** [batched_get_non_blocking] *)

Section reads.
Context {C : Type} `{ClientSpec C} `{Env}.
Context {CK : Type} `{EqDecision CK} (to_string : CK -> string) (self : Engine)
  `{!EngineHooks C self} (Hbuf : frombuffer_ok).
#[local] Arguments Engine.get : simpl never.

Abbreviation st w := (store (w_client w)).
Abbreviation get k := (Engine.get to_string self k None).
Abbreviation gathered := (gathered to_string self).

Lemma run_get_until_miss keys : forall acc (w : world C),
  let '(out, w') := run (get_until_miss to_string self keys acc) w in
  exists ls tail, let rs := (((fun l => inr (Some l)) : loc -> result (option loc)) <$> ls) ++ tail in
    (length rs <= length keys)%nat /\ gathered (take (length rs) keys) rs w w' /\
    match out with
    | inr res => res = acc ++ ls /\ ((tail = [] /\ length ls = length keys) \/ tail = [inr None])
    | inl e => tail = [inl e]
    end.
Proof.
  induction keys as [|k keys IH]; intros acc w; cbn [get_until_miss].
  - exists [], []. cbn. rewrite app_nil_r. split_and!; [done|apply gathered_nil|done|by left].
  - rewrite run_bind. destruct (run (get k) w) as [r w1] eqn:E.
    assert (Hone : forall r', r' = r -> gathered (take 1 (k :: keys)) [r'] w w1).
    { intros r' ->. cbn [take]. rewrite take_0. by eapply (gathered_cons to_string self Hbuf _ _ _ _ _ _ _ E), gathered_nil. }
    destruct r as [e|[l|]].
    + exists [], [inl e]. cbn. split_and!; [lia|by apply Hone|done].
    + specialize (IH (acc ++ [l]) w1). destruct (run _ w1) as [out w'].
      destruct IH as (ls & tail & Hle & Hg & Hout). exists (l :: ls), tail.
      cbn [fmap list_fmap app length take]. split_and!; [lia|by eapply (gathered_cons to_string self Hbuf)|].
      destruct out as [e|res]; [done|]. destruct Hout as [-> Hend]. split; [by rewrite <- app_assoc|].
      destruct Hend as [[-> Hl]| ->]; [left; by rewrite Hl|by right].
    + exists [], [inr None]. cbn. rewrite app_nil_r. split_and!; [lia|by apply Hone|done|by right].
Qed.

(** The plugin's [batched_get_non_blocking] returns the objects of the keys before the first
    miss, in order: each is a new object, held by the caller, that starts with the payload of its
    key.  If the [get] of some key raises, so does the call, and the objects it had for the keys
    before stay allocated: nobody releases them. *)
Theorem plugin_get_non_blocking_spec (keys : list CK) (w : world C) :
  let '(out, w') := run (plugin_batched_get_non_blocking to_string self keys) w in
  st w' = st w /\ heap_grows w w' /\
  match out with
  | inr ls =>
      (forall i l, ls !! i = Some l -> exists k, keys !! i = Some k /\ w_heap w !! l = None /\
         downs w' l = 0%nat /\ holds to_string self (st w) k l w') /\
      (forall k, keys !! length ls = Some k -> exists w1, st w1 = st w /\ fst (run (get k) w1) = inr None)
  | inl e =>
      exists ls k w1, keys !! length ls = Some k /\ st w1 = st w /\ fst (run (get k) w1) = inl e /\
        NoDup ls /\ forall l, l ∈ ls -> w_heap w !! l = None /\ is_Some (w_heap w' !! l) /\ downs w' l = 0%nat
  end.
Proof.
  unfold plugin_batched_get_non_blocking. pose proof (run_get_until_miss keys [] w) as Hr.
  destruct (run _ w) as [out w']. destruct Hr as (ls & tail & Hle & Hg & Hout).
  split_and!; [apply (ga_store _ _ _ _ _ _ Hg)|apply (ga_grows _ _ _ _ _ _ Hg)|].
  rewrite length_app, length_fmap in Hle.
  set (rs := _ ++ tail) in Hg.
  assert (Hlen : length rs = (length ls + length tail)%nat) by (unfold rs; by rewrite length_app, length_fmap).
  assert (Hls : forall i l, ls !! i = Some l -> rs !! i = Some (inr (Some l)))
    by (intros i l Hi; apply lookup_app_l_Some; by rewrite list_lookup_fmap, Hi).
  assert (Htail : forall r, tail = [r] -> rs !! length ls = Some r)
    by (intros r ->; unfold rs; rewrite lookup_app_r by (by rewrite length_fmap);
        by rewrite length_fmap, Nat.sub_diag).
  assert (Htake : forall i k, (i < length ls + length tail)%nat -> keys !! i = Some k ->
    take (length rs) keys !! i = Some k) by (intros i k Hi Hk; rewrite Hlen; by rewrite lookup_take_lt).
  assert (Hkey : forall i l, ls !! i = Some l -> exists k, keys !! i = Some k /\ w_heap w !! l = None /\
         downs w' l = 0%nat /\ holds to_string self (st w) k l w').
  { intros i l Hi. pose proof (lookup_lt_Some _ _ _ Hi) as Hlt.
    destruct (lookup_lt_is_Some_2 keys i) as [k Hk]; [lia|]. exists k. split; [done|].
    apply (ga_hit _ _ _ _ _ _ Hg i k l); [apply Htake; [lia|done]|by apply Hls]. }
  destruct out as [e|res].
  - subst tail. destruct (lookup_lt_is_Some_2 keys (length ls)) as [k Hk]; [simpl in Hle; lia|].
    destruct (ga_run _ _ _ _ _ _ Hg (length ls) k (inl e)) as (w1 & Hw1 & E);
      [apply Htake; [simpl; lia|done]|by apply Htail|].
    exists ls, k, w1. split_and!; [done..| |].
    + apply NoDup_alt. intros i j l Hi Hj. by eapply (ga_distinct _ _ _ _ _ _ Hg); apply Hls.
    + intros l [i Hi]%list_elem_of_lookup. destruct (Hkey i l Hi) as (? & _ & Hn & Hd & Hh).
      split_and!; [done|by eapply holds_alloc|done].
  - destruct Hout as [-> Hend]. split; [exact Hkey|]. intros k Hk.
    destruct Hend as [[-> Hl]| ->].
    + apply lookup_lt_Some in Hk. simpl in Hk. lia.
    + apply (ga_run _ _ _ _ _ _ Hg (length ls) k (inr None)); [apply Htake; [simpl; lia|done]|by apply Htail].
Qed.
End reads.

(** ** Witnesses *)

(** The segments of ["k"] are stored and its meta record is refused: ["z"] is never put. *)
Lemma put_job_spec_witness :
  exists e s', put_job demo_str demo_engine None ["k"; "z"] [0%nat; 0%nat]
      (demo_world ∅ 65536 [Served; Refused FServer] [demo_source], ∅) = (inl e, s') /\
    exists_in_put_tasks "z" s' = true.
Proof.
  set (w0 := demo_world ∅ 65536 [Served; Refused FServer] [demo_source]).
  assert (Ht : target_ok demo_engine) by (vm_compute; reflexivity).
  assert (Hnd : NoDup ["k"; "z"]) by (apply (bool_decide_unpack _); vm_compute; exact I).
  assert (Ho : Forall (fun l => is_Some (w_heap w0 !! l)) [0%nat; 0%nat])
    by (repeat constructor; eexists; vm_compute; reflexivity).
  pose proof (put_job_spec demo_str demo_engine ["k"; "z"] [0%nat; 0%nat] w0 ∅ Ht Hnd Ho) as Hj.
  destruct (put_job _ _ _ _ _ _) as [[e|u] s'] eqn:E.
  - exists e, s'. split; [reflexivity|]. destruct Hj as (n & Hn & _ & Hrest).
    assert (Hz : exists_in_put_tasks "z" (snd (put_job demo_str demo_engine None ["k"; "z"]
      [0%nat; 0%nat] (w0, ∅))) = true) by (vm_compute; reflexivity).
    rewrite E in Hz. exact Hz.
  - exfalso. assert (Hf : (match fst (put_job demo_str demo_engine None ["k"; "z"]
      [0%nat; 0%nat] (w0, ∅)) with inl _ => true | inr _ => false end) = true) by (vm_compute; reflexivity).
    rewrite E in Hf. discriminate.
Defined.

Lemma plugin_get_non_blocking_spec_witness :
  exists w', run (plugin_batched_get_non_blocking demo_str demo_connector ["k"; "z"; "k"]) reader_world =
      (inr [1%nat], w') /\
    holds demo_str demo_connector (store (w_client reader_world)) "k" 1 w'.
Proof.
  pose proof (plugin_get_non_blocking_spec demo_str demo_connector demo_frombuffer_ok
    ["k"; "z"; "k"] reader_world) as Hs.
  destruct (run _ _) as [out w'] eqn:E. assert (Eo : out = inr [1%nat]).
  { transitivity (fst (run (plugin_batched_get_non_blocking demo_str demo_connector ["k"; "z"; "k"]) reader_world)).
    - by rewrite E.
    - vm_compute. reflexivity. }
  subst out. exists w'. split; [reflexivity|]. destruct Hs as (_ & _ & Hh & _).
  destruct (Hh 0%nat 1%nat eq_refl) as (k & [= <-] & _ & _ & Hk). exact Hk.
Defined.

Lemma contains_spec_witness :
  fst (run (contains demo_str demo_engine "k" true) demo_after) = inr true /\
  entry demo_str demo_engine
    (store (w_client (snd (run (contains demo_str demo_engine "k" true) demo_after)))) "k" =
  entry demo_str demo_engine (store (w_client demo_after)) "k".
Proof.
  pose proof (contains_spec demo_str demo_engine "k" true demo_after) as Hc.
  destruct (run _ _) as [r w']. destruct Hc as (He & _ & _ & Hh). split; [|apply He].
  cbn [fst]. rewrite Hh;
    [vm_compute; reflexivity|apply demo_client_constants|apply demo_config_ok|
     vm_compute; reflexivity|vm_compute; discriminate].
Defined.
