(* ===== verification/StorageTasks.v ===== *)
(** * The put tasks of the storage plugin ([storage_plugin.py])

    [_put_tasks] under any number of background jobs.  LMCache submits keys, directly or through
    [async_batched_submit_put_task], which queues the submission on the same executor; the
    executor's threads run the jobs, one [put] at a time and in any order; [close] shuts the
    executor down, after which queued jobs still run and new ones are refused.  The submissions have no
    callback ([StoragePlugin.put_job] has one). *)

From S2P Require Import Prelude Errors Config Limits Keys Crc32 Runtime Policies Metrics Serde Engine.
From S2P Require Import ClientSpec Concrete Store GetFacts PutFacts KeyOps Connector StoragePlugin.

Section system.
Context {CK : Type} `{Countable CK} (to_string : CK -> string) `{Env} (self : Engine).
Context {C : Type} `{AerospikeClient C}.

(** What the executor runs: [_put_all] with what is left of its lists, or the lambda of
    [async_batched_submit_put_task]. *)
Inductive put_work :=
| PutAll (keys : list CK) (objs : list loc)
| SubmitLater (keys : list CK) (objs : list loc).

Record Plugin := mkPlugin {
  pl_world : world C;
  pl_tasks : gset CK;
  pl_jobs : list put_work;
  pl_up : bool
}.

Inductive plugin_call :=
| SubmitPut (keys : list CK) (objs : list loc)
| AsyncSubmitPut (keys : list CK) (objs : list loc)
| StepJob (i : nat)
| ShutdownExecutor.

Inductive plugin_answer :=
| Queued
| RefusedPut (keys : list CK) (e : exc)
| Stored (key : CK)
| EndedPut (rest : list CK) (r : result unit)
| Nothing.

Definition start_plugin (w : world C) : Plugin := mkPlugin w ∅ [] true.

(** [batched_submit_put_task]: the keys are marked before the executor is asked. *)
Definition submit_put (keys : list CK) (objs : list loc) (s : Plugin) : plugin_answer * Plugin :=
  let '(w, T) := StoragePlugin.batched_submit_put_task keys (pl_world s, pl_tasks s) in
  if pl_up s then (Queued, mkPlugin w T (pl_jobs s ++ [PutAll keys objs]) (pl_up s))
  else (RefusedPut keys (Py RuntimeError), mkPlugin w T (pl_jobs s) (pl_up s)).

(** [async_batched_submit_put_task] *)
Definition async_submit_put (keys : list CK) (objs : list loc) (s : Plugin) : plugin_answer * Plugin :=
  if pl_up s then
    (Queued, mkPlugin (pl_world s) (pl_tasks s) (pl_jobs s ++ [SubmitLater keys objs]) (pl_up s))
  else (RefusedPut [] (Py RuntimeError), s).

Definition drop_job (i : nat) (s : Plugin) : Plugin :=
  mkPlugin (pl_world s) (pl_tasks s) (delete i (pl_jobs s)) (pl_up s).

(** The next [put] of job [i], with its [finally] clause, or the job's end. *)
Definition step_job (i : nat) (s : Plugin) : plugin_answer * Plugin :=
  match pl_jobs s !! i with
  | None => (Nothing, s)
  | Some (SubmitLater keys objs) => submit_put keys objs (drop_job i s)
  | Some (PutAll [] []) => (EndedPut [] (inr tt), drop_job i s)
  | Some (PutAll (key :: keys) (obj :: objs)) =>
      let '(r, w) := run (put to_string self key obj false) (pl_world s) in
      let T := pl_tasks s ∖ {[key]} in
      match r with
      | inr _ => (Stored key, mkPlugin w T (<[i := PutAll keys objs]> (pl_jobs s)) (pl_up s))
      | inl e => (EndedPut keys (inl e), mkPlugin w T (delete i (pl_jobs s)) (pl_up s))
      end
  | Some (PutAll keys _) => (EndedPut keys (inl (Py ValueError)), drop_job i s)
  end.

Definition plugin_perform (c : plugin_call) (s : Plugin) : plugin_answer * Plugin :=
  match c with
  | SubmitPut keys objs => submit_put keys objs s
  | AsyncSubmitPut keys objs => async_submit_put keys objs s
  | StepJob i => step_job i s
  | ShutdownExecutor => (Nothing, mkPlugin (pl_world s) (pl_tasks s) (pl_jobs s) false)
  end.

Fixpoint plugin_exec (calls : list plugin_call) (s : Plugin) : list plugin_answer * Plugin :=
  match calls with
  | [] => ([], s)
  | c :: calls =>
      let '(a, s) := plugin_perform c s in
      let '(tr, s) := plugin_exec calls s in (a :: tr, s)
  end.
End system.
Arguments put_work : clear implicits.
Arguments plugin_call : clear implicits.
Arguments plugin_answer : clear implicits.
Arguments Plugin CK {_ _} C.

(** ** Where a marked key is *)

Section accounts.
Context {CK : Type} `{Countable CK}.

(** The keys a job will still take off the set. *)
Definition pending (j : put_work CK) : list CK := match j with PutAll keys _ => keys | SubmitLater _ _ => [] end.

Definition pending_keys (js : list (put_work CK)) : list CK := concat (pending <$> js).

(** The keys nobody will take off the set any more. *)
Definition lost (a : plugin_answer CK) : list CK :=
  match a with
  | RefusedPut keys _ => keys
  | EndedPut rest (inl _) => rest
  | _ => []
  end.

Definition lost_keys (tr : list (plugin_answer CK)) : list CK := concat (lost <$> tr).

(** The keys of a call. *)
Definition call_keys (c : plugin_call CK) : list CK :=
  match c with SubmitPut keys _ | AsyncSubmitPut keys _ => keys | _ => [] end.

(** The keys a job holds, marked or to be marked. *)
Definition job_keys (j : put_work CK) : list CK := match j with PutAll keys _ | SubmitLater keys _ => keys end.
End accounts.

Section perms.
Context {A B : Type} (f : A -> list B).

Lemma concat_take_out i x : forall l, l !! i = Some x -> concat (f <$> l) ≡ₚ f x ++ concat (f <$> delete i l).
Proof.
  induction i as [|i IH]; intros [|y l] Hi; try done; cbn in *; [by injection Hi as ->|].
  rewrite (IH l Hi), !app_assoc. by rewrite (Permutation_app_comm (f y)).
Qed.

Lemma concat_replace i x y : forall l, l !! i = Some x ->
  concat (f <$> <[i := y]> l) ≡ₚ f y ++ concat (f <$> delete i l).
Proof.
  induction i as [|i IH]; intros [|z l] Hi; try done; cbn in *.
  rewrite (IH l Hi), !app_assoc. by rewrite (Permutation_app_comm (f z)).
Qed.

Lemma concat_snoc l x : concat (f <$> (l ++ [x])) = concat (f <$> l) ++ f x.
Proof. rewrite fmap_app, concat_app. cbn. by rewrite app_nil_r. Qed.
End perms.

Section theorems.
Context {C : Type} `{AerospikeClient C} `{!ClientSpec C} `{Env}.
Context {CK : Type} `{Countable CK} (to_string : CK -> string) `{!Inj (=) (=) to_string} (self : Engine).
Implicit Types (s : Plugin CK C).

Abbreviation perform := (plugin_perform to_string self (C := C)).
Abbreviation exec := (plugin_exec to_string self (C := C)).
Abbreviation entry_is := (entry_is to_string self).

(** Every mark has an owner. *)
Definition marks_owned (tr : list (plugin_answer CK)) s : Prop :=
  forall k, k ∈ pl_tasks s -> k ∈ pending_keys (pl_jobs s) \/ k ∈ lost_keys tr.

Lemma submit_marks keys objs tr s : marks_owned tr s ->
  let '(a, s') := submit_put keys objs s in marks_owned (tr ++ [a]) s'.
Proof.
  intros Hm. unfold submit_put, marks_owned, pending_keys, lost_keys. cbn.
  destruct (pl_up s); cbn; intros k [Hk|Hk%elem_of_list_to_set]%elem_of_union;
    rewrite ?concat_snoc, ?elem_of_app; try (by destruct (Hm k Hk); auto); auto.
Qed.

Lemma perform_marks c tr s : marks_owned tr s ->
  let '(a, s') := perform c s in marks_owned (tr ++ [a]) s'.
Proof.
  intros Hm. assert (Hsame : forall a s', pl_tasks s' = pl_tasks s -> pl_jobs s' = pl_jobs s -> marks_owned (tr ++ [a]) s').
  { intros a s' Et Ej k. rewrite Et, Ej. intros Hk. unfold lost_keys. rewrite concat_snoc, elem_of_app.
    destruct (Hm k Hk); auto. }
  destruct c as [keys objs|keys objs|i|]; cbn [plugin_perform].
  - by apply submit_marks.
  - unfold async_submit_put. destruct (pl_up s); [|by apply Hsame].
    intros k Hk. unfold pending_keys, lost_keys. cbn. rewrite !concat_snoc, !elem_of_app.
    destruct (Hm k Hk); auto.
  - unfold step_job. destruct (pl_jobs s !! i) as [j|] eqn:Ej; [|by apply Hsame].
    assert (Hmj : forall k, k ∈ pl_tasks s -> k ∈ pending j \/
      k ∈ pending_keys (delete i (pl_jobs s)) \/ k ∈ lost_keys tr).
    { intros k Hk. destruct (Hm k Hk) as [Hp|]; [|auto]. unfold pending_keys in Hp.
      rewrite (concat_take_out pending i j _ Ej), elem_of_app in Hp. unfold pending_keys. tauto. }
    destruct j as [[|key keys] [|obj objs]|keys objs]; cbn [pending] in Hmj.
    + intros k Hk. unfold lost_keys. rewrite concat_snoc, elem_of_app. destruct (Hmj k Hk) as [?%elem_of_nil|[?|?]]; auto. done.
    + intros k Hk. unfold lost_keys. rewrite concat_snoc, elem_of_app. destruct (Hmj k Hk) as [?%elem_of_nil|[?|?]]; auto. done.
    + intros k Hk. unfold lost_keys. rewrite concat_snoc, elem_of_app. destruct (Hmj k Hk) as [?|[?|?]]; auto.
    + destruct (run _ _) as [[e|[]] w]; intros k; unfold lost_keys; rewrite concat_snoc, elem_of_app; cbn;
        intros [Hk Hne%not_elem_of_singleton]%elem_of_difference;
        destruct (Hmj k Hk) as [[?|?]%elem_of_cons|[?|?]]; try done; auto.
      * left. unfold pending_keys. rewrite (concat_replace pending i _ _ _ Ej), elem_of_app. auto.
      * left. unfold pending_keys. rewrite (concat_replace pending i _ _ _ Ej), elem_of_app. auto.
    + apply submit_marks. intros k Hk. cbn. destruct (Hmj k Hk) as [?%elem_of_nil|?]; [done|auto].
  - by apply Hsame.
Qed.

Lemma exec_marks calls : forall tr s, marks_owned tr s ->
  let '(tr', s') := exec calls s in marks_owned (tr ++ tr') s'.
Proof.
  induction calls as [|c calls IH]; intros tr s Hm; cbn [plugin_exec]; [by rewrite app_nil_r|].
  pose proof (perform_marks c tr s Hm) as Hp. destruct (perform c s) as [a s1]. specialize (IH _ s1 Hp).
  destruct (exec calls s1) as [tr' s2]. by rewrite <- app_assoc in IH.
Qed.

(** ** Keys submitted once *)

(** The object a key is submitted with; it exists. *)
Definition goes_with (w0 : world C) (obj_of : CK -> option loc) (keys : list CK) (objs : list loc) : Prop :=
  forall i k o, keys !! i = Some k -> objs !! i = Some o -> obj_of k = Some o /\ is_Some (w_heap w0 !! o).

Definition job_goes (w0 : world C) obj_of (j : put_work CK) : Prop :=
  match j with PutAll keys objs | SubmitLater keys objs => goes_with w0 obj_of keys objs end.

Definition call_goes (w0 : world C) obj_of (c : plugin_call CK) : Prop :=
  match c with SubmitPut keys objs | AsyncSubmitPut keys objs => goes_with w0 obj_of keys objs | _ => True end.

Definition held s : list CK := concat (job_keys <$> pl_jobs s).

Record once (w0 : world C) (obj_of : CK -> option loc) (tr : list (plugin_answer CK)) s (future : list CK) : Prop := {
  on_nodup : NoDup (held s ++ future);
  on_marked : forall k, k ∈ pending_keys (pl_jobs s) -> k ∈ pl_tasks s;
  on_heap : w_heap (pl_world s) = w_heap w0;
  on_jobs : Forall (job_goes w0 obj_of) (pl_jobs s);
  on_stored : forall k, Stored k ∈ tr -> k ∉ held s ++ future /\ k ∉ pl_tasks s /\
    exists l, obj_of k = Some l /\ entry_is w0 (pl_world s) k l
}.

(** A step that runs no [put]: the answer is no [Stored], no key is new. *)
Lemma once_quiet w0 obj_of tr s s' a future future' :
  once w0 obj_of tr s future ->
  (forall k, a <> Stored k) -> pl_world s' = pl_world s -> Forall (job_goes w0 obj_of) (pl_jobs s') ->
  NoDup (held s' ++ future') -> (forall k, k ∈ held s' ++ future' -> k ∈ held s ++ future) ->
  (forall k, k ∈ pending_keys (pl_jobs s') -> k ∈ pl_tasks s') ->
  (forall k, k ∈ pl_tasks s' -> k ∈ pl_tasks s \/ k ∈ held s ++ future) ->
  once w0 obj_of (tr ++ [a]) s' future'.
Proof.
  intros [Hnd Hm Hh Hj Hs] Ha Hw Hj' Hnd' Hin Hm' Ht. split; [done|done|by rewrite Hw|done|].
  intros k Hk. apply elem_of_app in Hk as [Hk|Hk%list_elem_of_singleton]; [|by destruct (Ha k)].
  destruct (Hs k Hk) as (Hno & Hnt & Hl). rewrite Hw. split_and!; [|by intros [?|?]%Ht|done].
  intros Hk'. apply Hno. by apply Hin.
Qed.

Lemma submit_once w0 obj_of tr s keys objs future :
  once w0 obj_of tr s (keys ++ future) -> goes_with w0 obj_of keys objs ->
  let '(a, s') := submit_put keys objs s in once w0 obj_of (tr ++ [a]) s' future.
Proof.
  intros Ho Hg. pose proof Ho as [Hnd Hm Hh Hj Hs]. unfold submit_put. cbn.
  destruct (pl_up s).
  - apply (once_quiet _ _ _ s _ _ (keys ++ future)); try done; cbn.
    + apply Forall_app. split; [done|]. apply Forall_cons. by split; [|constructor].
    + unfold held. cbn. rewrite concat_snoc. by rewrite <- app_assoc.
    + intros k. unfold held. cbn. rewrite concat_snoc. by rewrite <- app_assoc.
    + intros k. unfold pending_keys. cbn. rewrite concat_snoc, elem_of_app, elem_of_union, elem_of_list_to_set.
      intros [Hk|Hk]; [left; by apply Hm|by right].
    + intros k [?|?%elem_of_list_to_set]%elem_of_union; [by left|]. rewrite !elem_of_app. auto.
  - apply (once_quiet _ _ _ s _ _ (keys ++ future)); try done; cbn.
    + rewrite (Permutation_app_comm keys), app_assoc in Hnd. by apply NoDup_app in Hnd as (? & _).
    + intros k. unfold held. cbn. rewrite !elem_of_app. tauto.
    + intros k Hk. apply elem_of_union. left. by apply Hm.
    + intros k [?|?%elem_of_list_to_set]%elem_of_union; [by left|]. rewrite !elem_of_app. auto.
Qed.

Lemma put_step k l (w : world C) :
  target_ok self -> is_Some (w_heap w !! l) ->
  let '(r, w') := run (put to_string self k l false) w in
  w_heap w' = w_heap w /\
  (forall k' w0 l', k' <> k -> entry_is w0 w k' l' -> entry_is w0 w' k' l') /\
  (r = inr tt -> entry_is w w' k l).
Proof.
  intros Ht Hm. pose proof (put_one to_string self k l w Ht Hm) as Hp. rewrite run_bind in Hp.
  destruct (run (put to_string self k l false) w) as [[e|[]] w']; cbn [run] in Hp; destruct Hp as (Hh & Hfr & Hok);
    (split_and!; [done| |done]); intros k' w0 l' Hne (m & Hm' & He); exists m; by rewrite Hfr.
Qed.

Lemma pending_held (k : CK) (js : list (put_work CK)) : k ∈ pending_keys js -> k ∈ concat (job_keys <$> js).
Proof.
  unfold pending_keys. induction js as [|[ks os|ks os] js IH]; cbn; [done|..]; rewrite ?elem_of_app; tauto.
Qed.

Lemma Forall_replace {A} (P : A -> Prop) i y l : Forall P (delete i l) -> P y -> Forall P (<[i := y]> l).
Proof.
  revert i. induction l as [|x l IH]; intros [|i]; cbn; try done.
  - intros Hl Hy. by constructor.
  - intros [Hx Hl]%Forall_cons Hy. constructor; [done|]. by apply IH.
Qed.

(** Keys a call does not put are as good as gone. *)
Lemma once_less w0 obj_of tr s a keys future :
  once w0 obj_of tr s (keys ++ future) -> (forall k, a <> Stored k) -> once w0 obj_of (tr ++ [a]) s future.
Proof.
  intros Ho Ha. pose proof Ho as [Hnd Hm Hh Hj Hs]. apply (once_quiet _ _ _ s _ _ (keys ++ future)); auto.
  - rewrite (Permutation_app_comm keys), app_assoc in Hnd. by apply NoDup_app in Hnd as (? & _).
  - intros k. rewrite !elem_of_app. tauto.
Qed.

Lemma async_submit_once w0 obj_of tr s keys objs future :
  once w0 obj_of tr s (keys ++ future) -> goes_with w0 obj_of keys objs ->
  let '(a, s') := async_submit_put keys objs s in once w0 obj_of (tr ++ [a]) s' future.
Proof.
  intros Ho Hg. pose proof Ho as [Hnd Hm Hh Hj Hs]. unfold async_submit_put. destruct (pl_up s).
  - apply (once_quiet _ _ _ s _ _ (keys ++ future)); try done; cbn.
    + apply Forall_app. split; [done|]. apply Forall_cons. by split; [|constructor].
    + unfold held. cbn. rewrite concat_snoc. by rewrite <- app_assoc.
    + intros k. unfold held. cbn. rewrite concat_snoc. by rewrite <- app_assoc.
    + intros k. unfold pending_keys. cbn. rewrite concat_snoc, app_nil_r. apply Hm.
    + auto.
  - by apply (once_less _ _ _ _ _ keys).
Qed.

(** A job taken out: its keys are in hand. *)
Lemma once_drop w0 obj_of tr s i j future :
  once w0 obj_of tr s future -> pl_jobs s !! i = Some j ->
  once w0 obj_of tr (drop_job i s) (job_keys j ++ future).
Proof.
  intros [Hnd Hm Hh Hj Hs] Ej.
  pose proof (concat_take_out job_keys i j _ Ej) as Hheld. fold (held s) in Hheld.
  split; unfold held; cbn.
  - rewrite Hheld in Hnd. by rewrite app_assoc, (Permutation_app_comm _ (job_keys j)).
  - intros k Hk. apply Hm. unfold pending_keys. rewrite (concat_take_out pending i j _ Ej). apply elem_of_app. by right.
  - done.
  - by apply Forall_delete.
  - intros k Hk. destruct (Hs k Hk) as (Hno & Hnt & Hl). split_and!; [|done|done]. rewrite Hheld in Hno. set_solver.
Qed.

(** The put of a key in hand, which leaves the set on both exits. *)
Lemma once_put (Ht : target_ok self) w0 obj_of tr s key obj rest :
  once w0 obj_of tr s (key :: rest) -> obj_of key = Some obj -> is_Some (w_heap w0 !! obj) ->
  let '(r, w) := run (put to_string self key obj false) (pl_world s) in
  let s' := mkPlugin w (pl_tasks s ∖ {[key]}) (pl_jobs s) (pl_up s) in
  once w0 obj_of tr s' rest /\ (r = inr tt -> once w0 obj_of (tr ++ [Stored key]) s' rest).
Proof.
  intros [Hnd Hm Hh Hj Hs] Hobj Hex. rewrite <- Hh in Hex.
  pose proof (put_step key obj (pl_world s) Ht Hex) as Hp.
  destruct (run (put to_string self key obj false) (pl_world s)) as [r w]. destruct Hp as (Hh' & Hkeep & Hok). cbv zeta.
  assert (Hnd' : NoDup (key :: held s ++ rest)) by by rewrite (Permutation_middle (held s) rest key).
  apply NoDup_cons in Hnd' as [Hkey Hnd'].
  assert (Hs' : forall k, Stored k ∈ tr -> k ∉ held s ++ rest /\ k ∉ pl_tasks s ∖ {[key]} /\
    exists l, obj_of k = Some l /\ entry_is w0 w k l).
  { intros k Hk. destruct (Hs k Hk) as (Hno & Hnt & l & Hl & He). split_and!; [set_solver|set_solver|].
    exists l. split; [done|]. apply Hkeep; [set_solver|done]. }
  assert (Hm' : forall k, k ∈ pending_keys (pl_jobs s) -> k ∈ pl_tasks s ∖ {[key]}).
  { intros k Hk. apply elem_of_difference. split; [by apply Hm|]. intros ->%elem_of_singleton. apply Hkey, elem_of_app.
    left. revert Hk. by apply pending_held. }
  split; [split; cbn; [done|done|congruence|done|exact Hs']|]. intros Hr.
  split; cbn; [done|done|congruence|done|].
  intros k [Hk|[= ->]%list_elem_of_singleton]%elem_of_app; [by apply Hs'|]. split_and!; [done|set_solver|].
  exists obj. split; [done|]. destruct (Hok Hr) as (m & Hm0 & He). exists m. by rewrite <- Hh.
Qed.

(** What is left of a job goes back in its place. *)
Lemma once_requeue w0 obj_of tr s i j keys objs w T future :
  pl_jobs s !! i = Some j ->
  once w0 obj_of tr (mkPlugin w T (delete i (pl_jobs s)) (pl_up s)) (keys ++ future) ->
  goes_with w0 obj_of keys objs -> (forall k, k ∈ keys -> k ∈ T) ->
  once w0 obj_of tr (mkPlugin w T (<[i := PutAll keys objs]> (pl_jobs s)) (pl_up s)) future.
Proof.
  intros Ej [Hnd Hm Hh Hj Hs] Hg Hk.
  assert (Hheld : held (mkPlugin w T (<[i:=PutAll keys objs]> (pl_jobs s)) (pl_up s)) ≡ₚ
    concat (job_keys <$> delete i (pl_jobs s)) ++ keys).
  { unfold held. cbn. rewrite (concat_replace job_keys i _ _ _ Ej). apply Permutation_app_comm. }
  unfold held in Hnd, Hs. cbn in Hnd, Hm, Hh, Hj, Hs. split; cbn.
  - by rewrite Hheld, <- app_assoc.
  - intros k Hp. unfold pending_keys in Hp. rewrite (concat_replace pending i _ _ _ Ej) in Hp.
    apply elem_of_app in Hp as [Hp|Hp]; auto.
  - done.
  - by apply Forall_replace.
  - intros k Hst. by rewrite Hheld, <- app_assoc; apply Hs.
Qed.

Lemma step_once (Ht : target_ok self) w0 obj_of tr s i future :
  once w0 obj_of tr s future ->
  let '(a, s') := step_job to_string self i s in once w0 obj_of (tr ++ [a]) s' future.
Proof.
  intros Ho. unfold step_job.
  destruct (pl_jobs s !! i) as [j|] eqn:Ej; [|by apply (once_less _ _ _ _ _ [])].
  pose proof (once_drop _ _ _ _ _ _ _ Ho Ej) as Hd. pose proof (Forall_lookup_1 _ _ _ _ (on_jobs _ _ _ _ _ Ho) Ej) as Hg.
  destruct j as [[|key keys] [|obj objs]|keys objs]; try (by apply (once_less _ _ _ _ _ _ _ Hd)); [|by apply submit_once].
  destruct (Hg 0%nat key obj eq_refl eq_refl) as [Hobj Hex].
  pose proof (once_put Ht _ _ _ _ _ _ _ Hd Hobj Hex) as Hp. cbn [drop_job pl_world pl_tasks pl_jobs pl_up] in Hp.
  destruct (run (put to_string self key obj false) (pl_world s)) as [[e|[]] w]; cbv zeta in Hp; destruct Hp as [Hp Hst].
  - by apply (once_less _ _ _ _ _ keys).
  - apply (once_requeue _ _ _ _ _ _ _ _ _ _ _ Ej); [by apply Hst|intros n; exact (Hg (S n))|].
    intros k Hk. apply elem_of_difference. split.
    + apply (on_marked _ _ _ _ _ Ho). unfold pending_keys. rewrite (concat_take_out pending i _ _ Ej). set_solver.
    + intros ->%elem_of_singleton. pose proof (on_nodup _ _ _ _ _ Hd) as Hnd.
      apply NoDup_app in Hnd as (_ & _ & Hnd). cbn in Hnd. apply NoDup_cons in Hnd as [Hnd _]. set_solver.
Qed.

Lemma perform_once (Ht : target_ok self) w0 obj_of tr s c future :
  once w0 obj_of tr s (call_keys c ++ future) -> call_goes w0 obj_of c ->
  let '(a, s') := perform c s in once w0 obj_of (tr ++ [a]) s' future.
Proof.
  intros Ho Hg. destruct c as [keys objs|keys objs|i|]; cbn [plugin_perform call_keys call_goes] in *.
  - by apply submit_once.
  - by apply async_submit_once.
  - by apply step_once.
  - apply (once_quiet _ _ _ s _ _ future); destruct Ho; auto; done.
Qed.

Lemma exec_once (Ht : target_ok self) w0 obj_of calls : forall tr s,
  once w0 obj_of tr s (concat (call_keys <$> calls)) -> Forall (call_goes w0 obj_of) calls ->
  let '(tr', s') := exec calls s in once w0 obj_of (tr ++ tr') s' [].
Proof.
  induction calls as [|c calls IH]; intros tr s Ho Hg; cbn [plugin_exec]; [by rewrite app_nil_r|].
  apply Forall_cons in Hg as [Hc Hg]. pose proof (perform_once Ht w0 obj_of tr s c _ Ho Hc) as Hp.
  destruct (perform c s) as [a s1]. specialize (IH _ s1 Hp Hg).
  destruct (exec calls s1) as [tr' s2]. by rewrite <- app_assoc in IH.
Qed.

(** C16: for every history of submissions (direct and queued), executor steps in any order and
    shutdown, a key in [_put_tasks] is still to be put by a queued job, or belongs to a submission
    the executor refused or to a job that ended in an exception (those keys stay marked).  When no
    key is submitted twice, every key a job still has to put is marked, and a key whose [put]
    succeeded is off the set and holds its object's bytes, whatever the other jobs did. *)
Theorem put_tasks_accounted calls (w : world C) :
  target_ok self ->
  let '(tr, s) := exec calls (start_plugin w) in
  (forall k, k ∈ pl_tasks s -> k ∈ pending_keys (pl_jobs s) \/ k ∈ lost_keys tr) /\
  (forall obj_of, NoDup (concat (call_keys <$> calls)) -> Forall (call_goes w obj_of) calls ->
    (forall k, k ∈ pending_keys (pl_jobs s) -> k ∈ pl_tasks s) /\
    w_heap (pl_world s) = w_heap w /\
    forall k, Stored k ∈ tr ->
      k ∉ pl_tasks s /\ exists l, obj_of k = Some l /\ entry_is w (pl_world s) k l).
Proof.
  intros Ht. pose proof (exec_marks calls [] (start_plugin w)) as Hm.
  pose proof (fun f => exec_once Ht w f calls [] (start_plugin w)) as Ho.
  destruct (exec calls _) as [tr s]. split; [by apply Hm|].
  intros obj_of Hnd Hg. destruct (Ho obj_of) as [_ Hp Hh _ Hs]; [|done|].
  { split; [done|by intros k ?%elem_of_nil|done|by constructor|by intros k ?%elem_of_nil]. }
  split_and!; [done|done|]. intros k Hk. by apply Hs.
Qed.
End theorems.

(** ** Witness and the histories that leave marks *)

Definition demo_puts : list (plugin_call string) :=
  [AsyncSubmitPut ["k"] [0%nat]; SubmitPut ["j"] [1%nat]; StepJob 0; StepJob 1; ShutdownExecutor; StepJob 0].

Definition demo_objects (k : string) : option loc := if decide (k = "k") then Some 0%nat else Some 1%nat.

Definition demo_put_objects : world MemClient :=
  demo_world ∅ 65536 [] [demo_source; buffer false (lit "ABC")].

Lemma put_tasks_accounted_witness :
  let '(tr, s) := plugin_exec demo_str demo_engine demo_puts (start_plugin demo_put_objects) in
  "k" ∉ pl_tasks s /\ "j" ∉ pl_tasks s /\
  entry_is demo_str demo_engine demo_put_objects (pl_world s) "k" 0 /\
  entry_is demo_str demo_engine demo_put_objects (pl_world s) "j" 1.
Proof.
  pose proof (put_tasks_accounted demo_str demo_engine demo_puts demo_put_objects
    ltac:(vm_compute; reflexivity)) as Ha.
  assert (E : fst (plugin_exec demo_str demo_engine demo_puts (start_plugin demo_put_objects)) =
    [Queued; Queued; Queued; Stored "k"; Nothing; Stored "j"]) by (vm_compute; reflexivity).
  destruct (plugin_exec _ _ _ _) as [tr s]. simpl in E. subst tr.
  destruct Ha as [_ Ha]. destruct (Ha demo_objects) as (_ & _ & Hs).
  - apply (bool_decide_unpack _). vm_compute. exact I.
  - repeat first [apply Forall_nil; exact I|apply Forall_cons; split]; try exact I; intros [|i] k o; cbn;
      try discriminate; intros [= <-] [= <-]; (split; [reflexivity|eexists; vm_compute; reflexivity]).
  - destruct (Hs "k" ltac:(set_solver)) as (Hk & l & [= <-] & Hek).
    destruct (Hs "j" ltac:(set_solver)) as (Hj & l & [= <-] & Hej). done.
Defined.

(** A key submitted twice loses its mark at the first [put], while the second is still queued. *)
Lemma double_submission_unmarks :
  let s := snd (plugin_exec demo_str demo_engine [SubmitPut ["k"] [0%nat]; SubmitPut ["k"] [1%nat]; StepJob 0]
    (start_plugin demo_put_objects)) in
  "k" ∈ pending_keys (pl_jobs s) /\ "k" ∉ pl_tasks s.
Proof.
  cbv zeta. set (p := plugin_exec _ _ _ _).
  assert (Ej : pl_jobs (snd p) = [PutAll [] []; PutAll ["k"] [1%nat]]) by (vm_compute; reflexivity).
  assert (Et : bool_decide ("k" ∈ pl_tasks (snd p)) = false) by (vm_compute; reflexivity).
  rewrite Ej. split; [clear; set_solver|by apply bool_decide_eq_false in Et].
Qed.

(** A submission queued before [close] and run after it marks its keys, then is refused: the keys
    stay in [_put_tasks] with no job left. *)
Lemma late_submission_leaks :
  let '(tr, s) := plugin_exec demo_str demo_engine [AsyncSubmitPut ["k"] [0%nat]; ShutdownExecutor; StepJob 0]
    (start_plugin demo_put_objects) in
  tr = [Queued; Nothing; RefusedPut ["k"] (Py RuntimeError)] /\ "k" ∈ pl_tasks s /\ pl_jobs s = [].
Proof.
  set (p := plugin_exec _ _ _ _).
  assert (E : fst p = [Queued; Nothing; RefusedPut ["k"] (Py RuntimeError)]) by (vm_compute; reflexivity).
  assert (Ej : pl_jobs (snd p) = []) by (vm_compute; reflexivity).
  assert (Et : bool_decide ("k" ∈ pl_tasks (snd p)) = true) by (vm_compute; reflexivity).
  apply bool_decide_eq_true in Et. by destruct p.
Qed.
