(* ===== verification/ParallelChunks.v ===== *)
(** * Chunked execution ([_parallel_chunks] of [l2_plugin.py])

    The chunks of a task run on a pool; each future belongs to a chunk index and the results are
    put back in the order of the items.  [order] is the order in which the futures complete; the
    chunks take effect in that order.  [run_parallel_chunks] lifts what is known of one chunk to
    the whole task, for every completion order. *)

From S2P Require Import Prelude Errors Crc32 Keys Runtime.

(** [self._batch_executor]: the order in which the futures of a task complete, or shut down. *)
Inductive batch_pool := Running (order : list nat) | Shutdown.

Section operations.
Context {T : Type} (fn : list T -> prog ev (list bool)).

(** The futures, each with how its chunk ended. *)
Definition run_chunks (order : list nat) (cs : list (list T))
    : prog ev (list (nat * result (list bool))) :=
  traverse (fun idx => let! r := attempt (fn (default [] (cs !! idx))) in Ret (idx, r)) order.

(** The loop over [as_completed(futures)]: [fut.result()] raises what the chunk raised. *)
Fixpoint fill_ordered (completed : list (nat * result (list bool)))
    (ordered : list (option (list bool))) : result (list (option (list bool))) :=
  match completed with
  | [] => inr ordered
  | (_, inl e) :: _ => inl e
  | (idx, inr part) :: completed => fill_ordered completed (<[idx := Some part]> ordered)
  end.

(** The last loop: [assert part is not None] and [out.extend(part)]. *)
Fixpoint extend_parts (ordered : list (option (list bool))) : result (list bool) :=
  match ordered with
  | [] => inr []
  | None :: _ => inl (Py AssertionError)
  | Some part :: ordered => let? out := extend_parts ordered in inr (part ++ out)
  end.

(** After its shutdown the pool takes no chunk: [submit] raises [RuntimeError]. *)
Definition _parallel_chunks (pool : batch_pool) (items : list T) (chunk_size : nat)
    : prog ev (list bool) :=
  if (length items <=? chunk_size)%nat then fn items
  else
    let cs := chunks chunk_size items in
    if (length cs =? 1)%nat then fn items
    else
      match pool with
      | Shutdown => Raise (Py RuntimeError)
      | Running order =>
          let! completed := run_chunks order cs in
          let! ordered := lift (fill_ordered completed (replicate (length cs) None)) in
          lift (extend_parts ordered)
      end.
End operations.

(** ** The pool *)

Lemma chunks_not_one {A} n (l : list A) : (0 < n < length l)%nat -> (length (chunks n l) =? 1)%nat = false.
Proof.
  intros Hn. apply Nat.eqb_neq. intros E. pose proof (chunks_concat n l ltac:(lia)) as Hc.
  destruct (chunks n l) as [|c [|c' cs]] eqn:Ec; try done.
  assert (Hlen : (length c <= n)%nat) by (apply (chunks_bound n l); rewrite Ec; apply list_elem_of_here).
  cbn in Hc. rewrite app_nil_r in Hc. subst c. lia.
Qed.

(** Few items run on the thread of the job; many need the pool. *)
Lemma parallel_chunks_small {T} (fn : list T -> prog ev (list bool)) pool items n :
  (length items <= n)%nat -> _parallel_chunks fn pool items n = fn items.
Proof. intros Hlen. unfold _parallel_chunks. by rewrite (proj2 (Nat.leb_le _ _) Hlen). Qed.

Lemma parallel_chunks_shutdown {T} (fn : list T -> prog ev (list bool)) items n :
  (0 < n < length items)%nat -> _parallel_chunks fn Shutdown items n = Raise (Py RuntimeError).
Proof.
  intros Hlen. unfold _parallel_chunks. rewrite (proj2 (Nat.leb_gt _ _)) by lia.
  by rewrite chunks_not_one by done.
Qed.

(** A completion order of [n] futures. *)
Definition completes (order : list nat) (n : nat) : Prop :=
  NoDup order /\ forall i, i ∈ order <-> (i < n)%nat.

Lemma completes_seq n : completes (seq 0 n) n.
Proof. split; [apply NoDup_seq|]. intros i. rewrite elem_of_seq. lia. Qed.

(** ** Putting the parts together *)

Lemma fill_ordered_lookup completed : forall ordered out,
  NoDup (fst <$> completed) -> fill_ordered completed ordered = inr out ->
  length out = length ordered /\
  (forall i, i ∉ fst <$> completed -> out !! i = ordered !! i) /\
  (forall i r, (i, r) ∈ completed -> (i < length ordered)%nat ->
     exists part, r = inr part /\ out !! i = Some (Some part)).
Proof.
  induction completed as [|[i [e|part]] completed IH]; intros ordered out Hnd; simpl.
  - intros [= <-]. split_and!; [done|done|]. by intros i r ?%not_elem_of_nil.
  - done.
  - inversion Hnd as [|? ? Hi Hnd']; subst. intros Hf.
    destruct (IH _ _ Hnd' Hf) as (Hlen & Hout & Hin). rewrite length_insert in *. split_and!; [done|..].
    + intros j [Hne Hj]%not_elem_of_cons. rewrite Hout by done. by rewrite list_lookup_insert_ne.
    + intros j r [[= -> ->]|Hj]%elem_of_cons Hlt; [|by apply Hin]. exists part. split; [done|].
      rewrite Hout by done. by apply list_lookup_insert_eq.
Qed.

Lemma extend_parts_concat parts : extend_parts (Some <$> parts) = inr (concat parts).
Proof. induction parts as [|p parts IH]; [done|]. cbn [fmap list_fmap extend_parts]. by rewrite IH. Qed.

Lemma all_some {A} (l : list (option A)) :
  (forall i o, l !! i = Some o -> is_Some o) -> exists parts, l = Some <$> parts.
Proof.
  induction l as [|o l IH]; intros Hl; [by exists []|].
  destruct (Hl 0%nat o eq_refl) as [x ->]. destruct IH as [xs ->]; [by intros i; apply (Hl (S i))|].
  by exists (x :: xs).
Qed.

Lemma fill_ordered_cases completed : forall ordered,
  (exists i e, (i, inl e) ∈ completed /\ fill_ordered completed ordered = inl e) \/
  exists out, fill_ordered completed ordered = inr out.
Proof.
  induction completed as [|[i [e|part]] completed IH]; intros ordered; simpl.
  - right. by exists ordered.
  - left. exists i, e. by split; [left|].
  - destruct (IH (<[i := Some part]> ordered)) as [(j & e & Hj & E)|Hok]; [left|by right].
    exists j, e. by split; [right|].
Qed.

(** Every slot has been filled when all futures have completed. *)
Lemma fill_ordered_all completed n ordered :
  completes (fst <$> completed) n -> fill_ordered completed (replicate n None) = inr ordered ->
  length ordered = n /\ forall i o, ordered !! i = Some o ->
    exists part, o = Some part /\ (i, inr part) ∈ completed.
Proof.
  intros [Hnd Hall] Ef. destruct (fill_ordered_lookup _ _ _ Hnd Ef) as (Hlen & _ & Hin).
  rewrite length_replicate in Hlen. split; [done|]. intros i o Hi.
  pose proof (lookup_lt_Some _ _ _ Hi) as Hlt. assert (Hc : i ∈ fst <$> completed) by (apply Hall; lia).
  apply list_elem_of_fmap in Hc as ([j r] & -> & Hc).
  destruct (Hin _ _ Hc) as (part & -> & Hp); [by rewrite length_replicate; simpl in *; lia|].
  simpl in Hi. rewrite Hi in Hp. injection Hp as ->. by exists part.
Qed.

Lemma extend_filled completed n ordered :
  completes (fst <$> completed) n -> fill_ordered completed (replicate n None) = inr ordered ->
  exists parts, ordered = Some <$> parts.
Proof.
  intros Hord Ef. destruct (fill_ordered_all completed n ordered Hord Ef) as [_ Hin].
  apply all_some. intros i o Hi. destruct (Hin i o Hi) as (part & -> & _). by eexists.
Qed.

(** Whatever the order of completion, the parts end up in the order of the chunks. *)
Lemma assemble completed n out :
  completes (fst <$> completed) n ->
  (let? ordered := fill_ordered completed (replicate n None) in extend_parts ordered) = inr out ->
  exists parts, length parts = n /\ out = concat parts /\
    forall i part, parts !! i = Some part -> (i, inr part) ∈ completed.
Proof.
  intros Hord. destruct (fill_ordered _ _) as [e|ordered] eqn:Ef; [done|].
  destruct (fill_ordered_all _ _ _ Hord Ef) as [Hlen Hin].
  destruct (extend_filled _ _ _ Hord Ef) as [parts ->]. rewrite length_fmap in Hlen.
  rewrite extend_parts_concat. intros [= <-]. exists parts. split_and!; [done|done|].
  intros i part Hi. destruct (Hin i (Some part)) as (? & [= <-] & Hc); [by rewrite list_lookup_fmap, Hi|done].
Qed.

Lemma concat_disjoint {A} (ls : list (list A)) : forall i j a b x,
  NoDup (concat ls) -> ls !! i = Some a -> ls !! j = Some b -> x ∈ a -> x ∈ b -> i = j.
Proof.
  induction ls as [|l ls IH]; intros i j a b x; [done|]. simpl. intros (Hl & Hd & Hls)%NoDup_app Hi Hj Ha Hb.
  assert (Hin : forall n c, ls !! n = Some c -> x ∈ c -> x ∈ concat ls)
    by (intros n c Hn; by eapply elem_of_concat, list_elem_of_lookup_2).
  destruct i as [|i], j as [|j]; simpl in *; simplify_eq; [done| | |f_equal; by eapply IH].
  - exfalso. by apply (Hd x Ha), (Hin j b).
  - exfalso. by apply (Hd x Hb), (Hin i a).
Qed.

Lemma Forall2_concat {A B} (R : A -> B -> Prop) (ls : list (list A)) (rs : list (list B)) :
  Forall2 (Forall2 R) ls rs -> Forall2 R (concat ls) (concat rs).
Proof. induction 1; simpl; [constructor|by apply Forall2_app]. Qed.

(** ** A task from its chunks *)

Section sound.
Context {C : Type} `{AerospikeClient C} `{Env} {T : Type} (fn : list T -> prog ev (list bool)).
(** An invariant of the task; what a chunk needs of each of its items; what a true answer
    says of an item. *)
Context (P : world C -> Prop) (pre good : T -> world C -> Prop) (items : list T).

Definition answers (c : list T) (w : world C) (rs : list bool) : Prop :=
  Forall2 (fun it (ok : bool) => ok = true -> good it w) c rs.

(** Items outside a set keep their status. *)
Definition kept (outside : T -> Prop) (w w' : world C) : Prop :=
  forall it, it ∈ items -> outside it -> (pre it w -> pre it w') /\ (good it w -> good it w').

Definition chunk_spec (c : list T) : Prop :=
  forall w, P w -> Forall (fun it => pre it w) c ->
  let '(r, w') := run (fn c) w in
  P w' /\ kept (fun it => it ∉ c) w w' /\ forall rs, r = inr rs -> answers c w' rs.

(** [r] is how [c] ends from some world of the task. *)
Definition chunk_ran (c : list T) (r : result (list bool)) : Prop :=
  exists w, P w /\ Forall (fun it => pre it w) c /\ fst (run (fn c) w) = r.

Lemma run_run_chunks (cs : list (list T)) :
  concat cs = items -> NoDup items -> Forall chunk_spec cs ->
  forall order w, NoDup order -> (forall i, i ∈ order -> (i < length cs)%nat) -> P w ->
  (forall i c, i ∈ order -> cs !! i = Some c -> Forall (fun it => pre it w) c) ->
  exists completed w', run (run_chunks fn order cs) w = (inr completed, w') /\
    fst <$> completed = order /\ P w' /\
    kept (fun it => forall i c, i ∈ order -> cs !! i = Some c -> it ∉ c) w w' /\
    (forall i rs c, (i, inr rs) ∈ completed -> cs !! i = Some c -> answers c w' rs) /\
    forall i r c, (i, r) ∈ completed -> cs !! i = Some c -> chunk_ran c r.
Proof.
  intros Hcs Hnd Hspec. assert (Hdis : forall i j a b x, cs !! i = Some a -> cs !! j = Some b ->
    x ∈ a -> x ∈ b -> i = j) by (intros; eapply concat_disjoint; [by rewrite Hcs|done..]).
  assert (Hin : forall i c x, cs !! i = Some c -> x ∈ c -> x ∈ items)
    by (intros i c x Hi; rewrite <- Hcs; by eapply elem_of_concat, list_elem_of_lookup_2).
  induction order as [|i order IH]; intros w Hno Hlt HP Hpre.
  { exists [], w. split_and!; [done|done|done|by intros it|by intros i rs c ?%not_elem_of_nil..]. }
  inversion Hno as [|? ? Hi Hno']; subst.
  destruct (lookup_lt_is_Some_2 cs i) as [c Hc]; [apply Hlt; by left|].
  unfold run_chunks. cbn [traverse]. rewrite !run_bind, run_attempt, Hc. change (default [] (Some c)) with c.
  pose proof (Hpre i c ltac:(by left) Hc) as Hprec.
  pose proof (proj1 (Forall_lookup _ _) Hspec i c Hc w HP Hprec) as Hone.
  destruct (run (fn c) w) as [r w1] eqn:Erun. destruct Hone as (HP1 & Hk1 & Hans). cbn [run fst snd]. rewrite run_bind.
  destruct (IH w1 Hno') as (completed & w' & Hrun & Hfst & HP' & Hk & Hall & Hran); [|done| |].
  { intros j Hj. apply Hlt. by right. }
  { intros j c' Hj Hc'. pose proof (Hpre j c' ltac:(by right) Hc') as Hf. rewrite Forall_forall in Hf |- *.
    intros it Hit. apply Hk1; [by eapply Hin| |by apply Hf]. intros Hit'.
    by rewrite (Hdis i j c c' it Hc Hc' Hit' Hit) in Hi. }
  unfold run_chunks in Hrun. rewrite Hrun. exists ((i, r) :: completed), w'. split_and!.
  - done.
  - cbn [fmap list_fmap fst]. by f_equal.
  - done.
  - intros it Hit Hout. destruct (Hk1 it Hit) as [Ha Hb]; [by apply (Hout i c); [left|]|].
    destruct (Hk it Hit) as [Ha' Hb']; [|by split; auto]. intros j c' Hj. apply Hout. by right.
  - intros j rs c' [[= -> <-]|Hj]%elem_of_cons Hc'; [|by eapply Hall].
    rewrite Hc in Hc'. injection Hc' as <-. eapply Forall2_impl_elem; [exact (Hans rs eq_refl)|].
    intros it ok Hit Hg Eok. apply Hk; [by eapply Hin| |by apply Hg].
    intros j' c' Hj' Hc' Hit'. by rewrite (Hdis i j' c c' it Hc Hc' Hit Hit') in Hi.
  - intros j r' c' [[= -> ->]|Hj]%elem_of_cons Hc'; [|by eapply Hran].
    rewrite Hc in Hc'. injection Hc' as <-. exists w. by rewrite Erun.
Qed.

(** Nothing of the task is lost when a chunk is run on its own. *)
Lemma run_parallel_chunks (order : list nat) (chunk_size : nat) (w : world C) :
  (0 < chunk_size)%nat -> NoDup items -> completes order (length (chunks chunk_size items)) ->
  chunk_spec items -> Forall chunk_spec (chunks chunk_size items) ->
  P w -> Forall (fun it => pre it w) items ->
  let '(r, w') := run (_parallel_chunks fn (Running order) items chunk_size) w in
  P w' /\ forall rs, r = inr rs -> answers items w' rs.
Proof.
  intros Hn Hnd Hord Hwhole Hspec HP Hpre. unfold _parallel_chunks.
  assert (Hone : let '(r, w') := run (fn items) w in P w' /\ forall rs, r = inr rs -> answers items w' rs).
  { pose proof (Hwhole w HP Hpre) as Hw. destruct (run (fn items) w) as [r w']. tauto. }
  destruct (length items <=? chunk_size)%nat; [done|].
  destruct (length (chunks chunk_size items) =? 1)%nat; [done|]. clear Hone. rewrite run_bind.
  set (cs := chunks chunk_size items) in *.
  assert (Hcs : concat cs = items) by by apply chunks_concat.
  destruct Hord as [Hno Hall].
  destruct (run_run_chunks cs Hcs Hnd Hspec order w Hno) as (completed & w' & -> & Hfst & HP' & _ & Hans & _);
    [intros i; by apply Hall|done| |].
  { intros i c _ Hi. rewrite Forall_forall in Hpre |- *. intros it Hit. apply Hpre. rewrite <- Hcs.
    by eapply elem_of_concat, Hit; eapply list_elem_of_lookup_2. }
  rewrite run_bind, run_lift.
  assert (Hasm : forall out, (let? ordered := fill_ordered completed (replicate (length cs) None) in
      extend_parts ordered) = inr out -> answers items w' out).
  { intros out Hout. destruct (assemble completed (length cs) out) as (parts & Hlen & -> & Hparts);
      [by rewrite Hfst|done|]. rewrite <- Hcs. apply Forall2_concat, Forall2_same_length_lookup.
    split; [done|]. intros i c part Hc Hp. apply (Hans i); [by apply Hparts|done]. }
  destruct (fill_ordered _ _) as [e|ordered]; [done|]. rewrite run_lift. split; [done|].
  intros rs Hrs. by apply Hasm.
Qed.

(** When the answers of a chunk are those of [g] from any world of the task, so are the task's. *)
Lemma run_parallel_chunks_exact (g : T -> bool) (order : list nat) (chunk_size : nat) (w : world C) :
  (0 < chunk_size)%nat -> NoDup items -> completes order (length (chunks chunk_size items)) ->
  Forall chunk_spec (chunks chunk_size items) ->
  (forall c r, c = items \/ c ∈ chunks chunk_size items -> chunk_ran c r -> r = inr (g <$> c)) ->
  P w -> Forall (fun it => pre it w) items ->
  fst (run (_parallel_chunks fn (Running order) items chunk_size) w) = inr (g <$> items).
Proof.
  intros Hn Hnd [Hno Hall] Hspec Hexact HP Hpre. unfold _parallel_chunks.
  assert (Hone : fst (run (fn items) w) = inr (g <$> items)) by (apply Hexact; [by left|by exists w]).
  destruct (length items <=? chunk_size)%nat; [done|].
  destruct (length (chunks chunk_size items) =? 1)%nat; [done|]. clear Hone. rewrite run_bind.
  set (cs := chunks chunk_size items) in *. assert (Hcs : concat cs = items) by by apply chunks_concat.
  destruct (run_run_chunks cs Hcs Hnd Hspec order w Hno) as (completed & w' & -> & Hfst & _ & _ & _ & Hran);
    [intros i; by apply Hall|done| |].
  { intros i c _ Hi. rewrite Forall_forall in Hpre |- *. intros it Hit. apply Hpre. rewrite <- Hcs.
    by eapply elem_of_concat, Hit; eapply list_elem_of_lookup_2. }
  assert (Hpart : forall i c r, (i, r) ∈ completed -> cs !! i = Some c -> r = inr (g <$> c))
    by (intros i c r Hi Hc; apply Hexact; [right; by eapply list_elem_of_lookup_2|by eapply Hran]).
  rewrite run_bind, run_lift. assert (Hord : completes (fst <$> completed) (length cs)) by by rewrite Hfst.
  destruct (fill_ordered_cases completed (replicate (length cs) None)) as [(i & e & Hi & _)|[ordered Ef]].
  { assert (Hlt : (i < length cs)%nat) by (apply Hall; rewrite <- Hfst; by apply (list_elem_of_fmap_2 fst _ _ Hi)).
    destruct (lookup_lt_is_Some_2 cs i Hlt) as [c Hc]. by specialize (Hpart i c (inl e) Hi Hc). }
  rewrite Ef, run_lift. cbn [fst].
  destruct (extend_filled _ _ _ Hord Ef) as [parts Eparts]. subst ordered. rewrite extend_parts_concat.
  f_equal. rewrite <- Hcs, fmap_concat. f_equal.
  destruct (fill_ordered_all _ _ _ Hord Ef) as [Hlen Hin]. rewrite length_fmap in Hlen.
  apply list_eq_same_length with (length cs); [by rewrite length_fmap|done|].
  intros i part y Hi Hp Hy. destruct (Hin i (Some part)) as (? & [= <-] & Hc); [by rewrite list_lookup_fmap, Hp|].
  rewrite list_lookup_fmap in Hy. destruct (cs !! i) as [c|] eqn:Ec; [|done]. injection Hy as <-.
  specialize (Hpart i c _ Hc Ec). congruence.
Qed.
End sound.

(** [_parallel_chunks] returns the answers in the order of the items, whatever the order in
    which the chunks complete: when every chunk returns, the result is the concatenation of the
    chunks' answers, and when one raises, the task raises what some chunk raised. *)
Theorem parallel_chunks_order (completed : list (nat * result (list bool)))
    (parts : list (result (list bool))) :
  completes (fst <$> completed) (length parts) ->
  (forall i r, (i, r) ∈ completed -> parts !! i = Some r) ->
  let assembled :=
    let? ordered := fill_ordered completed (replicate (length parts) None) in extend_parts ordered in
  match assembled with
  | inr out => exists oks, parts = inr <$> oks /\ out = concat oks
  | inl e => inl e ∈ parts
  end.
Proof.
  intros Hord Hparts assembled. destruct assembled as [e|out] eqn:Ea; unfold assembled in Ea.
  - destruct (fill_ordered_cases completed (replicate (length parts) None)) as [(i & e' & Hin & Ef)|Hok].
    + rewrite Ef in Ea. injection Ea as ->. apply (list_elem_of_lookup_2 _ i). by apply Hparts.
    + exfalso. destruct Hok as [ordered Ef]. rewrite Ef in Ea.
      destruct (extend_filled completed (length parts) ordered Hord Ef) as [oks ->].
      by rewrite extend_parts_concat in Ea.
  - destruct (assemble completed (length parts) out Hord Ea) as (oks & Hlen & -> & Hin).
    exists oks. split; [|done]. apply list_eq_same_length with (length parts); [by rewrite length_fmap|done|].
    intros i r r' Hi Hr Hr'. rewrite list_lookup_fmap in Hr'. destruct (oks !! i) as [part|] eqn:Ep; [|done].
    injection Hr' as <-. specialize (Hparts i (inr part) (Hin i part Ep)). congruence.
Qed.

Lemma parallel_chunks_order_witness :
  (let? ordered := fill_ordered [(1%nat, inr [false]); (0%nat, inr [true; false])] (replicate 2 None) in
   extend_parts ordered) = inr [true; false; false].
Proof.
  pose proof (parallel_chunks_order [(1%nat, inr [false]); (0%nat, inr [true; false])]
    [inr [true; false]; inr [false]]) as Hp.
  cbv zeta in Hp. destruct (let? ordered := _ in extend_parts ordered) as [e|out].
  - assert (Hin : @inl exc (list bool) e ∈ [inr [true; false]; inr [false]]).
    { apply Hp.
      - split; [apply (bool_decide_unpack _); vm_compute; exact I|].
        intros i. cbn. rewrite !elem_of_cons, elem_of_nil. lia.
      - intros i r [[= -> ->]|[[= -> ->]|H]%elem_of_cons]%elem_of_cons; [done|done|by apply not_elem_of_nil in H]. }
    rewrite !elem_of_cons, elem_of_nil in Hin. by destruct_or? Hin.
  - destruct Hp as (oks & E & ->).
    + split; [apply (bool_decide_unpack _); vm_compute; exact I|].
      intros i. cbn. rewrite !elem_of_cons, elem_of_nil. lia.
    + intros i r [[= -> ->]|[[= -> ->]|H]%elem_of_cons]%elem_of_cons; [done|done|by apply not_elem_of_nil in H].
    + destruct oks as [|a [|b [|c oks]]]; try discriminate. by injection E as <- <-.
Defined.
