(* ===== verification/Buffers.v ===== *)
(** * Reading into buffers of the caller

    [shapely p]: whatever the cluster answers, a run of [p] leaves every object with the storage,
    the view and the kind it had.  Every read of the engine into a buffer of the caller is shapely,
    so the buffer can be read into again. *)

From S2P Require Import Prelude PyStr Errors Sharding Config Limits Crc32 Keys.
From S2P Require Import Runtime Policies Metrics Serde Engine ClientSpec Store GetFacts Reads ParallelChunks.

Create HintDb shapely.

(** The same buffer with other contents. *)
Definition alike (m m' : memobj) : Prop :=
  length (mo_raw m') = length (mo_raw m) /\ mo_size m' = mo_size m /\ mo_tensor m' = mo_tensor m /\ mo_spec m' = mo_spec m.

#[export] Instance alike_preorder : PreOrder alike.
Proof. split; [by intros m|]. intros m1 m2 m3 (? & ? & ? & ?) (? & ? & ? & ?). unfold alike. split_and!; congruence. Qed.

Lemma alike_ok m m' : alike m m' -> mem_ok m -> mem_ok m'.
Proof. intros (Hr & Hs & _). unfold mem_ok. by rewrite Hr, Hs. Qed.

Lemma alike_room m m' : alike m m' -> room m' = room m.
Proof. intros (Hr & Hs & Ht & _). unfold room. by rewrite Hr, Hs, Ht. Qed.

Lemma alike_view m m' : alike m m' -> exact_view m -> exact_view m'.
Proof. intros Ha. unfold exact_view. rewrite (alike_room _ _ Ha). by destruct Ha as (_ & -> & _). Qed.

Lemma alike_store_at offset data m : (offset + length data <= length (mo_raw m))%nat -> alike m (store_at offset data m).
Proof. intros Hle. split_and!; [by apply length_splice|done..]. Qed.

Section shapely.
Context {C : Type} `{AerospikeClient C} `{!ClientSpec C} `{Env}.

Definition same_shapes (w w' : world C) : Prop :=
  forall l m, w_heap w !! l = Some m -> mem_ok m -> exists m', w_heap w' !! l = Some m' /\ alike m m'.

#[export] Instance same_shapes_preorder : PreOrder same_shapes.
Proof.
  split; [by intros w l m Hm _; exists m|]. intros w1 w2 w3 H1 H2 l m Hm Hok.
  destruct (H1 l m Hm Hok) as (m2 & Hm2 & Ha). destruct (H2 l m2 Hm2) as (m3 & Hm3 & Ha').
  { by eapply alike_ok. }
  exists m3. split; [done|]. by etrans.
Qed.

(** Every run of [p] stays in the preorder [R]. *)
Definition preserves (R : relation (world C)) {A} (p : prog ev A) : Prop := forall w, R w (snd (run p w)).

Section preserves.
Context (R : relation (world C)) `{!PreOrder R}.

Lemma preserves_ret {A} (a : A) : preserves R (Ret a).
Proof. intros w. cbn. reflexivity. Qed.

Lemma preserves_raise {A} e : preserves R (Raise e : prog ev A).
Proof. intros w. cbn. reflexivity. Qed.

Lemma preserves_bind {A B} (p : prog ev A) (f : A -> prog ev B) :
  preserves R p -> (forall a, preserves R (f a)) -> preserves R (bind p f).
Proof.
  intros Hp Hf w. rewrite run_bind. specialize (Hp w). destruct (run p w) as [[e|a] w1]; [done|].
  etrans; [exact Hp|apply Hf].
Qed.

Lemma preserves_attempt {A} (p : prog ev A) : preserves R p -> preserves R (attempt p).
Proof. intros Hp w. rewrite run_attempt. apply Hp. Qed.

Lemma preserves_lift {A} (r : result A) : preserves R (lift r).
Proof. intros w. rewrite run_lift. reflexivity. Qed.

Lemma preserves_timer {A} op (body : OpTimer -> prog ev (OpTimer * result A)) :
  (forall op label, preserves R (trigger (ObserveOp op label))) -> (forall t, preserves R (body t)) -> preserves R (with_timer op body).
Proof.
  intros Ho Hb. unfold with_timer. apply preserves_bind; [by apply preserves_attempt|].
  assert (Hobs : forall obs, preserves R (observe_all obs)).
  { intros obs. unfold observe_all. induction obs as [|o obs IH]; [apply preserves_ret|].
    cbn [foldr]. by apply preserves_bind. }
  intros [e|[t out]]; (apply preserves_bind; [done|]); intros _; [apply preserves_raise|apply preserves_lift].
Qed.

Lemma preserves_traverse {A B} (f : A -> prog ev B) l : (forall x, preserves R (f x)) -> preserves R (traverse f l).
Proof.
  intros Hf. induction l as [|x l IH]; cbn [traverse]; [apply preserves_ret|].
  apply preserves_bind; [done|]. intros y. apply preserves_bind; [done|]. intros ys. apply preserves_ret.
Qed.
End preserves.

(** Reads of records and objects, releases, and observations. *)
Definition shapely_event {X} (e : ev X) : Prop :=
  match e with MemStore _ _ _ | MemAllocate _ | MemReshape _ _ => False | _ => True end.

Abbreviation shapely := (preserves same_shapes).

Lemma shapely_trigger {X} (e : ev X) : shapely_event e -> shapely (trigger e).
Proof.
  intros He w. rewrite run_trigger. cbn [snd].
  assert (Hid : forall w', w_heap w' = w_heap w -> same_shapes w w') by (intros w' E l m; rewrite E; by exists m).
  destruct e; try done; try (apply Hid; cbn; unfold on_client; by repeat case_match).
  intros l' m Hm _. cbn. destruct (decide (l' = l)) as [->|Hne].
  - exists (ref_count_down m). split; [by apply on_mem_lookup|done].
  - exists m. split; [by rewrite lookup_alter_ne|done].
Qed.

(** No object changes. *)
Definition same_heap (w w' : world C) : Prop := w_heap w' = w_heap w.

#[export] Instance same_heap_preorder : PreOrder same_heap.
Proof. split; [done|]. intros w1 w2 w3. unfold same_heap. congruence. Qed.

Definition still_event {X} (e : ev X) : Prop :=
  match e with MemStore _ _ _ | MemAllocate _ | MemReshape _ _ | MemRefDown _ => False | _ => True end.

Lemma still_trigger {X} (e : ev X) : still_event e -> preserves same_heap (trigger e).
Proof.
  intros He w. rewrite run_trigger. cbn [snd]. unfold same_heap.
  destruct e; try done; cbn; unfold on_client; by repeat case_match.
Qed.
End shapely.

Abbreviation shapely := (preserves same_shapes).

Ltac shapely_event := first [apply shapely_trigger; exact I | apply still_trigger; exact I].

Ltac shapely_step :=
  match goal with
  | |- preserves _ (Ret _) => apply preserves_ret; apply _
  | |- preserves _ (Raise _) => apply preserves_raise; apply _
  | |- preserves _ (lift _) => apply preserves_lift; apply _
  | |- preserves _ (attempt _) => apply preserves_attempt; try apply _
  | |- preserves _ (bind _ _) => apply preserves_bind; [try apply _| |intros ?; cbv beta]
  | |- preserves _ (trigger _) => shapely_event
  | |- preserves _ (with_timer _ _) => apply preserves_timer; [try apply _|intros ? ?; shapely_event|intros ?]
  | |- preserves _ (traverse _ _) => apply preserves_traverse; [try apply _|intros ?]
  | |- preserves _ (catch_ax _ _ _ _) => unfold catch_ax
  | |- preserves _ (match ?x with _ => _ end) => destruct x
  | H : preserves _ ?p |- preserves _ ?p => exact H
  end.

Ltac shapely := repeat (first [shapely_step | solve [eauto with shapely]]).

Section operations.
Context {C : Type} `{AerospikeClient C} `{!ClientSpec C} `{Env} (Hbuf : frombuffer_ok).
Context {CK : Type} (to_string : CK -> string) (self : Engine).

Abbreviation shapely := (preserves (C := C) same_shapes).

(** The checks of [write_payload_into] keep the write inside the storage. *)
Lemma write_payload_shapely l v offset : shapely (write_payload_into l v offset).
Proof.
  intros w l' m Hm Hok. destruct v as [z|s|data|b]; try (unfold write_payload_into; cbn; by exists m).
  { unfold write_payload_into. cbn. repeat (case_match; cbn); by exists m. }
  destruct (decide (l' = l)) as [->|Hne].
  - rewrite (run_write_payload _ _ _ _ _ Hm Hok). destruct (Nat.ltb_spec (room m) (offset + length data)); [by exists m|].
    pose proof (room_le m Hok).
    destruct (mo_tensor m).
    + destruct (torch_frombuffer data) as [e|src] eqn:E; [by exists m|].
      assert (src = data) as -> by (by eapply (proj2 Hbuf)). cbn [snd].
      exists (store_at offset data m). split; [by apply on_mem_lookup|]. apply alike_store_at. lia.
    + cbn [snd]. exists (store_at offset data m). split; [by apply on_mem_lookup|]. apply alike_store_at. lia.
  - assert (E : w_heap (snd (run (write_payload_into l (BBytes data) offset) w)) !! l' = w_heap w !! l').
    { unfold write_payload_into. cbn [bin_len bin_buffer lift bind trigger run handle].
      destruct (mo_tensor (mem w l)); cbn [bind trigger run handle]; case_match; try done; cbn [lift bind].
      - destruct (torch_frombuffer data); [done|]. cbn. by rewrite lookup_alter_ne.
      - cbn. by rewrite lookup_alter_ne. }
    exists m. by rewrite E.
Qed.

Lemma crc_matches_shapely l b n : shapely (crc_matches self l b n).
Proof. unfold crc_matches. shapely. Qed.

#[local] Hint Resolve write_payload_shapely crc_matches_shapely : shapely.

Lemma read_segments_shapely l recs : forall total n, shapely (read_segments l recs total n).
Proof.
  induction recs as [|rec recs IH]; intros total n; cbn [read_segments]; [shapely|].
  pose proof write_payload_shapely. shapely.
Qed.

Lemma get_into_shapely ck l : shapely (get to_string self ck (Some l)).
Proof.
  unfold get, get_payload, get_finish. cbn [bind]. pose proof write_payload_shapely. pose proof read_segments_shapely.
  pose proof crc_matches_shapely. shapely.
Qed.

Lemma read_metas_shapely recs : forall (items : list (CK * loc)) i results ms,
  shapely (read_metas self recs items i results ms).
Proof.
  pose proof write_payload_shapely. pose proof crc_matches_shapely.
  induction recs as [|rec recs IH]; intros [|[ck mo] items] i results ms; cbn [read_metas]; unfold read_single; shapely.
Qed.

Lemma read_multi_shapely ms : forall results, shapely (read_multi to_string self ms results).
Proof.
  pose proof get_into_shapely.
  induction ms as [|[[i ck] mo] ms IH]; intros results; cbn [read_multi]; shapely.
Qed.

Lemma batched_get_shapely items : shapely (batched_get_preallocated to_string self items).
Proof.
  unfold batched_get_preallocated. destruct items as [|it items]; [shapely|].
  set (its := it :: items). apply preserves_timer; [apply _|intros ? ?; shapely_event|]. intros t.
  apply preserves_bind; [apply _| |intros [results out]; shapely].
  generalize (replicate (length its) false) 0%nat.
  induction (chunks _BATCH_KEYS_CHUNK its) as [|c cs IH]; intros results n; cbn [read_chunks]; [shapely|].
  unfold _batched_get_preallocated_chunk. pose proof read_metas_shapely. pose proof read_multi_shapely. shapely.
Qed.
End operations.

(** [remove] asks the cluster only. *)
Lemma remove_still {C} `{AerospikeClient C} `{!ClientSpec C} `{Env} {CK} (to_string : CK -> string) (self : Engine) ck :
  preserves (C := C) same_heap (remove to_string self ck).
Proof. unfold remove, remove_nseg, remove_segments. shapely. Qed.

Lemma parallel_chunks_shapely {C} `{AerospikeClient C} `{!ClientSpec C} `{Env} {T} (fn : list T -> prog ev (list bool)) pool items n :
  (forall c, preserves (C := C) same_shapes (fn c)) -> preserves (C := C) same_shapes (_parallel_chunks fn pool items n).
Proof. intros Hf. unfold _parallel_chunks, run_chunks. shapely. Qed.

Lemma parallel_chunks_calm {T} (fn : list T -> prog ev (list bool)) pool items n :
  (forall c, calm (fn c)) -> calm (_parallel_chunks fn pool items n).
Proof. intros Hf. unfold _parallel_chunks, run_chunks. calm. Qed.
