(* ===== verification/Nodes.v ===== *)
(** * Two connectors on one cluster

    Several processes of LMCache share a namespace and a set, each with its own configuration,
    limits and default shape.  What one puts, another gets into an object it allocates from the
    shape stored with the record. *)

From S2P Require Import Prelude PyStr Errors Sharding Config Limits Crc32 Keys.
From S2P Require Import Runtime Policies Metrics Serde Engine ClientSpec Store GetFacts Concrete PutFacts ParallelChunks Buffers.

Section writer.
Context {C : Type} `{AerospikeClient C} `{!ClientSpec C} `{Env}.
Context {CK : Type} (to_string : CK -> string) `{!Inj (=) (=) to_string} (self : Engine).

Abbreviation st w := (store (w_client w)).

(** The bins that only some configurations write. *)
Lemma meta_bins_options p l scm crc pinned (w : world C) m bs w' :
  w_heap w !! l = Some m -> run (meta_bins p l scm crc pinned) w = (inr bs, w') ->
  (scm = true -> exists md, lm_serialize (Z.of_nat (length (byte_array m))) (mo_spec m) = inr md /\
     dict_of bs !! "md" = Some (BBytes md)) /\
  (crc = false -> dict_of bs !! "crc32" = None).
Proof.
  intros Hm. unfold meta_bins, build_remote_metadata. cbn [trigger bind run handle].
  rewrite (mem_lookup _ _ _ Hm).
  destruct scm; cbn [trigger bind run handle]; rewrite ?(mem_lookup _ _ _ Hm);
    [destruct (lm_serialize _ _) as [e|md]; cbn [lift bind run]; [done|]|];
    intros [= <- _]; (split; [|intros ->; by destruct (_ =? _)]); [|done].
  intros _. exists md. split; [done|]. by destruct (_ =? _), crc.
Qed.

(** The record a put leaves on a healthy cluster. *)
Lemma run_put_record ck l pinned (w : world C) m wp :
  w_heap w !! l = Some m -> healthy (w_client w) -> limits_fit self ->
  write_policy (cfg self) = inr wp -> fits self m w -> serializable self m ->
  exists p bs w1 w', run (put to_string self ck l pinned) w = (inr tt, w') /\ steady w w' /\ w_heap w' = w_heap w /\
    plan_ok (Z.of_nat (length (byte_array m))) p /\ w_heap w1 !! l = Some m /\
    run (meta_bins p l (save_chunk_meta self) (enable_crc32 (cfg self)) pinned) w1 = (inr bs, w1) /\
    committed to_string self ck p (byte_array m) bs (st w) (st w').
Proof.
  intros Hm Hh Hl Hwp Hf Hser. destruct (plan_and_bins_fit self l pinned w m Hl Hf Hser) as (p & Ep & Hsb & Hbins).
  assert (Hp : plan_ok (Z.of_nat (length (byte_array m))) p)
    by (eapply plan_sound; [|exact (proj1 Hl)|exact Ep]; lia).
  pose proof (run_put_healthy to_string self ck l pinned w m wp Hm Hh Hl Hwp Hf Hser) as Hrun. revert Hrun.
  unfold put. cbn [trigger bind run handle]. rewrite (mem_lookup _ _ _ Hm), Ep.
  cbn [lift bind trigger run handle]. rewrite Hwp. cbn [lift bind]. set (w1 := mkWorld _ _ _ _ _).
  rewrite run_bind. destruct (Hbins w1 Hm) as (bs & Ebs & Hbs). rewrite Ebs, run_with_timer, run_bind, run_attempt.
  pose proof (run_put_io to_string self ck l p bs (_ttl_value self pinned) wp w1 m Hm Hp) as Hio.
  pose proof (run_put_io_healthy to_string self ck l p bs (_ttl_value self pinned) wp w1 m Hm Hh Hsb Hbs) as Hx.
  destruct (run (put_io _ _ _ _ _ _ _ _) w1) as [r w3]. destruct Hx as [-> _], Hio as (Eh & _ & _ & Hok).
  cbn. intros [_ Hst]. eexists p, bs, w1, _. split_and!; [reflexivity|done..|]. by apply Hok.
Qed.
End writer.

(** ** The entry of a reader with another configuration *)

Section reader.
Context {C : Type} `{AerospikeClient C} `{!ClientSpec C} `{Env}.
Context {CK : Type} (to_string : CK -> string) `{!Inj (=) (=) to_string} (writer reader : Engine).
Hypothesis Hns : namespace (cfg reader) = namespace (cfg writer).
Hypothesis Hset : set_name (cfg reader) = set_name (cfg writer).
Implicit Types (s : gmap key bins).

Lemma mk_of_shared ck : mk_of to_string reader ck = mk_of to_string writer ck.
Proof. unfold mk_of, meta_key. by rewrite Hns, Hset. Qed.

Lemma segs_of_shared ck n : segs_of to_string reader ck n = segs_of to_string writer ck n.
Proof. unfold segs_of, segment_keys, segment_key. by rewrite Hns, Hset. Qed.

Lemma payload_of_shared s ck b : payload_of to_string reader s ck b = payload_of to_string writer s ck b.
Proof.
  unfold payload_of. destruct (bins_nseg b) as [e|n]; [done|]. destruct (n =? 1); [done|]. by rewrite segs_of_shared.
Qed.

Lemma no_empty_piece_shared s ck : no_empty_piece to_string writer s ck -> no_empty_piece to_string reader s ck.
Proof.
  intros Hne k d Hk. apply Hne. unfold pieces in *. rewrite mk_of_shared in Hk.
  destruct (s !! _); [|done]. destruct (bins_nseg _); [done|]. by rewrite segs_of_shared in Hk.
Qed.

(** The record has no checksum of an earlier payload. *)
Definition no_checksum s ck : Prop := forall b, s !! mk_of to_string writer ck = Some b -> b !! "crc32" = None.

Lemma shared_crc_fits p payload bs s ck :
  meta_written writer p payload bs ->
  (enable_crc32 (cfg writer) = false -> dict_of bs !! "crc32" = None) ->
  (enable_crc32 (cfg reader) = true -> enable_crc32 (cfg writer) = true \/ no_checksum s ck) ->
  crc_fits reader (merged (s !! mk_of to_string writer ck) bs) payload = true.
Proof.
  intros Hw Hoff Hcfg. unfold crc_fits. destruct (enable_crc32 (cfg reader)); [|done].
  destruct (enable_crc32 (cfg writer)) eqn:Ew.
  - rewrite (merged_named _ _ _ _ (mw_crc _ _ _ _ Hw Ew)). apply Z.eqb_refl.
  - destruct (Hcfg eq_refl) as [|Hno]; [done|]. rewrite merged_other by auto.
    destruct (s !! mk_of to_string writer ck) as [b|] eqn:Eb; [|done]. cbn. by rewrite (Hno b).
Qed.

Lemma shared_entry ck p payload bs s s' :
  plan_ok (Z.of_nat (length payload)) p -> meta_written writer p payload bs ->
  committed to_string writer ck p payload bs s s' ->
  crc_fits reader (merged (s !! mk_of to_string writer ck) bs) payload = true ->
  Store.entry to_string reader s' ck = Some payload.
Proof.
  intros Hp Hw Hc Hcrc. pose proof (committed_entry to_string writer ck p payload bs s s' Hp Hw Hc) as He.
  destruct Hc as [Hm _]. unfold Store.entry in *. rewrite mk_of_shared, Hm in *.
  rewrite payload_of_shared. destruct (is_ready _); [|done]. destruct (payload_of _ _ _ _ _) as [q|]; [|done].
  destruct (crc_fits writer _ q); [|done]. injection He as ->. by rewrite Hcrc.
Qed.
End reader.

(** ** Reading into a new object *)

Section allocate.
Context {C : Type} `{AerospikeClient C} `{!ClientSpec C} `{Env} (Hbuf : frombuffer_ok) (Hlm : lmcache_ok).
Context {CK : Type} (to_string : CK -> string) (acfg : AerospikeConfig) (spec : MemSpec) (limits : ResolvedLimits).

Abbreviation self := (connector_engine acfg true spec limits).
Abbreviation st w := (store (w_client w)).

#[local] Instance self_hooks : EngineHooks C self := connector_hooks _ _ _ _ Hlm.

Lemma get_payload_shapely t ck b n l : preserves (C := C) same_shapes (get_payload to_string self t ck b n l false).
Proof.
  unfold get_payload, get_finish. pose proof (write_payload_shapely (C := C) Hbuf l).
  pose proof (read_segments_shapely (C := C) Hbuf l). pose proof (crc_matches_shapely (C := C) self l). shapely.
Qed.

(** The record has a ready payload and the shape [s]. *)
Definition shaped_record (w : world C) (ck : CK) (b : bins) (p : bytes) (s : MemSpec) : Prop :=
  st w !! mk_of to_string self ck = Some b /\ Store.entry to_string self (st w) ck = Some p /\
  exists md n, b !! "md" = Some (BBytes md) /\ lm_deserialize md = inr (n, s).

Lemma run_get_allocated ck b p s (w : world C) :
  healthy (w_client w) -> shaped_record w ck b p s ->
  match lm_allocate s (w_heap w) with
  | None => fst (run (get to_string self ck None) w) = inr None
  | Some a =>
      (length p <= room a)%nat -> mo_tensor a = false \/ no_empty_piece to_string self (st w) ck ->
      let '(r, w') := run (get to_string self ck None) w in
      let l := fresh (dom (w_heap w)) in r = inr (Some l) /\ exists m', w_heap w' !! l = Some m' /\ alike a m'
  end.
Proof.
  intros Hh (Hb & He & md & n0 & Hmd & Hde). unfold Store.entry in He. rewrite Hb in He.
  destruct (is_ready b) eqn:Hr; [|done].
  destruct (payload_of to_string self (st w) ck b) as [p'|] eqn:Hp; [|done].
  destruct (crc_fits self b p') eqn:Hc; [|done]. injection He as ->.
  unfold get. rewrite run_with_timer, run_bind.
  destruct (run_client_get (mk_of to_string self ck) w) as (c' & -> & Hst & ->).
  destruct (healthy_get (mk_of to_string self ck) (w_client w) Hh) as (Hh' & _ & Hg).
  rewrite Hb in Hg. rewrite Hg. unfold catch_ax. rewrite Hr. cbn [negb].
  destruct (bins_nseg b) as [e|n] eqn:Hn; [unfold payload_of in Hp; by rewrite Hn in Hp|].
  cbn [lift bind]. rewrite run_bind. cbn [alloc_for_read connector_engine Engine_init].
  unfold allocate_for_read. rewrite Hmd. cbn [bin_buffer lift bind]. rewrite Hde. cbn [lift bind snd].
  rewrite run_bind, run_trigger. cbn [handle]. unfold allocate_in. cbn [w_heap set_client].
  destruct (lm_allocate s (w_heap w)) as [a|] eqn:Ea; cbn [fst snd run]; [|done].
  intros Hroom Hne. set (l := fresh _). set (w1 := set_heap _ _).
  assert (Hl : w_heap w1 !! l = Some a) by (unfold w1; cbn; by rewrite lookup_insert_eq).
  destruct (proj1 Hlm _ _ _ Ea) as (Hok & Hv & _). rewrite run_bind, run_attempt.
  assert (Hst1 : st w1 = st w) by done.
  destruct (run_payload_hit to_string self Hbuf (OpTimer_init "get") ck b n l p w1 a) as [t' E]; rewrite ?Hst1; [done..|].
  pose proof (get_payload_shapely (OpTimer_init "get") ck b n l w1 l a Hl Hok) as (m' & Hm' & Ha).
  destruct (run (get_payload _ _ _ _ _ _ _ _) w1) as [r w2]. cbn [fst snd] in *. subst r. cbn [run].
  destruct (finished t'); cbn [fst snd w_heap]; (split; [done|]; by exists m').
Qed.
End allocate.

(** LMCache's side for one object: its metadata survive serialization, and what is allocated for
    its shape, when memory is available, has that shape and room for its bytes. *)
Definition portable `{Env} (m : memobj) : Prop :=
  let n := Z.of_nat (length (byte_array m)) in
  (exists md, lm_serialize n (mo_spec m) = inr md /\ lm_deserialize md = inr (n, mo_spec m)) /\
  forall h a, lm_allocate (mo_spec m) h = Some a ->
    (length (byte_array m) <= room a)%nat /\ mo_spec a = mo_spec m.

Section theorem.
Context {C : Type} `{AerospikeClient C} `{!ClientSpec C} `{Env}.
Context {CK : Type} (to_string : CK -> string) `{!Inj (=) (=) to_string}.

(** C4: A round trip between two processes on a healthy cluster.  One connector puts an object with its
    shape, another with the same namespace and set but its own segment sizes, time to live, policies
    and default shape gets the key: unless its memory is full, when it answers a miss, it returns a
    new object of the stored shape, held by the caller, that starts with the payload.  When the
    reader checks checksums, the writer must write them or the record must not have one of an
    earlier payload ([stale_checksum_hides_payload] shows why). *)
Theorem connector_roundtrip (writer : Engine) (rcfg : AerospikeConfig) (rspec : MemSpec) (rlimits : ResolvedLimits)
    (ck : CK) (l : loc) (pinned : bool) (w : world C) (m : memobj) (wp : policy) :
  let reader := connector_engine rcfg true rspec rlimits in
  frombuffer_ok -> lmcache_ok -> portable m -> save_chunk_meta writer = true ->
  namespace rcfg = namespace (cfg writer) -> set_name rcfg = set_name (cfg writer) ->
  w_heap w !! l = Some m -> byte_array m <> [] -> healthy (w_client w) -> limits_fit writer ->
  write_policy (cfg writer) = inr wp -> fits writer m w ->
  (enable_crc32 rcfg = true -> enable_crc32 (cfg writer) = true \/
     no_checksum to_string writer (store (w_client w)) ck) ->
  let '(r, w1) := run (put to_string writer ck l pinned) w in
  r = inr tt /\
  let '(out, w2) := run (get to_string reader ck None) w1 in
  match lm_allocate (mo_spec m) (w_heap w1) with
  | None => out = inr None
  | Some _ => exists l' m', out = inr (Some l') /\ w_heap w1 !! l' = None /\ w_heap w2 !! l' = Some m' /\
      mo_downs m' = 0%nat /\ mo_spec m' = mo_spec m /\ take (length (byte_array m)) (mo_raw m') = byte_array m
  end.
Proof.
  intros reader Hbuf Hlm [(md & Hser & Hde) Hal] Hscm Hns Hset Hm Hne Hh Hl Hwp Hf Hcrc.
  destruct (run_put_record to_string writer ck l pinned w m wp Hm Hh Hl Hwp Hf (fun _ => ex_intro _ md Hser))
    as (p & bs & w0 & w1 & -> & [Hh1 _] & Hheap & Hp & Hm0 & Hbs & Hcom). split; [done|].
  destruct (meta_bins_options _ _ _ _ _ _ _ _ _ Hm0 Hbs) as [Hmd Hoff]. destruct (Hmd Hscm) as (md' & Hser' & Hmd').
  pose proof (run_meta_bins writer p l (save_chunk_meta writer) pinned w0 m Hm0) as Hw. rewrite Hbs in Hw.
  destruct Hw as (_ & Hw & _). rewrite Hser in Hser'. injection Hser' as <-.
  assert (He : Store.entry to_string reader (store (w_client w1)) ck = Some (byte_array m)).
  { eapply (shared_entry to_string writer reader Hns Hset); [done|done|exact Hcom|]. by eapply shared_crc_fits. }
  assert (Hpieces : no_empty_piece to_string reader (store (w_client w1)) ck)
    by (eapply (no_empty_piece_shared to_string writer reader Hns Hset), committed_nonempty; done).
  pose proof (run_get_allocated Hbuf Hlm to_string rcfg rspec rlimits ck
    (merged (store (w_client w) !! mk_of to_string writer ck) bs) (byte_array m) (mo_spec m) w1 Hh1) as Hg.
  pose proof (connector_hooks (C := C) rcfg true rspec rlimits Hlm) as Hhooks.
  pose proof (run_get to_string reader Hbuf ck None w1 I) as Ho. fold reader in Hg.
  destruct (run (get to_string reader ck None) w1) as [out w2].
  destruct (lm_allocate (mo_spec m) (w_heap w1)) as [a|] eqn:Ea.
  - destruct (Hal _ _ Ea) as [Hroom Hspec]. destruct Hg as (-> & m' & Hm' & Halike); [|done|by right|].
    { split_and!; [|done|]; [rewrite (mk_of_shared to_string writer reader Hns Hset); apply Hcom|].
      exists md, (Z.of_nat (length (byte_array m))). split; [by apply merged_named|done]. }
    destruct Ho as [_ [[_ Hno]|(l2 & Hfree & _ & <- & Hd & p' & m2 & He' & Hm2 & _ & Hp')]];
      [by destruct (Hno (fresh (dom (w_heap w1))))|]. rewrite He in He'. injection He' as <-. rewrite Hm' in Hm2. injection Hm2 as <-.
    eexists _, m'. split_and!; [reflexivity|done|done| | |done].
    + unfold downs in Hd. by rewrite Hm', Hfree in Hd.
    + destruct Halike as (_ & _ & _ & ->). done.
  - apply Hg. split_and!; [|done|]; [rewrite (mk_of_shared to_string writer reader Hns Hset); apply Hcom|].
    exists md, (Z.of_nat (length (byte_array m))). split; [by apply merged_named|done].
Qed.
End theorem.

(** ** Witness: the writer cuts the payload into three segments, the reader has other limits *)

Definition other_config (crc : bool) : AerospikeConfig :=
  mkAerospikeConfig "aerospike" [("127.0.0.1", 3000)] "lmcache" "kv_chunks" 8388608 None 65536 None
    60 1000 2000 64 16 false crc "master" "master" false "" "" "".

Definition other_limits : ResolvedLimits := mkResolvedLimits 262144 131072 8 8 8 2.

Definition node_world : world MemClient := demo_world ∅ 65536 [] [demo_source].

Lemma demo_portable : portable demo_source.
Proof.
  split.
  - exists [byte_of_Z 0; byte_of_Z 10]. split; vm_compute; reflexivity.
  - intros h a [= <-]. split; vm_compute; [lia|reflexivity].
Qed.

Lemma connector_roundtrip_witness :
  let '(r, w1) := run (put demo_str demo_connector "k" 0%nat false) node_world in
  r = inr tt /\
  let '(out, w2) := run (get demo_str (connector_engine (other_config true) true (demo_spec 99) other_limits) "k" None) w1 in
  exists l m, out = inr (Some l) /\ w_heap w2 !! l = Some m /\ mo_spec m = demo_spec 10 /\
    take 10 (mo_raw m) = lit "0123456789".
Proof.
  assert (Hwp : write_policy demo_config = inr demo_policy) by (vm_compute; reflexivity).
  assert (Hfit : fits demo_connector demo_source node_world) by (split; vm_compute; discriminate).
  pose proof (connector_roundtrip demo_str demo_connector (other_config true) (demo_spec 99) other_limits "k" 0%nat false
    node_world demo_source demo_policy demo_frombuffer_ok demo_lmcache_ok demo_portable eq_refl eq_refl eq_refl eq_refl
    ltac:(discriminate) eq_refl demo_limits_ok Hwp Hfit ltac:(by left)) as Hr.
  destruct (run (put _ _ _ _ _) _) as [r w1]. destruct Hr as [-> Hr]. split; [reflexivity|].
  destruct (run (get _ _ _ _) w1) as [out w2]. cbn [lm_allocate demo_env demo_allocate] in Hr.
  destruct Hr as (l & m & -> & _ & Hm & _ & Hspec & Hraw). exists l, m. split_and!; [reflexivity|done|exact Hspec|exact Hraw].
Defined.

(** What the condition on checksums is for: a process that does not write them replaces an entry
    of one that does; the old checksum stays in the record, and readers that check it miss the
    new payload, which the writer reads. *)
Theorem stale_checksum_hides_payload :
  let plain := connector_engine (other_config false) true (demo_spec 12) demo_limits in
  let replacement := buffer false (lit "9876543210") in
  let w := demo_world ∅ 65536 [] [demo_source; replacement] in
  let '(r1, w1) := run (put demo_str demo_connector "k" 0%nat false) w in
  let '(r2, w2) := run (put demo_str plain "k" 1%nat false) w1 in
  r1 = inr tt /\ r2 = inr tt /\
  fst (run (get demo_str demo_connector "k" None) w2) = inr None /\
  fst (run (get demo_str plain "k" None) w2) = inr (Some 2%nat).
Proof. vm_compute. done. Qed.
