(* ===== verification/StorageApi.v ===== *)
(** * The storage plugin refines a map with background puts

    [AerospikeStoragePlugin] as one object: its synchronous calls, its coroutines and its put
    tasks ([StorageTasks]).  On a healthy cluster every history of calls, with executor threads
    that put one object at a time in any order between them, gets the answers of a finite map;
    reads return new objects, allocated from the shape stored with each record. *)

From S2P Require Import Prelude PyStr Errors Sharding Config Limits Crc32 Keys Runtime Policies Metrics Serde.
From S2P Require Import Engine ClientSpec Store GetFacts Reads Concrete PutFacts KeyOps Ownership WellFormed BatchPut BatchGet.
From S2P Require Import CacheRefinement Connector StoragePlugin StorageTasks ParallelChunks Buffers Nodes.

(** ** The plugin *)

Section api.
Context {CK : Type} `{Countable CK}.

Inductive api_call :=
| Task (c : plugin_call CK)
| Contains (key : CK) (pin : bool)
| ExistsInPutTasks (key : CK)
| GetBlocking (key : CK)
| AsyncContains (keys : list CK) (pin : bool)
| GetNonBlocking (keys : list CK)
| Pin (key : CK)
| Unpin (key : CK)
| Remove (key : CK) (force : bool).

(** Objects are given by what they hold: in the plugin their locations, in the map payloads. *)
Inductive api_answer (O : Type) :=
| OfTask (a : plugin_answer CK)
| OfBool (r : result bool)
| OfInt (r : result Z)
| OfObject (r : result (option O))
| OfObjects (r : result (list O)).
Arguments OfTask {O}.
Arguments OfBool {O}.
Arguments OfInt {O}.
Arguments OfObject {O}.
Arguments OfObjects {O}.

Section plugin.
Context (to_string : CK -> string) `{Env} (self : Engine) {C : Type} `{AerospikeClient C}.

Definition set_world (w : world C) (s : Plugin CK C) : Plugin CK C := mkPlugin w (pl_tasks s) (pl_jobs s) (pl_up s).

(** A call of the engine in the caller's thread. *)
Definition directly {A} (f : result A -> api_answer loc) (p : prog ev A) (s : Plugin CK C) : api_answer loc * Plugin CK C :=
  let '(r, w) := run p (pl_world s) in (f r, set_world w s).

(** [await loop.run_in_executor(self._executor, ...)] *)
Definition in_executor {A} (f : result A -> api_answer loc) (p : prog ev A) (s : Plugin CK C) : api_answer loc * Plugin CK C :=
  if pl_up s then directly f p s else (f (inl (Py RuntimeError)), s).

Definition api_perform (c : api_call) (s : Plugin CK C) : api_answer loc * Plugin CK C :=
  match c with
  | Task c => let '(a, s) := plugin_perform to_string self c s in (OfTask a, s)
  | Contains key pin => directly OfBool (contains to_string self key pin) s
  | ExistsInPutTasks key => (OfBool (inr (exists_in_put_tasks key (pl_world s, pl_tasks s))), s)
  | GetBlocking key => directly OfObject (get_blocking to_string self key) s
  | AsyncContains keys pin => in_executor OfInt (plugin_batched_async_contains to_string self keys pin) s
  | GetNonBlocking keys =>
      if bool_decide (keys = []) then (OfObjects (inr []), s)
      else in_executor OfObjects (plugin_batched_get_non_blocking to_string self keys) s
  | Pin key => directly OfBool (plugin_pin to_string self key) s
  | Unpin key => directly OfBool (plugin_unpin to_string self key) s
  | Remove key force => directly OfBool (plugin_remove to_string self key force) s
  end.
End plugin.

(** ** The machine *)

Section machine.
(** What a source object holds. *)
Context (payload : loc -> bytes).

Abbreviation cache := (gmap CK (option bytes)).

Record Catalog := mkCatalog {
  ct_cache : cache;
  ct_tasks : gset CK;
  ct_jobs : list (put_work CK);
  ct_up : bool
}.
Implicit Types (m : Catalog) (c : cache).

Definition with_cache c m : Catalog := mkCatalog c (ct_tasks m) (ct_jobs m) (ct_up m).

(** The payloads of the keys before the first without one. *)
Fixpoint hits c (keys : list CK) : list bytes :=
  match keys with
  | [] => []
  | k :: keys => match mjoin (c !! k) with Some p => p :: hits c keys | None => [] end
  end.

Definition catalog_submit (keys : list CK) (objs : list loc) m : plugin_answer CK * Catalog :=
  let T := ct_tasks m ∪ list_to_set keys in
  if ct_up m then (Queued, mkCatalog (ct_cache m) T (ct_jobs m ++ [PutAll keys objs]) true)
  else (RefusedPut keys (Py RuntimeError), mkCatalog (ct_cache m) T (ct_jobs m) false).

Definition catalog_task (c : plugin_call CK) m : plugin_answer CK * Catalog :=
  match c with
  | SubmitPut keys objs => catalog_submit keys objs m
  | AsyncSubmitPut keys objs =>
      if ct_up m then (Queued, mkCatalog (ct_cache m) (ct_tasks m) (ct_jobs m ++ [SubmitLater keys objs]) true)
      else (RefusedPut [] (Py RuntimeError), m)
  | ShutdownExecutor => (Nothing, mkCatalog (ct_cache m) (ct_tasks m) (ct_jobs m) false)
  | StepJob i =>
      let rest := mkCatalog (ct_cache m) (ct_tasks m) (delete i (ct_jobs m)) (ct_up m) in
      match ct_jobs m !! i with
      | None => (Nothing, m)
      | Some (SubmitLater keys objs) => catalog_submit keys objs rest
      | Some (PutAll (key :: keys) (obj :: objs)) =>
          (Stored key, mkCatalog (<[key := Some (payload obj)]> (ct_cache m)) (ct_tasks m ∖ {[key]})
             (<[i := PutAll keys objs]> (ct_jobs m)) (ct_up m))
      | Some (PutAll [] []) => (EndedPut [] (inr tt), rest)
      | Some (PutAll keys _) => (EndedPut keys (inl (Py ValueError)), rest)
      end
  end.

Definition catalog_perform (c : api_call) m : api_answer bytes * Catalog :=
  match c with
  | Task c => let '(a, m) := catalog_task c m in (OfTask a, m)
  | Contains key _ | Pin key | Unpin key => (OfBool (inr (known (ct_cache m) key)), m)
  | ExistsInPutTasks key => (OfBool (inr (bool_decide (key ∈ ct_tasks m))), m)
  | GetBlocking key => (OfObject (inr (mjoin (ct_cache m !! key))), m)
  | AsyncContains keys _ =>
      (OfInt (if ct_up m then inr (known_prefix (ct_cache m) keys) else inl (Py RuntimeError)), m)
  | GetNonBlocking keys =>
      (OfObjects (if bool_decide (keys = []) then inr []
                  else if ct_up m then inr (hits (ct_cache m) keys) else inl (Py RuntimeError)), m)
  | Remove key _ => (OfBool (inr (known (ct_cache m) key)), with_cache (delete key (ct_cache m)) m)
  end.
End machine.
End api.
Arguments api_call : clear implicits.
Arguments api_answer : clear implicits.
Arguments Catalog CK {_ _}.
Arguments OfTask {CK O}.
Arguments OfBool {CK O}.
Arguments OfInt {CK O}.
Arguments OfObject {CK O}.
Arguments OfObjects {CK O}.

(** ** The simulation *)

(** Memory is there for a shape, and enough of it. *)
Definition room_for `{Env} (sp : MemSpec) (n : nat) : Prop := forall h, exists a, lm_allocate sp h = Some a /\ (n <= room a)%nat.

Section refinement.
Context {C : Type} `{AerospikeClient C} `{!ClientSpec C} `{Env}.
Context {CK : Type} `{Countable CK} (to_string : CK -> string) `{!Inj (=) (=) to_string}.
Context (acfg : AerospikeConfig) (spec : MemSpec) (limits : ResolvedLimits) (N : nat) (cap : Z) (w0 : world C).

Abbreviation self := (connector_engine acfg true spec limits).
Abbreviation cache := (gmap CK (option bytes)).
Abbreviation mk_of := (mk_of to_string self).
Abbreviation entry := (Store.entry to_string self).
Abbreviation refines := (refines to_string self N cap).
Abbreviation st w := (store (w_client w)).
Implicit Types (w : world C) (c : cache) (k : CK).

Hypothesis (Hbuf : frombuffer_ok) (Hlm : lmcache_ok) (Hconst : client_constants) (Hcfg : config_ok acfg).
Hypothesis (Hlimits : limits_fit self) (Hcap : 0 <= cap).

#[local] Instance self_hooks : EngineHooks C self := connector_hooks _ _ _ _ Hlm.

(** Every entry was stored with a shape that can be allocated. *)
Definition shaped (s : gmap key bins) k : Prop :=
  forall b p, s !! mk_of k = Some b -> entry s k = Some p ->
  exists md n sp, b !! "md" = Some (BBytes md) /\ lm_deserialize md = inr (n, sp) /\ room_for sp (length p).

Record good w c : Prop := { go_refines : refines w c; go_shaped : forall k, shaped (st w) k }.

(** The objects of the puts. *)
Definition source_fits (m : memobj) : Prop :=
  put_fits self N cap m /\
  (exists md, lm_serialize (Z.of_nat (length (byte_array m))) (mo_spec m) = inr md /\
     lm_deserialize md = inr (Z.of_nat (length (byte_array m)), mo_spec m)) /\
  room_for (mo_spec m) (length (byte_array m)).

Definition handed (w w' : world C) (l : loc) (p : bytes) : Prop :=
  w_heap w !! l = None /\ exists m, w_heap w' !! l = Some m /\ mo_downs m = 0%nat /\ take (length p) (mo_raw m) = p.

Lemma shaped_frame s s' k : (forall x, owns to_string self k x -> s' !! x = s !! x) -> shaped s k -> shaped s' k.
Proof.
  intros Hs Hsh b p Hb He. rewrite Hs in Hb by by left. rewrite (entry_frame to_string self s s' k Hs) in He. by apply Hsh.
Qed.

Lemma shaped_pin s s' k : pin_only to_string self s s' -> shaped s k -> shaped s' k.
Proof.
  intros Hpin Hsh b p Hb He. rewrite (pin_only_entry to_string self s s' k Hpin) in He.
  destruct (Hpin (mk_of k)) as [E|(k2 & v & E2 & E)]; rewrite E in Hb; [by apply Hsh|].
  injection Hb as <-. pose proof He as He'. unfold Store.entry in He'. destruct (s !! mk_of k) as [b|] eqn:Eb; [|done].
  destruct (Hsh b p Eb He) as (md & n & sp & Hmd & Hrest). exists md, n, sp. split; [|done].
  rewrite merged_other by (unfold dict_of; simpl; by rewrite lookup_insert_ne). done.
Qed.

Lemma good_same w w' c : good w c -> st w' = st w -> steady w w' -> good w' c.
Proof. intros [Hr Hs] Es Hst. split; [by eapply refines_same|]. by rewrite Es. Qed.

Lemma good_calm {A} (p : prog ev A) w c : calm p -> good w c -> good (snd (run p w)) c.
Proof.
  intros Hp Hg. destruct (run_calm p Hp w) as [Es Hst]. eapply good_same; [exact Hg|done|]. apply Hst, Hg.
Qed.

(** *** Lookups *)

Lemma exists_good w c k : good w c ->
  let '(r, w') := run (exists_ to_string self k) w in r = inr (known c k) /\ good w' c.
Proof.
  intros Hg. pose proof (exists_simulated to_string self N cap w c k (go_refines _ _ Hg)) as Hs.
  pose proof (good_calm _ w c (exists_calm to_string self k) Hg) as Hg'. unfold simulated in Hs. cbn [engine_op spec_op] in Hs.
  destruct (run _ w) as [[e|b] w']; destruct Hs as [[=] _]; by subst.
Qed.

Lemma pin_keys_good w c ks : good w c -> NoDup ks -> Forall (fun k => known c k = true) ks ->
  let '(r, w') := run (pin_keys to_string self ks) w in r = inr tt /\ good w' c.
Proof.
  intros [Hr Hs] Hnd Hk. pose proof (pin_keys_refines to_string self N cap Hconst Hcfg Hcap w c ks Hr Hnd) as Hp.
  pose proof (run_pin_keys to_string self ks w Hnd) as Hf. destruct (run _ w) as [r w'].
  destruct Hp as [-> Hr'], Hf as (Hpin & _ & _). rewrite remember_known in Hr' by done. split; [done|].
  split; [done|]. intros k. by eapply shaped_pin.
Qed.

Lemma pin_good w c k : good w c ->
  let '(r, w') := run (Engine.pin to_string self k) w in r = inr (known c k) /\ good w' c.
Proof.
  intros [Hr Hs]. pose proof (pin_simulated to_string self N cap Hconst Hcfg Hcap w c k Hr) as Hp.
  pose proof (run_pin to_string self k w) as Hf. unfold simulated in Hp. cbn [engine_op spec_op] in Hp.
  destruct (run _ w) as [[e|b] w']; destruct Hp as [[=] Hr'], Hf as (Hpin & _); subst.
  split; [done|]. split; [done|]. intros k'. by eapply shaped_pin.
Qed.

Lemma unpin_good w c k : good w c ->
  let '(r, w') := run (unpin to_string self k) w in r = inr (known c k) /\ good w' c.
Proof.
  intros [Hr Hs]. pose proof (unpin_simulated to_string self N cap Hconst Hcfg Hcap w c k Hr) as Hp.
  pose proof (run_unpin to_string self k w) as Hf. unfold simulated in Hp. cbn [engine_op spec_op] in Hp.
  destruct (run _ w) as [[e|b] w']; destruct Hp as [[=] Hr'], Hf as (Hpin & _); subst.
  split; [done|]. split; [done|]. intros k'. by eapply shaped_pin.
Qed.

Lemma remove_good w c k : good w c ->
  let '(r, w') := run (remove to_string self k) w in r = inr (known c k) /\ good w' (delete k c).
Proof.
  intros [Hr Hs]. pose proof Hr as [Hh _ Hk]. pose proof (remove_simulated to_string self N cap w c k Hr) as Hp.
  assert (Hwf : forall b, st w !! mk_of k = Some b -> wf_meta b).
  { intros b Hb. destruct (Hk k) as [_ Hko]. unfold key_ok in Hko. rewrite Hb in Hko. by destruct Hko. }
  pose proof (run_remove_healthy to_string self k w Hh Hwf) as Hx. unfold simulated in Hp. cbn [engine_op spec_op] in Hp.
  destruct (run _ w) as [[e|b] w']; destruct Hp as [[=] Hr'], Hx as (_ & _ & Hgone & Hun); subst.
  split; [done|]. split; [done|]. intros k'. destruct (decide (k' = k)) as [->|Hne].
  - intros b' p Hb'. congruence.
  - eapply shaped_frame; [|by apply Hs]. intros x Hx. apply Hun. intros Hx'. apply Hne. by eapply owns_disjoint.
Qed.

Lemma contains_good w c k pin : good w c ->
  let '(r, w') := run (contains to_string self k pin) w in r = inr (known c k) /\ good w' c.
Proof.
  intros Hg. unfold contains. destruct pin; [|by apply exists_good]. rewrite run_bind.
  pose proof (exists_good w c k Hg) as Hx. destruct (run (exists_ _ _ _) w) as [r w1]. destruct Hx as [-> Hg1].
  destruct (known c k) eqn:Ek; [|rewrite <- Ek; by apply exists_good]. rewrite run_bind.
  pose proof (pin_good w1 c k Hg1) as Hp. destruct (run (Engine.pin _ _ _) w1) as [r w2]. by destruct Hp as [-> Hg2].
Qed.

Lemma known_prefix_bounds c ks : 0 <= known_prefix c ks <= Z.of_nat (length ks).
Proof. induction ks as [|k ks IH]; cbn; [lia|]. destruct (known c k); lia. Qed.

Lemma known_prefix_known c ks : Forall (fun k => known c k = true) (take (Z.to_nat (known_prefix c ks)) ks).
Proof.
  induction ks as [|k ks IH]; cbn [known_prefix]; [by rewrite take_nil|]. pose proof (known_prefix_bounds c ks).
  destruct (known c k) eqn:Ek; [|constructor]. replace (Z.to_nat (1 + known_prefix c ks)) with (S (Z.to_nat (known_prefix c ks))) by lia.
  by constructor.
Qed.

Lemma async_contains_good w c ks pin : good w c -> NoDup ks ->
  let '(r, w') := run (plugin_batched_async_contains to_string self ks pin) w in
  r = inr (known_prefix c ks) /\ good w' c.
Proof.
  intros Hg Hnd. unfold plugin_batched_async_contains. rewrite run_bind.
  pose proof (contains_simulated to_string self N cap w c ks (go_refines _ _ Hg)) as Hs.
  pose proof (good_calm _ w c (batched_contains_calm to_string self ks) Hg) as Hg'.
  unfold simulated in Hs. cbn [engine_op spec_op] in Hs.
  destruct (run (batched_contains _ _ _) w) as [[e|n] w1]; destruct Hs as [[=] _]; subst. cbn [snd] in Hg'.
  destruct (pin && _); [|done]. rewrite run_bind.
  pose proof (pin_keys_good w1 c _ Hg' (NoDup_take _ _ Hnd) (known_prefix_known c ks)) as Hp.
  destruct (run (pin_keys _ _ _) w1) as [r w2]. by destruct Hp as [-> Hg2].
Qed.

(** *** Puts and reads *)

Lemma put_good w c k l m : good w c -> w_heap w !! l = Some m -> source_fits m ->
  let '(r, w') := run (put to_string self k l false) w in
  r = inr tt /\ w_heap w' = w_heap w /\ good w' (<[k := Some (byte_array m)]> c).
Proof.
  intros [Hr Hs] Hm (Hfit & (md & Hser & Hde) & Hroom). pose proof Hfit as (_ & _ & Hserz & Hmx & Hle).
  pose proof (put_refines to_string self N cap Hconst Hcfg Hlimits w c k l m false Hr Hm Hfit) as Hp.
  destruct (write_policy_ok _ Hconst Hcfg) as [wp Hwp].
  assert (Hf : fits self m w) by (split; [done|]; by rewrite (rf_capacity _ _ _ _ _ _ Hr)).
  pose proof (run_put to_string self k l false w m Hm (proj1 Hlimits)) as Hput.
  destruct (run_put_record to_string self k l false w m wp Hm (rf_healthy _ _ _ _ _ _ Hr) Hlimits Hwp Hf Hserz)
    as (pl & bs & w1 & w' & E & _ & _ & _ & Hm1 & Hbs & [Hrec _]).
  rewrite E in *. destruct Hp as (_ & Hheap & Hr'), Hput as [(_ & Hfr & _) _]. split_and!; [done|done|]. split; [done|]. intros k'.
  destruct (decide (k' = k)) as [->|Hne].
  - intros b p Hb He. rewrite (refines_entry to_string self N cap w' _ k Hr'), lookup_insert_eq in He.
    injection He as <-. destruct (meta_bins_options _ _ _ _ _ _ _ _ _ Hm1 Hbs) as [Hmd _].
    destruct (Hmd eq_refl) as (md' & Hser' & Hmd'). rewrite Hser in Hser'. injection Hser' as <-.
    exists md, (Z.of_nat (length (byte_array m))), (mo_spec m). split_and!; [|done|done].
    rewrite Hrec in Hb. injection Hb as <-. by apply merged_named.
  - eapply shaped_frame; [|by apply Hs]. intros x Hx. apply Hfr. intros Hx'. apply Hne. by eapply owns_disjoint.
Qed.

Lemma heap_grows_trans w1 w2 w3 : heap_grows w1 w2 -> heap_grows w2 w3 -> heap_grows w1 w3.
Proof. intros Ha Hb l Hl. rewrite Hb; [by apply Ha|]. by rewrite Ha. Qed.

Lemma handed_later w w1 w' l p : heap_grows w1 w' -> handed w w1 l p -> handed w w' l p.
Proof.
  intros Hg (Hn & m & Hm & Hd & Hp). split; [done|]. exists m. split_and!; [|done|done]. by rewrite Hg, Hm.
Qed.

Lemma handed_earlier w w1 w' l p : heap_grows w w1 -> handed w1 w' l p -> handed w w' l p.
Proof.
  intros Hg (Hn & Hm). split; [|done]. apply eq_None_not_Some. intros [m Hl]. rewrite Hg in Hn by (by exists m). congruence.
Qed.

Lemma get_good w c k : good w c ->
  let '(r, w') := run (get to_string self k None) w in
  good w' c /\ heap_grows w w' /\
  match mjoin (c !! k) with
  | Some p => exists l, r = inr (Some l) /\ handed w w' l p
  | None => r = inr None
  end.
Proof.
  intros Hg. pose proof Hg as [Hr Hs]. pose proof Hr as [Hh _ Hk].
  pose proof (good_calm _ w c (get_calm to_string self k None) Hg) as Hg'.
  pose proof (run_get_new to_string self Hbuf k w) as Hnew. rewrite <- (refines_entry to_string self N cap w c k Hr).
  destruct (entry (st w) k) as [p|] eqn:He.
  - pose proof He as He'. unfold Store.entry in He'. destruct (st w !! mk_of k) as [b|] eqn:Eb; [|done]. clear He'.
    destruct (Hs k b p Eb He) as (md & n & sp & Hmd & Hde & Hroom).
    pose proof (run_get_allocated Hbuf Hlm to_string acfg spec limits k b p sp w Hh) as Ha.
    destruct (Hroom (w_heap w)) as (a & Ea & Hle). rewrite Ea in Ha.
    destruct (run _ w) as [r w']. destruct Hnew as (_ & Hgrow & Hl & _). split_and!; [done|done|].
    destruct Ha as [-> _]; [|done|right|].
    { split_and!; [done|done|]. by exists md, n. }
    { destruct (Hk k) as [_ Hko]. unfold key_ok in Hko. rewrite Eb in Hko. destruct Hko as [_ Hko].
      unfold Store.entry in He. rewrite Eb in He. destruct (is_ready b); [|done]. by destruct Hko as (? & _ & _ & ?). }
    eexists. split; [reflexivity|]. destruct (Hl _ eq_refl) as (Hn & Hd & q & m & Eq & Hm & Hq).
    rewrite He in Eq. injection Eq as <-. split; [done|]. exists m. split_and!; [done| |done].
    unfold downs in Hd. by rewrite Hm in Hd.
  - assert (Hmiss : fst (run (get to_string self k None) w) = inr None).
    { apply run_get_miss; [done|]. destruct (st w !! mk_of k) as [b|] eqn:Eb; [|done].
      destruct (Hk k) as [_ Hko]. unfold key_ok in Hko. rewrite Eb in Hko. destruct Hko as [_ Hko].
      destruct (is_ready b); [|done]. destruct Hko as (? & ? & _). congruence. }
    destruct (run _ w) as [r w']. cbn [fst] in Hmiss. subst r. by destruct Hnew as (_ & Hgrow & _).
Qed.

Lemma get_until_miss_good keys : forall acc w c, good w c ->
  let '(r, w') := run (get_until_miss to_string self keys acc) w in
  good w' c /\ heap_grows w w' /\
  exists ls, r = inr (acc ++ ls) /\ NoDup ls /\ Forall2 (handed w w') ls (hits c keys).
Proof.
  induction keys as [|k keys IH]; intros acc w c Hg; cbn [get_until_miss hits].
  { split_and!; [done|done|]. exists []. rewrite app_nil_r. split_and!; [done|constructor|constructor]. }
  rewrite run_bind. pose proof (get_good w c k Hg) as Hone. destruct (run (get _ _ _ _) w) as [r w1].
  destruct Hone as (Hg1 & Hgrow1 & Hl). destruct (mjoin (c !! k)) as [p|].
  - destruct Hl as (l & -> & Hl). specialize (IH (acc ++ [l]) w1 c Hg1). destruct (run _ w1) as [r w'].
    destruct IH as (Hg' & Hgrow & ls & -> & Hnd & Hls). split_and!; [done|by eapply heap_grows_trans|].
    exists (l :: ls). rewrite <- app_assoc. split_and!; [done| |].
    + constructor; [|done]. intros [i Hi]%list_elem_of_lookup.
      destruct (Forall2_lookup_l _ _ _ _ _ Hls Hi) as (q & _ & Hn & _). destruct Hl as (_ & m & Hm & _). congruence.
    + constructor; [by eapply handed_later|]. eapply Forall2_impl; [exact Hls|]. intros x q. by apply handed_earlier.
  - subst r. cbn [run]. split_and!; [done|done|]. exists []. rewrite app_nil_r. split_and!; [done|constructor|constructor].
Qed.

(** *** Every call *)

Definition api_agrees (w w' : world C) (a : api_answer CK loc) (b : api_answer CK bytes) : Prop :=
  match a, b with
  | OfTask x, OfTask y => x = y
  | OfBool x, OfBool y => x = y
  | OfInt x, OfInt y => x = y
  | OfObject (inr None), OfObject (inr None) => True
  | OfObject (inr (Some l)), OfObject (inr (Some p)) => handed w w' l p
  | OfObjects (inr ls), OfObjects (inr ps) => NoDup ls /\ Forall2 (handed w w') ls ps
  | OfObjects (inl x), OfObjects (inl y) => x = y
  | _, _ => False
  end.

Definition source_ok (l : loc) : Prop := exists m, w_heap w0 !! l = Some m /\ source_fits m.

Definition work_ok (j : put_work CK) : Prop :=
  match j with PutAll _ objs | SubmitLater _ objs => Forall source_ok objs end.

Definition api_ok (c : api_call CK) : Prop :=
  match c with
  | Task (SubmitPut _ objs | AsyncSubmitPut _ objs) => Forall source_ok objs
  | AsyncContains keys _ => NoDup keys
  | _ => True
  end.

Record serves (s : Plugin CK C) (m : Catalog CK) : Prop := {
  sv_good : good (pl_world s) (ct_cache m);
  sv_tasks : pl_tasks s = ct_tasks m;
  sv_jobs : pl_jobs s = ct_jobs m;
  sv_up : pl_up s = ct_up m;
  sv_heap : heap_grows w0 (pl_world s);
  sv_work : Forall work_ok (ct_jobs m)
}.

Definition payload (l : loc) : bytes := byte_array (mem w0 l).

Definition api_simulated (c : api_call CK) (s : Plugin CK C) (m : Catalog CK) : Prop :=
  let '(a, s') := api_perform to_string self c s in
  let '(b, m') := catalog_perform payload c m in
  api_agrees (pl_world s) (pl_world s') a b /\ serves s' m'.

Lemma serves_world s m w c : serves s m -> good w c -> heap_grows (pl_world s) w -> serves (set_world w s) (with_cache c m).
Proof. intros [Hg Ht Hj Hu Hh Hw] Hg' Hgrow. split; try done. by eapply heap_grows_trans. Qed.

Lemma still_grows {A} (p : prog ev A) w : preserves same_heap p -> heap_grows w (snd (run p w)).
Proof. intros Hp l _. by rewrite (Hp w). Qed.

Lemma directly_simulated {A} (f : result A -> api_answer CK loc) (p : prog ev A) s m a c :
  serves s m -> preserves (C := C) same_heap p ->
  (let '(r, w') := run p (pl_world s) in r = inr a /\ good w' c) ->
  exists w', directly f p s = (f (inr a), set_world w' s) /\ serves (set_world w' s) (with_cache c m).
Proof.
  intros Hs Hp Hrun. unfold directly. pose proof (still_grows p (pl_world s) Hp) as Hgrow.
  destruct (run p (pl_world s)) as [r w']. destruct Hrun as [-> Hg]. exists w'. split; [done|]. by apply serves_world.
Qed.

Lemma submit_serves keys objs s m : serves s m -> Forall source_ok objs ->
  let '(a, s') := submit_put keys objs s in
  let '(b, m') := catalog_submit keys objs m in a = b /\ serves s' m' /\ pl_world s' = pl_world s.
Proof.
  intros [Hg Ht Hj Hu Hh Hw] Hobjs. unfold submit_put, catalog_submit, StoragePlugin.batched_submit_put_task.
  cbn [fst snd]. rewrite Hu. destruct (ct_up m) eqn:Em; (split_and!; [done| |done]);
    split; cbn; rewrite ?Ht, ?Hj, ?Hu; try done.
  apply Forall_app. split; [done|]. by constructor.
Qed.

Lemma dropped_serves i s m : serves s m ->
  serves (drop_job i s) (mkCatalog (ct_cache m) (ct_tasks m) (delete i (ct_jobs m)) (ct_up m)).
Proof.
  intros [Hg Ht Hj Hu Hh Hw]. split; cbn; rewrite ?Hj; try done.
  rewrite Forall_forall in Hw |- *. intros x Hx. apply Hw. by eapply elem_of_sublist, sublist_delete.
Qed.

Lemma step_simulated i s m : serves s m -> api_simulated (Task (StepJob i)) s m.
Proof.
  intros Hs. pose proof Hs as [Hg Ht Hj Hu Hh Hw]. pose proof (dropped_serves i s m Hs) as Hd.
  unfold api_simulated. cbn [api_perform catalog_perform plugin_perform catalog_task]. unfold step_job. rewrite Hj.
  destruct (ct_jobs m !! i) as [j|] eqn:Ej; [|done]. pose proof (Forall_lookup_1 _ _ _ _ Hw Ej) as Hok.
  destruct j as [[|k keys] [|o objs]|keys objs]; try done.
  - apply Forall_cons in Hok as [(x & Hx & Hfit) Hok].
    pose proof (put_good (pl_world s) (ct_cache m) k o x Hg ltac:(by rewrite Hh by (by exists x)) Hfit) as Hp.
    destruct (run (put _ _ _ _ _) _) as [r w']. destruct Hp as (-> & Hheap & Hg'). split; [done|].
    assert (Hpay : payload o = byte_array x) by (unfold payload; by rewrite (mem_lookup _ _ _ Hx)).
    split; cbn; rewrite ?Hpay, ?Ht; try done.
    + intros l Hl. rewrite Hheap. by apply Hh.
    + apply Forall_insert; [done|exact Hok].
  - pose proof (submit_serves keys objs _ _ Hd Hok) as Hsub. destruct (submit_put _ _ _), (catalog_submit _ _ _).
    by destruct Hsub as (-> & Hsub & _).
Qed.

Lemma reads_simulated s m (keys : list CK) : serves s m ->
  let '(a, s') := directly OfObjects (plugin_batched_get_non_blocking to_string self keys) s in
  api_agrees (pl_world s) (pl_world s') a (OfObjects (inr (hits (ct_cache m) keys))) /\ serves s' m.
Proof.
  intros Hs. unfold directly, plugin_batched_get_non_blocking.
  pose proof (get_until_miss_good keys [] _ _ (sv_good _ _ Hs)) as Hg. destruct (run _ _) as [r w'].
  destruct Hg as (Hg & Hgrow & ls & -> & Hnd & Hls). split; [done|].
  destruct m as [c T js u]. by apply (serves_world s (mkCatalog c T js u) w' c).
Qed.

Lemma pin_still k : preserves (C := C) same_heap (Engine.pin to_string self k).
Proof. unfold Engine.pin, exists_, pin_keys, _pin_keys_batch. shapely. Qed.

Lemma exists_still k : preserves (C := C) same_heap (exists_ to_string self k).
Proof. unfold exists_. shapely. Qed.

Lemma unpin_still k : preserves (C := C) same_heap (unpin to_string self k).
Proof. unfold unpin. shapely. Qed.

Lemma contains_still k pin : preserves (C := C) same_heap (contains to_string self k pin).
Proof. unfold contains. pose proof pin_still. pose proof exists_still. shapely. Qed.

Lemma async_contains_still ks pin : preserves (C := C) same_heap (plugin_batched_async_contains to_string self ks pin).
Proof. unfold plugin_batched_async_contains, batched_contains, pin_keys, _pin_keys_batch. shapely. Qed.

Lemma catalog_same (m : Catalog CK) : with_cache (ct_cache m) m = m.
Proof. by destruct m. Qed.

Lemma api_step (x : api_call CK) s m : serves s m -> api_ok x -> api_simulated x s m.
Proof.
  intros Hs Hok. pose proof (sv_good _ _ Hs) as Hg.
  assert (Hdir : forall A (f : result A -> api_answer CK loc) (g : api_answer CK bytes) (p : prog ev A) a,
    preserves (C := C) same_heap p ->
    (let '(r, w') := run p (pl_world s) in r = inr a /\ good w' (ct_cache m)) ->
    (forall w w', api_agrees w w' (f (inr a)) g) ->
    let '(x, s') := directly f p s in api_agrees (pl_world s) (pl_world s') x g /\ serves s' m).
  { intros A f g p a Hp Hrun Hag. destruct (directly_simulated f p s m a _ Hs Hp Hrun) as (w' & -> & Hs').
    rewrite catalog_same in Hs'. done. }
  destruct x as [[keys objs|keys objs|i|]|k pin|k|k|ks pin|ks|k|k|k force]; unfold api_simulated;
    cbn [api_perform catalog_perform plugin_perform catalog_task].
  - pose proof (submit_serves keys objs s m Hs Hok) as Hsub. destruct (submit_put _ _ _), (catalog_submit _ _ _).
    by destruct Hsub as (-> & Hsub & _).
  - destruct Hs as [Hg' Ht Hj Hu Hh Hw]. unfold async_submit_put. rewrite Hu.
    destruct (ct_up m) eqn:Em; (split; [done|]); split; cbn; rewrite ?Hj, ?Hu; try done.
    apply Forall_app. split; [done|]. by constructor.
  - by apply step_simulated.
  - destruct Hs. by split; [|split].
  - eapply Hdir; [apply contains_still|by apply contains_good|done].
  - split; [|done]. cbn. unfold exists_in_put_tasks. cbn [snd]. by rewrite (sv_tasks _ _ Hs).
  - pose proof (get_good (pl_world s) _ k Hg) as Hx. unfold directly, get_blocking. destruct (run _ _) as [r w'].
    destruct Hx as (Hg' & Hgrow & Hr). pose proof (serves_world s m w' _ Hs Hg' Hgrow) as Hs'. rewrite catalog_same in Hs'.
    split; [|done]. destruct (mjoin _) as [p|]; [|by subst r]. by destruct Hr as (l & -> & Hl).
  - unfold in_executor. rewrite (sv_up _ _ Hs). destruct (ct_up m); [|done].
    eapply Hdir; [apply async_contains_still|by apply async_contains_good|done].
  - case_bool_decide as Hks; [split; [|done]; split; constructor|]. unfold in_executor. rewrite (sv_up _ _ Hs).
    destruct (ct_up m); [|done]. by apply reads_simulated.
  - eapply Hdir; [apply pin_still|by apply pin_good|done].
  - eapply Hdir; [apply unpin_still|by apply unpin_good|done].
  - pose proof (remove_good (pl_world s) _ k Hg) as Hr.
    destruct (directly_simulated OfBool (plugin_remove to_string self k force) s m _ _ Hs
      (remove_still to_string self k) Hr) as (w' & -> & Hs'). done.
Qed.
End refinement.

(** The plugin and the map answer the same, call by call. *)
Fixpoint api_matches {C} `{AerospikeClient C} `{!ClientSpec C} `{Env} {CK} `{Countable CK} (to_string : CK -> string)
    (self : Engine) (w0 : world C) (calls : list (api_call CK)) (s : Plugin CK C) (m : Catalog CK) : Prop :=
  match calls with
  | [] => pl_tasks s = ct_tasks m /\
      forall k, Store.entry to_string self (store (w_client (pl_world s))) k = mjoin (ct_cache m !! k)
  | c :: calls =>
      let '(a, s') := api_perform to_string self c s in
      let '(b, m') := catalog_perform (payload w0) c m in
      api_agrees (pl_world s) (pl_world s') a b /\ api_matches to_string self w0 calls s' m'
  end.

Definition catalog_start `{Countable CK} : Catalog CK := mkCatalog ∅ ∅ [] true.

Section theorem.
Context {C : Type} `{AerospikeClient C} `{!ClientSpec C} `{Env}.
Context {CK : Type} `{Countable CK} (to_string : CK -> string) `{!Inj (=) (=) to_string}.

(** C2: The storage plugin is a map with background puts.  On a healthy cluster that starts empty,
    with memory for the reads, every history of its calls, with the jobs of the executor advancing
    one put at a time in any order between them, gets the answers of a finite map: a put takes
    effect when its job reaches it, lookups tell the known keys, removals forget, a blocking read
    returns a new object that starts with the payload exactly when the map has one, a non-blocking
    read one object per key before the first miss, all different; after the shutdown coroutines
    and submissions are refused, queued jobs still run; [_put_tasks] and the entries agree at the end. *)
Theorem plugin_refines_map (acfg : AerospikeConfig) (spec : MemSpec) (limits : ResolvedLimits) (N : nat) (cap : Z)
    (calls : list (api_call CK)) (w : world C) :
  let self := connector_engine acfg true spec limits in
  frombuffer_ok -> lmcache_ok -> client_constants -> config_ok acfg -> limits_fit self -> 0 <= cap ->
  healthy (w_client w) -> capacity (w_client w) = cap -> store (w_client w) = ∅ ->
  Forall (api_ok acfg spec limits N cap w) calls ->
  api_matches to_string self w calls (start_plugin w) catalog_start.
Proof.
  intros self Hbuf Hlm Hconst Hcfg Hl Hcap Hh Hc Es Hok.
  assert (Hs : serves to_string acfg spec limits N cap w (start_plugin w) catalog_start).
  { split; try done. split; [by apply refines_empty|]. intros k b p Hb. cbn in Hb. by rewrite Es, lookup_empty in Hb. }
  revert Hs Hok. generalize (start_plugin (CK := CK) w) (catalog_start (CK := CK)). clear Hh Hc Es.
  induction calls as [|c calls IH]; intros s m Hs Hok; cbn [api_matches].
  { split; [apply Hs|]. intros k. apply (refines_entry to_string self N cap), Hs. }
  apply Forall_cons in Hok as [Hx Hok].
  pose proof (api_step to_string acfg spec limits N cap w Hbuf Hlm Hconst Hcfg Hl Hcap c s m Hs Hx) as Hstep.
  unfold api_simulated in Hstep. fold self in Hstep.
  destruct (api_perform to_string self c s) as [a s'], (catalog_perform (payload w) c m) as [b m'].
  destruct Hstep as [Ha Hs']. split; [done|]. by apply IH.
Qed.
End theorem.

(** ** Witness: two puts in the background, reads between them, and a shutdown *)

Definition api_world : world MemClient := demo_world ∅ 65536 [] [demo_source; buffer false (lit "abc")].

Definition api_calls : list (api_call string) :=
  [Task (SubmitPut ["k"; "z"] [0%nat; 1%nat]); GetBlocking "k"; Task (StepJob 0); ExistsInPutTasks "z";
   GetNonBlocking ["k"; "z"]; Contains "k" true; Task (StepJob 0); AsyncContains ["k"; "z"; "y"] true;
   GetNonBlocking ["k"; "z"; "y"]; Task ShutdownExecutor; GetNonBlocking ["k"]; Task (StepJob 0); Unpin "k";
   Remove "k" true; GetBlocking "k"; GetBlocking "z"].

Fixpoint catalog_answers (calls : list (api_call string)) (m : Catalog string) : list (api_answer string bytes) :=
  match calls with
  | [] => []
  | c :: calls => let '(a, m) := catalog_perform (payload api_world) c m in a :: catalog_answers calls m
  end.

Lemma demo_source_fits m : byte_array m <> [] -> (length (byte_array m) <=? 12)%nat = true ->
  mo_spec m = demo_spec (Z.of_nat (length (byte_array m))) ->
  source_fits demo_config (demo_spec 12) demo_limits 12 65536 m.
Proof.
  intros Hne Hle%Nat.leb_le Hsp. split_and!.
  - split_and!; [exact Hne|exact Hle|by intros _; eexists|vm_compute; discriminate|vm_compute; discriminate].
  - eexists. split; [reflexivity|]. rewrite Hsp. apply demo_serialize_roundtrip; [lia|reflexivity].
  - intros h. eexists. split; [reflexivity|]. rewrite Hsp. cbn. rewrite length_replicate. lia.
Qed.

Lemma plugin_refines_map_witness :
  drop 8 (catalog_answers api_calls catalog_start) =
    [OfObjects (inr [lit "0123456789"; lit "abc"]); OfTask Nothing; OfObjects (inl (Py RuntimeError));
     OfTask (EndedPut [] (inr tt)); OfBool (inr true); OfBool (inr true); OfObject (inr None);
     OfObject (inr (Some (lit "abc")))] /\
  api_matches demo_str demo_connector api_world api_calls (start_plugin api_world) catalog_start.
Proof.
  split; [vm_compute; reflexivity|].
  apply (plugin_refines_map demo_str demo_config (demo_spec 12) demo_limits 12 65536); try reflexivity; try lia.
  - exact demo_frombuffer_ok.
  - exact demo_lmcache_ok.
  - exact demo_client_constants.
  - exact demo_config_ok.
  - exact demo_limits_ok.
  - assert (Hsrc : Forall (source_ok demo_config (demo_spec 12) demo_limits 12 65536 api_world) [0%nat; 1%nat]).
    { constructor; [|constructor; [|constructor]].
      - exists demo_source. split; [vm_compute; reflexivity|]. apply demo_source_fits; [discriminate|reflexivity..].
      - exists (buffer false (lit "abc")). split; [vm_compute; reflexivity|]. apply demo_source_fits; [discriminate|reflexivity..]. }
    assert (Hnd : NoDup ["k"; "z"; "y"]) by (apply (bool_decide_unpack _); vm_compute; exact I).
    apply Forall_cons_2; [exact Hsrc|]. repeat (apply Forall_cons_2; [first [exact I|exact Hnd]|]). apply Forall_nil_2.
Defined.
