(* ===== verification/L2Plugin.v ===== *)
(** * The L2 adapter ([l2_plugin.py])

    Tasks of [AerospikeL2Plugin]: stores, lookups that lock, loads and unlocks.  A submit
    function takes a task id and queues the job; a [_sync] function is what an executor thread
    runs, on the world and on the plugin's state; the query functions hand results over.  The
    event file descriptors are counters of [notify] calls, and the listener calls of the base
    class are a log.  The chunks of a job run on a second pool ([ParallelChunks]). *)

From S2P Require Import Prelude Errors Config Limits Crc32 Keys Runtime Policies Metrics Serde Engine.
From S2P Require Import ClientSpec Concrete Store GetFacts Reads PutFacts KeyOps BatchPut BatchGet ParallelChunks.

(** What the base class is told. *)
Inductive notice :=
| KeysStored (keys : list ObjectKey) (sizes : list Z)
| KeysAccessed (keys : list ObjectKey)
| KeysDeleted (keys : list ObjectKey) (sizes : list Z).

#[global] Instance byte_countable : Countable Byte.byte.
Proof.
  apply (inj_countable Byte.to_N Byte.of_N). intros x. apply Strings.Byte.of_to_N.
Defined.

#[global] Instance ObjectKey_countable : Countable ObjectKey.
Proof.
  apply (inj_countable' (fun k => (chunk_hash k, ok_model_name k, kv_rank k, cache_salt k))
    (fun '(a, b, c, d) => mkObjectKey a b c d)). by intros [].
Defined.

Record L2 := mkL2 {
  _locked : gmap ObjectKey Z;
  _next_id : Z;
  _done_store : gmap Z (bool * Z);
  _done_lookup : gmap Z (list bool);
  _done_load : gmap Z (list bool);
  _efds : nat * nat * nat;
  _notices : list notice
}.

Definition set_locked (f : gmap ObjectKey Z -> gmap ObjectKey Z) (s : L2) : L2 :=
  mkL2 (f (_locked s)) (_next_id s) (_done_store s) (_done_lookup s) (_done_load s) (_efds s) (_notices s).

Definition notify (n : notice) (s : L2) : L2 :=
  mkL2 (_locked s) (_next_id s) (_done_store s) (_done_lookup s) (_done_load s) (_efds s)
    (_notices s ++ [n]).

(** [self._done_store[tid] = ...] and [self._store_efd.notify()], and the same for the others. *)
Definition finish_store (tid : Z) (r : bool * Z) (s : L2) : L2 :=
  mkL2 (_locked s) (_next_id s) (<[tid := r]> (_done_store s)) (_done_lookup s) (_done_load s)
    (let '(a, b, c) := _efds s in (S a, b, c)) (_notices s).

Definition finish_lookup (tid : Z) (bm : list bool) (s : L2) : L2 :=
  mkL2 (_locked s) (_next_id s) (_done_store s) (<[tid := bm]> (_done_lookup s)) (_done_load s)
    (let '(a, b, c) := _efds s in (a, S b, c)) (_notices s).

Definition finish_load (tid : Z) (bm : list bool) (s : L2) : L2 :=
  mkL2 (_locked s) (_next_id s) (_done_store s) (_done_lookup s) (<[tid := bm]> (_done_load s))
    (let '(a, b, c) := _efds s in (a, b, S c)) (_notices s).

(** ** Task ids and results *)

Definition _alloc_id (s : L2) : Z * L2 :=
  (_next_id s, mkL2 (_locked s) (_next_id s + 1) (_done_store s) (_done_lookup s) (_done_load s)
                 (_efds s) (_notices s)).

Definition pop_completed_store_tasks (s : L2) : gmap Z (bool * Z) * L2 :=
  (_done_store s, mkL2 (_locked s) (_next_id s) ∅ (_done_lookup s) (_done_load s) (_efds s) (_notices s)).

Definition query_lookup_and_lock_result (task_id : Z) (s : L2) : option (list bool) * L2 :=
  (_done_lookup s !! task_id,
   mkL2 (_locked s) (_next_id s) (_done_store s) (delete task_id (_done_lookup s)) (_done_load s)
     (_efds s) (_notices s)).

Definition query_load_result (task_id : Z) (s : L2) : option (list bool) * L2 :=
  (_done_load s !! task_id,
   mkL2 (_locked s) (_next_id s) (_done_store s) (_done_lookup s) (delete task_id (_done_load s))
     (_efds s) (_notices s)).

(** ** The jobs *)

Section jobs.
Context (to_string : CacheEngineKey -> string) (dtype : string) `{Env} (self : Engine).
Context {C : Type} `{AerospikeClient C}.

Definition _to_ck (k : ObjectKey) : CacheEngineKey := object_key_to_cache_engine_key k dtype.

Definition chunk_size : nat := 32.

Definition items_of (keys : list ObjectKey) (objects : list loc) : list (CacheEngineKey * loc) :=
  zip (_to_ck <$> keys) objects.

(** The loop over the results: [ok], the stored keys with their sizes, and the total. *)
Fixpoint tally_stored (l : list (ObjectKey * loc * bool)) (ok : bool)
    (stored : list ObjectKey) (sizes : list Z) (total : Z)
    : prog ev (bool * list ObjectKey * list Z * Z) :=
  match l with
  | [] => Ret (ok, stored, sizes, total)
  | (_, _, false) :: l => tally_stored l false stored sizes total
  | (k, obj, true) :: l =>
      let! size := trigger (MemGetSize obj) in
      let! size' := trigger (MemGetSize obj) in
      tally_stored l ok (stored ++ [k]) (sizes ++ [size]) (total + size')
  end.

Definition _store_sync (pool : batch_pool) (keys : list ObjectKey) (objects : list loc) (tid : Z)
    (w : world C) (s : L2) : world C * L2 :=
  let '(r, w) := run
    (attempt (let! results := _parallel_chunks (fun chunk => batched_put to_string self chunk false)
                                pool (items_of keys objects) chunk_size in
              tally_stored (zip (zip keys objects) results) true [] [] 0)) w in
  let '(ok, stored, sizes, total) :=
    match r with
    | inr (inr out) => out
    | _ => (false, [], [], 0)
    end in
  let s := finish_store tid (ok, total) s in
  (w, if ok && negb (bool_decide (stored = [])) then notify (KeysStored stored sizes) s else s).

(** The loop over the hits: the locks are counted, [bm] is the list of hits. *)
Fixpoint count_locks (l : list (ObjectKey * bool)) (locked : gmap ObjectKey Z) : gmap ObjectKey Z :=
  match l with
  | [] => locked
  | (k, hit) :: l =>
      count_locks l (if hit then <[k := default 0 (locked !! k) + 1]> locked else locked)
  end.

Definition hit_keys (l : list (ObjectKey * bool)) : list ObjectKey :=
  fst <$> filter (fun x => snd x = true) l.

Definition _lookup_sync (keys : list ObjectKey) (tid : Z) (w : world C) (s : L2)
    : result unit * world C * L2 :=
  let '(r, w) := run (attempt (batched_exists_mask to_string self (_to_ck <$> keys))) w in
  let hits := match r with inr (inr hits) => hits | _ => replicate (length keys) false end in
  let s := set_locked (count_locks (zip keys hits)) s in
  let hit := hit_keys (zip keys hits) in
  let bm := hits ++ replicate (length keys - length hits) false in
  match hit with
  | [] => (inr tt, w, finish_lookup tid bm s)
  | _ =>
      let '(r, w) := run (pin_keys to_string self (_to_ck <$> hit)) w in
      match r with
      | inl e => (inl e, w, s)   (* the exception stays in the future *)
      | inr _ => (inr tt, w, finish_lookup tid bm (notify (KeysAccessed hit) s))
      end
  end.

Definition _load_sync (pool : batch_pool) (keys : list ObjectKey) (objects : list loc) (tid : Z)
    (w : world C) (s : L2) : world C * L2 :=
  let '(r, w) := run
    (attempt (_parallel_chunks (fun chunk => batched_get_preallocated to_string self chunk)
                pool (items_of keys objects) chunk_size)) w in
  let hits := match r with inr (inr hits) => hits | _ => [] end in
  (w, finish_load tid (hits ++ replicate (length keys - length hits) false) s).

Fixpoint _unlock_sync (keys : list ObjectKey) (w : world C) (s : L2) : result unit * world C * L2 :=
  match keys with
  | [] => (inr tt, w, s)
  | ok :: keys =>
      match _locked s !! ok with
      | None => _unlock_sync keys w s
      | Some n =>
          let s := set_locked (fun m => if n <=? 1 then delete ok m else <[ok := n - 1]> m) s in
          let '(r, w) := run (unpin to_string self (_to_ck ok)) w in
          match r with
          | inl e => (inl e, w, s)
          | inr _ => _unlock_sync keys w s
          end
      end
  end.

(** [delete]: the first exception of [remove] ends it. *)
Definition l2_delete (keys : list ObjectKey) (w : world C) (s : L2) : result unit * world C * L2 :=
  let '(r, w) := run (traverse (fun ok => remove to_string self (_to_ck ok)) keys) w in
  match r with
  | inl e => (inl e, w, s)
  | inr _ => (inr tt, w, notify (KeysDeleted keys (replicate (length keys) 0)) s)
  end.
End jobs.

(** ** Lock counts *)

(** A key is in the lock table exactly while it has a positive count. *)
Definition locks_ok (m : gmap ObjectKey Z) : Prop := forall k n, m !! k = Some n -> 1 <= n.

Lemma hit_keys_cons x b l : hit_keys ((x, b) :: l) = if b then x :: hit_keys l else hit_keys l.
Proof.
  unfold hit_keys. destruct b; [by rewrite filter_cons_True|by rewrite filter_cons_False].
Qed.

Lemma hit_keys_sub l : hit_keys l `sublist_of` fst <$> l.
Proof. apply fmap_sublist, sublist_filter. Qed.

Lemma elem_of_hit_keys l k : k ∈ hit_keys l -> k ∈ fst <$> l.
Proof. intros Hk. by eapply elem_of_sublist, hit_keys_sub. Qed.

Lemma count_locks_other l : forall m k, k ∉ hit_keys l -> count_locks l m !! k = m !! k.
Proof.
  induction l as [|[x hit] l IH]; intros m k Hk; [done|]. rewrite hit_keys_cons in Hk.
  cbn [count_locks]. destruct hit; [|by apply IH]. apply not_elem_of_cons in Hk as [Hne Hk].
  rewrite IH by done. by apply lookup_insert_ne.
Qed.

Lemma count_locks_hit l : forall m k, NoDup (fst <$> l) -> k ∈ hit_keys l ->
  count_locks l m !! k = Some (default 0 (m !! k) + 1).
Proof.
  induction l as [|[x hit] l IH]; intros m k Hnd Hk; [by apply not_elem_of_nil in Hk|].
  inversion Hnd as [|? ? Hx Hnd']; subst. rewrite hit_keys_cons in Hk. cbn [count_locks].
  destruct hit; [|by apply IH]. apply elem_of_cons in Hk as [->|Hk].
  - rewrite count_locks_other by (by intros Hin%elem_of_hit_keys). by rewrite lookup_insert_eq.
  - rewrite IH by done. rewrite lookup_insert_ne; [done|]. intros ->. by apply Hx, elem_of_hit_keys.
Qed.

(** Which keys are hits, by position. *)
Lemma hit_keys_lookup (keys : list ObjectKey) : forall hits i k (hit : bool),
  NoDup keys -> keys !! i = Some k -> hits !! i = Some hit ->
  k ∈ hit_keys (zip keys hits) <-> hit = true.
Proof.
  induction keys as [|x keys IH]; intros [|h hits] i k hit Hnd Hk Hh; try done.
  inversion Hnd as [|? ? Hx Hnd']; subst. cbn [zip zip_with]. rewrite hit_keys_cons.
  assert (Hsub : forall y, y ∈ hit_keys (zip keys hits) -> y ∈ keys).
  { intros y Hy%elem_of_hit_keys. apply list_elem_of_fmap in Hy as ([a b] & -> & Hy).
    by apply elem_of_zip_l in Hy. }
  destruct i as [|i]; simpl in *; simplify_eq.
  - destruct hit; [split; [done|by left]|]. split; [|done]. intros Hin%Hsub. done.
  - assert (Hne : k <> x) by (intros ->; by apply Hx, (list_elem_of_lookup_2 _ i)).
    rewrite <- (IH hits i k hit) by done. destruct h; [rewrite elem_of_cons; naive_solver|done].
Qed.

(** The lock table after the keys of an unlock. *)
Definition unlock_one (k : ObjectKey) (m : gmap ObjectKey Z) : gmap ObjectKey Z :=
  match m !! k with
  | None => m
  | Some n => if n <=? 1 then delete k m else <[k := n - 1]> m
  end.

Definition unlock_locks (keys : list ObjectKey) (m : gmap ObjectKey Z) : gmap ObjectKey Z :=
  foldl (fun m k => unlock_one k m) m keys.

Lemma unlock_one_ne k k' m : k' <> k -> unlock_one k m !! k' = m !! k'.
Proof.
  intros Hne. unfold unlock_one. destruct (m !! k) as [n|]; [|done].
  destruct (n <=? 1); [by rewrite lookup_delete_ne|by rewrite lookup_insert_ne].
Qed.

Lemma unlock_one_local k m m' : m !! k = m' !! k -> unlock_one k m !! k = unlock_one k m' !! k.
Proof.
  intros E. unfold unlock_one. rewrite <- E. destruct (m !! k) as [n|] eqn:Em; [|congruence].
  destruct (n <=? 1); [by rewrite !lookup_delete_eq|by rewrite !lookup_insert_eq].
Qed.

Lemma unlock_locks_other keys : forall m k, k ∉ keys -> unlock_locks keys m !! k = m !! k.
Proof.
  induction keys as [|x keys IH]; intros m k Hk; [done|]. apply not_elem_of_cons in Hk as [Hne Hk].
  cbn. fold (unlock_locks keys (unlock_one x m)). rewrite IH by done. by apply unlock_one_ne.
Qed.

Lemma unlock_locks_in keys : forall m k, NoDup keys -> k ∈ keys ->
  unlock_locks keys m !! k = unlock_one k m !! k.
Proof.
  induction keys as [|x keys IH]; intros m k Hnd Hk; [by apply not_elem_of_nil in Hk|].
  inversion Hnd as [|? ? Hx Hnd']; subst. cbn. fold (unlock_locks keys (unlock_one x m)).
  apply elem_of_cons in Hk as [->|Hk]; [by apply unlock_locks_other|].
  rewrite IH by done. apply unlock_one_local, unlock_one_ne. by intros ->.
Qed.

(** Locking what a lookup hit and unlocking it again. *)
Lemma unlock_count l m :
  locks_ok m -> NoDup (fst <$> l) -> unlock_locks (hit_keys l) (count_locks l m) = m.
Proof.
  intros Hok Hnd. assert (Hnd' : NoDup (hit_keys l)).
  { eapply sublist_NoDup; [exact Hnd|]. apply hit_keys_sub. }
  apply map_eq. intros k. destruct (decide (k ∈ hit_keys l)) as [Hk|Hk].
  - rewrite unlock_locks_in by done. unfold unlock_one. rewrite count_locks_hit by done.
    destruct (m !! k) as [n|] eqn:E; simpl.
    + pose proof (Hok k n E). destruct (Z.leb_spec (n + 1) 1); [lia|].
      rewrite lookup_insert_eq. f_equal. lia.
    + by rewrite lookup_delete_eq.
  - rewrite unlock_locks_other by done. by apply count_locks_other.
Qed.

(** ** The jobs *)

Section theorems.
Context {C : Type} `{AerospikeClient C} `{!ClientSpec C} `{Env}.
Context (to_string : CacheEngineKey -> string) `{!Inj (=) (=) to_string} (dtype : string) (self : Engine).

Abbreviation entry := (Store.entry to_string self).
Abbreviation st w := (store (w_client w)).
Abbreviation ck_of := (_to_ck dtype).
Abbreviation items_of := (items_of dtype).

Lemma items_fst keys objects : fst <$> items_of keys objects = take (length objects) (ck_of <$> keys).
Proof.
  unfold L2Plugin.items_of. revert objects. induction (ck_of <$> keys) as [|k ks IH]; intros [|l ls]; try done.
  cbn. f_equal. apply IH.
Qed.

Lemma items_snd keys objects : snd <$> items_of keys objects = take (length keys) objects.
Proof.
  unfold L2Plugin.items_of. rewrite <- (length_fmap ck_of keys). generalize (ck_of <$> keys). intros ks.
  revert objects. induction ks as [|k ks IH]; intros [|l ls]; try done. cbn. f_equal. apply IH.
Qed.

Lemma NoDup_items_fst keys objects : NoDup (ck_of <$> keys) -> NoDup (fst <$> items_of keys objects).
Proof. intros Hnd. rewrite items_fst. by apply NoDup_take. Qed.

Lemma NoDup_fmap_elem_inj {A B} (f : A -> B) (l : list A) x y :
  NoDup (f <$> l) -> x ∈ l -> y ∈ l -> f x = f y -> x = y.
Proof.
  intros Hnd (i & Hi)%list_elem_of_lookup (j & Hj)%list_elem_of_lookup E.
  assert (i = j) as ->; [|congruence].
  eapply NoDup_lookup; [exact Hnd| |]; rewrite list_lookup_fmap; [by rewrite Hi|rewrite Hj; simpl; congruence].
Qed.

Lemma chunk_incl {A} n (l c : list A) x : (0 < n)%nat -> c ∈ chunks n l -> x ∈ c -> x ∈ l.
Proof. intros Hn Hc Hx. rewrite <- (chunks_concat n l Hn). by eapply elem_of_concat. Qed.

(** One chunk of a store, as [ParallelChunks] wants it. *)
Lemma store_chunk_spec (items c : list (CacheEngineKey * loc)) (w0 : world C) :
  target_ok self -> NoDup (fst <$> items) -> NoDup (fst <$> c) -> (forall it, it ∈ c -> it ∈ items) ->
  chunk_spec (fun chunk => batched_put to_string self chunk false)
    (touched to_string self (fst <$> items) w0)
    (fun it w => is_Some (w_heap w !! snd it))
    (fun it w => item_stored to_string self (w_heap w0) (st w) it true) items c.
Proof.
  intros Ht Hnd Hndc Hsub w HP Hpre. pose proof (run_batched_put to_string self c false w Ht Hpre Hndc) as Hp.
  destruct (run _ w) as [r w']. destruct Hp as (Htouch & Hall & _). destruct HP as [Hh0 Hf0].
  destruct Htouch as [Hh Hf]. split_and!.
  - split; [congruence|]. intros k Hk. rewrite Hf, Hf0; [done|done|]. intros ck Hck.
    apply Hk. apply list_elem_of_fmap in Hck as (it & -> & Hit). apply list_elem_of_fmap. eauto.
  - intros it Hit Hout. rewrite Hh. split; [done|]. intros Hg E m Hm. generalize (Hg E m Hm).
    eapply (touched_kept to_string self (fst <$> c)); [by split|].
    intros (it' & E' & Hit')%list_elem_of_fmap. apply Hout.
    rewrite (NoDup_fmap_elem_inj fst items it it'); auto.
  - intros rs Er. specialize (Hall rs Er). unfold all_stored in Hall. rewrite Hh0 in Hall.
    eapply Forall2_impl; [exact Hall|]. intros it ok Hs ->. exact Hs.
Qed.

(** One chunk of a load. *)
Lemma load_chunk_spec (Hbuf : frombuffer_ok) `{!EngineHooks C self}
    (items c : list (CacheEngineKey * loc)) (w0 : world C) :
  NoDup (snd <$> items) -> NoDup (snd <$> c) -> (forall it, it ∈ c -> it ∈ items) ->
  chunk_spec (fun chunk => batched_get_preallocated to_string self chunk)
    (fun w => st w = st w0 /\ forall l, l ∉ (snd <$> items) -> w_heap w !! l = w_heap w0 !! l)
    (fun it w => buffer_ok (snd it) w)
    (fun it w => item_filled to_string self (st w0) w it) items c.
Proof.
  intros Hnd Hndc Hsub w [Hst0 Hh0] Hpre.
  pose proof (run_batched_get to_string self Hbuf c w Hpre Hndc) as Hg.
  destruct (run _ w) as [r w']. destruct Hg as (Hst & Hh & Hall & _). split_and!.
  - congruence.
  - intros l Hl. rewrite Hh; [by apply Hh0|]. intros (it & -> & Hit)%list_elem_of_fmap.
    apply Hl, list_elem_of_fmap. eauto.
  - intros it Hit Hout. assert (E : w_heap w' !! snd it = w_heap w !! snd it).
    { apply Hh. intros (it' & E' & Hit')%list_elem_of_fmap. apply Hout.
      rewrite (NoDup_fmap_elem_inj snd items it it'); auto. }
    unfold buffer_ok, item_filled. by rewrite E.
  - intros rs Er. specialize (Hall rs Er). rewrite Hst0 in Hall. exact Hall.
Qed.

(** What the loop over the results of a store computes. *)
Definition sizes_of (w : world C) (ls : list loc) : list Z := (fun l => mo_get_size (mem w l)) <$> ls.

Definition succeeded (l : list (ObjectKey * loc * bool)) : list (ObjectKey * loc) :=
  fst <$> filter (fun x => snd x = true) l.

Lemma run_tally_stored l : forall ok stored sizes total (w : world C),
  run (tally_stored l ok stored sizes total) w =
    (inr (ok && forallb snd l, stored ++ (fst <$> succeeded l), sizes ++ sizes_of w (snd <$> succeeded l),
          total + foldr Z.add 0 (sizes_of w (snd <$> succeeded l))), w).
Proof.
  unfold succeeded. induction l as [|[[k o] [|]] l IH]; intros ok stored sizes total w.
  - cbn. by rewrite andb_true_r, !app_nil_r, Z.add_0_r.
  - rewrite filter_cons_True by done. cbn [tally_stored]. rewrite run_bind, run_trigger. cbn [handle fst snd].
    rewrite run_bind, run_trigger. cbn [handle fst snd]. rewrite IH. cbn.
    rewrite <- !app_assoc, Z.add_assoc. done.
  - rewrite filter_cons_False by done. cbn [tally_stored]. rewrite IH. cbn. by rewrite andb_false_r.
Qed.

Lemma length_items keys objects : length keys = length objects -> length (items_of keys objects) = length keys.
Proof. intros E. unfold L2Plugin.items_of. rewrite length_zip_with_l_eq; by rewrite length_fmap. Qed.

Lemma items_lookup keys objects i k l :
  keys !! i = Some k -> objects !! i = Some l -> items_of keys objects !! i = Some (ck_of k, l).
Proof.
  intros Hk Hl. unfold L2Plugin.items_of. apply lookup_zip_with_Some. exists (ck_of k), l.
  split_and!; [done| |done]. by rewrite list_lookup_fmap, Hk.
Qed.

Lemma succeeded_all (kos : list (ObjectKey * loc)) : forall rs,
  length rs = length kos -> forallb snd (zip kos rs) = true -> succeeded (zip kos rs) = kos.
Proof.
  unfold succeeded. induction kos as [|ko kos IH]; intros [|r rs] Hlen Hall; try done.
  cbn in Hall. apply andb_true_iff in Hall as [-> Hall]. cbn [zip zip_with].
  rewrite filter_cons_True by done. cbn. f_equal. apply IH; [by injection Hlen|done].
Qed.

Lemma fst_zip_eq {A B} (l : list A) (k : list B) : length l = length k -> fst <$> zip l k = l.
Proof. intros E. apply fst_zip. lia. Qed.

Lemma snd_zip_eq {A B} (l : list A) (k : list B) : length l = length k -> snd <$> zip l k = k.
Proof. intros E. apply snd_zip. lia. Qed.

Lemma forallb_all_true {A B} (l : list A) (k : list B) : forallb snd (zip l ((fun _ => true) <$> k)) = true.
Proof. revert k. induction l as [|x l IH]; intros [|y k]; try done. cbn. apply IH. Qed.

Lemma forallb_lookup_true {A} (l : list A) (rs : list bool) i r :
  length rs = length l -> forallb snd (zip l rs) = true -> rs !! i = Some r -> r = true.
Proof.
  intros Hlen Hall Hi. destruct (lookup_lt_is_Some_2 l i) as [x Hx].
  { rewrite <- Hlen. by eapply lookup_lt_Some. }
  rewrite forallb_forall in Hall. apply (Hall (x, r)). apply list_elem_of_In.
  apply (list_elem_of_lookup_2 _ i), lookup_zip_with_Some. by exists x, r.
Qed.

(** The chunked writes of a store task. *)
Lemma run_store_chunks (order : list nat) (keys : list ObjectKey) (objects : list loc) (w : world C) :
  target_ok self -> NoDup (ck_of <$> keys) -> length keys = length objects ->
  Forall (fun l => is_Some (w_heap w !! l)) objects ->
  completes order (length (chunks chunk_size (items_of keys objects))) ->
  let '(r, w') := run (_parallel_chunks (fun chunk => batched_put to_string self chunk false)
                        (Running order) (items_of keys objects) chunk_size) w in
  touched to_string self (ck_of <$> keys) w w' /\
  forall rs, r = inr rs -> length rs = length keys /\
    forall i k l m, rs !! i = Some true -> keys !! i = Some k -> objects !! i = Some l ->
      w_heap w !! l = Some m -> PutFacts.kept to_string self (st w') (ck_of k) (byte_array m).
Proof.
  intros Ht Hnd Hlen Hobj Hord. set (items := items_of keys objects) in *.
  assert (Hndi : NoDup (fst <$> items)) by by apply NoDup_items_fst.
  assert (Hn : (0 < chunk_size)%nat) by (unfold chunk_size; lia).
  assert (Hfst : fst <$> items = ck_of <$> keys).
  { unfold items. rewrite items_fst, take_ge; [done|]. rewrite length_fmap. lia. }
  pose proof (run_parallel_chunks (fun chunk => batched_put to_string self chunk false)
    (touched to_string self (fst <$> items) w) (fun it w => is_Some (w_heap w !! snd it))
    (fun it w' => item_stored to_string self (w_heap w) (st w') it true) items order chunk_size w
    Hn (NoDup_fmap_1 _ _ Hndi) Hord) as Hrun.
  specialize (Hrun (store_chunk_spec items items w Ht Hndi Hndi (fun it Hit => Hit))).
  destruct (run (_parallel_chunks _ _ _ _) w) as [r w1]. destruct Hrun as [Htouch Hans].
  { apply Forall_forall. intros c Hc. apply store_chunk_spec; [done|done|by eapply chunks_NoDup|].
    intros it. by eapply chunk_incl. }
  { apply touched_refl. }
  { apply Forall_forall. intros it Hit. rewrite Forall_forall in Hobj. apply Hobj.
    rewrite <- (take_ge objects (length keys)) by lia. rewrite <- (items_snd keys objects).
    by apply list_elem_of_fmap_2. }
  rewrite <- Hfst. split; [done|]. intros rs Er. specialize (Hans rs Er). split.
  - rewrite <- (length_items keys objects Hlen). symmetry. by eapply Forall2_length.
  - intros i k l m Hi Hk Hl Hm. pose proof (items_lookup keys objects i k l Hk Hl) as Hit.
    destruct (Forall2_lookup_l _ _ _ _ _ Hans Hit) as (ok & Hoki & Hok).
    rewrite Hi in Hoki. injection Hoki as <-. by apply (Hok eq_refl eq_refl).
Qed.

(** On a healthy cluster a chunk is taken whole. *)
Lemma store_chunk_served (wp : policy) (w w1 : world C) (c : list (CacheEngineKey * loc)) :
  limits_fit self -> write_policy (cfg self) = inr wp -> served w w1 -> Forall (fun it => putable self w1 it) c ->
  exists w2, run (batched_put to_string self c false) w1 = (inr (replicate (length c) true), w2) /\
    served w w2 /\ served w1 w2.
Proof.
  intros Hl Hwp Hsv Hc. destruct (run_batched_put_healthy to_string self wp Hl Hwp c false w1) as (w2 & E & Hsv2);
    [apply Hsv|done|]. exists w2. split_and!; [done|by eapply served_trans|done].
Qed.

(** On a healthy cluster every chunk answers true for every item. *)
Lemma run_store_chunks_healthy (wp : policy) (order : list nat) (keys : list ObjectKey) (objects : list loc)
    (w : world C) :
  limits_fit self -> write_policy (cfg self) = inr wp -> healthy (w_client w) ->
  NoDup (items_of keys objects) -> completes order (length (chunks chunk_size (items_of keys objects))) ->
  Forall (putable self w) (items_of keys objects) ->
  let '(r, w') := run (_parallel_chunks (fun chunk => batched_put to_string self chunk false)
                        (Running order) (items_of keys objects) chunk_size) w in
  r = inr ((fun _ => true) <$> items_of keys objects) /\ served w w'.
Proof.
  intros Hl Hwp Hh Hnd Hord Hit. set (items := items_of keys objects) in *.
  assert (Hn : (0 < chunk_size)%nat) by (unfold chunk_size; lia).
  assert (Hspec : forall c, chunk_spec (fun chunk => batched_put to_string self chunk false) (served w)
    (fun it w => putable self w it) (fun _ _ => True) items c).
  { intros c w1 Hsv Hc. destruct (store_chunk_served wp w w1 c Hl Hwp Hsv Hc) as (w2 & -> & Hsv2 & Hs12).
    split_and!; [done| |].
    - intros it _ _. split; [|done]. intros Hp. eapply Forall_singleton, putable_served; [exact Hs12|by apply Forall_singleton].
    - intros rs [= <-]. apply Forall2_same_length_lookup. split; [by rewrite length_replicate|done]. }
  assert (Hspecs : Forall (chunk_spec (fun chunk => batched_put to_string self chunk false) (served w)
    (fun it w => putable self w it) (fun _ _ => True) items) (chunks chunk_size items)) by (apply Forall_forall; auto).
  pose proof (run_parallel_chunks _ _ _ _ items order chunk_size w Hn Hnd Hord (Hspec items) Hspecs (served_refl w Hh) Hit) as Hp.
  pose proof (run_parallel_chunks_exact _ _ _ _ items (fun _ => true) order chunk_size w Hn Hnd Hord Hspecs) as Hx.
  destruct (run (_parallel_chunks _ _ _ _) w) as [r w']. destruct Hp as [Hsv _]. split; [|done].
  apply Hx; [|by apply served_refl|done].
  intros c r' _ (w1 & Hsv1 & Hc & <-). destruct (store_chunk_served wp w w1 c Hl Hwp Hsv1 Hc) as (w2 & -> & _). cbn [fst].
  f_equal. clear. induction c; cbn; congruence.
Qed.

(** C17: A store task, for every completion order of its chunks and under any fault.  It always
    records a result, touches only the entries of its keys and no object.  A successful result
    means every key has its payload as entry; its size is the sum of the objects' sizes and the
    stored keys are announced.  Otherwise nothing is announced.  On a healthy cluster whose records
    are large enough the result is a success. *)
Theorem store_sync_spec (order : list nat) (keys : list ObjectKey) (objects : list loc) (tid : Z)
    (w : world C) (s : L2) :
  target_ok self -> NoDup (ck_of <$> keys) -> length keys = length objects ->
  Forall (fun l => is_Some (w_heap w !! l)) objects ->
  completes order (length (chunks chunk_size (items_of keys objects))) ->
  let '(w', s') := _store_sync to_string dtype self (Running order) keys objects tid w s in
  w_heap w' = w_heap w /\
  (forall ck, ck ∉ ck_of <$> keys -> entry (st w') ck = entry (st w) ck) /\
  exists (ok : bool) total, _done_store s' = <[tid := (ok, total)]> (_done_store s) /\
    (healthy (w_client w) -> limits_fit self -> (exists wp, write_policy (cfg self) = inr wp) ->
       Forall (putable self w) (items_of keys objects) -> ok = true) /\
    if ok then
      (forall i k l m, keys !! i = Some k -> objects !! i = Some l -> w_heap w !! l = Some m ->
         entry (st w') (ck_of k) = Some (byte_array m)) /\
      total = foldr Z.add 0 (sizes_of w objects) /\
      _notices s' = _notices s ++ (if bool_decide (keys = []) then [] else [KeysStored keys (sizes_of w objects)])
    else _notices s' = _notices s.
Proof.
  intros Ht Hnd Hlen Hobj Hord. pose proof (run_store_chunks order keys objects w Ht Hnd Hlen Hobj Hord) as Hrun.
  assert (Hndi : NoDup (items_of keys objects)) by (eapply NoDup_fmap_1; by apply NoDup_items_fst).
  pose proof (fun wp Hl Hwp Hh => run_store_chunks_healthy wp order keys objects w Hl Hwp Hh Hndi Hord) as Hhe.
  unfold _store_sync. rewrite run_attempt, run_bind.
  destruct (run (_parallel_chunks _ _ _ _) w) as [r w1]. destruct Hrun as [Htouch Hans].
  assert (Hframe : forall ck, ck ∉ ck_of <$> keys -> entry (st w1) ck = entry (st w) ck)
    by (intros ck; by apply touched_entry).
  destruct r as [e|rs].
  { cbn. split_and!; [apply Htouch|done|]. exists false, 0. split_and!; [done| |done].
    intros Hh Hl [wp Hwp] Hit. by destruct (Hhe wp Hl Hwp Hh Hit). }
  destruct (Hans rs eq_refl) as [Hlr Hstored].
  rewrite run_tally_stored. cbn [fst snd andb app]. rewrite Z.add_0_l.
  set (kos := zip keys objects). assert (Hlk : length rs = length kos)
    by (unfold kos; by rewrite length_zip_with_l_eq).
  split_and!; [apply Htouch|done|].
  destruct (forallb snd (zip kos rs)) eqn:Eok; cbn [andb].
  2:{ eexists false, _. split_and!; [done| |done]. intros Hh Hl [wp Hwp] Hit.
      destruct (Hhe wp Hl Hwp Hh Hit) as [[= ->] _]. rewrite <- Eok. by apply forallb_all_true. }
  rewrite succeeded_all by done. unfold kos. rewrite fst_zip_eq, snd_zip_eq by done.
  assert (Hsz : sizes_of w1 objects = sizes_of w objects)
    by (unfold sizes_of, mem; destruct Htouch as [-> _]; done).
  rewrite Hsz. exists true, (foldr Z.add 0 (sizes_of w objects)).
  split; [by destruct (negb _)|]. split; [done|]. split_and!; [|done|].
  - intros i k l m Hk Hl Hm. apply (Hstored i k l m); [|done..].
    destruct (lookup_lt_is_Some_2 rs i) as [ok Hok]; [rewrite Hlr; by eapply lookup_lt_Some|].
    rewrite Hok. f_equal. by eapply (forallb_lookup_true kos rs i).
  - destruct (bool_decide (keys = [])); cbn [negb]; [by rewrite app_nil_r|done].
Qed.

(** The chunked reads of a load task. *)
Lemma run_load_chunks (Hbuf : frombuffer_ok) `{!EngineHooks C self} (order : list nat)
    (items : list (CacheEngineKey * loc)) (w : world C) :
  NoDup (snd <$> items) -> buffers w items -> completes order (length (chunks chunk_size items)) ->
  let '(r, w') := run (_parallel_chunks (fun chunk => batched_get_preallocated to_string self chunk)
                        (Running order) items chunk_size) w in
  st w' = st w /\ (forall l, l ∉ (snd <$> items) -> w_heap w' !! l = w_heap w !! l) /\
  forall rs, r = inr rs ->
    Forall2 (fun it (ok : bool) => ok = true -> item_filled to_string self (st w) w' it) items rs.
Proof.
  intros Hnd Hb Hord. assert (Hn : (0 < chunk_size)%nat) by (unfold chunk_size; lia).
  pose proof (run_parallel_chunks (fun chunk => batched_get_preallocated to_string self chunk)
    (fun w' => st w' = st w /\ forall l, l ∉ (snd <$> items) -> w_heap w' !! l = w_heap w !! l)
    (fun it w => buffer_ok (snd it) w) (fun it w' => item_filled to_string self (st w) w' it)
    items order chunk_size w Hn (NoDup_fmap_1 _ _ Hnd) Hord) as Hrun.
  specialize (Hrun (load_chunk_spec Hbuf items items w Hnd Hnd (fun it Hit => Hit))).
  destruct (run (_parallel_chunks _ _ _ _) w) as [r w1]. destruct Hrun as [[Hst Hh] Hans]; [|done..].
  apply Forall_forall. intros c Hc. apply (load_chunk_spec Hbuf items c w Hnd).
  - by apply (chunks_NoDup snd chunk_size items).
  - intros it. by eapply chunk_incl.
Qed.

(** On a healthy cluster the chunked reads answer which keys have an entry. *)
Lemma run_load_chunks_healthy (Hbuf : frombuffer_ok) `{!EngineHooks C self} (order : list nat)
    (items : list (CacheEngineKey * loc)) (w : world C) :
  healthy (w_client w) -> NoDup (snd <$> items) ->
  completes order (length (chunks chunk_size items)) ->
  Forall (findable to_string self (st w) w) items ->
  fst (run (_parallel_chunks (fun chunk => batched_get_preallocated to_string self chunk)
              (Running order) items chunk_size) w) = inr (has_entry to_string self (st w) <$> items).
Proof.
  intros Hh Hnd Hord Hf. assert (Hn : (0 < chunk_size)%nat) by (unfold chunk_size; lia).
  apply (run_parallel_chunks_exact (fun chunk => batched_get_preallocated to_string self chunk)
    (fun w1 => st w1 = st w /\ healthy (w_client w1)) (fun it w1 => findable to_string self (st w) w1 it)
    (fun _ _ => True) items (has_entry to_string self (st w))); [done| |done| | |done|done].
  - by eapply NoDup_fmap_1.
  - apply Forall_forall. intros c Hc w1 [Es Hh1] Hpre. rewrite <- Es in Hpre.
    assert (Hndc : NoDup (snd <$> c)) by by apply (chunks_NoDup snd chunk_size items).
    pose proof (run_batched_get to_string self Hbuf c w1 (findable_buffers _ _ _ _ _ Hpre) Hndc) as Hg.
    pose proof (run_batched_get_healthy to_string self Hbuf c w1 Hh1 Hpre Hndc) as Hex.
    destruct (run_calm _ (batched_get_calm to_string self c) w1) as [_ Hcalm].
    destruct (run _ w1) as [r w2]. cbn [fst snd] in *. destruct Hg as (Es2 & Hheap & _). split_and!.
    + congruence.
    + by apply Hcalm.
    + intros it Hit Hout. split; [|done]. apply findable_same, Hheap.
      intros (it' & E & Hit')%list_elem_of_fmap. apply Hout.
      by rewrite (NoDup_fmap_elem_inj snd items it it' Hnd Hit (chunk_incl _ _ _ _ Hn Hc Hit') E).
    + intros rs Er. rewrite Hex in Er. injection Er as <-.
      apply Forall2_same_length_lookup. split; [by rewrite length_fmap|done].
  - intros c r Hc (w1 & [Es Hh1] & Hpre & <-). rewrite <- Es in Hpre |- *.
    apply run_batched_get_healthy; [apply _|done..|].
    destruct Hc as [->|Hc]; [done|by apply (chunks_NoDup snd chunk_size items)].
Qed.

(** C18: A load task into different buffers, for every completion order of its chunks and under any
    fault.  It always records a bitmap with one bit per key; a set bit means the buffer starts
    with the payload of the key's entry.  No record and no other object changes.  On a healthy
    cluster, with room in every buffer, the bits are exactly which keys have an entry. *)
Theorem load_sync_spec `{!EngineHooks C self} (order : list nat) (keys : list ObjectKey)
    (objects : list loc) (tid : Z) (w : world C) (s : L2) :
  frombuffer_ok -> NoDup objects -> length keys = length objects ->
  Forall (fun l => buffer_ok l w) objects ->
  completes order (length (chunks chunk_size (items_of keys objects))) ->
  let '(w', s') := _load_sync to_string dtype self (Running order) keys objects tid w s in
  st w' = st w /\ (forall l, l ∉ objects -> w_heap w' !! l = w_heap w !! l) /\
  exists bm, _done_load s' = <[tid := bm]> (_done_load s) /\ length bm = length keys /\
    (forall i k l, bm !! i = Some true -> keys !! i = Some k -> objects !! i = Some l ->
      item_filled to_string self (st w) w' (ck_of k, l)) /\
    (healthy (w_client w) -> Forall (findable to_string self (st w) w) (items_of keys objects) ->
      bm = (fun k => bool_decide (is_Some (entry (st w) (ck_of k)))) <$> keys).
Proof.
  intros Hbuf Hnd Hlen Hobj Hord. set (items := items_of keys objects) in *.
  assert (Hsnd : snd <$> items = objects) by (unfold items; rewrite items_snd, take_ge; [done|lia]).
  assert (Hfst : fst <$> items = ck_of <$> keys)
    by (unfold items; rewrite items_fst, take_ge; [done|rewrite length_fmap; lia]).
  assert (Hndi : NoDup (snd <$> items)) by by rewrite Hsnd.
  assert (Hb : buffers w items) by (rewrite <- Hsnd in Hobj; exact (proj1 (Forall_fmap _ _ _) Hobj)).
  pose proof (run_load_chunks Hbuf order items w Hndi Hb Hord) as Hrun.
  pose proof (fun Hh => run_load_chunks_healthy Hbuf order items w Hh Hndi Hord) as Hhe.
  unfold _load_sync. fold items. rewrite run_attempt.
  destruct (run (_parallel_chunks _ _ _ _) w) as [r w1]. destruct Hrun as (Hst & Hh & Hans).
  cbn [fst snd] in *. rewrite Hsnd in Hh. split_and!; [done|done|]. destruct r as [e|rs].
  - eexists. split; [done|]. cbn [app length]. rewrite Nat.sub_0_r, length_replicate. split_and!; [done| |].
    + intros i k l [Hbad _]%lookup_replicate. done.
    + intros Hw Hf. by specialize (Hhe Hw Hf).
  - specialize (Hans rs eq_refl). pose proof (Forall2_length _ _ _ Hans) as Hlr.
    unfold items in Hlr. rewrite length_items in Hlr by done.
    eexists. split; [done|]. rewrite Hlr, Nat.sub_diag. cbn [replicate]. rewrite app_nil_r. split_and!; [done| |].
    + intros i k l Hi Hk Hl. pose proof (items_lookup keys objects i k l Hk Hl) as Hit.
      destruct (Forall2_lookup_l _ _ _ _ _ Hans Hit) as (ok & Hoki & Hok). apply Hok. congruence.
    + intros Hw Hf. specialize (Hhe Hw Hf). injection Hhe as ->.
      transitivity ((fun ck => bool_decide (is_Some (entry (st w) ck))) <$> (fst <$> items));
        [by rewrite <- list_fmap_compose|]. by rewrite Hfst, <- list_fmap_compose.
Qed.

Lemma run_unlock keys : forall (w : world C) (s : L2),
  let '(r, w', s') := _unlock_sync to_string dtype self keys w s in
  (forall ck, entry (st w') ck = entry (st w) ck) /\
  (r = inr tt -> _locked s' = unlock_locks keys (_locked s)).
Proof.
  induction keys as [|k keys IH]; intros w s; cbn [_unlock_sync]; [done|].
  unfold unlock_locks. cbn [foldl]. unfold unlock_one. destruct (_locked s !! k) as [n|]; [|apply IH].
  pose proof (run_unpin to_string self (ck_of k) w) as Hu. destruct (run (unpin _ _ _) w) as [[e|b] w1];
    destruct Hu as (Hp & _ & _ & _).
  - split; [intros ck; by eapply pin_only_entry|done].
  - set (s1 := set_locked _ s). specialize (IH w1 s1). destruct (_unlock_sync _ _ _ keys w1 s1) as [[r w2] s2].
    destruct IH as [He Hr]. split; [|exact Hr]. intros ck. rewrite He. by eapply pin_only_entry.
Qed.

Lemma zip_fst_pad {A} (l : list A) (rs : list bool) : length rs = length l -> fst <$> zip l rs = l.
Proof. intros E. by apply fst_zip_eq. Qed.

Lemma hit_keys_incl keys rs : length rs = length keys -> hit_keys (zip keys rs) `sublist_of` keys.
Proof. intros E. rewrite <- (zip_fst_pad keys rs) at 2 by done. apply hit_keys_sub. Qed.

(** The hits of a lookup: one answer per key, a hit is a record. *)
Definition mask_ok (s : gmap key bins) (keys : list ObjectKey) (bm : list bool) : Prop :=
  Forall2 (fun k (hit : bool) => hit = true -> present to_string self s (ck_of k)) keys bm.

Lemma run_lookup_mask keys (w : world C) :
  let '(r, w1) := run (batched_exists_mask to_string self (ck_of <$> keys)) w in
  let hits := match r with inr hits => hits | inl _ => replicate (length keys) false end in
  st w1 = st w /\ length hits = length keys /\ mask_ok (st w) keys hits /\
  (healthy (w_client w) -> hits = (fun k => bool_decide (present to_string self (st w) (ck_of k))) <$> keys).
Proof.
  pose proof (run_batched_exists_mask to_string self (ck_of <$> keys) w) as Hm.
  destruct (run _ w) as [[e|hits] w1]; destruct Hm as (Hst & _ & Hall & _ & Hh).
  - split_and!; [done|by rewrite length_replicate| |].
    + unfold mask_ok. clear. induction keys; constructor; done.
    + intros Hw. by specialize (Hh Hw).
  - specialize (Hall hits eq_refl). rewrite Forall2_fmap_l in Hall. split_and!; [done| |done|].
    + symmetry. by eapply Forall2_length.
    + intros Hw. specialize (Hh Hw). injection Hh as ->. by rewrite <- list_fmap_compose.
Qed.

(** C19: A lookup-and-lock task of different keys changes no entry, whatever the cluster does, finds
    one bit per key, where a set bit means the record is there (on a healthy cluster the bits are
    exact), and counts each hit once in the lock table.  When it completes it has recorded the bits
    and announced the hits.  When pinning the hits raises, the locks stay counted, but nothing is
    recorded and nothing announced. *)
Theorem lookup_sync_spec (keys : list ObjectKey) (tid : Z) (w : world C) (s : L2) :
  NoDup (ck_of <$> keys) ->
  let '(r, w', s') := _lookup_sync to_string dtype self keys tid w s in
  (forall ck, entry (st w') ck = entry (st w) ck) /\
  exists bm, mask_ok (st w) keys bm /\
    (healthy (w_client w) -> forall i k, keys !! i = Some k ->
       bm !! i = Some (bool_decide (present to_string self (st w) (ck_of k)))) /\
    (forall i k, keys !! i = Some k -> _locked s' !! k =
       if default false (bm !! i) then Some (default 0 (_locked s !! k) + 1) else _locked s !! k) /\
    match r with
    | inr _ => _done_lookup s' = <[tid := bm]> (_done_lookup s) /\ _notices s' = _notices s ++
        (if bool_decide (hit_keys (zip keys bm) = []) then [] else [KeysAccessed (hit_keys (zip keys bm))])
    | inl _ => hit_keys (zip keys bm) <> [] /\ _done_lookup s' = _done_lookup s /\ _notices s' = _notices s
    end.
Proof.
  intros Hnd. assert (Hndk : NoDup keys) by (by eapply NoDup_fmap_1). unfold _lookup_sync.
  rewrite run_attempt. pose proof (run_lookup_mask keys w) as Hm.
  destruct (run (batched_exists_mask _ _ _) w) as [r w1]. cbn [fst snd].
  set (hits := match r with inr hits => hits | inl _ => replicate (length keys) false end) in *.
  destruct Hm as (Hst & Hlen & Hmask & Hh). clearbody hits.
  rewrite Hlen, Nat.sub_diag. cbn [replicate]. rewrite app_nil_r.
  assert (Hlock : forall i k, keys !! i = Some k -> count_locks (zip keys hits) (_locked s) !! k =
    if default false (hits !! i) then Some (default 0 (_locked s !! k) + 1) else _locked s !! k).
  { intros i k Hi. destruct (lookup_lt_is_Some_2 hits i) as [hit Hhit].
    { rewrite Hlen. by eapply lookup_lt_Some. }
    rewrite Hhit. cbn [default from_option id].
    pose proof (hit_keys_lookup keys hits i k hit Hndk Hi Hhit) as Hiff. destruct hit.
    - apply count_locks_hit; [by rewrite zip_fst_pad|by apply Hiff].
    - apply count_locks_other. by intros Hin%Hiff. }
  assert (Hdone : healthy (w_client w) -> forall i k, keys !! i = Some k ->
    hits !! i = Some (bool_decide (present to_string self (st w) (ck_of k)))).
  { intros Hw i k Hi. by rewrite (Hh Hw), list_lookup_fmap, Hi. }
  assert (Hndh : NoDup (ck_of <$> hit_keys (zip keys hits))).
  { eapply sublist_NoDup; [exact Hnd|]. by apply fmap_sublist, hit_keys_incl. }
  destruct (hit_keys (zip keys hits)) as [|k0 ks0] eqn:Ehk.
  { split; [by intros ck; rewrite Hst|]. exists hits. cbn. rewrite Ehk.
    split_and!; [done..|by rewrite app_nil_r]. }
  rewrite <- Ehk in *. pose proof (run_pin_keys to_string self _ w1 Hndh) as Hp.
  destruct (run (pin_keys _ _ _) w1) as [[e|[]] w2]; destruct Hp as (Hp & _ & _); rewrite Hst in Hp;
    (split; [intros ck; by eapply pin_only_entry|]); exists hits; cbn; split_and!; try done; by rewrite Ehk.
Qed.

(** Unlocking what a lookup hit gives the lock table back as it was before the lookup, and
    neither changes an entry, whatever the cluster does. *)
Theorem lock_unlock_roundtrip (keys : list ObjectKey) (tid : Z) (w w1 w2 : world C) (s s1 s2 : L2)
    (bm : list bool) :
  locks_ok (_locked s) -> NoDup (ck_of <$> keys) ->
  _lookup_sync to_string dtype self keys tid w s = (inr tt, w1, s1) ->
  _done_lookup s1 !! tid = Some bm ->
  _unlock_sync to_string dtype self (hit_keys (zip keys bm)) w1 s1 = (inr tt, w2, s2) ->
  _locked s2 = _locked s /\ forall ck, entry (st w2) ck = entry (st w) ck.
Proof.
  intros Hok Hnd Hl Hbm Hu. assert (Hndk : NoDup keys) by (by eapply NoDup_fmap_1).
  pose proof (run_unlock (hit_keys (zip keys bm)) w1 s1) as Hun. rewrite Hu in Hun.
  destruct Hun as [Heu Hlu]. rewrite (Hlu eq_refl). revert Hl. unfold _lookup_sync.
  rewrite run_attempt. pose proof (run_lookup_mask keys w) as Hm.
  destruct (run (batched_exists_mask _ _ _) w) as [r w0]. cbn [fst snd].
  set (hits := match r with inr hits => hits | inl _ => replicate (length keys) false end) in *.
  destruct Hm as (Hst & Hlen & _). clearbody hits.
  rewrite Hlen, Nat.sub_diag. cbn [replicate]. rewrite app_nil_r.
  assert (Hndh : NoDup (ck_of <$> hit_keys (zip keys hits))).
  { eapply sublist_NoDup; [exact Hnd|]. by apply fmap_sublist, hit_keys_incl. }
  assert (Hback : hits = bm -> unlock_locks (hit_keys (zip keys bm)) (count_locks (zip keys hits) (_locked s)) = _locked s)
    by (intros ->; apply unlock_count; [done|by rewrite zip_fst_pad]).
  destruct (hit_keys (zip keys hits)) as [|k0 ks0] eqn:Ehk.
  - intros [= <- <-]. cbn in Hbm. rewrite lookup_insert_eq in Hbm. injection Hbm as ->.
    split; [by apply Hback|]. intros ck. by rewrite Heu, Hst.
  - rewrite <- Ehk in *. pose proof (run_pin_keys to_string self _ w0 Hndh) as Hp.
    destruct (run (pin_keys _ _ _) w0) as [[e|[]] w3]; destruct Hp as (Hp & _ & _); [done|].
    intros [= <- <-]. cbn in Hbm. rewrite lookup_insert_eq in Hbm. injection Hbm as ->.
    split; [by apply Hback|]. intros ck. rewrite Heu, <- Hst. by eapply pin_only_entry.
Qed.
End theorems.

(** ** Concrete runs *)

#[global] Instance CacheEngineKey_countable : Countable CacheEngineKey.
Proof.
  apply (inj_countable' (fun k => (model_name k, world_size k, worker_id k, ck_chunk_hash k,
    Keys.dtype k, request_configs k)) (fun '(a, b, c, d, e, f) => mkCacheEngineKey a b c d e f)).
  by intros [].
Defined.

(** A rendering of cache keys that keeps them apart. *)
Fixpoint bits_of (p : positive) : string :=
  match p with
  | xH => ""
  | xO p => String "0" (bits_of p)
  | xI p => String "1" (bits_of p)
  end.

#[global] Instance bits_of_inj : Inj (=) (=) bits_of.
Proof. intros p. induction p as [p IH|p IH|]; intros [q|q|] E; simplify_eq/=; f_equal; auto. Qed.

Definition ck_str (k : CacheEngineKey) : string := bits_of (encode k).

#[global] Instance ck_str_inj : Inj (=) (=) ck_str.
Proof. intros a b E. by apply (inj encode), (inj bits_of). Qed.

Definition okey (h : string) : ObjectKey := mkObjectKey (lit h) "m" 0 "".
Definition l2_start : L2 := mkL2 ∅ 0 ∅ ∅ ∅ (0, 0, 0)%nat [].
Definition two_keys : list ObjectKey := [okey "1"; okey "2"].

Definition l2_world (fates : list fate) : world MemClient :=
  demo_world ∅ 65536 fates [demo_source; buffer false (lit "abc")].

Lemma two_keys_apart : NoDup (_to_ck "bfloat16" <$> two_keys).
Proof. apply (bool_decide_unpack _). vm_compute. exact I. Qed.

Lemma one_chunk : completes [0%nat] 1.
Proof. split; [apply NoDup_singleton|]. intros i. rewrite list_elem_of_singleton. lia. Qed.

Definition l2_stored : world MemClient * L2 :=
  _store_sync ck_str "bfloat16" demo_engine (Running [0%nat]) two_keys [0%nat; 1%nat] 7 (l2_world []) l2_start.

Lemma store_sync_spec_witness :
  _done_store (snd l2_stored) !! 7 = Some (true, 13) /\
  Store.entry ck_str demo_engine (store (w_client (fst l2_stored))) (_to_ck "bfloat16" (okey "2")) =
    Some (lit "abc").
Proof.
  assert (E : _done_store (snd l2_stored) !! 7 = Some (true, 13)) by (vm_compute; reflexivity).
  split; [exact E|].
  pose proof (store_sync_spec ck_str "bfloat16" demo_engine [0%nat] two_keys [0%nat; 1%nat] 7
    (l2_world []) l2_start eq_refl two_keys_apart eq_refl) as Hs.
  fold l2_stored in Hs. destruct l2_stored as [w' s']. destruct Hs as (_ & _ & ok & total & Ed & _ & Hok).
  - repeat constructor; eexists; reflexivity.
  - exact one_chunk.
  - simpl in E |- *. rewrite Ed, lookup_insert_eq in E. injection E as -> ->. destruct Hok as (He & _).
    exact (He 1%nat _ 1%nat (buffer false (lit "abc")) eq_refl eq_refl eq_refl).
Defined.

Definition l2_reader : world MemClient :=
  demo_world (store (w_client (fst l2_stored))) 65536 [] [demo_target; demo_target].

Definition l2_loaded : world MemClient * L2 :=
  _load_sync ck_str "bfloat16" demo_engine (Running [0%nat]) two_keys [0%nat; 1%nat] 8 l2_reader l2_start.

Lemma load_sync_spec_witness :
  _done_load (snd l2_loaded) !! 8 = Some [true; true] /\
  item_filled ck_str demo_engine (store (w_client l2_reader)) (fst l2_loaded)
    (_to_ck "bfloat16" (okey "2"), 1%nat).
Proof.
  assert (E : _done_load (snd l2_loaded) !! 8 = Some [true; true]) by (vm_compute; reflexivity).
  split; [exact E|].
  assert (Hnd : NoDup [0%nat; 1%nat]) by (apply (bool_decide_unpack _); vm_compute; exact I).
  pose proof (load_sync_spec ck_str "bfloat16" demo_engine [0%nat] two_keys [0%nat; 1%nat] 8
    l2_reader l2_start demo_frombuffer_ok Hnd eq_refl) as Hs.
  fold l2_loaded in Hs. destruct l2_loaded as [w' s']. destruct Hs as (_ & _ & bm & Ed & _ & Hbits & _).
  - repeat constructor; (exists demo_target; split; [reflexivity|apply demo_target_ok]).
  - exact one_chunk.
  - cbn [fst snd] in E |- *. rewrite Ed, lookup_insert_eq in E. injection E as ->.
    exact (Hbits 1%nat _ 1%nat eq_refl eq_refl eq_refl).
Defined.

Definition three_keys : list ObjectKey := [okey "1"; okey "3"; okey "2"].

Lemma three_keys_apart : NoDup (_to_ck "bfloat16" <$> three_keys).
Proof. apply (bool_decide_unpack _). vm_compute. exact I. Qed.

Definition l2_looked_up : result unit * world MemClient * L2 :=
  _lookup_sync ck_str "bfloat16" demo_engine three_keys 9 l2_reader l2_start.

Lemma lookup_sync_spec_witness :
  _done_lookup (snd l2_looked_up) !! 9 = Some [true; false; true] /\
  present ck_str demo_engine (store (w_client l2_reader)) (_to_ck "bfloat16" (okey "2")) /\
  _locked (snd l2_looked_up) !! okey "2" = Some 1.
Proof.
  assert (E : _done_lookup (snd l2_looked_up) !! 9 = Some [true; false; true]) by (vm_compute; reflexivity).
  assert (Er : fst (fst l2_looked_up) = inr tt) by (vm_compute; reflexivity).
  split; [exact E|].
  pose proof (lookup_sync_spec ck_str "bfloat16" demo_engine three_keys 9 l2_reader l2_start
    three_keys_apart) as Hs.
  fold l2_looked_up in Hs. destruct l2_looked_up as [[r w'] s']. destruct Hs as [_ Hs]. cbn [fst snd] in E, Er |- *.
  destruct Hs as (bm & Hmask & _ & Hlock & Hr). rewrite Er in Hr. destruct Hr as [Ed _].
  rewrite Ed, lookup_insert_eq in E. injection E as ->.
  split.
  - destruct (Forall2_lookup_l _ _ _ 2%nat (okey "2") Hmask eq_refl) as (hit & [= <-] & Hp). by apply Hp.
  - by rewrite (Hlock 2%nat (okey "2") eq_refl).
Defined.

Definition l2_unlocked : result unit * world MemClient * L2 :=
  let '(_, w, s) := l2_looked_up in
  _unlock_sync ck_str "bfloat16" demo_engine (hit_keys (zip three_keys [true; false; true])) w s.

Lemma lock_unlock_roundtrip_witness :
  _locked (snd l2_looked_up) !! okey "2" = Some 1 /\ _locked (snd l2_unlocked) = _locked l2_start.
Proof.
  assert (E : _done_lookup (snd l2_looked_up) !! 9 = Some [true; false; true]) by (vm_compute; reflexivity).
  assert (Er : fst (fst l2_looked_up) = inr tt) by (vm_compute; reflexivity).
  assert (Eu : fst (fst l2_unlocked) = inr tt) by (vm_compute; reflexivity).
  assert (El : _locked (snd l2_looked_up) !! okey "2" = Some 1) by (vm_compute; reflexivity).
  split; [exact El|].
  clear El. unfold l2_unlocked in Eu |- *. destruct l2_looked_up as [[r1 w1] s1] eqn:E1.
  destruct (_unlock_sync _ _ _ _ w1 s1) as [[r2 w2] s2] eqn:E2. cbn [fst snd] in *. subst r1 r2.
  assert (Hok : locks_ok (_locked l2_start)) by (intros k n Hk; change ((∅ : gmap ObjectKey Z) !! k = Some n) in Hk; by rewrite lookup_empty in Hk).
  exact (proj1 (lock_unlock_roundtrip ck_str "bfloat16" demo_engine three_keys 9 l2_reader w1 w2
    l2_start s1 s2 [true; false; true] Hok three_keys_apart E1 E E2)).
Defined.

(** Two lookups lock the same key; one unlock takes the pin off the record although a lock is
    still counted. *)
Theorem unlock_unpins_locked_key :
  let lookup tid '(w, s) :=
    let '(_, w, s) := _lookup_sync ck_str "bfloat16" demo_engine [okey "1"] tid w s in (w, s) in
  let '(w2, s2) := lookup 1 (lookup 0 (l2_reader, l2_start)) in
  let '(r, w3, s3) := _unlock_sync ck_str "bfloat16" demo_engine [okey "1"] w2 s2 in
  let record (w : world MemClient) :=
    store (w_client w) !! mk_of ck_str demo_engine (_to_ck "bfloat16" (okey "1")) in
  r = inr tt /\ _locked s3 !! okey "1" = Some 1 /\
  (record w2 ≫= fun b => b !! "pin") = Some (BBool true) /\
  (record w3 ≫= fun b => b !! "pin") = Some (BBool false).
Proof. vm_compute. done. Qed.
