(* ===== verification/L2Locks.v ===== *)
(** * The lock table of the L2 adapter under threads ([l2_plugin.py])

    [self._locked] is a [defaultdict(int)] that lookup and unlock jobs read and write without
    [self._lock], on the threads of [self._executor].  [L2Plugin] lets a job take effect at once;
    here each access of the table is an event and the threads take turns between them ([Threads]).  Jobs on
    different keys are serializable; lookups that share a key can lose counts but never the lock;
    unlocks that share a key can fail. *)

From S2P Require Import Prelude Errors Config Limits Crc32 Keys Runtime Policies Metrics Serde Engine.
From S2P Require Import ClientSpec Concrete Store GetFacts PutFacts KeyOps BatchPut BatchGet ParallelChunks L2Plugin Threads.

Abbreviation table := (gmap ObjectKey Z).

(** [k in d], [d[k]] (which adds a missing key), [d[k] = n], [del d[k]], and the engine's [unpin]. *)
Inductive lock_ev : Type -> Type :=
| LockedHas (k : ObjectKey) : lock_ev bool
| LockedGet (k : ObjectKey) : lock_ev Z
| LockedSet (k : ObjectKey) (n : Z) : lock_ev unit
| LockedDel (k : ObjectKey) : lock_ev (result unit)
| EngineUnpin (k : ObjectKey) : lock_ev (result bool).

Definition ev_key {X} (e : lock_ev X) : ObjectKey :=
  match e with LockedHas k | LockedGet k | LockedSet k _ | LockedDel k | EngineUnpin k => k end.

(** The loop of [_lookup_sync] over the keys that were hits. *)
Fixpoint lock_hits (keys : list ObjectKey) : prog lock_ev unit :=
  match keys with
  | [] => Ret tt
  | ok :: keys =>
      let! n := trigger (LockedGet ok) in
      trigger (LockedSet ok (n + 1)) ;;
      lock_hits keys
  end.

(** The two branches of the loop of [_unlock_sync]; the key was in the table. *)
Definition release_one (ok : ObjectKey) : prog lock_ev unit :=
  let! n := trigger (LockedGet ok) in
  if n <=? 1 then let! r := trigger (LockedDel ok) in lift r
  else let! n := trigger (LockedGet ok) in trigger (LockedSet ok (n - 1)).

(** [_unlock_sync] *)
Fixpoint unlock_keys (keys : list ObjectKey) : prog lock_ev unit :=
  match keys with
  | [] => Ret tt
  | ok :: keys =>
      let! (here : bool) := trigger (LockedHas ok) in
      if here then
        release_one ok ;;
        let! r := trigger (EngineUnpin ok) in
        lift r ;;
        unlock_keys keys
      else unlock_keys keys
  end.

(** ** The table *)

Section table.
(** What [unpin] answers for a key. *)
Context (unpin_answer : ObjectKey -> result bool).
Implicit Types (m : table) (k : ObjectKey) (keys : list ObjectKey).

Definition lock_handle {X} (e : lock_ev X) m : X * table :=
  match e in lock_ev X return X * table with
  | LockedHas k => (bool_decide (is_Some (m !! k)), m)
  | LockedGet k => match m !! k with Some n => (n, m) | None => (0, <[k := 0]> m) end
  | LockedSet k n => (tt, <[k := n]> m)
  | LockedDel k => match m !! k with Some _ => (inr tt, delete k m) | None => (inl (Py KeyError), m) end
  | EngineUnpin k => (unpin_answer k, m)
  end.

Abbreviation race := (Threads.race (fun X => @lock_handle X)).
Abbreviation alone := (Threads.alone (fun X => @lock_handle X)).
Abbreviation view := (fun k m => m !! k).

Lemma lock_local X (e : lock_ev X) m m' : m !! ev_key e = m' !! ev_key e ->
  fst (lock_handle e m) = fst (lock_handle e m') /\
  snd (lock_handle e m) !! ev_key e = snd (lock_handle e m') !! ev_key e.
Proof.
  intros E. destruct e as [k|k|k n|k|k]; cbn in *; rewrite ?E; try done.
  - destruct (m' !! k) eqn:Em; cbn; (split; [done|]); [by rewrite E|by rewrite !lookup_insert_eq].
  - by rewrite !lookup_insert_eq.
  - destruct (m' !! k) eqn:Em; cbn; (split; [done|]); [by rewrite !lookup_delete_eq|by rewrite E].
Qed.

Lemma lock_other X (e : lock_ev X) m k : k <> ev_key e -> snd (lock_handle e m) !! k = m !! k.
Proof.
  intros Hne. destruct e as [k'|k'|k' n|k'|k']; cbn in *; try done;
    [destruct (m !! k'); [done|]| |destruct (m !! k'); [|done]]; cbn;
    by rewrite ?lookup_insert_ne, ?lookup_delete_ne by done.
Qed.

(** *** Jobs alone: the functions of [L2Plugin] *)

Lemma alone_lock_hits l : forall m, alone (lock_hits (hit_keys l)) m = (inr tt, count_locks l m).
Proof.
  induction l as [|[k hit] l IH]; intros m; [done|]. rewrite hit_keys_cons. destruct hit; [|apply IH].
  cbn. destruct (m !! k) as [n|] eqn:E; cbn; rewrite ?insert_insert_eq; apply IH.
Qed.

Definition unpins keys : Prop := forall k, k ∈ keys -> exists b, unpin_answer k = inr b.

Lemma alone_unlock keys : forall m, unpins keys -> alone (unlock_keys keys) m = (inr tt, unlock_locks keys m).
Proof.
  induction keys as [|k keys IH]; intros m Hu; [done|].
  destruct (Hu k) as [b Hb]; [by left|]. assert (Hu' : unpins keys) by (intros x Hx; apply Hu; by right).
  unfold unlock_locks. cbn [foldl]. fold (unlock_locks keys (unlock_one k m)). unfold unlock_one.
  cbn. case_bool_decide as Hm; cycle 1.
  - apply eq_None_not_Some in Hm. rewrite Hm. by apply IH.
  - destruct Hm as [n Hm]. rewrite Hm. cbn. rewrite Hm. cbn. destruct (n <=? 1); cbn; rewrite Hm; cbn; rewrite Hb; by apply IH.
Qed.

(** A job on the table. *)
Inductive lock_job := LockHits (keys : list ObjectKey) | UnlockKeys (keys : list ObjectKey).

Definition job_keys (j : lock_job) : list ObjectKey := match j with LockHits keys | UnlockKeys keys => keys end.

Definition job_prog (j : lock_job) : prog lock_ev unit :=
  match j with LockHits keys => lock_hits keys | UnlockKeys keys => unlock_keys keys end.

(** What the job does at once. *)
Definition job_effect m (j : lock_job) : table :=
  match j with
  | LockHits keys => count_locks ((fun k => (k, true)) <$> keys) m
  | UnlockKeys keys => unlock_locks keys m
  end.

Lemma hit_keys_all keys : hit_keys ((fun k => (k, true)) <$> keys) = keys.
Proof. induction keys as [|k keys IH]; [done|]. cbn [fmap list_fmap]. by rewrite hit_keys_cons, IH. Qed.

Lemma alone_job j m : unpins (job_keys j) -> alone (job_prog j) m = (inr tt, job_effect m j).
Proof. destruct j as [keys|keys]; intros Hu; cbn; [by rewrite <- alone_lock_hits, hit_keys_all|by apply alone_unlock]. Qed.

Abbreviation touches := (Threads.touches (fun X => @ev_key X)).

Lemma touches_weaken {A} (K K' : gset ObjectKey) (p : prog lock_ev A) : K ⊆ K' -> touches K p -> touches K' p.
Proof.
  intros HK. induction p as [a|e|X e c IH]; cbn; try done. intros [Hin Hc]. split; [set_solver|]. intros x. by apply IH.
Qed.

Lemma job_touches j : touches (list_to_set (job_keys j)) (job_prog j).
Proof.
  assert (Hweak : forall k keys (p : prog lock_ev unit), touches (list_to_set keys) p -> touches (list_to_set (k :: keys)) p)
    by (intros k keys p; apply touches_weaken; set_solver).
  destruct j as [keys|keys]; cbn [job_keys job_prog]; induction keys as [|k keys IH]; try done;
    cbn [lock_hits unlock_keys]; specialize (Hweak k keys _ IH); cbn [bind trigger Threads.touches ev_key].
  - split; [set_solver|]. intros n. split; [set_solver|]. by intros [].
  - split; [set_solver|]. intros []; [|done]. split; [set_solver|]. intros n.
    cbn. destruct (n <=? 1); cbn; (split; [set_solver|]; intros x).
    + destruct x; cbn; [done|]. split; [set_solver|]. by intros [].
    + split; [set_solver|]. intros _. split; [set_solver|]. by intros [].
Qed.

Lemma job_effect_other j m k : k ∉ job_keys j -> job_effect m j !! k = m !! k.
Proof.
  destruct j as [keys|keys]; cbn; intros Hk; [|by apply unlock_locks_other].
  apply count_locks_other. by rewrite hit_keys_all.
Qed.
(** *** Jobs on different keys *)

Implicit Types (jobs : list lock_job).

(** No key is in two jobs. *)
Fixpoint apart (jobs : list lock_job) : Prop :=
  match jobs with
  | [] => True
  | j :: jobs => (forall j', j' ∈ jobs -> forall k, k ∈ job_keys j -> k ∉ job_keys j') /\ apart jobs
  end.

Lemma apart_perm jobs jobs' : jobs ≡ₚ jobs' -> apart jobs -> apart jobs'.
Proof.
  induction 1 as [|j js js' Hp IH|j j' js|]; cbn; [done| | |tauto].
  - intros [Hj Ha]. split; [|by apply IH]. intros x Hx. apply Hj. by rewrite Hp.
  - intros (Hj' & Hj & Ha). split_and!; [|by intros x Hx; apply Hj'; right|done].
    intros x [->|Hx]%elem_of_cons k Hk; [|by apply Hj]. intros Hk'. by apply (Hj' j ltac:(left) k).
Qed.

Lemma apart_lookup jobs : apart jobs -> forall i i' j j' k, i <> i' ->
  jobs !! i = Some j -> jobs !! i' = Some j' -> k ∈ job_keys j -> k ∉ job_keys j'.
Proof.
  induction jobs as [|x jobs IH]; [done|]. intros [Hx Ha] [|i] [|i'] j j' k Hne Hi Hi' Hk; simpl in *; simplify_eq.
  - by eapply Hx; [eapply list_elem_of_lookup_2|].
  - intros Hk'. by eapply (Hx j); [eapply list_elem_of_lookup_2| |].
  - by eapply (IH Ha i i' j j'); [congruence|..].
Qed.

Definition jobs_unpin jobs : Prop := forall j, j ∈ jobs -> unpins (job_keys j).

Lemma effect_local j m m' k : unpins (job_keys j) -> k ∈ job_keys j ->
  (forall x, x ∈ job_keys j -> m !! x = m' !! x) -> job_effect m j !! k = job_effect m' j !! k.
Proof.
  intros Hu Hk Hag.
  destruct (Threads.alone_local (fun X => @lock_handle X) (fun X => @ev_key X) view lock_local lock_other
    (list_to_set (job_keys j)) (job_prog j) m m' (job_touches j)) as [_ He].
  - intros x Hx. apply Hag. by apply elem_of_list_to_set in Hx.
  - specialize (He k ltac:(by apply elem_of_list_to_set)). by rewrite !alone_job in He.
Qed.

(** The jobs one after the other: each decides the locks of its keys. *)
Lemma effects_at jobs : forall m, apart jobs -> jobs_unpin jobs ->
  (forall j k, j ∈ jobs -> k ∈ job_keys j -> foldl job_effect m jobs !! k = job_effect m j !! k) /\
  (forall k, (forall j, j ∈ jobs -> k ∉ job_keys j) -> foldl job_effect m jobs !! k = m !! k).
Proof.
  induction jobs as [|a jobs IH]; intros m Ha Hu; [split; [by intros j k Hj%not_elem_of_nil|done]|].
  destruct Ha as [Hdis Ha]. cbn [foldl]. destruct (IH (job_effect m a) Ha) as [Hin Hout]; [by intros j Hj; apply Hu; right|].
  split.
  - intros j k [->|Hj]%elem_of_cons Hk.
    + apply Hout. intros j' Hj'. by apply Hdis.
    + rewrite (Hin j k Hj Hk). apply effect_local; [by apply Hu; right|done|].
      intros x Hx. apply job_effect_other. intros Hxa. by apply (Hdis j Hj x).
  - intros k Hk. rewrite Hout by (intros j Hj; apply Hk; by right). apply job_effect_other, Hk. by left.
Qed.

(** C20: Jobs of the L2 adapter on different keys are serializable, whatever the order in which
    threads access the lock table: no access of a job raises, and when all have ended the table is
    that of the jobs run at once, one after the other, in any order. *)
Theorem disjoint_jobs_serializable (jobs : list lock_job) (turns : list nat) m :
  apart jobs -> jobs_unpin jobs ->
  let '(ps, m') := race turns (List.map job_prog jobs) m in
  (forall i p r, nth_error ps i = Some p -> ended p = Some r -> r = inr tt) /\
  (all_ended ps -> forall order, order ≡ₚ jobs -> m' = foldl job_effect m order).
Proof.
  intros Ha Hu.
  set (places := fun i => match jobs !! i with Some j => list_to_set (job_keys j) | None => ∅ end : gset ObjectKey).
  pose proof (nth_threads job_prog jobs) as Hps.
  pose proof (Threads.race_disjoint (fun X => @lock_handle X) (fun X => @ev_key X) view lock_local lock_other
    places turns (List.map job_prog jobs) m) as Hr.
  destruct (race _ _ _) as [ps m']. destruct Hr as (Hother & Hlen & Hown).
  - intros i i' Hne. unfold places. destruct (jobs !! i) as [j|] eqn:Ei; [|set_solver].
    destruct (jobs !! i') as [j'|] eqn:Ei'; [|set_solver]. intros k Hk Hk'. rewrite !elem_of_list_to_set in *.
    by eapply apart_lookup.
  - intros i p Hi. destruct (Hps i p Hi) as (j & Hj & ->). unfold places. rewrite Hj. apply job_touches.
  - rewrite length_threads in Hlen, Hother. split.
    + intros i p r Hp He. destruct (Hown i p Hp) as (_ & p0 & Hp0 & Hf & _). destruct (Hps i p0 Hp0) as (j & Hj & ->).
      rewrite (alone_ended _ _ _ _ He), alone_job in Hf by (by eapply Hu, list_elem_of_lookup_2). done.
    + intros Hend order Hperm. destruct (effects_at order m) as [Hin Hout].
      { by eapply apart_perm. } { intros j Hj. apply Hu. by rewrite <- Hperm. }
      apply map_eq. intros k. destruct (decide (Exists (fun j => k ∈ job_keys j) jobs)) as [Hex|Hno].
      * apply Exists_exists in Hex as (j & Hj & Hk). pose proof Hj as [i Hi]%list_elem_of_lookup.
        rewrite (Hin j k) by (by rewrite ?Hperm). destruct (nth_error ps i) as [p|] eqn:Hp.
        2:{ apply nth_error_None in Hp. apply lookup_lt_Some in Hi. lia. }
        destruct (Hown i p Hp) as (_ & p0 & Hp0 & _ & Hag). destruct (Hps i p0 Hp0) as (j0 & Hj0 & ->). simplify_eq.
        destruct (Hend i p Hp) as [r He]. rewrite (alone_ended _ _ _ _ He), alone_job in Hag by (by apply Hu).
        apply (Hag k). unfold places. rewrite Hi. by apply elem_of_list_to_set.
      * assert (Hk : forall j, j ∈ jobs -> k ∉ job_keys j) by (intros j Hj Hk; apply Hno, Exists_exists; by exists j).
        rewrite Hout by (intros j Hj; apply Hk; by rewrite <- Hperm). apply Hother. intros i Hi.
        unfold places. destruct (jobs !! i) as [j|] eqn:Ei; [|set_solver]. rewrite elem_of_list_to_set.
        by eapply Hk, list_elem_of_lookup_2.
Qed.
(** *** Lookups that share keys *)

(** A lookup between two accesses: [Reading] has the count it will write back. *)
Inductive lookup_state := Looping (keys : list ObjectKey) | Reading (k : ObjectKey) (n : Z) (keys : list ObjectKey).
Implicit Types (ds : list lookup_state).

Definition lookup_thread (d : lookup_state) : prog lock_ev unit :=
  match d with
  | Looping keys => lock_hits keys
  | Reading k n keys => trigger (LockedSet k (n + 1)) ;; lock_hits keys
  end.

Definition occurrences k keys : nat := count (fun k' => bool_decide (k' = k)) keys.

(** The writes to [k] a lookup still has to do. *)
Definition todo k (d : lookup_state) : nat :=
  match d with Looping keys => occurrences k keys | Reading k' _ keys => occurrences k (k' :: keys) end.

Definition todos k ds : nat := sum_list_with (todo k) ds.

Lemma todos_insert k i d d' ds : ds !! i = Some d -> (todos k (<[i := d']> ds) + todo k d = todos k ds + todo k d')%nat.
Proof.
  unfold todos. revert i. induction ds as [|x ds IH]; intros [|i] Hi; simpl in *; simplify_eq; [lia|].
  specialize (IH i Hi). lia.
Qed.

(** What holds of the count of [k] while lookups run: [n] writes have to be done in all, from [c0]. *)
Record counting k (m0 : table) (n : nat) ds m : Prop := {
  co_low : default 0 (m0 !! k) <= default 0 (m !! k);
  co_high : default 0 (m !! k) + Z.of_nat (todos k ds) <= default 0 (m0 !! k) + Z.of_nat n;
  co_read : forall i c keys, ds !! i = Some (Reading k c keys) ->
    default 0 (m0 !! k) <= c /\ c + Z.of_nat (todos k ds) <= default 0 (m0 !! k) + Z.of_nat n;
  co_written : (todos k ds < n)%nat -> default 0 (m0 !! k) + 1 <= default 0 (m !! k);
  co_untouched : n = 0%nat -> m !! k = m0 !! k
}.

Lemma counting_read k m0 n ds m i k' keys : counting k m0 n ds m -> ds !! i = Some (Looping (k' :: keys)) ->
  let '(c, m') := lock_handle (LockedGet k') m in counting k m0 n (<[i := Reading k' c keys]> ds) m'.
Proof.
  intros [Hl Hh Hr Hw Hu] Hi. pose proof (todos_insert k i _ (Reading k' (default 0 (m !! k')) keys) ds Hi) as Ht.
  cbn [todo] in Ht. assert (Et : todos k (<[i := Reading k' (default 0 (m !! k')) keys]> ds) = todos k ds) by lia.
  assert (Hone : k' = k -> n <> 0%nat).
  { intros -> Hn. assert (Hz : (0 < todos k ds)%nat); [|lia]. rewrite <- Et.
    pose proof (todos_insert k i _ (Looping []) ds Hi) as Hx. cbn in Hx. rewrite bool_decide_true in Hx by done. simpl in Hx. lia. }
  cbn [lock_handle]. replace (match m !! k' with Some n => (n, m) | None => (0, <[k' := 0]> m) end)
    with (default 0 (m !! k'), match m !! k' with Some _ => m | None => <[k' := 0]> m end) by (by destruct (m !! k')).
  set (m' := match m !! k' with Some _ => m | None => <[k' := 0]> m end).
  assert (Ed : default 0 (m' !! k) = default 0 (m !! k)).
  { unfold m'. destruct (m !! k') eqn:E; [done|]. destruct (decide (k = k')) as [->|Hne];
      [by rewrite lookup_insert_eq, E|by rewrite lookup_insert_ne]. }
  split; rewrite ?Ed, ?Et; try done.
  - intros j c keys'. destruct (decide (j = i)) as [->|Hne].
    + rewrite list_lookup_insert_eq by (by eapply lookup_lt_Some). intros [= -> <- <-]. lia.
    + rewrite list_lookup_insert_ne by done. apply Hr.
  - intros Hn. unfold m'. destruct (m !! k') eqn:E; [by apply Hu|]. rewrite lookup_insert_ne by (intros ->; by apply Hone). by apply Hu.
Qed.

Lemma counting_write k m0 n ds m i k' c keys : counting k m0 n ds m -> ds !! i = Some (Reading k' c keys) ->
  counting k m0 n (<[i := Looping keys]> ds) (<[k' := c + 1]> m).
Proof.
  intros [Hl Hh Hr Hw Hu] Hi. pose proof (todos_insert k i _ (Looping keys) ds Hi) as Ht. cbn [todo occurrences count] in Ht.
  fold (occurrences k keys) in Ht.
  assert (Hold : forall j c' keys', <[i := Looping keys]> ds !! j = Some (Reading k c' keys') -> ds !! j = Some (Reading k c' keys')).
  { intros j c' keys'. destruct (decide (j = i)) as [->|Hne]; [by rewrite list_lookup_insert_eq by (by eapply lookup_lt_Some)|].
    by rewrite list_lookup_insert_ne. }
  destruct (decide (k' = k)) as [->|Hne].
  - rewrite bool_decide_true in Ht by done. cbn in Ht. destruct (Hr i c keys Hi) as [Hc Hc'].
    split; rewrite ?lookup_insert_eq; cbn; try lia. intros j c' keys' Hj%Hold. apply Hr in Hj. lia.
  - rewrite bool_decide_false in Ht by done. cbn in Ht. assert (Et : todos k (<[i := Looping keys]> ds) = todos k ds) by lia.
    split; rewrite ?lookup_insert_ne, ?Et by done; try done. intros j c' keys' Hj%Hold. by eapply Hr.
Qed.

Lemma race_counting k m0 n turns : forall ds m, counting k m0 n ds m ->
  let '(ps, m') := race turns (List.map lookup_thread ds) m in
  exists ds', ps = List.map lookup_thread ds' /\ counting k m0 n ds' m'.
Proof.
  induction turns as [|i turns IH]; intros ds m Hc; cbn [Threads.race]; [by exists ds|].
  destruct (nth_error _ i) as [p|] eqn:Hp; [|by apply IH].
  destruct (nth_threads _ _ _ _ Hp) as ([[|k' keys]|k' c keys] & Hi & ->); cbn [lookup_thread lock_hits]; [by apply IH| |].
  - pose proof (counting_read k m0 n ds m i k' keys Hc Hi) as Hc'. cbn [bind trigger move].
    destruct (lock_handle (LockedGet k') m) as [c m']. specialize (IH _ m' Hc').
    by rewrite <- (set_threads lookup_thread ds i _ _ Hi) in IH.
  - pose proof (counting_write k m0 n ds m i k' c keys Hc Hi) as Hc'. cbn [bind trigger move lock_handle].
    specialize (IH _ _ Hc'). by rewrite <- (set_threads lookup_thread ds i _ _ Hi) in IH.
Qed.

(** C21: Lookups that run at the same time, under any order of their accesses to the lock table,
    never lose a lock: a key that some of them hit ends with a count above the one it had before
    and at most one more per hit; other keys keep theirs.  A key hit once is counted exactly. *)
Theorem racing_lookups_keep_locks (hits : list (list ObjectKey)) (turns : list nat) m k :
  locks_ok m ->
  let '(ps, m') := race turns (List.map lock_hits hits) m in
  all_ended ps ->
  let n := occurrences k (concat hits) in
  (n = 0%nat -> m' !! k = m !! k) /\
  ((0 < n)%nat -> exists c, m' !! k = Some c /\ default 0 (m !! k) + 1 <= c <= default 0 (m !! k) + Z.of_nat n).
Proof.
  intros Hok. set (n := occurrences k (concat hits)). set (ds := Looping <$> hits).
  assert (Et : todos k ds = n).
  { unfold n, ds, todos. clear. induction hits as [|h hits IH]; [done|]. cbn. unfold occurrences in *. rewrite count_app, <- IH. done. }
  assert (Hc : counting k m n ds m).
  { split; rewrite ?Et; try lia; try done. intros i c keys Hi. unfold ds in Hi. rewrite list_lookup_fmap in Hi. by destruct (hits !! i). }
  pose proof (race_counting k m n turns ds m Hc) as Hr.
  replace (List.map lookup_thread ds) with (List.map lock_hits hits) in Hr
    by (unfold ds; clear; induction hits as [|h hits IH]; [done|]; cbn; by rewrite IH).
  destruct (race _ _ _) as [ps m']. destruct Hr as (ds' & -> & [Hl Hh _ Hw Hu]). intros Hend. split; [exact Hu|]. intros Hn.
  assert (Hz : todos k ds' = 0%nat).
  { clear -Hend. unfold todos. induction ds' as [|d ds' IH]; [done|]. cbn. rewrite IH by (intros i; apply (Hend (S i))).
    destruct (Hend 0%nat _ eq_refl) as [r Hr]. by destruct d as [[|k' keys]|k' c keys]. }
  rewrite Hz in *. specialize (Hw Hn). assert (0 <= default 0 (m !! k)) by (destruct (m !! k) eqn:E; [apply Hok in E; simpl; lia|done]).
  destruct (m' !! k) as [c|] eqn:Em; cbn in *; [|lia]. exists c. split; [done|lia].
Qed.
End table.

(** ** Witnesses and what can go wrong *)

Definition always_unpins (k : ObjectKey) : result bool := inr true.

Abbreviation demo_race := (Threads.race (fun X => @lock_handle always_unpins X)).

Lemma demo_jobs_unpin jobs : jobs_unpin always_unpins jobs.
Proof. intros j _ k _. by exists true. Qed.

(** A count can be lost: two lookups lock the same key and it is counted once.  A release can be
    lost: two unlocks of a key counted twice leave it locked.  And an unlock can raise: of two
    unlocks that see the count 1, the second finds no key to delete, and the keys after it in its
    list stay locked. *)
Theorem racing_jobs_break_counts :
  let k := okey "1" in let k2 := okey "2" in
  let lookups := demo_race [0; 1; 0; 1]%nat [lock_hits [k]; lock_hits [k]] ∅ in
  let unlocks := demo_race [0; 1; 0; 1; 0; 1; 0; 1; 0; 1]%nat [unlock_keys [k]; unlock_keys [k]] {[k := 2]} in
  let raising := demo_race [0; 1; 0; 1; 0; 1; 0]%nat [unlock_keys [k]; unlock_keys [k; k2]] (<[k := 1]> {[k2 := 1]}) in
  (fst lookups = [Ret tt; Ret tt] /\ snd lookups !! k = Some 1) /\
  (fst unlocks = [Ret tt; Ret tt] /\ snd unlocks !! k = Some 1) /\
  (fst raising = [Ret tt; Raise (Py KeyError)] /\ snd raising !! k = None /\ snd raising !! k2 = Some 1).
Proof. cbv zeta. split_and!; vm_compute; reflexivity. Qed.

Lemma ended_both (ps : list (prog lock_ev unit)) : ps = [Ret tt; Ret tt] -> all_ended ps.
Proof. intros -> [|[|i]] p Hi; cbn in Hi; simplify_eq; try by eexists. by destruct i. Qed.

Lemma disjoint_jobs_serializable_witness :
  let jobs := [LockHits [okey "1"]; UnlockKeys [okey "2"]] in
  snd (demo_race [0; 1; 0; 1; 1; 1; 1]%nat (List.map job_prog jobs) {[okey "2" := 2]}) =
    foldl job_effect {[okey "2" := 2]} (reverse jobs).
Proof.
  cbv zeta. set (jobs := [LockHits [okey "1"]; UnlockKeys [okey "2"]]).
  assert (Ha : apart jobs).
  { split; [|split; [intros j Hj%not_elem_of_nil; done|done]]. intros j Hj%list_elem_of_singleton k Hk. subst j.
    apply list_elem_of_singleton in Hk as ->. cbn. intros Hk%list_elem_of_singleton. vm_compute in Hk. discriminate. }
  pose proof (disjoint_jobs_serializable always_unpins jobs [0; 1; 0; 1; 1; 1; 1]%nat {[okey "2" := 2]} Ha
    (demo_jobs_unpin jobs)) as Hs.
  rewrite (surjective_pairing (demo_race _ _ _)) in Hs. apply (proj2 Hs).
  - apply ended_both. vm_compute. reflexivity.
  - apply reverse_Permutation.
Defined.

Lemma racing_lookups_keep_locks_witness :
  exists c, snd (demo_race [0; 1; 0; 1]%nat (List.map lock_hits [[okey "1"]; [okey "1"]]) ∅) !! okey "1" = Some c /\ 1 <= c <= 2.
Proof.
  pose proof (racing_lookups_keep_locks always_unpins [[okey "1"]; [okey "1"]] [0; 1; 0; 1]%nat ∅ (okey "1")
    ltac:(intros k n Hk; by rewrite lookup_empty in Hk)) as Hs.
  rewrite (surjective_pairing (demo_race _ _ _)) in Hs. destruct Hs as [_ Hs].
  - apply ended_both. vm_compute. reflexivity.
  - destruct Hs as (c & Hc & Hb); [vm_compute; lia|]. exists c. split; [exact Hc|]. rewrite lookup_empty in Hb. exact Hb.
Defined.
