(* ===== verification/L2Events.v ===== *)
(** * The event notifiers of the L2 adapter ([l2_plugin.py])

    LMCache sleeps on a file descriptor until a job has recorded its result.  The notifier is
    LMCache code ([create_event_notifier]) and an interface here; a job records its result under
    the lock and then notifies, the owner consumes the notification and then takes the results.
    Whatever order these steps take, no result waits behind a silent descriptor. *)

From S2P Require Import Prelude Errors Keys Runtime Threads.

(** [create_event_notifier], [fileno], [notify], [close], and what the owner does with the
    descriptor: wait until it is readable, and consume. *)
Class Notifier (N : Type) := {
  fileno : N -> Z;
  efd_notify : N -> N;
  efd_consume : N -> N;
  efd_close : N -> N;
  readable : N -> bool;
  notify_readable n : readable (efd_notify n) = true
}.

Section notifiers.
Context {N : Type} `{Notifier N}.

(** The three notifiers made in [__init__]. *)
Record Efds := mkEfds { _store_efd : N; _lookup_efd : N; _load_efd : N }.

Definition create_efds (create_event_notifier : result N) : result Efds :=
  let? store := create_event_notifier in
  let? lookup := create_event_notifier in
  let? load := create_event_notifier in
  inr (mkEfds store lookup load).

Definition get_store_event_fd (s : Efds) : Z := fileno (_store_efd s).
Definition get_lookup_and_lock_event_fd (s : Efds) : Z := fileno (_lookup_efd s).
Definition get_load_event_fd (s : Efds) : Z := fileno (_load_efd s).

(** The end of [close]. *)
Definition close_efds (s : Efds) : Efds :=
  mkEfds (efd_close (_store_efd s)) (efd_close (_lookup_efd s)) (efd_close (_load_efd s)).

(** ** Results and notifications *)

Context {R : Type}.

(** A table of results ([_done_store]) and its notifier. *)
Record Done := mkDone { d_results : gmap Z R; d_efd : N }.

Inductive done_ev : Type -> Type :=
| SetDone (tid : Z) (r : R) : done_ev unit      (* with self._lock: self._done_store[tid] = r *)
| NotifyDone : done_ev unit                     (* self._store_efd.notify() *)
| ConsumeDone : done_ev unit
| PopDone : done_ev (gmap Z R).                 (* pop_completed_store_tasks *)

Definition done_handle {X} (e : done_ev X) (s : Done) : X * Done :=
  match e in done_ev X return X * Done with
  | SetDone tid r => (tt, mkDone (<[tid := r]> (d_results s)) (d_efd s))
  | NotifyDone => (tt, mkDone (d_results s) (efd_notify (d_efd s)))
  | ConsumeDone => (tt, mkDone (d_results s) (efd_consume (d_efd s)))
  | PopDone => (d_results s, mkDone ∅ (d_efd s))
  end.

(** The end of [_store_sync]. *)
Definition finish_task (tid : Z) (r : R) : prog done_ev (list (gmap Z R)) :=
  trigger (SetDone tid r) ;; trigger NotifyDone ;; Ret [].

(** The owner, woken [n] times. *)
Fixpoint poll (n : nat) (popped : list (gmap Z R)) : prog done_ev (list (gmap Z R)) :=
  match n with
  | O => Ret popped
  | S n => trigger ConsumeDone ;; let! done := trigger PopDone in poll n (popped ++ [done])
  end.

Abbreviation race := (Threads.race (fun X => @done_handle X)).

(** ** No result is forgotten *)

(** A thread between two steps. *)
Inductive stage :=
| Finishing (tid : Z) (r : R)
| Recorded
| Finished
| Polling (n : nat) (popped : list (gmap Z R))
| Consumed (n : nat) (popped : list (gmap Z R)).

Definition stage_thread (d : stage) : prog done_ev (list (gmap Z R)) :=
  match d with
  | Finishing tid r => finish_task tid r
  | Recorded => trigger NotifyDone ;; Ret []
  | Finished => Ret []
  | Polling n popped => poll n popped
  | Consumed n popped => let! done := trigger PopDone in poll n (popped ++ [done])
  end.

Definition on_the_way (d : stage) : Prop := match d with Recorded | Consumed _ _ => True | _ => False end.

Definition heard (ds : list stage) (s : Done) : Prop :=
  d_results s <> ∅ -> readable (d_efd s) = true \/ exists i d, ds !! i = Some d /\ on_the_way d.

Lemma heard_step ds i d d' (s s' : Done) : ds !! i = Some d -> heard ds s ->
  (d_results s' <> ∅ -> readable (d_efd s') = true \/ on_the_way d' \/
     (d_results s = d_results s' /\ d_efd s = d_efd s' /\ ~ on_the_way d)) ->
  heard (<[i := d']> ds) s'.
Proof.
  intros Hi Hh Hs Hne. pose proof (lookup_lt_Some _ _ _ Hi) as Hlt. destruct (Hs Hne) as [Hr|[Hw|(Er & Ee & Hn)]]; [by left| |].
  - right. exists i, d'. by rewrite list_lookup_insert_eq.
  - unfold heard in Hh. rewrite Er, Ee in Hh. destruct (Hh Hne) as [Hr|(j & dj & Hj & Hw)]; [by left|]. right.
    exists j, dj. split; [|done]. rewrite list_lookup_insert_ne; [done|]. intros ->. congruence.
Qed.

Ltac becomes d Hi :=
  match goal with
  | |- context [Threads.race _ _ (set_thread ?i ?p (List.map ?f ?ds)) ?s] =>
      change (set_thread i p (List.map f ds)) with (set_thread i (f d) (List.map f ds));
      rewrite (set_threads f ds i d _ Hi)
  end.

Lemma race_heard turns : forall ds (s : Done), heard ds s ->
  let '(ps, s') := race turns (List.map stage_thread ds) s in
  exists ds', ps = List.map stage_thread ds' /\ heard ds' s'.
Proof.
  induction turns as [|i turns IH]; intros ds s Hh; cbn [Threads.race]; [by exists ds|].
  destruct (nth_error _ i) as [p|] eqn:Hp; [|by apply IH].
  destruct (nth_threads _ _ _ _ Hp) as ([tid r| | |[|n] popped|n popped] & Hi & ->);
    cbn [stage_thread finish_task poll bind trigger move done_handle]; try by apply IH.
  - becomes Recorded Hi. apply IH. eapply heard_step; [done|done|]. cbn. auto.
  - becomes Finished Hi. apply IH. eapply heard_step; [done|done|]. cbn. left. apply notify_readable.
  - becomes (Consumed n popped) Hi. apply IH. eapply heard_step; [done|done|]. cbn. auto.
  - becomes (Polling n (popped ++ [d_results s])) Hi. apply IH. eapply heard_step; [done|done|]. done.
Qed.

(** Tasks that end and an owner that takes results, in any interleaving: while a result waits,
    the descriptor is readable or some thread still has to act.  When all have ended, a waiting
    result means a readable descriptor. *)
Theorem no_lost_wakeup (tasks : list (Z * R)) (n : nat) (turns : list nat) (s : Done) :
  d_results s = ∅ ->
  let '(ps, s') := race turns (poll n [] :: List.map (fun '(tid, r) => finish_task tid r) tasks) s in
  d_results s' <> ∅ -> readable (d_efd s') = true \/ exists i p, nth_error ps i = Some p /\ ended p = None.
Proof.
  intros Hs. set (ds := Polling n [] :: ((fun '(tid, r) => Finishing tid r) <$> tasks)).
  pose proof (race_heard turns ds s (fun Hne => match Hne Hs with end)) as Hr.
  replace (List.map stage_thread ds) with (poll n [] :: List.map (fun '(tid, r) => finish_task tid r) tasks) in Hr.
  2:{ unfold ds. cbn. f_equal. clear. induction tasks as [|[tid r] tasks IH]; [done|]. cbn. by rewrite IH. }
  destruct (race _ _ _) as [ps s']. destruct Hr as (ds' & -> & Hh). intros Hne. destruct (Hh Hne) as [Hr|(i & d & Hi & Hw)]; [by left|].
  right. exists i, (stage_thread d). split; [|by destruct d]. clear -Hi. revert i Hi.
  induction ds' as [|x ds' IH]; intros [|i] Hi; simpl in *; simplify_eq; [done|]. by apply IH.
Qed.
End notifiers.

(** ** A counter as notifier *)

#[global] Instance counter_notifier : Notifier nat := {|
  fileno n := 0; efd_notify := S; efd_consume _ := 0%nat; efd_close n := n; readable n := (0 <? n)%nat;
  notify_readable n := eq_refl
|}.

Abbreviation demo_wakeups := (Threads.race (fun X => @done_handle nat counter_notifier bool X)).

(** The owner took the result of task 7 and sleeps; that of task 8 wakes it. *)
Lemma no_lost_wakeup_witness :
  let run := demo_wakeups [1; 0; 0; 2; 2; 1]%nat (poll 1 [] :: List.map (fun '(tid, r) => finish_task tid r) [(7, true); (8, true)])
    (mkDone ∅ 0%nat) in
  d_results (snd run) !! 8 = Some true /\
  (readable (d_efd (snd run)) = true \/ exists i p, nth_error (fst run) i = Some p /\ ended p = None).
Proof.
  cbv zeta. pose proof (no_lost_wakeup (N := nat) [(7, true); (8, true)] 1 [1; 0; 0; 2; 2; 1]%nat (mkDone ∅ 0%nat) eq_refl) as Hs.
  rewrite (surjective_pairing (demo_wakeups _ _ _)) in Hs. split; [vm_compute; reflexivity|]. apply Hs.
  intros E. apply (f_equal (fun m => m !! 8)) in E. vm_compute in E. discriminate.
Defined.

(** In the other order a result can be forgotten: the notification is consumed before the result
    is there. *)
Example notify_first_forgets :
  let late := trigger NotifyDone ;; trigger (SetDone 7 true) ;; Ret [] in
  let '(ps, s) := demo_wakeups [1; 0; 0; 1]%nat [poll 1 []; late] (mkDone ∅ 0%nat) in
  (forall i p, nth_error ps i = Some p -> is_Some (ended p)) /\ d_results s !! 7 = Some true /\ readable (d_efd s) = false.
Proof.
  vm_compute. split; [|done]. intros [|[|i]] p Hi; cbn in Hi; simplify_eq; try by eexists. by destruct i.
Qed.
