(* ===== verification/L2Tasks.v ===== *)
(** * The tasks of the L2 adapter ([l2_plugin.py])

    The adapter as a transition system: LMCache submits tasks and asks for results, the threads
    of [self._executor] end jobs in any order, [close] shuts the pools down one after the other.
    A job takes effect when it ends.  [perform] is one transition and what it answers; the
    theorems count, for every task, where it is. *)

From S2P Require Import Prelude Errors Config Limits Crc32 Keys Runtime Policies Metrics Serde Engine.
From S2P Require Import ClientSpec Concrete Store GetFacts PutFacts KeyOps BatchPut BatchGet.
From S2P Require Import ParallelChunks L2Plugin.

Inductive task_kind := KStore | KLookup | KLoad.

#[global] Instance task_kind_eq_dec : EqDecision task_kind.
Proof. solve_decision. Defined.

(** What [self._executor] runs. *)
Inductive job :=
| StoreJob (keys : list ObjectKey) (objects : list loc) (tid : Z)
| LookupJob (keys : list ObjectKey) (tid : Z)
| LoadJob (keys : list ObjectKey) (objects : list loc) (tid : Z)
| UnlockJob (keys : list ObjectKey).

Definition job_task (j : job) : option (task_kind * Z) :=
  match j with
  | StoreJob _ _ tid => Some (KStore, tid)
  | LookupJob _ tid => Some (KLookup, tid)
  | LoadJob _ _ tid => Some (KLoad, tid)
  | UnlockJob _ => None
  end.

(** The cluster and the objects, the plugin's fields, the jobs that have not ended, and whether
    the two pools take new work. *)
Record System (C : Type) := mkSystem {
  sy_world : world C;
  sy_l2 : L2;
  sy_jobs : list job;
  sy_batch_up : bool;
  sy_up : bool
}.
Arguments mkSystem {C}.
Arguments sy_world {C}.
Arguments sy_l2 {C}.
Arguments sy_jobs {C}.
Arguments sy_batch_up {C}.
Arguments sy_up {C}.

(** The calls of the adapter's owner, the two shutdowns of [close], and the end of the [i]-th
    job, whose chunks complete in the given order. *)
Inductive call :=
| SubmitStore (keys : list ObjectKey) (objects : list loc)
| SubmitLookup (keys : list ObjectKey)
| SubmitLoad (keys : list ObjectKey) (objects : list loc)
| SubmitUnlock (keys : list ObjectKey)
| PopStores
| QueryLookup (tid : Z)
| QueryLoad (tid : Z)
| Delete (keys : list ObjectKey)
| ShutdownBatch
| ShutdownPool
| RunJob (i : nat) (order : list nat).

Inductive answer :=
| Submitted (k : task_kind) (tid : Z)
| Refused (e : exc)
| Stores (done : gmap Z (bool * Z))
| Bits (k : task_kind) (tid : Z) (bm : option (list bool))
| Ended (j : job) (r : result unit)
| Returned (r : result unit).

(** An adapter after its construction. *)
Definition l2_init : L2 := mkL2 ∅ 0 ∅ ∅ ∅ (0, 0, 0)%nat [].

Definition start {C} (w : world C) : System C := mkSystem w l2_init [] true true.

Section system.
Context (to_string : CacheEngineKey -> string) (dtype : string) `{Env} (self : Engine).
Context {C : Type} `{AerospikeClient C}.
Implicit Types (s : System C).

Definition set_l2 (l : L2) s : System C :=
  mkSystem (sy_world s) l (sy_jobs s) (sy_batch_up s) (sy_up s).

Definition set_jobs (js : list job) s : System C :=
  mkSystem (sy_world s) (sy_l2 s) js (sy_batch_up s) (sy_up s).

(** [self._executor.submit(...)] *)
Definition enqueue (j : job) s : result unit * System C :=
  if sy_up s then (inr tt, set_jobs (sy_jobs s ++ [j]) s) else (inl (Py RuntimeError), s).

(** The id is taken under the lock before the job is handed over. *)
Definition submit_task (k : task_kind) (mk : Z -> job) s : answer * System C :=
  let '(tid, l) := _alloc_id (sy_l2 s) in
  let '(r, s) := enqueue (mk tid) (set_l2 l s) in
  (match r with inl e => Refused e | inr _ => Submitted k tid end, s).

Definition submit_store_task keys objects s := submit_task KStore (StoreJob keys objects) s.
Definition submit_lookup_and_lock_task keys s := submit_task KLookup (LookupJob keys) s.
Definition submit_load_task keys objects s := submit_task KLoad (LoadJob keys objects) s.

Definition submit_unlock keys s : answer * System C :=
  let '(r, s) := enqueue (UnlockJob keys) s in
  (match r with inl e => Refused e | inr _ => Returned (inr tt) end, s).

(** The end of a job: what its future holds, the world and the plugin afterwards. *)
Definition run_job (j : job) (pool : batch_pool) (w : world C) (l : L2) : result unit * world C * L2 :=
  match j with
  | StoreJob keys objects tid =>
      let '(w, l) := _store_sync to_string dtype self pool keys objects tid w l in (inr tt, w, l)
  | LookupJob keys tid => _lookup_sync to_string dtype self keys tid w l
  | LoadJob keys objects tid =>
      let '(w, l) := _load_sync to_string dtype self pool keys objects tid w l in (inr tt, w, l)
  | UnlockJob keys => _unlock_sync to_string dtype self keys w l
  end.

Definition end_job (i : nat) (order : list nat) s : answer * System C :=
  match sy_jobs s !! i with
  | None => (Returned (inr tt), s)
  | Some j =>
      let pool := if sy_batch_up s then Running order else Shutdown in
      let '(r, w, l) := run_job j pool (sy_world s) (sy_l2 s) in
      (Ended j r, mkSystem w l (delete i (sy_jobs s)) (sy_batch_up s) (sy_up s))
  end.

Definition perform (c : call) s : answer * System C :=
  match c with
  | SubmitStore keys objects => submit_store_task keys objects s
  | SubmitLookup keys => submit_lookup_and_lock_task keys s
  | SubmitLoad keys objects => submit_load_task keys objects s
  | SubmitUnlock keys => submit_unlock keys s
  | PopStores => let '(done, l) := pop_completed_store_tasks (sy_l2 s) in (Stores done, set_l2 l s)
  | QueryLookup tid =>
      let '(bm, l) := query_lookup_and_lock_result tid (sy_l2 s) in (Bits KLookup tid bm, set_l2 l s)
  | QueryLoad tid =>
      let '(bm, l) := query_load_result tid (sy_l2 s) in (Bits KLoad tid bm, set_l2 l s)
  | Delete keys =>
      let '(r, w, l) := l2_delete to_string dtype self keys (sy_world s) (sy_l2 s) in
      (Returned r, mkSystem w l (sy_jobs s) (sy_batch_up s) (sy_up s))
  | ShutdownBatch =>
      (Returned (inr tt), mkSystem (sy_world s) (sy_l2 s) (sy_jobs s) false (sy_up s))
  | ShutdownPool =>
      (Returned (inr tt), mkSystem (sy_world s) (sy_l2 s) (sy_jobs s) (sy_batch_up s) false)
  | RunJob i order => end_job i order s
  end.

Fixpoint exec (calls : list call) s : list answer * System C :=
  match calls with
  | [] => ([], s)
  | c :: calls =>
      let '(a, s) := perform c s in
      let '(tr, s) := exec calls s in (a :: tr, s)
  end.

(** [runs] ends [n] jobs: each index names a job that is still there. *)
Fixpoint drains (n : nat) (runs : list call) : Prop :=
  match n, runs with
  | O, [] => True
  | S n, RunJob i _ :: runs => (i <= n)%nat /\ drains n runs
  | _, _ => False
  end.
End system.

(** ** Where a task is *)

Definition is_task (k : task_kind) (tid : Z) (t : option (task_kind * Z)) : bool :=
  bool_decide (t = Some (k, tid)).

(** What an answer says of the task: its id is handed out, its result is handed over, its job
    has ended with an exception. *)
Definition hands_out k tid (a : answer) : bool :=
  match a with Submitted k' tid' => is_task k tid (Some (k', tid')) | _ => false end.

Definition hands_over k tid (a : answer) : bool :=
  match a with
  | Stores done => bool_decide (k = KStore) && bool_decide (is_Some (done !! tid))
  | Bits k' tid' (Some _) => is_task k tid (Some (k', tid'))
  | _ => false
  end.

Definition loses k tid (a : answer) : bool :=
  match a with Ended j (inl _) => is_task k tid (job_task j) | _ => false end.

(** Its job has not ended; its result waits to be asked for. *)
Definition queued {C} k tid (s : System C) : nat := count (fun j => is_task k tid (job_task j)) (sy_jobs s).

Definition recorded k tid (l : L2) : nat :=
  match k with
  | KStore => Nat.b2n (bool_decide (is_Some (_done_store l !! tid)))
  | KLookup => Nat.b2n (bool_decide (is_Some (_done_lookup l !! tid)))
  | KLoad => Nat.b2n (bool_decide (is_Some (_done_load l !! tid)))
  end.

Lemma recorded_insert {V} (m : gmap Z V) (i j : Z) (v : V) :
  Nat.b2n (bool_decide (is_Some (<[i := v]> m !! j))) =
    if decide (i = j) then 1%nat else Nat.b2n (bool_decide (is_Some (m !! j))).
Proof.
  destruct (decide (i = j)) as [->|Hne]; [|by rewrite lookup_insert_ne].
  rewrite lookup_insert_eq. by rewrite bool_decide_true by by eexists.
Qed.

Lemma recorded_delete {V} (m : gmap Z V) (i j : Z) :
  Nat.b2n (bool_decide (is_Some (delete i m !! j))) =
    if decide (i = j) then 0%nat else Nat.b2n (bool_decide (is_Some (m !! j))).
Proof.
  destruct (decide (i = j)) as [->|Hne]; [|by rewrite lookup_delete_ne].
  rewrite lookup_delete_eq. by rewrite bool_decide_false by by intros [? ?].
Qed.

Section theorems.
Context (to_string : CacheEngineKey -> string) (dtype : string) `{Env} (self : Engine).
Context {C : Type} `{AerospikeClient C}.
Implicit Types (s : System C) (w : world C).

Abbreviation perform := (perform to_string dtype self).
Abbreviation exec := (exec to_string dtype self).
Abbreviation run_job := (run_job to_string dtype self).

(** ** What one job does to the results *)

(** The jobs of the other kinds and the other tasks keep their results. *)
Definition same_results (l l' : L2) : Prop :=
  _next_id l' = _next_id l /\ forall k tid, recorded k tid l' = recorded k tid l.

Lemma unlock_results keys : forall w l,
  same_results l (snd (_unlock_sync to_string dtype self keys w l)).
Proof.
  induction keys as [|ok keys IH]; intros w l; cbn [_unlock_sync]; [done|].
  destruct (_locked l !! ok) as [n|]; [|apply IH].
  destruct (run _ _) as [[e|b] w1]; [done|].
  destruct (IH w1 (set_locked (fun m => if n <=? 1 then delete ok m else <[ok:=n - 1]> m) l)) as [A B].
  split; [by rewrite A|]. intros k tid. rewrite B. by destruct k.
Qed.

Lemma delete_results keys w l : same_results l (snd (l2_delete to_string dtype self keys w l)).
Proof. unfold l2_delete. destruct (run _ _) as [[e|b] w1]; [done|]. split; [done|]. by intros []. Qed.

(** A job that returns leaves the result of its task, one that raises leaves none. *)
Lemma is_task_same k tid t : is_task k tid (Some (k, t)) = bool_decide (t = tid).
Proof. unfold is_task. apply bool_decide_ext. naive_solver. Qed.

Lemma is_task_other k k' tid t : k' <> k -> is_task k tid (Some (k', t)) = false.
Proof. intros Hne. unfold is_task. apply bool_decide_false. congruence. Qed.

(** A new result in the table of its kind. *)
Lemma recorded_new {V} (m : gmap Z V) k tid t (v : V) :
  Nat.b2n (bool_decide (is_Some (<[t := v]> m !! tid))) =
    if is_task k tid (Some (k, t)) then 1%nat else Nat.b2n (bool_decide (is_Some (m !! tid))).
Proof. rewrite recorded_insert, is_task_same. destruct (decide (t = tid)) as [->|Hne];
  [by rewrite (bool_decide_true (tid = tid))|by rewrite (bool_decide_false (t = tid))]. Qed.

Definition is_ok (r : result unit) : bool := match r with inr _ => true | inl _ => false end.

(** Goals about the tables after a job of one kind. *)
Ltac tables :=
  (split; [done|]); intros k tid; rewrite ?andb_true_r, ?andb_false_r;
  destruct k; rewrite ?is_task_other by done; try done; apply recorded_new.

(** A job that returns leaves the result of its task, one that raises leaves none. *)
Lemma run_job_results j pool w l :
  let '(r, w', l') := run_job j pool w l in
  _next_id l' = _next_id l /\
  forall k tid, recorded k tid l' =
    if is_task k tid (job_task j) && is_ok r then 1%nat else recorded k tid l.
Proof.
  destruct j as [keys objects t|keys t|keys objects t|keys]; cbn [L2Tasks.run_job job_task].
  - unfold _store_sync. destruct (run _ _) as [out w1].
    destruct (match out with inr (inr o) => o | _ => _ end) as [[[ok stored] sizes] total].
    destruct (ok && _); cbn [is_ok]; tables.
  - unfold _lookup_sync. destruct (run _ _) as [out w1].
    destruct (hit_keys _); [|destruct (run _ _) as [[e|[]] w2]]; cbn [is_ok]; [tables| |tables].
    split; [done|]. intros k tid. rewrite andb_false_r. by destruct k.
  - unfold _load_sync. destruct (run _ _) as [out w1]. cbn [is_ok]. tables.
  - pose proof (unlock_results keys w l) as Hu. destruct (_unlock_sync _ _ _ _ _ _) as [[r w'] l']. exact Hu.
Qed.

(** ** The account of a task *)

(** A query takes the result of the task it names. *)
Lemma query_balance {V} k' t (m : gmap Z V) (found : option (list bool)) k tid (l l' : L2) n :
  (recorded k' tid l = Nat.b2n (bool_decide (is_Some (m !! tid)))) ->
  (recorded k' tid l' = Nat.b2n (bool_decide (is_Some (delete t m !! tid)))) ->
  (k <> k' -> recorded k tid l' = recorded k tid l) ->
  (is_Some found <-> is_Some (m !! t)) ->
  (n + recorded k tid l' + Nat.b2n (hands_over k tid (Bits k' t found)) + 0 =
   n + recorded k tid l + 0)%nat.
Proof.
  intros Hl Hl' Hne Hf. destruct (decide (k = k')) as [->|Hk].
  - rewrite Hl, Hl', recorded_delete. destruct found as [bm|]; cbn [hands_over].
    + rewrite is_task_same. destruct (decide (t = tid)) as [->|Hd].
      * rewrite !bool_decide_true by (done || apply Hf; by eexists). cbn. lia.
      * rewrite (bool_decide_false (t = tid)) by done. cbn. lia.
    + destruct (decide (t = tid)) as [->|Hd]; [|cbn; lia].
      rewrite bool_decide_false by (intros Hs%Hf; by destruct Hs). cbn. lia.
  - rewrite (Hne Hk). destruct found; cbn [hands_over]; rewrite ?is_task_other by done; cbn; lia.
Qed.

(** One transition moves a task from one place to the next. *)
Lemma perform_balance c s k tid :
  (queued k tid s + recorded k tid (sy_l2 s) <= 1)%nat ->
  let '(a, s') := perform c s in
  (queued k tid s' + recorded k tid (sy_l2 s') + Nat.b2n (hands_over k tid a) + Nat.b2n (loses k tid a) =
   queued k tid s + recorded k tid (sy_l2 s) + Nat.b2n (hands_out k tid a))%nat.
Proof.
  intros Hle. unfold queued in *.
  assert (Hsubmit : forall k' mk, (forall t, job_task (mk t) = Some (k', t)) ->
    let '(a, s') := submit_task k' mk s in
    (queued k tid s' + recorded k tid (sy_l2 s') + Nat.b2n (hands_over k tid a) + Nat.b2n (loses k tid a) =
     queued k tid s + recorded k tid (sy_l2 s) + Nat.b2n (hands_out k tid a))%nat).
  { intros k' mk Hmk. unfold submit_task, enqueue, queued.
    assert (Hrec : recorded k tid (snd (_alloc_id (sy_l2 s))) = recorded k tid (sy_l2 s)) by by destruct k.
    cbn in Hrec |- *. destruct (sy_up s); cbn; rewrite Hrec; [|lia].
    rewrite count_app. cbn [count]. rewrite Hmk. lia. }
  destruct c; cbn [L2Tasks.perform].
  - by apply Hsubmit.
  - by apply Hsubmit.
  - by apply Hsubmit.
  - unfold submit_unlock, enqueue. destruct (sy_up s); cbn; [|lia]. rewrite count_app. cbn [count job_task].
    change (is_task k tid None) with false. cbn. lia.
  - cbn. destruct k; cbn [recorded _done_store _done_lookup _done_load].
    + rewrite (bool_decide_false (is_Some (∅ !! tid))) by (rewrite lookup_empty; by intros [? ?]).
      rewrite (bool_decide_true (KStore = KStore)) by done. cbn. lia.
    + rewrite (bool_decide_false (KLookup = KStore)) by done. cbn. lia.
    + rewrite (bool_decide_false (KLoad = KStore)) by done. cbn. lia.
  - by apply (query_balance KLookup tid0 (_done_lookup (sy_l2 s))); [..|destruct k|].
  - by apply (query_balance KLoad tid0 (_done_load (sy_l2 s))); [..|destruct k|].
  - pose proof (delete_results keys (sy_world s) (sy_l2 s)) as [_ Hd].
    destruct (l2_delete _ _ _ _ _ _) as [[r w] l]. cbn. rewrite Hd. lia.
  - cbn. lia.
  - cbn. lia.
  - unfold end_job. destruct (sy_jobs s !! i) as [j|] eqn:Ej; [|cbn; lia].
    pose proof (run_job_results j (if sy_batch_up s then Running order else Shutdown) (sy_world s) (sy_l2 s)) as Hr.
    destruct (run_job _ _ _ _) as [[r w] l]. destruct Hr as [_ Hr]. cbn. rewrite Hr.
    rewrite (count_delete _ i j _ Ej) in Hle |- *.
    destruct r as [e|[]], (is_task k tid (job_task j)); cbn in *; lia.
Qed.

(** Ids are handed out in order. *)
Lemma perform_ids c s :
  let '(a, s') := perform c s in
  _next_id (sy_l2 s) <= _next_id (sy_l2 s') /\
  forall k tid, hands_out k tid a = true ->
    tid = _next_id (sy_l2 s) /\ _next_id (sy_l2 s') = tid + 1 /\
    (forall k', k' <> k -> hands_out k' tid a = false).
Proof.
  assert (Hsubmit : forall k' mk,
    let '(a, s') := submit_task k' mk s in
    _next_id (sy_l2 s) <= _next_id (sy_l2 s') /\
    forall k tid, hands_out k tid a = true ->
      tid = _next_id (sy_l2 s) /\ _next_id (sy_l2 s') = tid + 1 /\
      (forall k'', k'' <> k -> hands_out k'' tid a = false)).
  { intros k' mk. unfold submit_task, enqueue. cbn. destruct (sy_up s); cbn; (split; [lia|]); intros k tid Hk; [|done].
    apply bool_decide_eq_true in Hk. injection Hk as -> <-. split_and!; [done|done|].
    intros k'' Hne. by apply is_task_other. }
  destruct c; cbn [L2Tasks.perform]; try apply Hsubmit; try (cbn; split; [lia|done]).
  - unfold submit_unlock, enqueue. destruct (sy_up s); cbn; (split; [lia|done]).
  - pose proof (delete_results keys (sy_world s) (sy_l2 s)) as [Hn _].
    destruct (l2_delete _ _ _ _ _ _) as [[r w] l]. cbn in *. split; [lia|done].
  - unfold end_job. destruct (sy_jobs s !! i) as [j|]; [|cbn; split; [lia|done]].
    pose proof (run_job_results j (if sy_batch_up s then Running order else Shutdown) (sy_world s) (sy_l2 s)) as Hr.
    destruct (run_job _ _ _ _) as [[r w] l]. destruct Hr as [Hn _]. cbn. split; [lia|done].
Qed.

(** The account of all tasks after the answers [tr]. *)
Record accounted (tr : list answer) (s : System C) : Prop := {
  ac_balance k tid : count (hands_out k tid) tr =
    (queued k tid s + recorded k tid (sy_l2 s) + count (hands_over k tid) tr + count (loses k tid) tr)%nat;
  ac_once k tid : (count (hands_out k tid) tr <= 1)%nat;
  ac_kind k k' tid : k <> k' -> (count (hands_out k tid) tr + count (hands_out k' tid) tr <= 1)%nat;
  ac_fresh k tid : _next_id (sy_l2 s) <= tid -> count (hands_out k tid) tr = 0%nat
}.

Lemma accounted_start w : accounted [] (start w).
Proof. split; try done; cbn; try lia. intros [] tid; cbn; by rewrite lookup_empty. Qed.

Lemma accounted_step c tr s :
  accounted tr s -> let '(a, s') := perform c s in accounted (tr ++ [a]) s'.
Proof.
  intros [Hb Ho Hk Hf]. pose proof (perform_ids c s) as Hids.
  pose proof (fun k tid => perform_balance c s k tid) as Hbal.
  destruct (perform c s) as [a s']. destruct Hids as [Hmono Hids]. split.
  - intros k tid. rewrite !count_app. cbn [count]. specialize (Hbal k tid). specialize (Hb k tid).
    specialize (Ho k tid). rewrite Hb in *. lia.
  - intros k tid. rewrite count_app. cbn [count]. destruct (hands_out k tid a) eqn:E; cbn [Nat.b2n].
    + destruct (Hids k tid E) as (-> & _ & _). rewrite Hf by lia. lia.
    + specialize (Ho k tid). lia.
  - intros k k' tid Hne. rewrite !count_app. cbn [count].
    destruct (hands_out k tid a) eqn:E; [|destruct (hands_out k' tid a) eqn:E']; cbn [Nat.b2n].
    + destruct (Hids k tid E) as (-> & _ & Ho'). rewrite (Ho' k') by done. rewrite !Hf by lia. cbn; lia.
    + destruct (Hids k' tid E') as (-> & _ & _). rewrite !Hf by lia. lia.
    + specialize (Hk k k' tid Hne). lia.
  - intros k tid Hle. rewrite count_app. cbn [count]. rewrite Hf by lia.
    destruct (hands_out k tid a) eqn:E; [|done]. destruct (Hids k tid E) as (-> & ? & _). lia.
Qed.

Lemma accounted_exec calls : forall tr s, accounted tr s ->
  let '(tr', s') := exec calls s in accounted (tr ++ tr') s'.
Proof.
  induction calls as [|c calls IH]; intros tr s Ha; cbn [L2Tasks.exec]; [by rewrite app_nil_r|].
  pose proof (accounted_step c tr s Ha) as Hs. destruct (perform c s) as [a s1].
  specialize (IH _ _ Hs). destruct (exec calls s1) as [tr' s']. by rewrite <- app_assoc in IH.
Qed.

(** ** Every task completes *)

(** Ending a job is an [Ended] or, when there is none at the index, nothing. *)
Lemma end_job_answer i order s k tid :
  hands_out k tid (fst (perform (RunJob i order) s)) = false /\
  hands_over k tid (fst (perform (RunJob i order) s)) = false.
Proof.
  cbn [L2Tasks.perform]. unfold end_job. destruct (sy_jobs s !! i) as [j|]; [|done].
  by destruct (run_job _ _ _ _) as [[r w] l].
Qed.

Lemma end_job_jobs i order s :
  (i < length (sy_jobs s))%nat ->
  S (length (sy_jobs (snd (perform (RunJob i order) s)))) = length (sy_jobs s).
Proof.
  intros Hi. cbn [L2Tasks.perform]. unfold end_job. destruct (lookup_lt_is_Some_2 _ _ Hi) as [j Hj]. rewrite Hj.
  destruct (run_job _ _ _ _) as [[r w] l]. cbn [snd sy_jobs]. rewrite length_delete by (by eexists). lia.
Qed.

Lemma drain_empties runs : forall n s, length (sy_jobs s) = n -> drains n runs ->
  sy_jobs (snd (exec runs s)) = [] /\
  forall k tid, count (hands_out k tid) (fst (exec runs s)) = 0%nat /\
    count (hands_over k tid) (fst (exec runs s)) = 0%nat.
Proof.
  induction runs as [|c runs IH]; intros [|n] s Hn Hd; cbn [drains] in Hd; try done.
  { split; [by apply nil_length_inv|done]. }
  destruct c as [| | | | | | | | | |i order]; try done. destruct Hd as [Hi Hd]. cbn [L2Tasks.exec].
  pose proof (end_job_answer i order s) as Ha. pose proof (end_job_jobs i order s ltac:(lia)) as Hj.
  destruct (perform (RunJob i order) s) as [a s1]. cbn [fst snd] in *.
  destruct (IH n s1 ltac:(lia) Hd) as [He Hc]. destruct (exec runs s1) as [tr s2]. cbn [fst snd count] in *.
  split; [done|]. intros k tid. destruct (Ha k tid) as [-> ->]. apply Hc.
Qed.

(** What pinning needs to return: the policy constants are there, and the batch write raises only
    the client library's exceptions. *)
Definition pins_return : Prop :=
  (exists wp, write_policy (cfg self) = inr wp) /\
  forall ops (c : C) e, fst (client_batch_write ops c) = inl e -> isinstance e AerospikeError = true.

Lemma run_pin_keys_returns ks w : pins_return -> fst (run (pin_keys to_string self ks) w) = inr tt.
Proof.
  intros [[wp Hwp] Hown]. destruct ks as [|ck ks]; [done|]. unfold pin_keys, _pin_keys_batch. rewrite Hwp.
  cbn [lift bind trigger run handle]. unfold on_client.
  specialize (Hown ((fun ck => BWrite (mk_of to_string self ck) [("pin", BBool true)]
    (pin_ttl_seconds self) wp) <$> ck :: ks) (w_client w)).
  destruct (client_batch_write _ _) as [[e|codes] c']; [|done]. cbn in Hown. by rewrite (Hown e eq_refl).
Qed.

Lemma lookup_returns keys tid w l :
  pins_return -> fst (fst (_lookup_sync to_string dtype self keys tid w l)) = inr tt.
Proof.
  intros Hp. unfold _lookup_sync. destruct (run _ _) as [out w1].
  destruct (hit_keys _) as [|k ks]; [done|].
  pose proof (run_pin_keys_returns (_to_ck dtype <$> k :: ks) w1 Hp) as Hr.
  destruct (run _ _) as [[e|[]] w2]; [done|]. done.
Qed.

(** No call but the end of a job loses a task, and only a lookup whose pinning raises. *)
Lemma perform_loses c s k tid :
  k <> KLookup \/ pins_return -> loses k tid (fst (perform c s)) = false.
Proof.
  intros Hk. assert (Hsub : forall k' mk s, loses k tid (fst (submit_task (C := C) k' mk s)) = false)
    by (intros k' mk [? ? ? ? []]; done).
  destruct c; cbn [L2Tasks.perform]; try apply Hsub; try done.
  - unfold submit_unlock, enqueue. by destruct (sy_up s).
  - by destruct (l2_delete _ _ _ _ _ _) as [[r w] l].
  - unfold end_job. destruct (sy_jobs s !! i) as [j|]; [|done]. destruct j; cbn [L2Tasks.run_job].
    + by destruct (_store_sync _ _ _ _ _ _ _ _ _).
    + destruct Hk as [Hk|Hp].
      * destruct (_lookup_sync _ _ _ _ _ _ _) as [[[e|?] w] l]; cbn; [apply is_task_other; congruence|done].
      * pose proof (lookup_returns keys tid0 (sy_world s) (sy_l2 s) Hp) as Hr.
        destruct (_lookup_sync _ _ _ _ _ _ _) as [[[e|?] w] l]; done.
    + by destruct (_load_sync _ _ _ _ _ _ _ _ _).
    + by destruct (_unlock_sync _ _ _ _ _ _) as [[[e|?] w] l].
Qed.

Lemma exec_loses calls k tid : k <> KLookup \/ pins_return -> forall s,
  count (loses k tid) (fst (exec calls s)) = 0%nat.
Proof.
  intros Hk. induction calls as [|c calls IH]; intros s; cbn [L2Tasks.exec]; [done|].
  pose proof (perform_loses c s k tid Hk) as Hc. destruct (perform c s) as [a s1]. specialize (IH s1).
  destruct (exec calls s1) as [tr s2]. cbn [fst count] in *. by rewrite Hc, IH.
Qed.

(** C14: Exactly once.  In every history of calls and job ends, under any faults and whatever the
    shutdowns, a task id is handed out at most once and to one kind of task; from then on the task
    is in exactly one place: its job has not ended, its result waits, its result was handed over,
    or its job ended with an exception, which only happens to lookups. *)
Theorem l2_tasks_exactly_once (calls : list call) (w : world C) (k : task_kind) (tid : Z) :
  let '(tr, s) := exec calls (start w) in
  count (hands_out k tid) tr =
    (queued k tid s + recorded k tid (sy_l2 s) + count (hands_over k tid) tr + count (loses k tid) tr)%nat /\
  (count (hands_out k tid) tr <= 1)%nat /\
  (forall k', k <> k' -> (count (hands_out k tid) tr + count (hands_out k' tid) tr <= 1)%nat) /\
  (k <> KLookup -> count (loses k tid) tr = 0%nat).
Proof.
  pose proof (accounted_exec calls [] (start w) (accounted_start w)) as Ha.
  pose proof (fun Hk => exec_loses calls k tid (or_introl Hk) (start w)) as Hlose.
  destruct (exec calls (start w)) as [tr s]. rewrite app_nil_l in Ha. destruct Ha as [Hb Ho Hk Hf].
  split_and!; [apply Hb|apply Ho|intros k'; apply Hk|exact Hlose].
Qed.

(** C15: Completion.  From every state a history of calls can reach, ending the jobs that are left,
    in any order, takes as many steps as there are jobs and leaves none; then every task that was
    submitted has its result, waiting or already handed over, or its job ended with an exception.
    The latter happens to lookups only, and to none if pinning returns; stores and loads complete
    under any fault and after any shutdown. *)
Theorem l2_tasks_complete (calls runs : list call) (w : world C) :
  let '(tr, s) := exec calls (start w) in
  drains (length (sy_jobs s)) runs ->
  let '(tr', s') := exec runs s in
  sy_jobs s' = [] /\
  forall k tid, Submitted k tid ∈ tr ->
    (recorded k tid (sy_l2 s') + count (hands_over k tid) tr + count (loses k tid) (tr ++ tr') = 1)%nat /\
    (k <> KLookup \/ pins_return -> count (loses k tid) (tr ++ tr') = 0%nat).
Proof.
  pose proof (accounted_exec calls [] (start w) (accounted_start w)) as Ha.
  pose proof (fun k tid Hk => exec_loses calls k tid Hk (start w)) as Hl.
  destruct (exec calls (start w)) as [tr s]. rewrite app_nil_l in Ha. intros Hd.
  pose proof (accounted_exec runs tr s Ha) as Ha'. destruct (drain_empties runs _ s eq_refl Hd) as [He Hc].
  pose proof (fun k tid Hk => exec_loses runs k tid Hk s) as Hl'.
  destruct (exec runs s) as [tr' s']. cbn [fst snd] in *. split; [done|]. intros k tid Hin.
  split; [|intros Hk; by rewrite count_app, Hl, Hl'].
  pose proof (ac_balance _ _ Ha' k tid) as Hb. pose proof (ac_once _ _ Ha' k tid) as Ho.
  rewrite !count_app in *. destruct (Hc k tid) as [Hc1 Hc2]. rewrite Hc1, Hc2 in *.
  assert (Hpos : (0 < count (hands_out k tid) tr)%nat).
  { apply (count_pos _ (Submitted k tid)); [done|]. by apply bool_decide_eq_true. }
  unfold queued in Hb. rewrite He in Hb. cbn in Hb. lia.
Qed.

(** ** Closing *)

(** [close] shuts the pool of the chunks down before the pool of the jobs: a job of more than 32
    objects that is still waiting then fails without asking the cluster. *)
Theorem large_jobs_fail_after_batch_shutdown (keys : list ObjectKey) (objects : list loc) (tid : Z)
    (w : world C) (l : L2) :
  (chunk_size < length (items_of dtype keys objects))%nat ->
  _store_sync to_string dtype self Shutdown keys objects tid w l = (w, finish_store tid (false, 0) l) /\
  _load_sync to_string dtype self Shutdown keys objects tid w l =
    (w, finish_load tid (replicate (length keys) false) l).
Proof.
  intros Hlen. unfold _store_sync, _load_sync.
  rewrite !parallel_chunks_shutdown by (unfold chunk_size in *; lia). cbn. by rewrite Nat.sub_0_r.
Qed.
End theorems.

(** ** Concrete runs *)

Definition demo_objs : list loc := [0%nat; 1%nat].

(** A store, a lookup and a load of two keys; their jobs end in another order. *)
Definition demo_calls : list call :=
  [SubmitStore two_keys demo_objs; RunJob 0 [0%nat]; PopStores; SubmitLookup two_keys;
   SubmitLoad two_keys demo_objs; SubmitUnlock two_keys].

Definition demo_runs : list call := [RunJob 1 [0%nat]; RunJob 1 []; RunJob 0 []].

Lemma demo_pins_return : pins_return demo_engine (C := MemClient).
Proof.
  split; [eexists; vm_compute; reflexivity|]. intros ops c e. cbn. unfold request.
  destruct (next_fate c) as [[|f|f|codes] c']; cbn;
    [by destruct (mem_batch_write _ _ _ _)|..|by destruct (mem_batch_write _ _ _ _)];
    intros [= <-]; by destruct f.
Qed.

Lemma l2_tasks_complete_witness :
  let '(tr, s) := exec ck_str "bfloat16" demo_engine demo_calls (start (l2_world [])) in
  let '(_, s') := exec ck_str "bfloat16" demo_engine demo_runs s in
  recorded KLookup 1 (sy_l2 s') = 1%nat /\ count (hands_over KStore 0) tr = 1%nat.
Proof.
  pose proof (l2_tasks_complete ck_str "bfloat16" demo_engine demo_calls demo_runs (l2_world [])) as Hc.
  destruct (exec _ _ _ demo_calls _) as [tr s] eqn:E.
  assert (Etr : count (hands_over KLookup 1) tr = 0%nat /\ count (hands_over KStore 0) tr = 1%nat /\
    Submitted KLookup 1 ∈ tr /\ length (sy_jobs s) = 3%nat).
  { change tr with (fst (tr, s)). change s with (snd (tr, s)) at 4. rewrite <- E.
    split_and!; try (vm_compute; reflexivity). vm_compute. do 3 right. left. }
  destruct Etr as (Hn & Hs & Hin & Hj). rewrite Hj in Hc. specialize (Hc ltac:(cbn; lia)).
  destruct (exec _ _ _ demo_runs s) as [tr' s']. destruct Hc as [_ Hc].
  destruct (Hc KLookup 1 Hin) as [H1 H2]. rewrite (H2 (or_intror demo_pins_return)), Hn in H1. split; [lia|exact Hs].
Defined.
