(* ===== verification/L2Refinement.v ===== *)
(** * The L2 adapter refines a map with locks

    The specification of [AerospikeL2Plugin] as one machine, in terms of its own: the map of
    [CacheRefinement]; the locks held, as a multiset of keys that a lookup adds its hits to and an
    unlock takes its keys from; how many task ids are given out; one table of the results nobody
    has asked for yet; the kinds of the tasks that ended and what the base class was told, in
    order; and the jobs that have not ended.  A job takes effect when it ends.  Of the
    functions of [l2_plugin.py] only the conversion of keys occurs in it.

    Every history of calls on a healthy cluster, with jobs that end in any order and chunks that
    complete in any order, gets from the adapter the answers of this machine, and the fields of the
    plugin show the machine's state ([shows]); a load that ends has filled its buffers with the
    payloads of the map. *)

From stdpp Require Import gmultiset.
From S2P Require Import Prelude PyStr Errors Sharding Config Limits Crc32 Keys Runtime Policies Metrics Serde.
From S2P Require Import Engine ClientSpec Store GetFacts Reads Concrete PutFacts KeyOps WellFormed BatchPut BatchGet.
From S2P Require Import CacheRefinement ParallelChunks Buffers L2Plugin L2Tasks.

(** ** The machine *)

(** The result of a task: whether all was stored and how much, the bits of a lookup, of a load. *)
Inductive outcome :=
| Stored (ok : bool) (size : Z)
| Found (bits : list bool)
| Loaded (bits : list bool).

Definition outcome_kind (o : outcome) : task_kind :=
  match o with Stored _ _ => KStore | Found _ => KLookup | Loaded _ => KLoad end.

Definition as_stored (o : outcome) : option (bool * Z) := match o with Stored ok n => Some (ok, n) | _ => None end.
Definition as_found (o : outcome) : option (list bool) := match o with Found bits => Some bits | _ => None end.
Definition as_loaded (o : outcome) : option (list bool) := match o with Loaded bits => Some bits | _ => None end.

(** What the adapter owes its owner. *)
Record Ledger := mkLedger {
  le_held : gmultiset ObjectKey;
  le_issued : nat;
  le_results : gmap Z outcome;
  le_ended : list task_kind;
  le_told : list notice
}.

Definition conclude (tid : Z) (o : outcome) (g : Ledger) : Ledger :=
  mkLedger (le_held g) (le_issued g) (<[tid := o]> (le_results g)) (le_ended g ++ [outcome_kind o]) (le_told g).

(** News about keys, if there are any. *)
Definition tell (n : notice) (keys : list ObjectKey) (g : Ledger) : Ledger :=
  mkLedger (le_held g) (le_issued g) (le_results g) (le_ended g) (le_told g ++ (if decide (keys = []) then [] else [n])).

Definition with_held (X : gmultiset ObjectKey) (g : Ledger) : Ledger :=
  mkLedger X (le_issued g) (le_results g) (le_ended g) (le_told g).

Definition with_results (R : gmap Z outcome) (g : Ledger) : Ledger :=
  mkLedger (le_held g) (le_issued g) R (le_ended g) (le_told g).

Definition hold (keys : list ObjectKey) (g : Ledger) : Ledger := with_held (le_held g ⊎ list_to_set_disj keys) g.
Definition let_go (keys : list ObjectKey) (g : Ledger) : Ledger := with_held (le_held g ∖ list_to_set_disj keys) g.

(** A query for a result of some kind: it is handed over once. *)
Definition ask (as_kind : outcome -> option (list bool)) (tid : Z) (g : Ledger) : option (list bool) * Ledger :=
  match le_results g !! tid ≫= as_kind with
  | Some bits => (Some bits, with_results (delete tid (le_results g)) g)
  | None => (None, g)
  end.

Section spec.
Context (dtype : string) {C : Type} (w0 : world C).

Abbreviation cache := (gmap CacheEngineKey (option bytes)).
Abbreviation ck_of := (_to_ck dtype).

Record Machine := mkMachine {
  ma_cache : cache;
  ma_ledger : Ledger;
  ma_jobs : list job;
  ma_batch_up : bool;
  ma_up : bool
}.
Implicit Types (c : cache) (s : Machine) (g : Ledger).

(** A job of at most 32 keys does not need the pool of the chunks. *)
Definition accepted (batch_up : bool) (keys : list ObjectKey) : bool :=
  batch_up || (length keys <=? 32)%nat.

Definition holds c (k : ObjectKey) : bool := bool_decide (is_Some (mjoin (c !! ck_of k))).

Definition object_sizes (objects : list loc) : list Z := (fun o => mo_get_size (mem w0 o)) <$> objects.

Definition spec_job (j : job) (batch_up : bool) c g : cache * Ledger :=
  match j with
  | StoreJob keys objects tid =>
      if accepted batch_up keys then
        let sizes := object_sizes objects in
        (store_all (zip (ck_of <$> keys) (mem w0 <$> objects)) c,
         tell (KeysStored keys sizes) keys (conclude tid (Stored true (foldr Z.add 0 sizes)) g))
      else (c, conclude tid (Stored false 0) g)
  | LookupJob keys tid =>
      let there := filter (fun k => known c (ck_of k) = true) keys in
      (c, conclude tid (Found ((fun k => known c (ck_of k)) <$> keys)) (tell (KeysAccessed there) there (hold there g)))
  | LoadJob keys objects tid =>
      (c, conclude tid (Loaded ((fun k => accepted batch_up keys && holds c k) <$> keys)) g)
  | UnlockJob keys => (c, let_go keys g)
  end.

Definition with_ledger g s : Machine := mkMachine (ma_cache s) g (ma_jobs s) (ma_batch_up s) (ma_up s).

Definition spec_enqueue (j : job) s : result unit * Machine :=
  if ma_up s then (inr tt, mkMachine (ma_cache s) (ma_ledger s) (ma_jobs s ++ [j]) (ma_batch_up s) (ma_up s))
  else (inl (Py RuntimeError), s).

(** Ids are numbers in the order of the calls, refused ones included. *)
Definition spec_submit (k : task_kind) (mk : Z -> job) s : answer * Machine :=
  let g := ma_ledger s in
  let tid := Z.of_nat (le_issued g) in
  let g := mkLedger (le_held g) (S (le_issued g)) (le_results g) (le_ended g) (le_told g) in
  let '(r, s) := spec_enqueue (mk tid) (with_ledger g s) in
  (match r with inl e => Refused e | inr _ => Submitted k tid end, s).

Definition spec_perform (c : call) s : answer * Machine :=
  match c with
  | SubmitStore keys objects => spec_submit KStore (StoreJob keys objects) s
  | SubmitLookup keys => spec_submit KLookup (LookupJob keys) s
  | SubmitLoad keys objects => spec_submit KLoad (LoadJob keys objects) s
  | SubmitUnlock keys =>
      let '(r, s) := spec_enqueue (UnlockJob keys) s in
      (match r with inl e => Refused e | inr _ => Returned (inr tt) end, s)
  | PopStores =>
      let R := le_results (ma_ledger s) in
      (Stores (omap as_stored R), with_ledger (with_results (filter (fun x => as_stored (snd x) = None) R) (ma_ledger s)) s)
  | QueryLookup tid => let '(bits, g) := ask as_found tid (ma_ledger s) in (Bits KLookup tid bits, with_ledger g s)
  | QueryLoad tid => let '(bits, g) := ask as_loaded tid (ma_ledger s) in (Bits KLoad tid bits, with_ledger g s)
  | Delete keys =>
      let g := ma_ledger s in
      (Returned (inr tt),
       mkMachine (foldl (fun c k => delete (ck_of k) c) (ma_cache s) keys)
         (mkLedger (le_held g) (le_issued g) (le_results g) (le_ended g)
            (le_told g ++ [KeysDeleted keys (replicate (length keys) 0)]))
         (ma_jobs s) (ma_batch_up s) (ma_up s))
  | ShutdownBatch => (Returned (inr tt), mkMachine (ma_cache s) (ma_ledger s) (ma_jobs s) false (ma_up s))
  | ShutdownPool => (Returned (inr tt), mkMachine (ma_cache s) (ma_ledger s) (ma_jobs s) (ma_batch_up s) false)
  | RunJob i _ =>
      match ma_jobs s !! i with
      | None => (Returned (inr tt), s)
      | Some j =>
          let '(c, g) := spec_job j (ma_batch_up s) (ma_cache s) (ma_ledger s) in
          (Ended j (inr tt), mkMachine c g (delete i (ma_jobs s)) (ma_batch_up s) (ma_up s))
      end
  end.

(** What a load that ends in [w] has read. *)
Definition loaded (j : job) (batch_up : bool) c (w : world C) : Prop :=
  match j with
  | LoadJob keys objects _ => accepted batch_up keys = true ->
      forall i k l p, keys !! i = Some k -> objects !! i = Some l -> mjoin (c !! ck_of k) = Some p ->
        take (length p) (mo_raw (mem w l)) = p
  | _ => True
  end.

Definition step_loaded (c : call) s (w : world C) : Prop :=
  match c with
  | RunJob i _ => match ma_jobs s !! i with Some j => loaded j (ma_batch_up s) (ma_cache s) w | None => True end
  | _ => True
  end.

(** The chunks of a job complete in some order. *)
Definition step_ordered (c : call) s : Prop :=
  match c with
  | RunJob i order =>
      match ma_jobs s !! i with
      | Some (StoreJob keys _ _ | LoadJob keys _ _) => completes order ((length keys + 31) / 32)%nat
      | _ => True
      end
  | _ => True
  end.

Fixpoint ordered (calls : list call) s : Prop :=
  match calls with
  | [] => True
  | c :: calls => step_ordered c s /\ ordered calls (snd (spec_perform c s))
  end.
End spec.

(** How the fields of the plugin show a ledger: a key is in the lock table with the number of its
    locks, or not at all; every waiting result is in the table of its kind; each event descriptor
    has been notified once per ended task of its kind. *)
Record shows (l : L2) (g : Ledger) : Prop := {
  sh_locks k : _locked l !! k = match multiplicity k (le_held g) with O => None | n => Some (Z.of_nat n) end;
  sh_next : _next_id l = Z.of_nat (le_issued g);
  sh_store : _done_store l = omap as_stored (le_results g);
  sh_lookup : _done_lookup l = omap as_found (le_results g);
  sh_load : _done_load l = omap as_loaded (le_results g);
  sh_events : _efds l = (let n k := count (fun k' => bool_decide (k' = k)) (le_ended g) in (n KStore, n KLookup, n KLoad));
  sh_told : _notices l = le_told g
}.

(** The adapter and the machine answer the same, call by call, and at the end the plugin's fields
    and the records in the store show the machine's state. *)
Fixpoint matches (to_string : CacheEngineKey -> string) (dtype : string) `{Env} (self : Engine)
    {C} `{AerospikeClient C} `{!ClientSpec C} (w0 : world C) (calls : list call) (s : System C) (m : Machine) : Prop :=
  match calls with
  | [] =>
      shows (sy_l2 s) (ma_ledger m) /\
      forall k, Store.entry to_string self (store (w_client (sy_world s))) k = mjoin (ma_cache m !! k)
  | c :: calls =>
      let '(a, s') := perform to_string dtype self c s in
      let '(b, m') := spec_perform dtype w0 c m in
      a = b /\ step_loaded dtype c m (sy_world s') /\ matches to_string dtype self w0 calls s' m'
  end.

(** ** The simulation *)

Section refinement.
Context {C : Type} `{AerospikeClient C} `{!ClientSpec C} `{Env}.
Context (to_string : CacheEngineKey -> string) `{!Inj (=) (=) to_string} (dtype : string) (self : Engine).
Context `{!EngineHooks C self} (N : nat) (cap : Z) (w0 : world C) (src : gset loc).

Abbreviation cache := (gmap CacheEngineKey (option bytes)).
Abbreviation ck_of := (_to_ck dtype).
Abbreviation entry := (Store.entry to_string self).
Abbreviation refines := (refines to_string self N cap).
Abbreviation put_fits := (put_fits self N cap).
Abbreviation get_fits := (get_fits N).
Abbreviation st w := (store (w_client w)).
Implicit Types (w : world C) (c : cache) (l : L2) (g : Ledger).

Hypothesis (Hbuf : frombuffer_ok) (Hconst : client_constants) (Hcfg : config_ok (cfg self)).
Hypothesis (Hlimits : limits_fit self) (Hcap : 0 <= cap).

(** The objects of the stores are the sources; loads go to other objects, with room. *)
Definition job_ok (j : job) : Prop :=
  match j with
  | StoreJob keys objects _ => NoDup (ck_of <$> keys) /\
      Forall2 (fun _ o => o ∈ src /\ exists m, w_heap w0 !! o = Some m /\ put_fits m) keys objects
  | LookupJob keys _ => NoDup (ck_of <$> keys)
  | LoadJob keys objects _ => NoDup objects /\
      Forall2 (fun _ o => o ∉ src /\ exists m, w_heap w0 !! o = Some m /\ get_fits m) keys objects
  | UnlockJob _ => True
  end.

Definition call_ok (c : call) : Prop :=
  match c with
  | SubmitStore keys objects => job_ok (StoreJob keys objects 0)
  | SubmitLookup keys => job_ok (LookupJob keys 0)
  | SubmitLoad keys objects => job_ok (LoadJob keys objects 0)
  | _ => True
  end.

(** The sources are as handed over, every other object has its shape. *)
Record heap_ok w : Prop := {
  ho_sources : forall o, o ∈ src -> w_heap w !! o = w_heap w0 !! o;
  ho_shapes : forall o m, w_heap w0 !! o = Some m -> mem_ok m -> exists m', w_heap w !! o = Some m' /\ alike m m'
}.

Lemma heap_ok_same w w' : w_heap w' = w_heap w -> heap_ok w -> heap_ok w'.
Proof. intros E [Hs Hb]. by split; rewrite E. Qed.

Lemma heap_ok_shapes w w' : heap_ok w -> same_shapes w w' -> (forall o, o ∈ src -> w_heap w' !! o = w_heap w !! o) ->
  heap_ok w'.
Proof.
  intros [Hs Hb] Hsh Hsrc. split.
  - intros o Ho. rewrite Hsrc by done. by apply Hs.
  - intros o m Hm Hok. destruct (Hb o m Hm Hok) as (m1 & Hm1 & Ha).
    destruct (Hsh o m1 Hm1 ltac:(by eapply alike_ok)) as (m2 & Hm2 & Ha2). exists m2. split; [done|]. by etrans.
Qed.

Lemma heap_ok_buffer w o m : heap_ok w -> w_heap w0 !! o = Some m -> get_fits m ->
  exists m', w_heap w !! o = Some m' /\ get_fits m'.
Proof.
  intros [_ Hb] Hm (Hok & Hv & Hroom). destruct (Hb o m Hm Hok) as (m' & Hm' & Ha). exists m'. split; [done|].
  split_and!; [by eapply alike_ok|by eapply alike_view|by rewrite (alike_room _ _ Ha)].
Qed.

(** *** Ledgers *)

Definition task_id (j : job) : option Z := snd <$> job_task j.

(** The ids of the jobs are given out, once each, and have no result yet. *)
Record ledger_ok (js : list job) g : Prop := {
  lo_once : NoDup (omap task_id js);
  lo_running tid : tid ∈ omap task_id js -> tid < Z.of_nat (le_issued g) /\ le_results g !! tid = None;
  lo_ended tid : is_Some (le_results g !! tid) -> tid < Z.of_nat (le_issued g)
}.

Lemma omap_partial {V} (f : outcome -> option V) (R : gmap Z outcome) tid o :
  R !! tid = None -> omap f (<[tid := o]> R) = match f o with Some v => <[tid := v]> (omap f R) | None => omap f R end.
Proof.
  intros HR. destruct (f o) eqn:E; [by apply omap_insert_Some|]. rewrite omap_insert_None by done.
  apply delete_id. by rewrite lookup_omap, HR.
Qed.

(** A result in the table of its kind. *)
Ltac concludes :=
  intros [Hk Hn Hs Hq Hl He Ht] Hnone; split; cbn; try done;
  [by rewrite omap_partial by done; cbn; rewrite ?Hs, ?Hq, ?Hl..
  |rewrite He, !count_app; cbn; by rewrite Nat.add_1_r, !Nat.add_0_r].

Lemma shows_finish_store tid ok n l g : shows l g -> le_results g !! tid = None ->
  shows (finish_store tid (ok, n) l) (conclude tid (Stored ok n) g).
Proof. concludes. Qed.

Lemma shows_finish_lookup tid bits l g : shows l g -> le_results g !! tid = None ->
  shows (finish_lookup tid bits l) (conclude tid (Found bits) g).
Proof. concludes. Qed.

Lemma shows_finish_load tid bits l g : shows l g -> le_results g !! tid = None ->
  shows (finish_load tid bits l) (conclude tid (Loaded bits) g).
Proof. concludes. Qed.

Lemma shows_notify n l g : shows l g ->
  shows (notify n l) (mkLedger (le_held g) (le_issued g) (le_results g) (le_ended g) (le_told g ++ [n])).
Proof. intros [Hk Hn Hs Hq Hl He Ht]. split; cbn; try done. by rewrite Ht. Qed.

(** [if keys: self._notify_...] *)
Definition announced (n : notice) (keys : list ObjectKey) l : L2 := if bool_decide (keys = []) then l else notify n l.

Lemma shows_announced n keys l g : shows l g -> shows (announced n keys l) (tell n keys g).
Proof.
  intros Hs. unfold announced, tell. case_bool_decide; [rewrite decide_True by done|rewrite decide_False by done; by apply shows_notify].
  rewrite app_nil_r. by destruct g.
Qed.

Lemma shows_hold (f : ObjectKey -> bool) keys l g : shows l g ->
  shows (set_locked (count_locks (zip keys (f <$> keys))) l) (hold (filter (fun k => f k = true) keys) g).
Proof.
  intros [Hk Hn Hs Hq Hl He Ht]. split; try done. cbn. intros k. revert Hk. generalize (_locked l) (le_held g).
  induction keys as [|x keys IH]; intros m X Hm; cbn [fmap list_fmap zip zip_with count_locks].
  { rewrite filter_nil, list_to_set_disj_nil, (right_id_L ∅ (⊎)). apply Hm. }
  destruct (f x) eqn:Ef; [rewrite filter_cons_True by done|rewrite filter_cons_False by congruence; by apply IH].
  rewrite list_to_set_disj_cons, (assoc_L (⊎)). apply IH. clear IH k. intros k. rewrite multiplicity_disj_union.
  destruct (decide (k = x)) as [->|Hne].
  - rewrite lookup_insert_eq, multiplicity_singleton_eq, Nat.add_1_r, Hm. destruct (multiplicity x X); cbn; f_equal; lia.
  - by rewrite lookup_insert_ne, multiplicity_singleton_ne, Nat.add_0_r, Hm.
Qed.

Lemma shows_let_go keys l g : shows l g -> shows (set_locked (unlock_locks keys) l) (let_go keys g).
Proof.
  intros [Hk Hn Hs Hq Hl He Ht]. split; try done. cbn. intros k. revert Hk. generalize (_locked l) (le_held g).
  unfold unlock_locks. induction keys as [|x keys IH]; intros m X Hm; cbn [foldl].
  { rewrite list_to_set_disj_nil, Hm, multiplicity_difference, multiplicity_empty. by rewrite Nat.sub_0_r. }
  assert (E : X ∖ list_to_set_disj (x :: keys) = (X ∖ {[+ x +]}) ∖ list_to_set_disj keys).
  { apply gmultiset_eq. intros y. rewrite list_to_set_disj_cons, !multiplicity_difference, multiplicity_disj_union. lia. }
  rewrite E. apply IH. clear IH E k. intros k. rewrite multiplicity_difference.
  destruct (decide (k = x)) as [->|Hne].
  - unfold unlock_one. rewrite multiplicity_singleton_eq, Hm.
    destruct (multiplicity x X) as [|n] eqn:E; [by rewrite Hm, E|].
    destruct (Z.leb_spec (Z.of_nat (S n)) 1) as [Hle|Hgt].
    + rewrite lookup_delete_eq. by replace n with 0%nat by lia.
    + rewrite lookup_insert_eq. destruct n as [|n]; [lia|]. cbn [Nat.sub]. f_equal. lia.
  - rewrite unlock_one_ne, multiplicity_singleton_ne, Nat.sub_0_r by done. apply Hm.
Qed.

Lemma shows_alloc l g : shows l g ->
  fst (_alloc_id l) = Z.of_nat (le_issued g) /\
  shows (snd (_alloc_id l)) (mkLedger (le_held g) (S (le_issued g)) (le_results g) (le_ended g) (le_told g)).
Proof. intros [Hk Hn Hs Hq Hl He Ht]. split; [done|]. split; cbn; try done. lia. Qed.

(** Handing over leaves the other kinds alone. *)
Lemma omap_delete_other {V} (f : outcome -> option V) (R : gmap Z outcome) tid o :
  R !! tid = Some o -> f o = None -> omap f (delete tid R) = omap f R.
Proof. intros HR Hf. rewrite omap_delete. apply delete_id. by rewrite lookup_omap, HR. Qed.

Lemma shows_query_lookup tid l g : shows l g ->
  let '(bits, l') := query_lookup_and_lock_result tid l in
  let '(bits', g') := ask as_found tid g in bits = bits' /\ shows l' g'.
Proof.
  intros [Hk Hn Hs Hq Hl He Ht]. unfold query_lookup_and_lock_result, ask. rewrite Hq, lookup_omap.
  destruct (le_results g !! tid ≫= as_found) as [bits|] eqn:E.
  - split; [done|]. destruct (le_results g !! tid) as [[| |]|] eqn:Eo; try done.
    split; cbn; try done; rewrite ?omap_delete_other with (o := Found bits0) by done; try done. by rewrite omap_delete.
  - split; [done|]. split; cbn; try done. rewrite <- Hq. apply delete_id. by rewrite Hq, lookup_omap.
Qed.

Lemma shows_query_load tid l g : shows l g ->
  let '(bits, l') := query_load_result tid l in
  let '(bits', g') := ask as_loaded tid g in bits = bits' /\ shows l' g'.
Proof.
  intros [Hk Hn Hs Hq Hl He Ht]. unfold query_load_result, ask. rewrite Hl, lookup_omap.
  destruct (le_results g !! tid ≫= as_loaded) as [bits|] eqn:E.
  - split; [done|]. destruct (le_results g !! tid) as [[| |]|] eqn:Eo; try done.
    split; cbn; try done; rewrite ?omap_delete_other with (o := Loaded bits0) by done; try done. by rewrite omap_delete.
  - split; [done|]. split; cbn; try done. rewrite <- Hl. apply delete_id. by rewrite Hl, lookup_omap.
Qed.

Lemma shows_pop l g : shows l g ->
  let '(done, l') := pop_completed_store_tasks l in
  done = omap as_stored (le_results g) /\
  shows l' (with_results (filter (fun x => as_stored (snd x) = None) (le_results g)) g).
Proof.
  intros [Hk Hn Hs Hq Hl He Ht]. split; [done|].
  assert (Hsub : forall V (f : outcome -> option V), (forall o, is_Some (as_stored o) -> f o = None) ->
    omap f (filter (fun x => as_stored (snd x) = None) (le_results g)) = omap f (le_results g)).
  { intros V f Hf. apply map_eq. intros i. rewrite !lookup_omap, map_lookup_filter.
    destruct (le_results g !! i) as [o|]; [|done]. cbn. destruct (as_stored o) as [x|] eqn:Eo; cbn; [|done].
    by rewrite Hf by by eexists. }
  split; cbn; try done.
  - symmetry. apply map_eq. intros i. rewrite lookup_omap, map_lookup_filter, lookup_empty.
    destruct (le_results g !! i) as [o|]; [|done]. cbn. by destruct (as_stored o) eqn:Eo.
  - rewrite Hsub; [done|]. intros [] [? ?]; done.
  - rewrite Hsub; [done|]. intros [] [? ?]; done.
Qed.

(** *** Jobs *)

(** What a job does: no exception, the fields and the map of the machine, the heap as it should be. *)
Definition job_simulated (j : job) (up : bool) w c g (out : result unit * world C * L2) : Prop :=
  let '(r, w', l') := out in
  let '(c', g') := spec_job dtype w0 j up c g in
  r = inr tt /\ shows l' g' /\ refines w' c' /\ heap_ok w' /\ loaded dtype j up c w'.

(** Its task has no result yet. *)
Definition fresh_task (j : job) g : Prop := forall tid, task_id j = Some tid -> le_results g !! tid = None.

(** *** Stores *)

Lemma store_sync_all_true pool keys objects tid w w1 l :
  length keys = length objects -> w_heap w1 = w_heap w ->
  run (_parallel_chunks (fun chunk => batched_put to_string self chunk false) pool (items_of dtype keys objects) chunk_size) w
    = (inr ((fun _ => true) <$> items_of dtype keys objects), w1) ->
  _store_sync to_string dtype self pool keys objects tid w l =
    (w1, announced (KeysStored keys (sizes_of w objects)) keys
           (finish_store tid (true, foldr Z.add 0 (sizes_of w objects)) l)).
Proof.
  intros Hlen Hh E. unfold _store_sync. rewrite run_attempt, run_bind, E, run_tally_stored.
  cbn [fst snd andb app]. rewrite Z.add_0_l, forallb_all_true.
  rewrite succeeded_all; [|by rewrite length_fmap, length_items, length_zip_with_l_eq|by apply forallb_all_true].
  rewrite fst_zip_eq, snd_zip_eq by done.
  assert (Hsz : sizes_of w1 objects = sizes_of w objects) by (unfold sizes_of, mem; by rewrite Hh).
  rewrite Hsz. unfold announced. cbn [andb]. by destruct (bool_decide (keys = [])).
Qed.

Lemma items_putable keys objects w c : refines w c -> heap_ok w ->
  Forall2 (fun _ o => o ∈ src /\ exists m, w_heap w0 !! o = Some m /\ put_fits m) keys objects ->
  Forall (putable self w) (items_of dtype keys objects).
Proof.
  intros [_ Hc _] [Hs _] Hall. apply Forall_lookup. intros i [k o] (x & y & [= <- <-] & Hx & Ho)%lookup_zip_with_Some.
  rewrite list_lookup_fmap in Hx. destruct (keys !! i) as [key|] eqn:Ek; [|done].
  destruct (Forall2_lookup_lr _ _ _ _ _ _ Hall Ek Ho) as (Hin & m & Hm & _ & _ & Hser & Hmx & Hfit).
  exists m. cbn. rewrite Hs by done. split_and!; [done|split; [done|by rewrite Hc]|done].
Qed.

Lemma store_simulated order keys objects tid w c l : refines w c -> heap_ok w -> job_ok (StoreJob keys objects tid) ->
  completes order (length (chunks chunk_size (items_of dtype keys objects))) ->
  let '(w', l') := _store_sync to_string dtype self (Running order) keys objects tid w l in
  l' = announced (KeysStored keys (sizes_of w0 objects)) keys
         (finish_store tid (true, foldr Z.add 0 (sizes_of w0 objects)) l) /\
  refines w' (store_all (zip (ck_of <$> keys) (mem w0 <$> objects)) c) /\ heap_ok w'.
Proof.
  intros Hr Hho [Hnd Hall] Hord. pose proof Hr as [Hh Hc Hk]. pose proof (Forall2_length _ _ _ Hall) as Hlen.
  pose proof (items_putable keys objects w c Hr Hho Hall) as Hput.
  destruct (write_policy_ok _ Hconst Hcfg) as [wp Hwp].
  assert (Hmem : forall i o, objects !! i = Some o -> exists m, w_heap w !! o = Some m /\ mem w0 o = m /\ put_fits m).
  { intros i o Ho. destruct (Forall2_lookup_r _ _ _ _ _ Hall Ho) as (key & _ & Hin & m & Hm & Hf). exists m.
    rewrite (ho_sources _ Hho) by done. split_and!; [done|by apply mem_lookup|done]. }
  assert (Hndi : NoDup (items_of dtype keys objects)) by (eapply NoDup_fmap_1, NoDup_items_fst; done).
  pose proof (run_store_chunks_healthy to_string dtype self wp order keys objects w Hlimits Hwp Hh Hndi Hord Hput) as Hrun.
  pose proof (run_store_chunks to_string dtype self order keys objects w (proj1 Hlimits) Hnd Hlen) as Hst.
  destruct (run (_parallel_chunks _ _ _ _) w) as [r w'] eqn:E. destruct Hrun as [-> [[Hh' Hc'] Hheap]].
  destruct Hst as [Htouch Hkept]; [|done|].
  { apply Forall_lookup. intros i o Ho. destruct (Hmem i o Ho) as (m & Hm & _). by exists m. }
  destruct (Hkept _ eq_refl) as [_ Hkept'].
  rewrite (store_sync_all_true _ _ _ _ _ _ _ Hlen Hheap E).
  assert (Hsz : sizes_of w objects = sizes_of w0 objects).
  { unfold sizes_of. apply list_fmap_ext. intros i o Ho. destruct (Hmem i o Ho) as (m & Hm & -> & _).
    by rewrite (mem_lookup _ _ _ Hm). }
  rewrite Hsz. split_and!; [done| |by eapply heap_ok_same]. split; [done|congruence|]. intros k.
  assert (Hfst : fst <$> zip (ck_of <$> keys) (mem w0 <$> objects) = ck_of <$> keys)
    by (apply fst_zip; rewrite !length_fmap; lia).
  destruct (decide (k ∈ ck_of <$> keys)) as [Hin|Hin].
  - apply list_elem_of_fmap in Hin as (key & -> & Hin). apply list_elem_of_lookup in Hin as [i Hi].
    destruct (Forall2_lookup_l _ _ _ _ _ Hall Hi) as (o & Ho & _).
    destruct (Hmem i o Ho) as (m & Hm & Em & Hne & Hle & _).
    apply (kept_agrees _ _ _ _ _ _ (byte_array m)); [|done|done|].
    + apply (Hkept' i key o m); [|done..]. rewrite list_lookup_fmap.
      by rewrite (items_lookup _ _ _ i key o Hi Ho).
    + apply (store_all_in _ _ i); [by rewrite Hfst|]. apply lookup_zip_with_Some.
      exists (ck_of key), m. rewrite !list_lookup_fmap, Hi, Ho. cbn. by rewrite Em.
  - eapply key_agrees_frame; [by eapply touched_owned| |apply Hk]. apply store_all_other. by rewrite Hfst.
Qed.

(** *** Lookups and unlocks *)

Lemma hit_keys_where (f : ObjectKey -> bool) keys : hit_keys (zip keys (f <$> keys)) = filter (fun k => f k = true) keys.
Proof.
  induction keys as [|k keys IH]; [done|]. cbn [fmap list_fmap zip zip_with]. rewrite hit_keys_cons.
  destruct (f k) eqn:E; [rewrite filter_cons_True by done; by rewrite IH|by rewrite filter_cons_False by congruence].
Qed.

Lemma lookup_mask keys w c : refines w c -> heap_ok w ->
  let '(r, w') := run (batched_exists_mask to_string self (ck_of <$> keys)) w in
  r = inr ((fun k => known c (ck_of k)) <$> keys) /\ refines w' c /\ heap_ok w'.
Proof.
  intros Hr Hho. pose proof (run_batched_exists_mask to_string self (ck_of <$> keys) w) as Hm.
  destruct (run_calm _ (batched_exists_mask_calm to_string self (ck_of <$> keys)) w) as [Es Hst].
  destruct (run _ w) as [r w']. destruct Hm as (_ & Hheap & _ & _ & Hh). split_and!.
  - rewrite (Hh (rf_healthy _ _ _ _ _ _ Hr)), <- list_fmap_compose. f_equal. apply list_fmap_ext. intros i k _.
    symmetry. by apply (known_present to_string self N cap).
  - eapply refines_same; [done..|apply Hst, (rf_healthy _ _ _ _ _ _ Hr)].
  - by eapply heap_ok_same.
Qed.

Lemma lookup_simulated up keys tid w c l g : refines w c -> heap_ok w -> shows l g -> job_ok (LookupJob keys tid) ->
  fresh_task (LookupJob keys tid) g ->
  job_simulated (LookupJob keys tid) up w c g (_lookup_sync to_string dtype self keys tid w l).
Proof.
  intros Hr Hho Hsh Hnd Hfr. cbn in Hnd. unfold job_simulated, _lookup_sync. rewrite run_attempt.
  pose proof (lookup_mask keys w c Hr Hho) as Hm. destruct (run _ w) as [r w1]. destruct Hm as (-> & Hr1 & Hho1).
  cbn [fst snd spec_job]. set (there := fun k => known c (ck_of k)).
  assert (Hpad : (there <$> keys) ++ replicate (length keys - length (there <$> keys)) false = there <$> keys)
    by by rewrite length_fmap, Nat.sub_diag, app_nil_r.
  assert (Hdone : shows (finish_lookup tid (there <$> keys)
      (announced (KeysAccessed (hit_keys (zip keys (there <$> keys)))) (hit_keys (zip keys (there <$> keys)))
         (set_locked (count_locks (zip keys (there <$> keys))) l)))
    (conclude tid (Found (there <$> keys)) (tell (KeysAccessed (filter (fun k => there k = true) keys))
       (filter (fun k => there k = true) keys) (hold (filter (fun k => there k = true) keys) g)))).
  { apply shows_finish_lookup; [|by apply Hfr]. rewrite hit_keys_where. by apply shows_announced, shows_hold. }
  assert (Hknown : foldr remember c (ck_of <$> hit_keys (zip keys (there <$> keys))) = c).
  { rewrite hit_keys_where. apply remember_known, Forall_fmap, Forall_forall.
    by intros k [Hk _]%list_elem_of_filter. }
  assert (Hndh : NoDup (ck_of <$> hit_keys (zip keys (there <$> keys)))).
  { eapply sublist_NoDup; [exact Hnd|]. apply fmap_sublist, hit_keys_incl. by rewrite length_fmap. }
  rewrite Hpad. unfold announced in Hdone. destruct (hit_keys (zip keys (there <$> keys))) as [|k0 ks0] eqn:Ehk; [done|].
  rewrite <- Ehk in *. rewrite bool_decide_false in Hdone by by rewrite Ehk.
  pose proof (pin_keys_refines to_string self N cap Hconst Hcfg Hcap w1 c _ Hr1 Hndh) as Hp.
  pose proof (run_pin_keys to_string self _ w1 Hndh) as Hf.
  destruct (run (pin_keys _ _ _) w1) as [r w2]. destruct Hp as [-> Hr2], Hf as (_ & Hheap & _).
  rewrite Hknown in Hr2. split_and!; [done|done|done|by eapply heap_ok_same|done].
Qed.

Lemma unlock_runs keys : forall w c l, refines w c -> heap_ok w ->
  let '(r, w', l') := _unlock_sync to_string dtype self keys w l in
  r = inr tt /\ l' = set_locked (unlock_locks keys) l /\ refines w' c /\ heap_ok w'.
Proof.
  induction keys as [|k keys IH]; intros w c l Hr Hho; cbn [_unlock_sync].
  { split_and!; [done| |done..]. by destruct l. }
  unfold unlock_locks. cbn [foldl]. unfold unlock_one.
  destruct (_locked l !! k) as [n|] eqn:En; [|specialize (IH w c l Hr Hho)].
  - pose proof (unpin_simulated to_string self N cap Hconst Hcfg Hcap w c (ck_of k) Hr) as Hu.
    pose proof (run_unpin to_string self (ck_of k) w) as Hf. unfold simulated in Hu. cbn [engine_op spec_op] in Hu.
    destruct (run (unpin _ _ _) w) as [[e|b] w1]; [by destruct Hu as [[=] _]|].
    destruct Hu as [_ Hr1], Hf as (_ & Hheap & _).
    match goal with |- context [_unlock_sync _ _ _ keys w1 ?l1] => specialize (IH w1 c l1 Hr1 (heap_ok_same _ _ Hheap Hho)) end.
    destruct (_unlock_sync _ _ _ keys w1 _) as [[r w2] l2]. destruct IH as (Hret & -> & Hr2 & Hho2).
    split_and!; [done| |done..]. unfold set_locked. cbn. by rewrite En.
  - destruct (_unlock_sync _ _ _ keys w l) as [[r w2] l2]. destruct IH as (Hret & -> & Hr2 & Hho2).
    split_and!; [done| |done..]. unfold set_locked. cbn. by rewrite En.
Qed.

Lemma unlock_simulated up keys w c l g : refines w c -> heap_ok w -> shows l g ->
  job_simulated (UnlockJob keys) up w c g (_unlock_sync to_string dtype self keys w l).
Proof.
  intros Hr Hho Hsh. pose proof (unlock_runs keys w c l Hr Hho) as Hu. unfold job_simulated. cbn [spec_job].
  destruct (_unlock_sync _ _ _ _ _ _) as [[r w'] l']. destruct Hu as (-> & -> & Hr' & Hho').
  split_and!; [done|by apply shows_let_go|done..].
Qed.

(** *** Loads *)

Lemma load_fills order keys objects tid w c l : refines w c -> heap_ok w -> job_ok (LoadJob keys objects tid) ->
  completes order (length (chunks chunk_size (items_of dtype keys objects))) ->
  let '(w', l') := _load_sync to_string dtype self (Running order) keys objects tid w l in
  l' = finish_load tid (holds dtype c <$> keys) l /\ refines w' c /\ heap_ok w' /\
  forall i k (o : loc) p, keys !! i = Some k -> objects !! i = Some o -> mjoin (c !! ck_of k) = Some p ->
    take (length p) (mo_raw (mem w' o)) = p.
Proof.
  intros Hr Hho [Hnd Hall] Hord. pose proof Hr as [Hh _ _]. pose proof (Forall2_length _ _ _ Hall) as Hlen.
  assert (Hsnd : snd <$> items_of dtype keys objects = objects) by (rewrite items_snd, take_ge; [done|lia]).
  assert (Hf : Forall (findable to_string self (st w) w) (items_of dtype keys objects)).
  { apply Forall_lookup. intros i [ck o] (x & y & [= <- <-] & _ & Ho)%lookup_zip_with_Some.
    destruct (Forall2_lookup_r _ _ _ _ _ Hall Ho) as (key & _ & _ & m & Hm & Hfit).
    destruct (heap_ok_buffer w o m Hho Hm Hfit) as (m' & Hm' & Hfit').
    by apply (refines_findable to_string self N cap w c ck o m'). }
  rewrite <- Hsnd in Hnd.
  pose proof (run_load_chunks to_string self Hbuf order _ w Hnd (findable_buffers _ _ _ _ _ Hf) Hord) as Hrun.
  pose proof (run_load_chunks_healthy to_string self Hbuf order _ w Hh Hnd Hord Hf) as Hx.
  pose proof (batched_get_shapely Hbuf to_string self) as Hsh.
  pose proof (parallel_chunks_shapely _ (Running order) (items_of dtype keys objects) chunk_size Hsh w) as Hshape.
  destruct (run_calm _ (parallel_chunks_calm _ (Running order) (items_of dtype keys objects) chunk_size
    (batched_get_calm to_string self)) w) as [Es Hst].
  unfold _load_sync. rewrite run_attempt. destruct (run (_parallel_chunks _ _ _ _) w) as [r w'].
  cbn [fst snd] in *. subst r. destruct Hrun as (_ & Hheap & Hfill). specialize (Hfill _ eq_refl). rewrite Hsnd in Hheap.
  assert (Hfst : fst <$> items_of dtype keys objects = ck_of <$> keys)
    by (rewrite items_fst, take_ge; [done|rewrite length_fmap; lia]).
  assert (Hbits : has_entry to_string self (st w) <$> items_of dtype keys objects = holds dtype c <$> keys).
  { transitivity ((fun ck => bool_decide (is_Some (entry (st w) ck))) <$> (fst <$> items_of dtype keys objects));
      [by rewrite <- list_fmap_compose|]. rewrite Hfst, <- list_fmap_compose. apply list_fmap_ext. intros i k _.
    cbn. by rewrite (refines_entry to_string self N cap w c _ Hr). }
  rewrite Hbits in *. split_and!.
  - by rewrite length_fmap, Nat.sub_diag, app_nil_r.
  - eapply refines_same; [done..|by apply Hst].
  - eapply heap_ok_shapes; [done|done|]. intros o Ho. apply Hheap. intros Hin.
    apply list_elem_of_lookup in Hin as [i Hi]. by destruct (Forall2_lookup_r _ _ _ _ _ Hall Hi) as (_ & _ & Hno & _).
  - intros i k o p Hk Ho Hp. destruct (Forall2_lookup_l _ _ _ _ _ Hfill (items_lookup dtype keys objects i k o Hk Ho))
      as (b & Hb & Hi). rewrite list_lookup_fmap, Hk in Hb. injection Hb as <-.
    destruct Hi as (p' & m & He & Hm & Ht); [apply bool_decide_eq_true; by exists p|]. cbn in He, Hm.
    rewrite (refines_entry to_string self N cap w c _ Hr), Hp in He. injection He as <-. by rewrite (mem_lookup _ _ _ Hm).
Qed.

(** *** Removals *)

Lemma delete_simulated keys : forall w c, refines w c -> heap_ok w ->
  let '(r, w') := run (traverse (fun ok => remove to_string self (ck_of ok)) keys) w in
  (exists bs, r = inr bs) /\ refines w' (foldl (fun c k => delete (ck_of k) c) c keys) /\ heap_ok w'.
Proof.
  induction keys as [|k keys IH]; intros w c Hr Hho; cbn [traverse foldl]; [split_and!; [by eexists|done..]|].
  rewrite run_bind. pose proof (remove_simulated to_string self N cap w c (ck_of k) Hr) as Hs.
  pose proof (remove_still to_string self (ck_of k) w) as Hheap. unfold simulated in Hs. cbn [engine_op spec_op] in Hs.
  destruct (run (remove _ _ _) w) as [[e|b] w1]; [by destruct Hs as [[=] _]|]. destruct Hs as [_ Hr1].
  specialize (IH w1 _ Hr1 (heap_ok_same _ _ Hheap Hho)). rewrite run_bind. destruct (run _ w1) as [r w2].
  destruct IH as ([bs ->] & Hr2 & Hho2). split_and!; [by eexists|done..].
Qed.

(** *** Every job, every call *)

Lemma batch_pool_idle {T} (fn : list T -> prog ev (list bool)) items order (up : bool) :
  up || (length items <=? chunk_size)%nat = true ->
  _parallel_chunks fn (if up then Running order else Shutdown) items chunk_size =
  _parallel_chunks fn (Running order) items chunk_size.
Proof. destruct up; [done|]. intros Hle%Nat.leb_le. by rewrite !parallel_chunks_small. Qed.

(** The chunks of a job. *)
Lemma ordered_chunks order keys objects : length (items_of dtype keys objects) = length keys ->
  completes order ((length keys + 31) / 32)%nat -> completes order (length (chunks chunk_size (items_of dtype keys objects))).
Proof. intros Hlen. by rewrite length_chunks, Hlen by (unfold chunk_size; lia). Qed.

Lemma store_ends order up keys objects tid w c l g : refines w c -> heap_ok w -> shows l g ->
  job_ok (StoreJob keys objects tid) -> fresh_task (StoreJob keys objects tid) g ->
  completes order ((length keys + 31) / 32)%nat ->
  job_simulated (StoreJob keys objects tid) up w c g
    (run_job to_string dtype self (StoreJob keys objects tid) (if up then Running order else Shutdown) w l).
Proof.
  intros Hr Hho Hsh Hj Hfr Hord. specialize (Hfr tid eq_refl). cbn [run_job].
  assert (Hlen : length (items_of dtype keys objects) = length keys)
    by (destruct Hj as [_ Hj]; apply length_items; by eapply Forall2_length).
  apply (ordered_chunks order keys objects Hlen) in Hord.
  unfold job_simulated; cbn [spec_job]; destruct (accepted up keys) eqn:Ea; unfold accepted in Ea; rewrite <- Hlen in Ea.
  - pose proof (store_simulated order keys objects tid w c l Hr Hho Hj Hord) as Hs.
    assert (E : _store_sync to_string dtype self (if up then Running order else Shutdown) keys objects tid w l =
      _store_sync to_string dtype self (Running order) keys objects tid w l)
      by (unfold _store_sync; by rewrite batch_pool_idle).
    rewrite E. destruct (_store_sync _ _ _ _ _ _ _ _ _) as [w' l']. destruct Hs as (-> & ? & ?).
    split_and!; [done|by apply shows_announced, shows_finish_store|done..].
  - apply orb_false_iff in Ea as [-> Hle%Nat.leb_gt].
    rewrite (proj1 (large_jobs_fail_after_batch_shutdown to_string dtype self keys objects tid w l Hle)).
    split_and!; [done|by apply shows_finish_store|done..].
Qed.

Lemma load_ends order up keys objects tid w c l g : refines w c -> heap_ok w -> shows l g ->
  job_ok (LoadJob keys objects tid) -> fresh_task (LoadJob keys objects tid) g ->
  completes order ((length keys + 31) / 32)%nat ->
  job_simulated (LoadJob keys objects tid) up w c g
    (run_job to_string dtype self (LoadJob keys objects tid) (if up then Running order else Shutdown) w l).
Proof.
  intros Hr Hho Hsh Hj Hfr Hord. specialize (Hfr tid eq_refl). cbn [run_job].
  assert (Hlen : length (items_of dtype keys objects) = length keys)
    by (destruct Hj as [_ Hj]; apply length_items; by eapply Forall2_length).
  apply (ordered_chunks order keys objects Hlen) in Hord.
  unfold job_simulated; cbn [spec_job]; unfold loaded; destruct (accepted up keys) eqn:Ea; unfold accepted in Ea; rewrite <- Hlen in Ea.
  - pose proof (load_fills order keys objects tid w c l Hr Hho Hj Hord) as Hs.
    assert (E : _load_sync to_string dtype self (if up then Running order else Shutdown) keys objects tid w l =
      _load_sync to_string dtype self (Running order) keys objects tid w l)
      by (unfold _load_sync; by rewrite batch_pool_idle).
    rewrite E. destruct (_load_sync _ _ _ _ _ _ _ _ _) as [w' l']. destruct Hs as (-> & ? & ? & ?).
    split_and!; [done|by apply shows_finish_load|done..].
  - apply orb_false_iff in Ea as [-> Hle%Nat.leb_gt].
    rewrite (proj2 (large_jobs_fail_after_batch_shutdown to_string dtype self keys objects tid w l Hle)).
    assert (Hno : replicate (length keys) false = (fun k => false && holds dtype c k) <$> keys)
      by (clear; induction keys as [|k keys IH]; [done|cbn; by rewrite IH]).
    rewrite Hno. split_and!; [done|by apply shows_finish_load|done..].
Qed.

Lemma job_ends order up j w c l g : refines w c -> heap_ok w -> shows l g -> job_ok j -> fresh_task j g ->
  (forall keys objects tid, j = StoreJob keys objects tid \/ j = LoadJob keys objects tid ->
     completes order ((length keys + 31) / 32)%nat) ->
  job_simulated j up w c g (run_job to_string dtype self j (if up then Running order else Shutdown) w l).
Proof.
  intros Hr Hho Hsh Hj Hfr Hord. destruct j as [keys objects tid|keys tid|keys objects tid|keys].
  - apply store_ends; eauto.
  - by apply lookup_simulated.
  - apply load_ends; eauto.
  - by apply unlock_simulated.
Qed.

(** *** Ids *)

Lemma ledger_shrinks js g g' : le_issued g' = le_issued g -> le_results g' ⊆ le_results g -> ledger_ok js g -> ledger_ok js g'.
Proof.
  intros Ei Hsub [H1 H2 H3]. split; rewrite ?Ei; [done| |].
  - intros tid Hin. destruct (H2 tid Hin) as [Hlt Hn]. split; [done|]. by eapply lookup_weaken_None.
  - intros tid [o Ho]. apply H3. exists o. by eapply lookup_weaken.
Qed.

Lemma ledger_issue js g held ended told : ledger_ok js g -> ledger_ok js (mkLedger held (S (le_issued g)) (le_results g) ended told).
Proof.
  intros [H1 H2 H3]. split; cbn; [done| |].
  - intros tid Hin. destruct (H2 tid Hin). split; [lia|done].
  - intros tid Hs. specialize (H3 tid Hs). lia.
Qed.

(** A new job has the id just given out, or none. *)
Lemma ledger_enqueue js j g : ledger_ok js g ->
  (forall tid, task_id j = Some tid -> tid < Z.of_nat (le_issued g) /\ le_results g !! tid = None /\ tid ∉ omap task_id js) ->
  ledger_ok (js ++ [j]) g.
Proof.
  intros [H1 H2 H3] Hj. destruct (task_id j) as [tid|] eqn:Ej; cycle 1.
  { assert (E : omap task_id (js ++ [j]) = omap task_id js) by (rewrite omap_app; cbn; by rewrite Ej, app_nil_r).
    split; rewrite ?E; done. }
  destruct (Hj tid eq_refl) as (Hlt & Hn & Hout).
  assert (E : omap task_id (js ++ [j]) = omap task_id js ++ [tid]) by (rewrite omap_app; cbn; by rewrite Ej).
  split; rewrite ?E; [|intros t [Ht|[->|[]%not_elem_of_nil]%elem_of_cons]%elem_of_app; [by apply H2|done]|done].
  apply NoDup_app. split_and!; [done|by intros t Ht ->%list_elem_of_singleton|apply NoDup_singleton].
Qed.

(** The end of a job gives its task a result. *)
Lemma spec_job_results j up c g : let g' := snd (spec_job dtype w0 j up c g) in
  le_issued g' = le_issued g /\
  match task_id j with
  | Some tid => exists o, le_results g' = <[tid := o]> (le_results g)
  | None => le_results g' = le_results g
  end.
Proof. destruct j; cbn; [destruct (accepted _ _)|..]; (split; [done|]); try done; by eexists. Qed.

Lemma ledger_end js i j up c g : js !! i = Some j -> ledger_ok js g ->
  ledger_ok (delete i js) (snd (spec_job dtype w0 j up c g)).
Proof.
  intros Hi [H1 H2 H3]. pose proof (spec_job_results j up c g) as Hr. cbv zeta in Hr. destruct Hr as [Ei Er].
  assert (Hp : js ≡ₚ j :: delete i js) by (by apply delete_Permutation).
  assert (Ho : omap task_id js ≡ₚ omap task_id (j :: delete i js)) by by rewrite <- Hp.
  rewrite Ho in H1. assert (H2' : forall t, t ∈ omap task_id (j :: delete i js) -> t < Z.of_nat (le_issued g) /\ le_results g !! t = None)
    by (intros t; rewrite <- Ho; apply H2). clear H2. cbn in H1, H2'.
  destruct (task_id j) as [tid|] eqn:Ej; [|split; rewrite ?Ei, ?Er; done].
  destruct Er as [o Er]. apply NoDup_cons in H1 as [Hout H1]. split; rewrite ?Ei, ?Er; [done| |].
  - intros t Ht. destruct (H2' t) as [Hlt Hn]; [by right|]. split; [done|]. rewrite lookup_insert_ne; [done|]. by intros ->.
  - intros t Hs. destruct (decide (t = tid)) as [->|Hne]; [apply H2'; by left|]. rewrite lookup_insert_ne in Hs by done. by apply H3.
Qed.

Lemma ask_shrinks f tid g : le_issued (snd (ask f tid g)) = le_issued g /\ le_results (snd (ask f tid g)) ⊆ le_results g.
Proof. unfold ask. destruct (_ ≫= f); cbn; (split; [done|]); [apply delete_subseteq|done]. Qed.

(** The adapter in a state of the machine. *)
Record related (s : System C) (m : Machine) : Prop := {
  re_map : refines (sy_world s) (ma_cache m);
  re_l2 : shows (sy_l2 s) (ma_ledger m);
  re_ledger : ledger_ok (sy_jobs s) (ma_ledger m);
  re_jobs : sy_jobs s = ma_jobs m;
  re_batch_up : sy_batch_up s = ma_batch_up m;
  re_up : sy_up s = ma_up m;
  re_heap : heap_ok (sy_world s);
  re_jobs_ok : Forall job_ok (sy_jobs s)
}.

(** One call and what the machine says of it. *)
Definition call_simulated (c : call) (s : System C) (m : Machine) : Prop :=
  let '(a, s') := perform to_string dtype self c s in
  let '(b, m') := spec_perform dtype w0 c m in
  a = b /\ step_loaded dtype c m (sy_world s') /\ related s' m'.

Lemma enqueue_simulated j s m : related s m -> job_ok j ->
  (forall tid, task_id j = Some tid ->
     tid < Z.of_nat (le_issued (ma_ledger m)) /\ le_results (ma_ledger m) !! tid = None /\ tid ∉ omap task_id (sy_jobs s)) ->
  let '(r, s') := enqueue j s in
  let '(r', m') := spec_enqueue j m in r = r' /\ related s' m'.
Proof.
  intros [Hr Hl Hg Hj Hb Hu Hh Hjs] Hok Hid. unfold enqueue, spec_enqueue. rewrite Hu.
  destruct (ma_up m) eqn:Em; [|by split; [|split; rewrite ?Em]].
  split; [done|]. split; cbn; rewrite <- ?Hj; try done; [by apply ledger_enqueue|].
  apply Forall_app. split; [done|by constructor].
Qed.

Lemma with_ledger_related s m l g : related s m -> shows l g -> ledger_ok (sy_jobs s) g ->
  related (set_l2 l s) (with_ledger g m).
Proof. intros [Hr Hl Hg Hj Hb Hu Hh Hjs] Hs Hok. by split. Qed.

Lemma submit_simulated k mk s m : related s m -> (forall tid, job_ok (mk tid)) -> (forall tid, task_id (mk tid) = Some tid) ->
  let '(a, s') := submit_task k mk s in
  let '(b, m') := spec_submit k mk m in a = b /\ related s' m'.
Proof.
  intros Hs Hok Hid. unfold submit_task, spec_submit. pose proof (shows_alloc _ _ (re_l2 _ _ Hs)) as [Et Hsh].
  destruct (_alloc_id (sy_l2 s)) as [tid l]. cbn [fst snd] in *. subst tid.
  pose proof (ledger_issue _ _ (le_held (ma_ledger m)) (le_ended (ma_ledger m)) (le_told (ma_ledger m)) (re_ledger _ _ Hs)) as Hg.
  pose proof (enqueue_simulated (mk (Z.of_nat (le_issued (ma_ledger m)))) _ _ (with_ledger_related s m _ _ Hs Hsh Hg) (Hok _)) as He.
  destruct (enqueue _ _) as [r s'], (spec_enqueue _ _) as [r' m']. destruct He as [-> He]; [|done].
  rewrite Hid. intros tid [= <-]. cbn. destruct (re_ledger _ _ Hs) as [_ H2 H3]. split_and!; [lia| |].
  - apply eq_None_not_Some. intros Hx%H3. lia.
  - intros [Hlt _]%H2. lia.
Qed.

Lemma end_job_simulated i order s m : related s m -> step_ordered (RunJob i order) m ->
  call_simulated (RunJob i order) s m.
Proof.
  intros Hs Hord. pose proof Hs as [Hr Hl Hg Hj Hb Hu Hh Hjs]. unfold call_simulated. cbn [perform spec_perform step_loaded].
  cbn [step_ordered] in Hord. unfold end_job. rewrite Hj. destruct (ma_jobs m !! i) as [j|] eqn:Ej; [|done].
  rewrite <- Hj in Ej. assert (Hok : job_ok j) by by eapply Forall_lookup_1.
  assert (Hfr : fresh_task j (ma_ledger m)).
  { intros tid Et. apply (lo_running _ _ Hg), list_elem_of_omap. exists j. split; [by eapply list_elem_of_lookup_2|done]. }
  pose proof (job_ends order (ma_batch_up m) j (sy_world s) (ma_cache m) (sy_l2 s) (ma_ledger m) Hr Hh Hl Hok Hfr) as He.
  pose proof (ledger_end _ i j (ma_batch_up m) (ma_cache m) _ Ej Hg) as Hg'.
  unfold job_simulated in He. rewrite Hb. destruct (run_job _ _ _ j _ _ _) as [[r w'] l'].
  destruct (spec_job _ _ _ _ _ _) as [c' g']. destruct He as (-> & Hsh & Hr' & Hh' & Hld).
  { by intros keys objects tid [-> | ->]. }
  rewrite Hj in *. split_and!; [done|done|]. split; cbn; try done.
  rewrite Forall_forall in Hjs |- *. intros x Hx. apply Hjs. by eapply elem_of_sublist, sublist_delete.
Qed.

(** Queries change the ledger only. *)
Lemma query_simulated (a : answer) s m l g :
  related s m -> shows l g -> le_issued g = le_issued (ma_ledger m) -> le_results g ⊆ le_results (ma_ledger m) ->
  a = a /\ True /\ related (set_l2 l s) (with_ledger g m).
Proof.
  intros Hs Hsh Ei Hsub. split_and!; [done..|]. apply with_ledger_related; [done..|]. by eapply ledger_shrinks, re_ledger.
Qed.

Lemma call_ends (x : call) s m : related s m -> call_ok x -> step_ordered x m -> call_simulated x s m.
Proof.
  intros Hs Hok Hord. assert (Hsub : forall k mk, (forall tid, job_ok (mk tid)) -> (forall tid, task_id (mk tid) = Some tid) ->
    let '(a, s') := submit_task k mk s in
    let '(b, m') := spec_submit k mk m in a = b /\ True /\ related s' m').
  { intros k mk Hmk Hid. pose proof (submit_simulated k mk s m Hs Hmk Hid) as Hx.
    destruct (submit_task _ _ _) as [a s'], (spec_submit _ _ _) as [b m']. by destruct Hx. }
  destruct x as [keys objects|keys|keys objects|keys| |tid|tid|keys| | |i order]; try (by apply end_job_simulated);
    unfold call_simulated; cbn [perform spec_perform step_loaded];
    try (unfold submit_store_task, submit_lookup_and_lock_task, submit_load_task; by apply Hsub).
  - pose proof (enqueue_simulated (UnlockJob keys) s m Hs I) as He. unfold submit_unlock.
    destruct (enqueue _ _) as [r s'], (spec_enqueue _ _) as [r' m']. by destruct He as [-> He].
  - pose proof (shows_pop _ _ (re_l2 _ _ Hs)) as Hp. destruct (pop_completed_store_tasks _) as [d l].
    destruct Hp as [-> Hp]. by apply query_simulated, map_filter_subseteq.
  - pose proof (shows_query_lookup tid _ _ (re_l2 _ _ Hs)) as Hp. destruct (ask_shrinks as_found tid (ma_ledger m)).
    destruct (query_lookup_and_lock_result _ _) as [d l], (ask _ _ _) as [d' g]. destruct Hp as [-> Hp]. by apply query_simulated.
  - pose proof (shows_query_load tid _ _ (re_l2 _ _ Hs)) as Hp. destruct (ask_shrinks as_loaded tid (ma_ledger m)).
    destruct (query_load_result _ _) as [d l], (ask _ _ _) as [d' g]. destruct Hp as [-> Hp]. by apply query_simulated.
  - destruct Hs as [Hr Hl Hg Hj Hb Hu Hh Hjs]. pose proof (delete_simulated keys _ _ Hr Hh) as Hd. unfold l2_delete.
    destruct (run _ _) as [r w']. destruct Hd as ([bs ->] & Hr' & Hh'). split_and!; [done|done|].
    split; cbn; try done; [by apply shows_notify|by apply (ledger_shrinks _ (ma_ledger m))].
  - destruct Hs. split_and!; [done|done|by split].
  - destruct Hs. split_and!; [done|done|by split].
Qed.

Lemma calls_match calls : forall s m, related s m -> Forall call_ok calls -> ordered dtype w0 calls m ->
  matches to_string dtype self w0 calls s m.
Proof.
  induction calls as [|c calls IH]; intros s m Hs Hok Hord; cbn [matches].
  { split; [apply Hs|]. intros k. apply (refines_entry to_string self N cap), Hs. }
  apply Forall_cons in Hok as [Hc Hok]. destruct Hord as [Ho Hord].
  pose proof (call_ends c s m Hs Hc Ho) as He. unfold call_simulated in He.
  destruct (perform _ _ _ c s) as [a s'], (spec_perform _ _ c m) as [b m']. destruct He as (-> & Hld & Hs').
  split_and!; [done|done|by apply IH].
Qed.
End refinement.

Definition ledger_start : Ledger := mkLedger ∅ 0 ∅ [] [].
Definition machine_start : Machine := mkMachine ∅ ledger_start [] true true.

Lemma ledger_ok_start : ledger_ok [] ledger_start.
Proof. split; cbn; [constructor|by intros tid Hin%elem_of_nil|intros tid [o Ho]; by rewrite lookup_empty in Ho]. Qed.

Section theorem.
Context {C : Type} `{AerospikeClient C} `{!ClientSpec C} `{Env}.
Context (to_string : CacheEngineKey -> string) `{!Inj (=) (=) to_string} (dtype : string) (self : Engine).
Context `{!EngineHooks C self}.

(** C3: The L2 adapter is a map with locks.  On a healthy cluster that starts empty, every history of
    submissions, deletions, queries and shutdowns, with jobs that end in any order and chunks that
    complete in any order, gets from the adapter the answers of one abstract machine: task ids in
    order, the results of stores, the bitmaps of lookups and loads, each result once, refusals after
    shutdown.  The machine keeps a finite map from keys to payloads, which a job reads or updates
    when it ends, and a multiset of locked keys, which a lookup adds its hits to and an unlock
    removes its keys from.  At the end of the history the lock table holds the multiplicities of
    that multiset, the result tables the results nobody asked for, the event counters the numbers
    of ended tasks, the listener has got the machine's announcements, and the stored entries are
    the map.  A load that ends has filled the buffer of every set bit with the map's payload. *)
Theorem l2_refines_map (N : nat) (cap : Z) (src : gset loc) (calls : list call) (w : world C) :
  frombuffer_ok -> client_constants -> config_ok (cfg self) -> limits_fit self -> 0 <= cap ->
  healthy (w_client w) -> capacity (w_client w) = cap -> store (w_client w) = ∅ ->
  Forall (call_ok dtype self N cap w src) calls ->
  ordered dtype w calls machine_start ->
  matches to_string dtype self w calls (start w) machine_start.
Proof.
  intros Hbuf Hconst Hcfg Hl Hcap Hh Hc Es Hok Hord.
  apply (calls_match to_string dtype self N cap w src Hbuf Hconst Hcfg Hl Hcap); [|done|done].
  split; try done; [by apply refines_empty|apply ledger_ok_start|]. split; [done|]. intros o m Hm _. by exists m.
Qed.
End theorem.

(** ** Witness: a store, a lookup, a load, an unlock and a deletion; jobs that end in another order; a closed pool *)

Definition machine_world : world MemClient :=
  demo_world ∅ 65536 [] [demo_source; buffer false (lit "abc"); demo_target; demo_target].

Definition machine_calls : list call :=
  [SubmitStore two_keys [0%nat; 1%nat]; SubmitLookup two_keys; RunJob 0 [0%nat]; PopStores;
   SubmitLoad two_keys [2%nat; 3%nat]; RunJob 1 [0%nat]; RunJob 0 []; QueryLookup 1; QueryLoad 2;
   SubmitUnlock two_keys; RunJob 0 []; Delete [okey "1"]; ShutdownBatch; ShutdownPool; SubmitLookup two_keys].

Fixpoint machine_answers (calls : list call) (m : Machine) : list answer :=
  match calls with
  | [] => []
  | c :: calls => let '(a, m) := spec_perform "bfloat16" machine_world c m in a :: machine_answers calls m
  end.

Lemma l2_refines_map_witness :
  drop 7 (machine_answers machine_calls machine_start) =
    [Bits KLookup 1 (Some [true; true]); Bits KLoad 2 (Some [true; true]); Returned (inr tt);
     Ended (UnlockJob two_keys) (inr tt); Returned (inr tt); Returned (inr tt); Returned (inr tt);
     Refused (Py RuntimeError)] /\
  matches ck_str "bfloat16" demo_engine machine_world machine_calls (start machine_world) machine_start.
Proof.
  assert (Hfit : forall m, byte_array m <> [] -> (length (byte_array m) <=? 12)%nat = true -> put_fits demo_engine 12 65536 m).
  { intros m Hne Hle. split_and!; [exact Hne|by apply Nat.leb_le|intros [=]|discriminate|vm_compute; discriminate]. }
  assert (Hget : mem_ok demo_target /\ exact_view demo_target /\ (12 <= room demo_target)%nat)
    by (split_and!; [apply demo_target_ok..|vm_compute; repeat constructor]).
  assert (Hload : forall o, o ∈ [2%nat; 3%nat] -> o ∉ ({[0%nat; 1%nat]} : gset loc) /\
    exists m, w_heap machine_world !! o = Some m /\ get_fits 12 m).
  { intros o [->|[->|[]%not_elem_of_nil]%elem_of_cons]%elem_of_cons;
      (split; [set_solver|exists demo_target; split; [vm_compute; reflexivity|exact Hget]]). }
  split; [vm_compute; reflexivity|].
  apply (l2_refines_map ck_str "bfloat16" demo_engine 12 65536 {[0%nat; 1%nat]}); try reflexivity; try lia.
  - exact demo_frombuffer_ok.
  - exact demo_client_constants.
  - exact demo_config_ok.
  - exact demo_limits_ok.
  - assert (Hst : call_ok "bfloat16" demo_engine 12 65536 machine_world {[0%nat; 1%nat]} (SubmitStore two_keys [0%nat; 1%nat])).
    { split; [exact two_keys_apart|]. constructor; [|constructor; [|constructor]]; (split; [set_solver|]).
      - exists demo_source. split; [vm_compute; reflexivity|apply Hfit; [discriminate|vm_compute; reflexivity]].
      - exists (buffer false (lit "abc")). split; [vm_compute; reflexivity|apply Hfit; [discriminate|vm_compute; reflexivity]]. }
    assert (Hld : call_ok "bfloat16" demo_engine 12 65536 machine_world {[0%nat; 1%nat]} (SubmitLoad two_keys [2%nat; 3%nat])).
    { split; [apply (bool_decide_unpack _); vm_compute; exact I|].
      constructor; [|constructor; [|constructor]]; apply Hload; set_solver. }
    repeat (apply Forall_cons; split); try apply Forall_nil; try exact I; try exact Hst; try exact Hld; exact two_keys_apart.
  - cbn. split_and!; try exact I; exact one_chunk.
Defined.
