(* ===== verification/Listing.v ===== *)
(** * Listing and pinging ([list] and [ping] of [connector.py])

    [list] scans the set and keeps the strings of the meta records.  A scan gives back the key a
    record was written under only when the write sent it, so the user key of a scan result is
    optional.  The scan, the two connection queries and [bytes.decode] (whose results need not
    be Latin-1) are arguments. *)

From S2P Require Import Prelude PyStr Errors Config Limits Crc32 Keys Runtime Policies Metrics Serde Engine.
From S2P Require Import ClientSpec Store GetFacts Concrete PutFacts.

(** [_key[2]] of a scan result. *)
Inductive user_key := NoKey | StrKey (s : string) | IntKey (z : Z) | BytesKey (b : bytes).

(** The connector's view of the client for the two methods: [client.scan(ns, set).results()],
    [is_connected()] and [get_node_names()]. *)
Class ScanClient (C : Type) := {
  client_scan : string -> string -> C -> result (list user_key);
  client_is_connected : C -> result bool;
  client_node_names : C -> result (list string)
}.

Section listing.
Context {C : Type} `{ScanClient C} (decode : bytes -> string) (cfg : AerospikeConfig).

(** [str(user_key)] after the decoding of bytes. *)
Definition key_text (k : user_key) : string :=
  match k with
  | NoKey => "None"
  | StrKey s => s
  | IntKey z => string_of_int z
  | BytesKey b => decode b
  end.

(** The loop of [_scan]. *)
Fixpoint scan_keys (results : list user_key) : list string :=
  match results with
  | [] => []
  | k :: results =>
      if endswith (key_text k) "|m" then drop_last 2 (key_text k) :: scan_keys results
      else scan_keys results
  end.

(** [list]: the answer, and [_list_disabled_logged] with the number of log lines afterwards. *)
Definition list_keys (w : C) (logged : bool) (lines : nat) : result (list string) * bool * nat :=
  if enable_list cfg then
    (match client_scan (namespace cfg) (set_name cfg) w with
     | inl e => inl e
     | inr results => inr (scan_keys results)
     end, logged, lines)
  else (inr [], true, if logged then lines else S lines).

(** Several calls, one after the other. *)
Fixpoint list_calls (ws : list C) (logged : bool) (lines : nat) : list (result (list string)) * nat :=
  match ws with
  | [] => ([], lines)
  | w :: ws =>
      let '(out, logged, lines) := list_keys w logged lines in
      let '(outs, lines) := list_calls ws logged lines in (out :: outs, lines)
  end.

(** [ping]: every exception is an answer of 1. *)
Definition ping (w : C) : Z :=
  match client_is_connected w with
  | inr true => match client_node_names w with inr (_ :: _) => 0 | _ => 1 end
  | _ => 1
  end.

Lemma ping_spec w :
  (ping w = 0 \/ ping w = 1) /\
  (ping w = 0 <-> client_is_connected w = inr true /\ exists n ns, client_node_names w = inr (n :: ns)).
Proof.
  unfold ping. split; [by destruct (client_is_connected w) as [|[]], (client_node_names w) as [|[]]; auto|].
  destruct (client_is_connected w) as [e|[]]; [split; [done|by intros [? _]]|
    |split; [done|by intros [? _]]].
  destruct (client_node_names w) as [e|[|n ns]]; (split; [intros E|intros [_ (n' & ns' & E)]]); try done.
  split; [done|by eexists _, _].
Qed.

End listing.

(** ** What a scan gives back *)

(** The documented behaviour of a scan that returns: one result for each record of the set, in any
    order, with the user key when the record was written with it. *)
Class ScanSpec (C : Type) `{ClientSpec C} `{ScanClient C} := {
  key_sent : C -> key -> bool;
  scan_ok ns set_name w results : client_scan ns set_name w = inr results ->
    exists ks, NoDup ks /\
      (forall k, k ∈ ks <-> is_Some (store w !! k) /\ fst k = (ns, set_name)) /\
      results = (fun k => if key_sent w k then StrKey (snd k) else NoKey) <$> ks
}.

Section theorems.
Context {C : Type} `{AerospikeClient C} `{!ClientSpec C} `{!ScanClient C} `{!ScanSpec C} `{Env}.
Context {CK : Type} (to_string : CK -> string) (self : Engine) (decode : bytes -> string).

Abbreviation ns := (namespace (cfg self)).
Abbreviation set_n := (set_name (cfg self)).
Abbreviation list_keys := (list_keys decode (cfg self)).

(** A meta record of the set, by the string of its cache key. *)
Definition listed (w : C) (s : string) : Prop :=
  is_Some (store w !! meta_key ns set_n s) /\ key_sent w (meta_key ns set_n s) = true.

Lemma scan_keys_elem (sent : key -> bool) ks s :
  s ∈ scan_keys decode ((fun k => if sent k then StrKey (snd k) else NoKey) <$> ks) <->
  exists k, k ∈ ks /\ sent k = true /\ snd k = s +:+ "|m".
Proof.
  induction ks as [|k ks IH]; cbn [scan_keys fmap list_fmap].
  { split; [by intros ?%elem_of_nil|by intros (? & ?%elem_of_nil & _)]. }
  assert (Hcons : (exists k', k' ∈ k :: ks /\ sent k' = true /\ snd k' = s +:+ "|m") <->
    (sent k = true /\ snd k = s +:+ "|m") \/ exists k', k' ∈ ks /\ sent k' = true /\ snd k' = s +:+ "|m").
  { setoid_rewrite elem_of_cons. naive_solver. }
  rewrite Hcons, <- IH. clear Hcons IH.
  destruct (sent k); cbn [key_text]; [|naive_solver].
  destruct (endswith (snd k) "|m") eqn:E.
  - apply endswith_spec in E as [p E]. rewrite E, elem_of_cons.
    change 2%nat with (String.length "|m"). rewrite drop_last_app.
    split; (intros [Hs|Hs]; [left|by right]); [by rewrite Hs|]. destruct Hs as [_ Hs].
    by apply (f_equal (drop_last (String.length "|m"))) in Hs; rewrite !drop_last_app in Hs.
  - split; [by right|]. intros [[_ Hs]|?]; [|done]. rewrite Hs, endswith_app in E. done.
Qed.

Lemma scan_keys_NoDup (sent : key -> bool) ks nset :
  NoDup ks -> (forall k, k ∈ ks -> fst k = nset) ->
  NoDup (scan_keys decode ((fun k => if sent k then StrKey (snd k) else NoKey) <$> ks)).
Proof.
  induction ks as [|k ks IH]; cbn [scan_keys fmap list_fmap]; intros Hnd Hns; [constructor|].
  apply NoDup_cons in Hnd as [Hk Hnd].
  assert (Hrest : NoDup (scan_keys decode ((fun k => if sent k then StrKey (snd k) else NoKey) <$> ks)))
    by (apply IH; [done|intros; apply Hns; by right]).
  destruct (sent k) eqn:Es; cbn [key_text]; [|done].
  destruct (endswith (snd k) "|m") eqn:E; [|done].
  apply NoDup_cons. split; [|done]. rewrite scan_keys_elem. intros (k' & Hk' & _ & Ek').
  apply endswith_spec in E as [p E]. rewrite E in Ek'. change 2%nat with (String.length "|m") in Ek'.
  rewrite drop_last_app, <- E in Ek'. apply Hk.
  replace k with k'; [done|]. rewrite (surjective_pairing k), (surjective_pairing k'), Ek'.
  by rewrite (Hns k), (Hns k') by set_solver.
Qed.

(** Without [enable_list] nothing is scanned; the log line is written once. *)
Lemma list_disabled ws : forall logged lines, enable_list (cfg self) = false ->
  list_calls decode (cfg self) ws logged lines =
    (replicate (length ws) (inr []), if logged then lines else (lines + (if ws then 0 else 1))%nat).
Proof.
  induction ws as [|w ws IH]; intros logged lines Hoff; cbn [list_calls].
  - destruct logged; [done|]. by rewrite Nat.add_0_r.
  - unfold Listing.list_keys. rewrite Hoff, IH by done. destruct logged; [done|]. by rewrite Nat.add_1_r.
Qed.

(** C28: [list] returns, each once, exactly the strings whose meta record is in the set and was
    written with its key: no segment record, no record of another set, and every key that has an
    entry.  An exception of the scan passes through; with listing disabled the answer is empty
    whatever the cluster does, and the log gets one line however often it is called. *)
Theorem list_spec (w : C) (logged : bool) (lines : nat) :
  let '(out, logged', lines') := list_keys w logged lines in
  (enable_list (cfg self) = true -> (logged', lines') = (logged, lines) /\
     match client_scan ns set_n w with
     | inl e => out = inl e
     | inr _ => exists keys, out = inr keys /\ NoDup keys /\ (forall s, s ∈ keys <-> listed w s) /\
         forall ck p, entry to_string self (store w) ck = Some p ->
           key_sent w (mk_of to_string self ck) = true -> to_string ck ∈ keys
     end) /\
  (enable_list (cfg self) = false -> out = inr [] /\ forall ws,
     list_calls decode (cfg self) (w :: ws) false lines =
       (replicate (S (length ws)) (inr []), S lines)).
Proof.
  unfold Listing.list_keys. destruct (enable_list (cfg self)) eqn:He; split; try done.
  - intros _. split; [done|]. destruct (client_scan ns set_n w) as [e|results] eqn:Es; [done|].
    destruct (scan_ok _ _ _ _ Es) as (ks & Hnd & Hks & ->).
    assert (Helem : forall s, s ∈ scan_keys decode
      ((fun k => if key_sent w k then StrKey (snd k) else NoKey) <$> ks) <-> listed w s).
    { intros s. rewrite scan_keys_elem. unfold listed, meta_key. split.
      - intros ([nset u] & Hin & Hs & Eu). cbn in Eu. subst u. apply Hks in Hin as [Hin En].
        cbn in En. by rewrite En in Hin, Hs.
      - intros [Hin Hs]. exists (ns, set_n, s +:+ "|m"). split; [|done]. by apply Hks. }
    eexists. split; [done|]. split_and!; [|done|].
    + apply (scan_keys_NoDup _ _ (ns, set_n)); [done|]. intros k Hk. by apply Hks.
    + intros ck p Hp Hs. apply Helem. split; [|done]. unfold entry in Hp. unfold Engine.mk_of in *.
      destruct (store w !! _) as [b|]; [by eexists|done].
  - intros _. split; [done|]. intros ws. rewrite list_disabled by done. cbn. f_equal. lia.
Qed.
End theorems.

(** ** Witness *)

(** The scan of the in-memory cluster; every record has its key. *)
#[export] Instance mem_scan_client : ScanClient MemClient := {
  client_scan ns set_name c :=
    inr ((fun k => StrKey (snd k)) <$> filter (fun k => fst k = (ns, set_name)) (fst <$> map_to_list (mc_records c)));
  client_is_connected _ := inr true;
  client_node_names _ := inr ["node"]
}.

#[export] Program Instance mem_scan_spec : ScanSpec MemClient := { key_sent _ _ := true }.
Next Obligation.
  intros ns set_name c results [= <-]. eexists. split_and!; [| |done].
  - apply NoDup_filter, NoDup_fst_map_to_list.
  - intros k. rewrite list_elem_of_filter, list_elem_of_fmap. split.
    + intros [Hn ([k' b] & -> & Hin%elem_of_map_to_list)]. split; [|done]. by eexists.
    + intros [[b Hb] Hn]. split; [done|]. exists (k, b). split; [done|]. by apply elem_of_map_to_list.
Qed.

(** The demonstration engine with listing enabled. *)
Definition listing_engine : Engine :=
  build_engine_l2 (mkAerospikeConfig "aerospike" [("127.0.0.1", 3000)] "lmcache" "kv_chunks" 4194304
    None 65536 None 86400 1000 2000 64 16 true true "all" "sequence" false "" "" "") demo_limits.

(** The cluster after the put of a key of three segments. *)
Definition listing_world : MemClient :=
  w_client (snd (run (put demo_str listing_engine "k" 0 false) (demo_world ∅ 65536 [] [demo_source]))).

Lemma list_spec_witness :
  exists keys, fst (fst (list_keys (fun _ => "") (cfg listing_engine) listing_world false 0)) = inr keys /\
    NoDup keys /\ "k" ∈ keys /\ "k|s|0" ∉ keys.
Proof.
  pose proof (list_spec demo_str listing_engine (fun _ => "") listing_world false 0) as Hl.
  destruct (list_keys _ _ _ _ _) as [[out logged] lines]. destruct Hl as [Hon _].
  destruct (Hon eq_refl) as [_ Hs]. cbn [client_scan mem_scan_client] in Hs.
  destruct Hs as (keys & -> & Hnd & Hin & Hent). exists keys. split; [done|]. split; [done|]. split.
  - apply (Hent "k" (lit "0123456789")); vm_compute; reflexivity.
  - rewrite Hin. intros [Hr _]. revert Hr. vm_compute. by intros [? ?].
Defined.
