(* ===== verification/InFlight.v ===== *)
(** * Bounded batches ([connector.py], the gauge of [metrics.py])

    [batched_get] and [batched_put] run under [self._batch_sem] with the in-flight gauge raised,
    [_sem_get] under the semaphore alone.  A call is the list of what it still has to do; the
    event loop moves one call at a time, in any order.  [async with] and [finally] do the same
    on a return, an exception and a cancellation of the body, so the body is one step.  It runs as
    many single operations at a time as it gathers: [batched_get] and [_sem_get] one, [batched_put]
    all its puts (and when one of them raises, the body ends while the others go on).  So the
    semaphore bounds calls, not the puts inside one, which DESIGN.md 4.4.6 has bounded.  The gauge
    is [None] without the Prometheus client. *)

From S2P Require Import Prelude.

Inductive action := Acquire | IncInFlight (delta : Z) | Body (width : nat) | Release.

(** [inc_in_flight] *)
Definition inc_in_flight (delta : Z) (gauge : option Z) : option Z :=
  match gauge with
  | None => None
  | Some g => Some (if delta >? 0 then g + delta else g - (- delta))
  end.

(** [with metrics.track_in_flight(): body] *)
Definition track_in_flight (body : list action) : list action :=
  [IncInFlight 1] ++ body ++ [IncInFlight (-1)].

(** [async with self._batch_sem: body] *)
Definition with_semaphore (body : list action) : list action := [Acquire] ++ body ++ [Release].

(** [batched_get] (width 1) and [batched_put] (the number of its pairs). *)
Definition batched_call (width : nat) : list action := with_semaphore (track_in_flight [Body width]).

(** [_sem_get] *)
Definition _sem_get : list action := with_semaphore [Body 1].

(** The free slots of the semaphore, the gauge, and the calls. *)
Record Batches := mkBatches { slots : Z; gauge : option Z; calls : list (list action) }.

(** [Semaphore(batch_max_in_flight)] *)
Definition batches_init (batch_max_in_flight : Z) (prom : bool) (cs : list (list action)) : Batches :=
  mkBatches batch_max_in_flight (if prom then Some 0 else None) cs.

(** The next action of call [i]; [acquire] waits while no slot is free. *)
Definition move (i : nat) (s : Batches) : option Batches :=
  match calls s !! i with
  | Some (a :: rest) =>
      let rest := <[i := rest]> (calls s) in
      match a with
      | Acquire => if 0 <? slots s then Some (mkBatches (slots s - 1) (gauge s) rest) else None
      | IncInFlight d => Some (mkBatches (slots s) (inc_in_flight d (gauge s)) rest)
      | Body _ => Some (mkBatches (slots s) (gauge s) rest)
      | Release => Some (mkBatches (slots s + 1) (gauge s) rest)
      end
  | _ => None
  end.

(** A schedule; a call that cannot move is passed over. *)
Fixpoint moves (turns : list nat) (s : Batches) : Batches :=
  match turns with
  | [] => s
  | i :: turns => moves turns (default s (move i s))
  end.

(** ** What a call holds *)

(** It has a slot; its mark is on the gauge; its body is next. *)
Definition holds_slot (c : list action) : bool :=
  match c with [] | Acquire :: _ => false | _ => true end.

Definition counted (c : list action) : bool :=
  match c with
  | [Body _; IncInFlight _; Release] | [IncInFlight _; Release] => true
  | _ => false
  end.

Definition at_body (c : list action) : bool := match c with Body _ :: _ => true | _ => false end.

(** What is left of a call. *)
Definition rest_ok (c : list action) : Prop :=
  (exists n pre, batched_call n = pre ++ c) \/ exists pre, _sem_get = pre ++ c.

Lemma rest_cases c : rest_ok c ->
  (exists n, c = batched_call n \/ c = [IncInFlight 1; Body n; IncInFlight (-1); Release] \/
     c = [Body n; IncInFlight (-1); Release]) \/
  c = [IncInFlight (-1); Release] \/ c = [Release] \/ c = [] \/ c = _sem_get \/ c = [Body 1; Release].
Proof.
  assert (Hdrop : forall l pre, l = pre ++ c -> c = drop (length pre) l) by (intros l pre ->; by rewrite drop_app_length).
  intros [(n & pre & E)|[pre E]]; apply Hdrop in E as ->;
    destruct (length pre) as [|[|[|[|[|k]]]]]; cbn; rewrite ?drop_nil; try (left; exists n; auto 10; fail); right; auto 10.
Qed.

Record batches_ok (cap : Z) (s : Batches) : Prop := {
  bo_calls : Forall rest_ok (calls s);
  bo_slots : slots s + Z.of_nat (count holds_slot (calls s)) = cap;
  bo_free : 0 <= slots s;
  bo_gauge : forall g, gauge s = Some g -> g = Z.of_nat (count counted (calls s))
}.

Lemma move_ok cap s i s' : batches_ok cap s -> move i s = Some s' ->
  batches_ok cap s' /\ exists a rest, calls s !! i = Some (a :: rest) /\ calls s' = <[i := rest]> (calls s).
Proof.
  intros [Hc Hs Hf Hg]. unfold move. destruct (calls s !! i) as [[|a rest]|] eqn:Ei; try done.
  pose proof (Forall_lookup_1 _ _ _ _ Hc Ei) as Hrest.
  assert (Hrest' : rest_ok rest).
  { destruct Hrest as [(n & pre & E)|[pre E]]; [left; exists n|right]; exists (pre ++ [a]); by rewrite <- app_assoc. }
  pose proof (count_insert holds_slot i (a :: rest) rest _ Ei) as Ch.
  pose proof (count_insert counted i (a :: rest) rest _ Ei) as Cc.
  assert (Hall : Forall rest_ok (<[i := rest]> (calls s))) by by apply Forall_insert.
  assert (Hcase : forall v g,
    v + Z.of_nat (count holds_slot (<[i := rest]> (calls s))) = cap -> 0 <= v ->
    (forall z, g = Some z -> z = Z.of_nat (count counted (<[i := rest]> (calls s)))) ->
    batches_ok cap (mkBatches v g (<[i := rest]> (calls s))) /\
    exists a0 rest0, Some (a :: rest) = Some (a0 :: rest0) /\ <[i := rest]> (calls s) = <[i := rest0]> (calls s))
    by (intros v g H1 H2 H3; split; [by split|by exists a, rest]).
  apply rest_cases in Hrest.
  destruct Hrest as [(n & [E|[E|E]])|[E|[E|[E|[E|E]]]]]; try discriminate E; injection E as -> ->;
    cbn in Ch, Cc; try (destruct (Z.ltb_spec 0 (slots s)); [|done]); intros [= <-];
    (apply Hcase; [lia|lia|]); intros z Hz; cbn in Hz;
    destruct (gauge s) as [g|] eqn:Eg; try done; injection Hz as <-; specialize (Hg g eq_refl); lia.
Qed.

(** ** What is left to do *)

Definition todo (s : Batches) : nat := sum_list_with length (calls s).

Lemma sum_list_insert i (a : action) rest : forall l : list (list action), l !! i = Some (a :: rest) ->
  sum_list_with length l = S (sum_list_with length (<[i := rest]> l)).
Proof.
  induction i as [|i IH]; intros [|c l] Hi; try done; simpl in *; [by injection Hi as ->|].
  rewrite (IH l Hi). lia.
Qed.

Lemma move_todo cap s i s' : batches_ok cap s -> move i s = Some s' -> todo s = S (todo s').
Proof.
  intros Hs Hm. destruct (move_ok cap s i s' Hs Hm) as (_ & a & rest & Hi & Hc). unfold todo. rewrite Hc.
  by eapply sum_list_insert.
Qed.

Lemma todo_zero s : todo s = 0%nat -> Forall (fun c => c = []) (calls s).
Proof.
  unfold todo. induction (calls s) as [|c cs IH]; cbn; intros E; constructor; [destruct c; [done|cbn in E; lia]|].
  apply IH. lia.
Qed.

(** While a call is left, some call can move: no deadlock with at least one slot. *)
Lemma some_move cap s : 1 <= cap -> batches_ok cap s -> todo s <> 0%nat -> exists i s', move i s = Some s'.
Proof.
  intros Hcap [Hc Hs Hf Hg] Ht.
  destruct (decide (0 < slots s)) as [Hfree|Hfull].
  - assert (Hex : exists i a rest, calls s !! i = Some (a :: rest)).
    { revert Ht. unfold todo. clear. induction (calls s) as [|[|a c] cs IH]; cbn; intros E; [lia| |by exists 0%nat, a, c].
      destruct (IH E) as (i & a & rest & Hi). by exists (S i), a, rest. }
    destruct Hex as (i & a & rest & Hi). exists i. unfold move. rewrite Hi.
    destruct a; try by eexists. rewrite (proj2 (Z.ltb_lt _ _)) by done. by eexists.
  - assert (Hex : exists i c, calls s !! i = Some c /\ holds_slot c = true).
    { assert (Hn : (0 < count holds_slot (calls s))%nat) by lia. revert Hn. clear.
      induction (calls s) as [|c cs IH]; cbn; [lia|]. destruct (holds_slot c) eqn:E; [by exists 0%nat, c|].
      intros Hn. destruct (IH Hn) as (i & d & Hi & Hd). by exists (S i), d. }
    destruct Hex as (i & c & Hi & Hh). exists i. unfold move. rewrite Hi.
    destruct c as [|[] rest]; try done; by eexists.
Qed.

Lemma batches_init_ok cap prom cs :
  0 <= cap -> Forall (fun c => (exists n, c = batched_call n) \/ c = _sem_get) cs -> batches_ok cap (batches_init cap prom cs).
Proof.
  intros Hcap Hcs.
  assert (Hz : forall p : list action -> bool, (forall n, p (batched_call n) = false) -> p _sem_get = false -> count p cs = 0%nat).
  { intros p H1 H2. apply count_zero. intros c Hc. rewrite Forall_forall in Hcs. destruct (Hcs c Hc) as [[n ->]| ->]; auto. }
  split; cbn.
  - eapply Forall_impl; [exact Hcs|]. intros c [[n ->]| ->]; [left; exists n|right]; by exists [].
  - rewrite Hz by done. lia.
  - done.
  - intros g. rewrite Hz by done. destruct prom; [by intros [= <-]|done].
Qed.

Lemma moves_ok cap turns : forall s, batches_ok cap s -> batches_ok cap (moves turns s).
Proof.
  induction turns as [|i turns IH]; intros s Hs; cbn [moves]; [done|]. apply IH.
  destruct (move i s) as [s'|] eqn:E; [|done]. cbn. by destruct (move_ok cap s i s' Hs E).
Qed.

(** ** Properties *)

Definition calls_of (cs : list (list action)) : Prop := Forall (fun c => (exists n, c = batched_call n) \/ c = _sem_get) cs.

Lemma count_mono (p q : list action -> bool) l :
  (forall c, c ∈ l -> p c = true -> q c = true) -> (count p l <= count q l)%nat.
Proof.
  induction l as [|c l IH]; intros Hpq; cbn; [done|].
  assert (Hl : (count p l <= count q l)%nat) by (apply IH; intros d Hd; apply Hpq; by right).
  specialize (Hpq c ltac:(by left)). destruct (p c); [rewrite Hpq by done; cbn; lia|cbn; lia].
Qed.

(** C25: At most [batch_max_in_flight] batched calls and semaphore reads have their body running at
    any time, under every schedule; the semaphore's free slots and the holders always add up to
    it; and the gauge is exactly the number of batched calls between its two updates, so between
    0 and the slots in use. *)
Theorem in_flight_bounded (batch_max_in_flight : Z) (prom : bool) (cs : list (list action)) (turns : list nat) :
  0 <= batch_max_in_flight -> calls_of cs ->
  let s := moves turns (batches_init batch_max_in_flight prom cs) in
  0 <= slots s /\
  slots s + Z.of_nat (count holds_slot (calls s)) = batch_max_in_flight /\
  Z.of_nat (count at_body (calls s)) <= batch_max_in_flight /\
  forall g, gauge s = Some g -> g = Z.of_nat (count counted (calls s)) /\ 0 <= g <= batch_max_in_flight - slots s.
Proof.
  intros Hcap Hcs s. pose proof (moves_ok _ turns _ (batches_init_ok _ prom _ Hcap Hcs)) as Hok.
  fold s in Hok. clearbody s. destruct Hok as [Hc Hs Hf Hg]. rewrite Forall_forall in Hc.
  assert (Hbody : (count at_body (calls s) <= count holds_slot (calls s))%nat).
  { apply count_mono. intros [|[] c] _; done. }
  assert (Hcount : (count counted (calls s) <= count holds_slot (calls s))%nat).
  { apply count_mono. intros c Hin%Hc%rest_cases. by destruct Hin as [(n & [->|[->| ->]])|[->|[->|[->|[->| ->]]]]]. }
  split_and!; [done|done|lia|]. intros g Eg. specialize (Hg g Eg). split; [done|lia].
Qed.

(** C26: Termination without deadlock.  With at least one slot, every turn of every schedule either
    changes nothing or takes one of the finitely many steps left, and from every state a
    schedule can reach, some schedule of exactly that many turns ends all calls; then all slots
    are free again and the gauge is back at 0. *)
Theorem batches_terminate (batch_max_in_flight : Z) (prom : bool) (cs : list (list action)) (turns : list nat) :
  1 <= batch_max_in_flight -> calls_of cs ->
  let s := moves turns (batches_init batch_max_in_flight prom cs) in
  (forall i, moves [i] s = s \/ todo s = S (todo (moves [i] s))) /\
  exists more, length more = todo s /\
    let s' := moves more s in
    Forall (fun c => c = []) (calls s') /\ slots s' = batch_max_in_flight /\
    (prom = true -> gauge s' = Some 0).
Proof.
  intros Hcap Hcs s.
  pose proof (moves_ok _ turns _ (batches_init_ok batch_max_in_flight prom cs ltac:(lia) Hcs)) as Hs. fold s in Hs. split.
  - intros i. cbn [moves]. destruct (move i s) as [s'|] eqn:E; [right|by left]. by eapply move_todo.
  - assert (Hprom : prom = true -> is_Some (gauge s)).
    { intros ->. assert (Hg : forall t s, is_Some (gauge s) -> is_Some (gauge (moves t s))).
      { clear. induction t as [|i t IH]; intros s Hg; cbn [moves]; [done|]. apply IH. unfold move.
        destruct (calls s !! i) as [[|[] rest]|]; cbn; try done; [by destruct (0 <? slots s)|].
        destruct Hg as [g ->]. by eexists. }
      apply Hg. by eexists. }
    revert Hs Hprom. generalize s. clear s. intros s. remember (todo s) as n eqn:En.
    revert s En. induction n as [|n IH]; intros s En Hs Hprom.
    + exists []. split; [done|]. cbn. symmetry in En. pose proof (todo_zero s En) as Hz.
      assert (Hcount : forall p : list action -> bool, p [] = false -> count p (calls s) = 0%nat).
      { intros p Hp. apply count_zero. intros c Hc. rewrite Forall_forall in Hz. by rewrite (Hz c Hc). }
      destruct Hs as [_ Hs _ Hg]. rewrite Hcount in Hs by done. split_and!; [done|lia|].
      intros Hp. destruct (Hprom Hp) as [g Eg]. rewrite Eg. rewrite (Hg g Eg), Hcount by done. done.
    + destruct (some_move _ s Hcap Hs ltac:(lia)) as (i & s1 & Hm).
      destruct (move_ok _ _ _ _ Hs Hm) as [Hs1 _]. pose proof (move_todo _ _ _ _ Hs Hm) as Ht.
      assert (Hprom1 : prom = true -> is_Some (gauge s1)).
      { intros Hp. destruct (Hprom Hp) as [g Eg]. revert Hm. unfold move.
        destruct (calls s !! i) as [[|[] rest]|]; try done; [destruct (0 <? slots s); [|done]|..];
          intros [= <-]; cbn; rewrite Eg; by eexists. }
      destruct (IH s1 ltac:(lia) Hs1 Hprom1) as (more & Hlen & Hend). exists (i :: more). split; [cbn; lia|].
      cbn [moves]. by rewrite Hm.
Qed.

(** The gauge does not see [_sem_get]: two reads can hold every slot while it shows 0. *)
Lemma gauge_misses_sem_get :
  let s := moves [0%nat; 1%nat] (batches_init 2 true [_sem_get; _sem_get]) in
  slots s = 0 /\ count at_body (calls s) = 2%nat /\ gauge s = Some 0.
Proof. split_and!; reflexivity. Qed.

(** Nor does the semaphore see the puts of one call: with a single slot all of them run at once. *)
Definition running (c : list action) : nat := match c with Body n :: _ => n | _ => 0%nat end.

Lemma gathered_puts_share_a_slot (n : nat) :
  let s := moves [0%nat; 0%nat; 1%nat] (batches_init 1 true [batched_call n; batched_call n]) in
  slots s = 0 /\ count at_body (calls s) = 1%nat /\ gauge s = Some 1 /\ sum_list_with running (calls s) = n.
Proof. cbn zeta. split_and!; [reflexivity..|]. change (n + (0 + 0) = n)%nat. lia. Qed.

(** ** Witnesses *)

Definition demo_batches : list (list action) := [batched_call 1; _sem_get; batched_call 3].

Lemma demo_batches_calls : calls_of demo_batches.
Proof. unfold calls_of, demo_batches. rewrite !Forall_cons, Forall_nil. eauto 10. Qed.

Lemma in_flight_bounded_witness :
  let s := moves [0%nat; 1%nat; 2%nat; 0%nat; 1%nat] (batches_init 2 true demo_batches) in
  gauge s = Some 1 /\ Z.of_nat (count at_body (calls s)) <= 2 /\ slots s = 0.
Proof.
  destruct (in_flight_bounded 2 true demo_batches [0%nat; 1%nat; 2%nat; 0%nat; 1%nat] ltac:(lia)
    demo_batches_calls) as (_ & _ & Hb & _).
  split; [reflexivity|]. split; [exact Hb|reflexivity].
Defined.

Lemma batches_terminate_witness :
  exists more, length more = 11%nat /\
    Forall (fun c => c = []) (calls (moves more (moves [0%nat; 1%nat; 2%nat] (batches_init 2 true demo_batches)))) .
Proof.
  destruct (batches_terminate 2 true demo_batches [0%nat; 1%nat; 2%nat] ltac:(lia) demo_batches_calls)
    as (_ & more & Hlen & Hend & _).
  exists more. split; [|exact Hend]. rewrite Hlen. vm_compute. reflexivity.
Defined.
