(* ===== verification/NativeConnector.v ===== *)
(** * The factory of the native connector ([native_connector.py], [pybind.cpp])

    A call of [AerospikeNativeConnector] with keyword arguments checks them, fills missing strings from the
    environment and calls the constructor of the C++ class through pybind.  Parameters are the
    values of a JSON document.  The conversions of pybind are those of its signature: what does
    not fit the C++ type of an argument is a [TypeError]. *)

From S2P Require Import Prelude Errors Config.

(** What the factory raises. *)
Inductive native_error :=
| UnknownParams (names : gset string)
| NotAvailable
| TlsUnsupported
| EmptyString (name : string)
| NotPositive (name : string)
| Negative (name : string)
| BadArgument (position : nat).

Definition native_error_class (e : native_error) : py_class :=
  match e with
  | UnknownParams _ | BadArgument _ => TypeError
  | NotAvailable | TlsUnsupported => RuntimeError
  | EmptyString _ | NotPositive _ | Negative _ => ValueError
  end.

(** [bool(v)]: of the floats only 0.0 and -0.0 are false, of the lists and dicts the empty ones. *)
Definition truthy (v : pyval) : bool :=
  match v with
  | VNone => false
  | VBool b => b
  | VInt z => negb (z =? 0)
  | VFloat (Finite _ r) => negb (mem_str r ["0.0"; "-0.0"])
  | VFloat _ => true
  | VStr s => negb (String.eqb s "")
  | VObj r => negb (mem_str r ["[]"; "{}"])
  end.

(** A [bool] is an [int]. *)
Definition int_value (v : pyval) : option Z :=
  match v with VInt z => Some z | VBool b => Some (Z.b2z b) | _ => None end.

Definition _positive_int (v : pyval) (name : string) : native_error + pyval :=
  match int_value v with
  | Some z => if z <=? 0 then inl (NotPositive name) else inr v
  | None => inl (NotPositive name)
  end.

Definition _non_negative_int (v : pyval) (name : string) : native_error + pyval :=
  match int_value v with
  | Some z => if z <? 0 then inl (Negative name) else inr v
  | None => inl (Negative name)
  end.

(** The parameters of [__new__] with their defaults. *)
Definition native_params : list (string * pyval) :=
  [("hosts", VNone); ("namespace", VNone); ("set_name", VNone); ("num_workers", VInt 8);
   ("read_timeout_ms", VInt 1000); ("write_timeout_ms", VInt 2000);
   ("default_ttl_seconds", VInt 86400); ("dtype", VStr "bfloat16");
   ("target_segment_bytes", VInt 0); ("max_record_bytes", VInt 0);
   ("username", VStr ""); ("password", VStr ""); ("tls_name", VStr "")].

(** The value a call binds to a parameter, and the keyword arguments left for [**extra]. *)
Definition param (kwargs : dict) (name : string) : pyval :=
  match kwargs !! name with
  | Some v => v
  | None => default VNone (snd <$> find (fun p => String.eqb (fst p) name) native_params)
  end.

Definition extra (kwargs : dict) : gset string :=
  dom kwargs ∖ list_to_set (fst <$> native_params).

Section factory.
(** Whether [_native] was imported, and [os.environ]. *)
Context (NATIVE_AVAILABLE : bool) (environ : gmap string string).

(** [value or os.environ.get(var, "")] *)
Definition or_environ (v : pyval) (var : string) : pyval :=
  if truthy v then v else VStr (default "" (environ !! var)).

Definition require_truthy (v : pyval) (name : string) : native_error + unit :=
  if truthy v then inr tt else inl (EmptyString name).

(** [AerospikeNativeConnector.__new__] up to the call of the C++ constructor: its arguments. *)
Definition native_new (kwargs : dict) : native_error + list pyval :=
  if decide (extra kwargs = ∅) then
    if negb NATIVE_AVAILABLE then inl NotAvailable
    else if truthy (param kwargs "tls_name") then inl TlsUnsupported
    else
      let hosts := or_environ (param kwargs "hosts") "LMCACHE_AEROSPIKE_HOSTS" in
      let namespace := or_environ (param kwargs "namespace") "LMCACHE_AEROSPIKE_NAMESPACE" in
      let set_name := or_environ (param kwargs "set_name") "LMCACHE_AEROSPIKE_SET" in
      let username := or_environ (param kwargs "username") "LMCACHE_AEROSPIKE_USERNAME" in
      let password := or_environ (param kwargs "password") "LMCACHE_AEROSPIKE_PASSWORD" in
      let dtype := param kwargs "dtype" in
      let? _ := require_truthy hosts "hosts" in
      let? _ := require_truthy namespace "namespace" in
      let? _ := require_truthy set_name "set_name" in
      let? _ := require_truthy dtype "dtype" in
      let? num_workers := _positive_int (param kwargs "num_workers") "num_workers" in
      let? read_to := _positive_int (param kwargs "read_timeout_ms") "read_timeout_ms" in
      let? write_to := _positive_int (param kwargs "write_timeout_ms") "write_timeout_ms" in
      let? ttl := _non_negative_int (param kwargs "default_ttl_seconds") "default_ttl_seconds" in
      let? target := _non_negative_int (param kwargs "target_segment_bytes") "target_segment_bytes" in
      let? max := _non_negative_int (param kwargs "max_record_bytes") "max_record_bytes" in
      inr [hosts; namespace; set_name; num_workers; read_to; write_to; ttl; dtype; target; max;
           username; password]
  else inl (UnknownParams (extra kwargs)).
End factory.

(** ** The C++ constructor *)

(** The types of its parameters: [std::string] and integers of a range. *)
Inductive ctype := CString | CIntegral (lo hi : Z).

Definition c_int : ctype := CIntegral (- 2 ^ 31) (2 ^ 31 - 1).
Definition c_uint32 : ctype := CIntegral 0 (2 ^ 32 - 1).
Definition c_size : ctype := CIntegral 0 (2 ^ 64 - 1).

Definition init_signature : list ctype :=
  [CString; CString; CString; c_int; c_uint32; c_uint32; c_uint32; CString; c_size; c_size;
   CString; CString].

Inductive cval := CStr (s : string) | CNum (z : Z).

Definition has_ctype (v : cval) (t : ctype) : Prop :=
  match v, t with
  | CStr _, CString => True
  | CNum z, CIntegral lo hi => lo <= z <= hi
  | _, _ => False
  end.

(** The conversion of one argument. *)
Definition cast (v : pyval) (t : ctype) : option cval :=
  match t with
  | CString => match v with VStr s => Some (CStr s) | _ => None end
  | CIntegral lo hi =>
      match int_value v with
      | Some z => if (lo <=? z) && (z <=? hi) then Some (CNum z) else None
      | None => None
      end
  end.

Fixpoint cast_args (i : nat) (vs : list pyval) (ts : list ctype) : native_error + list cval :=
  match vs, ts with
  | v :: vs, t :: ts =>
      match cast v t with
      | None => inl (BadArgument i)
      | Some c => let? cs := cast_args (S i) vs ts in inr (c :: cs)
      end
  | [], [] => inr []
  | _, _ => inl (BadArgument i)
  end.

(** The whole call: the values the C++ constructor runs with. *)
Definition native_call (available : bool) (environ : gmap string string) (kwargs : dict)
    : native_error + list cval :=
  let? args := native_new available environ kwargs in cast_args 0 args init_signature.

(** ** What is accepted *)

Section theorems.
Context (environ : gmap string string).

(** A string parameter that falls back to the environment. *)
Definition text_param (kwargs : dict) (name var : string) (s : string) : Prop :=
  or_environ environ (param kwargs name) var = VStr s.

(** An integer parameter in a range. *)
Definition number_param (kwargs : dict) (name : string) (lo hi z : Z) : Prop :=
  int_value (param kwargs name) = Some z /\ lo <= z <= hi.

(** The arguments the C++ constructor is called with, from valid parameters. *)
Inductive native_args (kwargs : dict) : list cval -> Prop :=
| native_args_intro hosts ns set_n nw rt wt ttl dt target max user pw :
    extra kwargs = ∅ -> truthy (param kwargs "tls_name") = false ->
    text_param kwargs "hosts" "LMCACHE_AEROSPIKE_HOSTS" hosts -> hosts <> "" ->
    text_param kwargs "namespace" "LMCACHE_AEROSPIKE_NAMESPACE" ns -> ns <> "" ->
    text_param kwargs "set_name" "LMCACHE_AEROSPIKE_SET" set_n -> set_n <> "" ->
    number_param kwargs "num_workers" 1 (2 ^ 31 - 1) nw ->
    number_param kwargs "read_timeout_ms" 1 (2 ^ 32 - 1) rt ->
    number_param kwargs "write_timeout_ms" 1 (2 ^ 32 - 1) wt ->
    number_param kwargs "default_ttl_seconds" 0 (2 ^ 32 - 1) ttl ->
    param kwargs "dtype" = VStr dt -> dt <> "" ->
    number_param kwargs "target_segment_bytes" 0 (2 ^ 64 - 1) target ->
    number_param kwargs "max_record_bytes" 0 (2 ^ 64 - 1) max ->
    text_param kwargs "username" "LMCACHE_AEROSPIKE_USERNAME" user ->
    text_param kwargs "password" "LMCACHE_AEROSPIKE_PASSWORD" pw ->
    native_args kwargs [CStr hosts; CStr ns; CStr set_n; CNum nw; CNum rt; CNum wt; CNum ttl; CStr dt;
      CNum target; CNum max; CStr user; CStr pw].

Lemma positive_int_inv v name v' :
  _positive_int v name = inr v' <-> v' = v /\ exists z, int_value v = Some z /\ 1 <= z.
Proof.
  unfold _positive_int. destruct (int_value v) as [z|]; [|split; [done|by intros (_ & ? & ? & _)]].
  destruct (Z.leb_spec z 0); split; try done.
  - intros (_ & ? & [= <-] & ?). lia.
  - intros [= <-]. split; [done|]. exists z. split; [done|lia].
  - by intros [-> _].
Qed.

Lemma non_negative_int_inv v name v' :
  _non_negative_int v name = inr v' <-> v' = v /\ exists z, int_value v = Some z /\ 0 <= z.
Proof.
  unfold _non_negative_int. destruct (int_value v) as [z|]; [|split; [done|by intros (_ & ? & ? & _)]].
  destruct (Z.ltb_spec z 0); split; try done.
  - intros (_ & ? & [= <-] & ?). lia.
  - intros [= <-]. split; [done|]. by exists z.
  - by intros [-> _].
Qed.

Lemma positive_int_ok v name :
  (exists z, int_value v = Some z /\ 1 <= z) -> _positive_int v name = inr v.
Proof. intros. by apply positive_int_inv. Qed.

Lemma non_negative_int_ok v name :
  (exists z, int_value v = Some z /\ 0 <= z) -> _non_negative_int v name = inr v.
Proof. intros. by apply non_negative_int_inv. Qed.

Lemma require_truthy_inv v name : require_truthy v name = inr tt <-> truthy v = true.
Proof. unfold require_truthy. by destruct (truthy v). Qed.

Lemma cast_string_inv v c : cast v CString = Some c <-> exists s, v = VStr s /\ c = CStr s.
Proof. destruct v; cbn; naive_solver. Qed.

Lemma cast_integral_inv v lo hi c :
  cast v (CIntegral lo hi) = Some c <-> exists z, int_value v = Some z /\ lo <= z <= hi /\ c = CNum z.
Proof.
  cbn. destruct (int_value v) as [z|]; [|naive_solver].
  destruct ((lo <=? z) && (z <=? hi)) eqn:E; zbool; [naive_solver|].
  split; [done|]. intros (? & [= <-] & ? & _). lia.
Qed.

Lemma truthy_str s : truthy (VStr s) = true <-> s <> "".
Proof. cbn. rewrite negb_true_iff. apply String.eqb_neq. Qed.

Lemma cast_args_cons i v vs t ts cs :
  cast_args i (v :: vs) (t :: ts) = inr cs <->
  exists c cs', cs = c :: cs' /\ cast v t = Some c /\ cast_args (S i) vs ts = inr cs'.
Proof.
  cbn [cast_args]. destruct (cast v t) as [c|]; [|naive_solver].
  destruct (cast_args (S i) vs ts); naive_solver.
Qed.

(** The head of a chain of [let?] that has a value. *)
Ltac next_result :=
  match goal with |- match ?e with inl _ => _ | inr _ => _ end = inr _ -> _ =>
    destruct e as [|[]] eqn:?; [done|] || (destruct e eqn:?; [done|]) end.

(** The steps of [native_new] one by one, from a result that is not an error. *)
Lemma native_new_inv available kwargs args :
  native_new available environ kwargs = inr args <->
  available = true /\ extra kwargs = ∅ /\ truthy (param kwargs "tls_name") = false /\
  let hosts := or_environ environ (param kwargs "hosts") "LMCACHE_AEROSPIKE_HOSTS" in
  let namespace := or_environ environ (param kwargs "namespace") "LMCACHE_AEROSPIKE_NAMESPACE" in
  let set_name := or_environ environ (param kwargs "set_name") "LMCACHE_AEROSPIKE_SET" in
  let dtype := param kwargs "dtype" in
  Forall (fun v => truthy v = true) [hosts; namespace; set_name; dtype] /\
  Forall (fun name => exists z, int_value (param kwargs name) = Some z /\ 1 <= z)
    ["num_workers"; "read_timeout_ms"; "write_timeout_ms"] /\
  Forall (fun name => exists z, int_value (param kwargs name) = Some z /\ 0 <= z)
    ["default_ttl_seconds"; "target_segment_bytes"; "max_record_bytes"] /\
  args = [hosts; namespace; set_name; param kwargs "num_workers"; param kwargs "read_timeout_ms";
    param kwargs "write_timeout_ms"; param kwargs "default_ttl_seconds"; dtype;
    param kwargs "target_segment_bytes"; param kwargs "max_record_bytes";
    or_environ environ (param kwargs "username") "LMCACHE_AEROSPIKE_USERNAME";
    or_environ environ (param kwargs "password") "LMCACHE_AEROSPIKE_PASSWORD"].
Proof.
  cbv zeta. rewrite !Forall_cons, !Forall_nil. unfold native_new. split.
  - destruct (decide _) as [Hx|]; [|done]. destruct available; [|done]. cbn [negb].
    destruct (truthy (param kwargs "tls_name")); [done|].
    repeat next_result.
    intros [= <-]. repeat match goal with
    | H : require_truthy _ _ = inr _ |- _ => apply require_truthy_inv in H
    | H : _positive_int _ _ = inr _ |- _ => apply positive_int_inv in H as [-> ?]
    | H : _non_negative_int _ _ = inr _ |- _ => apply non_negative_int_inv in H as [-> ?]
    end. done.
  - intros (-> & Hx & Htls & (H1 & H2 & H3 & H4 & _) & (N1 & N2 & N3 & _) & (M1 & M2 & M3 & _) & ->).
    rewrite decide_True, Htls by done. cbn [negb].
    rewrite !(proj2 (require_truthy_inv _ _)) by done.
    rewrite !positive_int_ok by done. by rewrite !non_negative_int_ok by done.
Qed.

(** C39: The factory and the pybind signature let a call through exactly for valid parameters: no
    unknown name, no [tls_name], four strings that are not empty (hosts, namespace and set from
    the environment when not given), and integers within the ranges of the factory's checks and
    of the C++ types; then the C++ constructor gets those values, in the order of its
    parameters and of their types. *)
Theorem native_call_accepts (available : bool) (kwargs : dict) (cs : list cval) :
  (native_call available environ kwargs = inr cs <-> available = true /\ native_args kwargs cs) /\
  (native_args kwargs cs -> Forall2 has_ctype cs init_signature).
Proof.
  split; [split|].
  - unfold native_call. destruct (native_new _ _ _) as [|args] eqn:En; [done|].
    apply native_new_inv in En as (Ha & Hx & Htls & Ht & Hp & Hn & ->). intros Hc. split; [done|].
    unfold init_signature, c_int, c_uint32, c_size in Hc.
    repeat (apply cast_args_cons in Hc as (? & ? & -> & ?Hcast & Hc)). injection Hc as <-.
    repeat match goal with
    | H : cast _ CString = Some _ |- _ => apply cast_string_inv in H as (? & ? & ->)
    | H : cast _ (CIntegral _ _) = Some _ |- _ => apply cast_integral_inv in H as (? & ? & ? & ->)
    end.
    rewrite !Forall_cons in Ht. rewrite !Forall_cons in Hp. rewrite !Forall_cons in Hn.
    destruct Ht as (T1 & T2 & T3 & T4 & _), Hp as ((? & ? & ?) & (? & ? & ?) & (? & ? & ?) & _),
      Hn as ((? & ? & ?) & (? & ? & ?) & (? & ? & ?) & _). simplify_eq.
    econstructor; try done; try (split; [done|lia]); apply truthy_str; congruence.
  - intros [-> Hargs]. destruct Hargs as [? ? ? ? ? ? ? ? ? ? ? ? ? Htls
      Eh ? En ? Es ? [? ?] [? ?] [? ?] [? ?] Ed ? [? ?] [? ?] Eu Ep].
    unfold text_param in *. unfold native_call.
    erewrite (proj2 (native_new_inv _ _ _)).
    2:{ cbv zeta. split_and!; [done|done|done|..|done]; rewrite ?Eh, ?En, ?Es, ?Ed, !Forall_cons, Forall_nil;
        rewrite ?truthy_str; split_and!; try done; eexists; (split; [done|lia]). }
    rewrite Eh, En, Es, Ed, Eu, Ep. unfold init_signature, c_int, c_uint32, c_size.
    repeat (rewrite cast_args_cons; eexists _, _; split; [done|]; split;
      [first [apply cast_string_inv; by eexists|apply cast_integral_inv; eexists; split; [done|]; split; [lia|done]]|]).
    done.
  - intros []. unfold init_signature, has_ctype, number_param in *.
    repeat constructor; cbn; unfold c_int, c_uint32, c_size; lia.
Qed.

(** ** What is refused *)

(** The value behind a string parameter. *)
Definition effective (kwargs : dict) (name : string) : pyval :=
  let vars := [("hosts", "LMCACHE_AEROSPIKE_HOSTS"); ("namespace", "LMCACHE_AEROSPIKE_NAMESPACE");
    ("set_name", "LMCACHE_AEROSPIKE_SET"); ("username", "LMCACHE_AEROSPIKE_USERNAME");
    ("password", "LMCACHE_AEROSPIKE_PASSWORD")] in
  match find (fun p => String.eqb (fst p) name) vars with
  | Some (_, var) => or_environ environ (param kwargs name) var
  | None => param kwargs name
  end.

(** One check: when it complains, with what error, of what class. *)
Record check := mkCheck { ck_fails : Prop; ck_error : native_error; ck_class : py_class }.

Definition is_text (v : pyval) : Prop := exists s, v = VStr s.
Definition in_range (lo hi : Z) (v : pyval) : Prop := exists z, int_value v = Some z /\ lo <= z <= hi.
Definition at_least (lo : Z) (v : pyval) : Prop := exists z, int_value v = Some z /\ lo <= z.

Definition known_names : list string :=
  ["hosts"; "namespace"; "set_name"; "num_workers"; "read_timeout_ms"; "write_timeout_ms"; "default_ttl_seconds";
   "dtype"; "target_segment_bytes"; "max_record_bytes"; "username"; "password"; "tls_name"].

Definition not_empty (kwargs : dict) (name : string) : check :=
  mkCheck (truthy (effective kwargs name) = false) (EmptyString name) ValueError.
Definition positive (kwargs : dict) (name : string) : check :=
  mkCheck (~ at_least 1 (param kwargs name)) (NotPositive name) ValueError.
Definition not_negative (kwargs : dict) (name : string) : check :=
  mkCheck (~ at_least 0 (param kwargs name)) (Negative name) ValueError.
Definition fits (kwargs : dict) (name : string) (ok : pyval -> Prop) (position : nat) : check :=
  mkCheck (~ ok (effective kwargs name)) (BadArgument position) TypeError.

(** The checks of the factory, in their order. *)
Definition factory_checks (available : bool) (kwargs : dict) : list check :=
  [mkCheck (exists name, is_Some (kwargs !! name) /\ name ∉ known_names)
     (UnknownParams (dom kwargs ∖ list_to_set known_names)) TypeError;
   mkCheck (available = false) NotAvailable RuntimeError;
   mkCheck (truthy (param kwargs "tls_name") = true) TlsUnsupported RuntimeError;
   not_empty kwargs "hosts"; not_empty kwargs "namespace"; not_empty kwargs "set_name"; not_empty kwargs "dtype";
   positive kwargs "num_workers"; positive kwargs "read_timeout_ms"; positive kwargs "write_timeout_ms";
   not_negative kwargs "default_ttl_seconds"; not_negative kwargs "target_segment_bytes"; not_negative kwargs "max_record_bytes"].

(** The conversions of pybind, argument by argument. *)
Definition argument_checks (kwargs : dict) : list check :=
  [fits kwargs "hosts" is_text 0; fits kwargs "namespace" is_text 1; fits kwargs "set_name" is_text 2;
   fits kwargs "num_workers" (in_range (- 2 ^ 31) (2 ^ 31 - 1)) 3;
   fits kwargs "read_timeout_ms" (in_range 0 (2 ^ 32 - 1)) 4; fits kwargs "write_timeout_ms" (in_range 0 (2 ^ 32 - 1)) 5;
   fits kwargs "default_ttl_seconds" (in_range 0 (2 ^ 32 - 1)) 6; fits kwargs "dtype" is_text 7;
   fits kwargs "target_segment_bytes" (in_range 0 (2 ^ 64 - 1)) 8; fits kwargs "max_record_bytes" (in_range 0 (2 ^ 64 - 1)) 9;
   fits kwargs "username" is_text 10; fits kwargs "password" is_text 11].

(** An error is that of the first check that fails, with its class; without one no check fails. *)
Definition judged {A} (cs : list check) (r : native_error + A) : Prop :=
  match r with
  | inl e => exists i c, cs !! i = Some c /\ ck_fails c /\ e = ck_error c /\ native_error_class e = ck_class c /\
      forall j c', (j < i)%nat -> cs !! j = Some c' -> ~ ck_fails c'
  | inr _ => Forall (fun c => ~ ck_fails c) cs
  end.

Lemma judged_nil {A} (a : A) : judged [] (inr a).
Proof. constructor. Qed.

Lemma judged_fails {A} c cs : ck_fails c -> native_error_class (ck_error c) = ck_class c ->
  @judged A (c :: cs) (inl (ck_error c)).
Proof. intros Hc Hk. exists 0%nat, c. split_and!; [done..|]. intros j c' Hj. lia. Qed.

Lemma judged_passes {A} c cs (r : native_error + A) : ~ ck_fails c -> judged cs r -> judged (c :: cs) r.
Proof.
  intros Hc. destruct r as [e|a]; [|by constructor]. intros (i & c0 & Hi & Hf & He & Hk & Hb). exists (S i), c0.
  split_and!; [done..|]. intros [|j] c' Hj Hl; [by injection Hl as <-|]. apply (Hb j c'); [lia|done].
Qed.

(** One check and the rest of the function. *)
Lemma judged_step {A B} c cs (r : native_error + A) (f : A -> native_error + B) :
  native_error_class (ck_error c) = ck_class c ->
  match r with inl e => e = ck_error c /\ ck_fails c | inr a => ~ ck_fails c /\ judged cs (f a) end ->
  judged (c :: cs) (let? a := r in f a).
Proof. intros Hk. destruct r as [e|a]; [intros [-> Hf]; by apply judged_fails|intros [Hn Hr]; by apply judged_passes]. Qed.

Lemma judged_app {A B} cs cs' (r : native_error + A) (f : A -> native_error + B) :
  judged cs r -> (forall a, r = inr a -> judged cs' (f a)) -> judged (cs ++ cs') (let? a := r in f a).
Proof.
  destruct r as [e|a].
  - intros (i & c & Hi & Hf & He & Hk & Hb) _. pose proof (lookup_lt_Some _ _ _ Hi) as Hlt. exists i, c.
    rewrite lookup_app_l by done. split_and!; [done..|]. intros j c' Hj Hl. rewrite lookup_app_l in Hl by lia. by eapply Hb.
  - intros Hall Hr. specialize (Hr a eq_refl). induction Hall as [|c cs Hc _ IH]; [done|]. by apply judged_passes.
Qed.

Lemma not_empty_step {B} kwargs name cs v (f : unit -> native_error + B) : v = effective kwargs name ->
  judged cs (f tt) -> judged (not_empty kwargs name :: cs) (let? u := require_truthy v name in f u).
Proof.
  intros -> Hf. apply judged_step; [done|]. unfold require_truthy, not_empty. cbn.
  by destruct (truthy _) eqn:E.
Qed.

Lemma positive_step {B} kwargs name cs (f : pyval -> native_error + B) :
  judged cs (f (param kwargs name)) -> judged (positive kwargs name :: cs) (let? v := _positive_int (param kwargs name) name in f v).
Proof.
  intros Hf. apply judged_step; [done|]. unfold _positive_int, positive, at_least. cbn.
  destruct (int_value _) as [z|] eqn:E; [|split; [done|by intros (? & ? & _)]].
  destruct (Z.leb_spec z 0); [split; [done|intros (? & [= <-] & ?); lia]|].
  split; [|done]. intros Hn. apply Hn. exists z. split; [done|lia].
Qed.

Lemma not_negative_step {B} kwargs name cs (f : pyval -> native_error + B) :
  judged cs (f (param kwargs name)) ->
  judged (not_negative kwargs name :: cs) (let? v := _non_negative_int (param kwargs name) name in f v).
Proof.
  intros Hf. apply judged_step; [done|]. unfold _non_negative_int, not_negative, at_least. cbn.
  destruct (int_value _) as [z|] eqn:E; [|split; [done|by intros (? & ? & _)]].
  destruct (Z.ltb_spec z 0); [split; [done|intros (? & [= <-] & ?); lia]|].
  split; [|done]. intros Hn. apply Hn. by exists z.
Qed.

Lemma native_new_judged available kwargs : judged (factory_checks available kwargs) (native_new available environ kwargs).
Proof.
  unfold native_new, factory_checks. assert (Hx : extra kwargs = ∅ <-> ~ exists name, is_Some (kwargs !! name) /\ name ∉ known_names).
  { change (extra kwargs) with (dom kwargs ∖ list_to_set known_names). split.
    - intros E (name & Hs & Hn). assert (Hin : name ∈ dom kwargs ∖ list_to_set known_names); [|set_solver].
      by rewrite elem_of_difference, elem_of_dom, elem_of_list_to_set.
    - intros Hno. apply set_eq. intros name. rewrite elem_of_difference, elem_of_dom, elem_of_list_to_set, elem_of_empty.
      split; [|done]. intros Hin. apply Hno. by exists name. }
  destruct (decide (extra kwargs = ∅)) as [E|E]; cycle 1.
  { apply (judged_fails (mkCheck _ (UnknownParams _) _)); [|done]. cbn. apply set_choose_L in E as [name Hn]. exists name.
    change (extra kwargs) with (dom kwargs ∖ list_to_set known_names) in Hn.
    by rewrite elem_of_difference, elem_of_dom, elem_of_list_to_set in Hn. }
  apply judged_passes; [by apply Hx|].
  destruct available; cbn [negb]; [|by apply (judged_fails (mkCheck _ NotAvailable _))]. apply judged_passes; [done|].
  destruct (truthy (param kwargs "tls_name")) eqn:Ht; [by apply (judged_fails (mkCheck _ TlsUnsupported _))|].
  apply judged_passes; [done|].
  do 4 (apply not_empty_step; [done|]). do 3 apply positive_step. do 3 apply not_negative_step. apply judged_nil.
Qed.

(** One argument of the constructor. *)
Lemma fits_step kwargs name ok i cs v t vs ts : v = effective kwargs name -> (ok v <-> is_Some (cast v t)) ->
  judged cs (cast_args (S i) vs ts) -> judged (fits kwargs name ok i :: cs) (cast_args i (v :: vs) (t :: ts)).
Proof.
  intros -> Hok Hr. cbn [cast_args]. destruct (cast _ t) as [c|] eqn:Ec.
  - apply judged_passes; [cbn; intros Hn; apply Hn, Hok; by eexists|].
    destruct (cast_args (S i) vs ts); done.
  - apply (judged_fails (fits kwargs name ok i)); [|done]. cbn. intros [x Hx]%Hok. done.
Qed.

Lemma is_text_cast v : is_text v <-> is_Some (cast v CString).
Proof.
  split; [intros [s ->]; by eexists|]. intros [c (s & -> & _)%cast_string_inv]. by exists s.
Qed.

Lemma in_range_cast v lo hi : in_range lo hi v <-> is_Some (cast v (CIntegral lo hi)).
Proof.
  split.
  - intros (z & Hz & Hr). exists (CNum z). apply cast_integral_inv. by exists z.
  - intros [c (z & Hz & Hr & _)%cast_integral_inv]. by exists z.
Qed.

(** C38: The outcome of a call is decided by its checks in their order: an unknown name, the missing
    extension, a [tls_name], an empty string without a fallback in the environment (hosts, namespace,
    set, dtype), integers that are not positive or negative, and then, argument by argument, a value
    its C++ type cannot hold.  An error is that of the first check that fails, and its class is
    [TypeError], [RuntimeError] or [ValueError] as listed there; a call that goes through fails
    none. *)
Theorem native_call_errors (available : bool) (kwargs : dict) :
  judged (factory_checks available kwargs ++ argument_checks kwargs) (native_call available environ kwargs).
Proof.
  unfold native_call. apply judged_app; [apply native_new_judged|].
  intros args (_ & _ & _ & _ & _ & _ & ->)%native_new_inv. unfold init_signature, argument_checks.
  repeat (apply fits_step; [done|apply is_text_cast || apply in_range_cast|]). apply judged_nil.
Qed.
End theorems.

(** ** Witnesses *)

Definition demo_params : dict :=
  list_to_map [("hosts", VStr "127.0.0.1:3000"); ("namespace", VStr "lmcache"); ("num_workers", VInt 4);
    ("read_timeout_ms", VInt 123); ("dtype", VStr "float16"); ("username", VStr "u")].

Definition demo_environ : gmap string string :=
  {[ "LMCACHE_AEROSPIKE_SET" := "kv_chunks"; "LMCACHE_AEROSPIKE_HOSTS" := "other:3000" ]}.

Lemma native_call_accepts_witness :
  native_args demo_environ demo_params [CStr "127.0.0.1:3000"; CStr "lmcache"; CStr "kv_chunks"; CNum 4;
    CNum 123; CNum 2000; CNum 86400; CStr "float16"; CNum 0; CNum 0; CStr "u"; CStr ""].
Proof. apply (native_call_accepts demo_environ true). vm_compute. reflexivity. Defined.

(** A timeout that Python accepts and [uint32_t] does not hold: no other check complains. *)
Lemma native_call_errors_witness :
  native_call true demo_environ (<["read_timeout_ms" := VInt 4294967296]> demo_params) = inl (BadArgument 4) /\
  Forall (fun c => ~ ck_fails c) (factory_checks demo_environ true (<["read_timeout_ms" := VInt 4294967296]> demo_params)).
Proof.
  assert (E : native_call true demo_environ (<["read_timeout_ms" := VInt 4294967296]> demo_params) = inl (BadArgument 4))
    by (vm_compute; reflexivity).
  split; [exact E|].
  pose proof (native_call_errors demo_environ true (<["read_timeout_ms" := VInt 4294967296]> demo_params)) as Hj.
  rewrite E in Hj. destruct Hj as (i & c & Hi & _ & He & _ & Hb). apply Forall_lookup. intros j c' Hj.
  assert (Hlt : (i < 13)%nat \/ (13 <= i)%nat) by lia. destruct Hlt as [Hlt|Hge].
  - exfalso. do 13 (destruct i as [|i]; [injection Hi as <-; discriminate He|]). lia.
  - apply (Hb j c'); [pose proof (lookup_lt_Some _ _ _ Hj) as Hl; cbn in Hl; lia|].
    by apply lookup_app_l_Some.
Defined.

(** Two faults: the one checked first is raised. *)
Example first_fault_raised :
  native_call true demo_environ (<["tls_name" := VStr "x"]> (<["num_workers" := VInt 0]> demo_params)) = inl TlsUnsupported.
Proof. vm_compute. reflexivity. Qed.
