(* ===== verification/Hex.v ===== *)
(** * Hexadecimal text

    [format(z, "x")] and [bytes.hex()] of Python, hexadecimal of a fixed width, and what dropping
    leading zeros and reading digits back make of them. *)

From S2P Require Import Prelude PyStr Crc32 Keys.

Definition hex_digit (d : Z) : ascii := if d <? 10 then chr (48 + d) else chr (87 + d).

(** [format(z, "x")] for [0 <= z]. *)
Fixpoint hex_go (fuel : nat) (z : Z) (acc : string) : string :=
  match fuel with
  | O => acc
  | S fuel => if z =? 0 then acc else hex_go fuel (z / 16) (String (hex_digit (z mod 16)) acc)
  end.

Definition hex_of_Z (z : Z) : string := if z =? 0 then "0" else hex_go (S (Z.to_nat (Z.log2 z))) z "".

(** [bytes.hex()] *)
Fixpoint hex_bytes (b : bytes) : string :=
  match b with
  | [] => ""
  | x :: b => String (hex_digit (byte_val x / 16)) (String (hex_digit (byte_val x mod 16)) (hex_bytes b))
  end.

(** The last [n] hexadecimal digits of [z]. *)
Fixpoint hex_fixed (n : nat) (z : Z) : string :=
  match n with
  | O => ""
  | S n => hex_fixed n (z / 16) +:+ String (hex_digit (z mod 16)) ""
  end.

Fixpoint drop_zeros (s : string) : string :=
  match s with String "0" s' => drop_zeros s' | _ => s end.

(** ** Fixed width *)

Lemma pow16_S n : 16 ^ Z.of_nat (S n) = 16 * 16 ^ Z.of_nat n.
Proof. by rewrite Nat2Z.inj_succ, Z.pow_succ_r by lia. Qed.

Lemma hex_fixed_length n : forall z, String.length (hex_fixed n z) = n.
Proof. induction n as [|n IH]; intros z; cbn; [done|]. rewrite string_length_app, IH. cbn. lia. Qed.

Lemma hex_fixed_add n m : forall z,
  hex_fixed (n + m) z = hex_fixed n (z / 16 ^ Z.of_nat m) +:+ hex_fixed m z.
Proof.
  induction m as [|m IH]; intros z.
  - by rewrite Nat.add_0_r, Z.div_1_r, string_app_nil_r.
  - rewrite Nat.add_succ_r. cbn [hex_fixed]. rewrite IH, Z.div_div, <- pow16_S, string_app_assoc by lia. done.
Qed.

Lemma hex_fixed_mod m : forall z, hex_fixed m (z mod 16 ^ Z.of_nat m) = hex_fixed m z.
Proof.
  induction m as [|m IH]; intros z; [done|]. cbn [hex_fixed]. rewrite pow16_S.
  set (q := 16 ^ Z.of_nat m). assert (Hq : 0 < q) by (unfold q; lia).
  rewrite <- (IH (z / 16)). fold q.
  assert (E1 : z mod (16 * q) / 16 = (z / 16) mod q).
  { rewrite Z.rem_mul_r, Z.add_comm, (Z.mul_comm 16), Z.div_add_l by lia.
    pose proof (Z.mod_pos_bound z 16). rewrite (Z.div_small (z mod 16)) by lia. lia. }
  assert (E2 : (z mod (16 * q)) mod 16 = z mod 16).
  { rewrite Z.rem_mul_r, (Z.mul_comm 16), Z.mod_add by lia. apply Z.mod_mod. lia. }
  by rewrite E1, E2.
Qed.

Lemma hex_fixed_zero n : drop_zeros (hex_fixed n 0) = "".
Proof.
  assert (Hz : forall s, drop_zeros (s +:+ "0") = match drop_zeros s with "" => "" | s' => s' +:+ "0" end).
  { intros s. induction s as [|c s IH]; [done|]. change (String c s +:+ "0") with (String c (s +:+ "0")).
    destruct c as [[] [] [] [] [] [] [] []]; done || exact IH. }
  induction n as [|n IH]; [done|]. cbn [hex_fixed]. change (0 / 16) with 0.
  change (String (hex_digit (0 mod 16)) "") with "0". by rewrite Hz, IH.
Qed.

Lemma drop_zeros_app s t :
  drop_zeros (s +:+ t) = match drop_zeros s with "" => drop_zeros t | s' => s' +:+ t end.
Proof.
  induction s as [|c s IH]; [done|]. change (String c s +:+ t) with (String c (s +:+ t)).
  destruct c as [[] [] [] [] [] [] [] []]; done || exact IH.
Qed.

Lemma hex_digit_zero d : 0 <= d < 16 -> d <> 0 -> drop_zeros (String (hex_digit d) "") = String (hex_digit d) "".
Proof.
  intros Hd Hne. assert (Hc : d ∈ seqZ 1 15) by (apply elem_of_seqZ; lia). revert Hc. clear.
  change (seqZ 1 15) with [1; 2; 3; 4; 5; 6; 7; 8; 9; 10; 11; 12; 13; 14; 15].
  rewrite !elem_of_cons, elem_of_nil. intros Hc. by repeat destruct Hc as [->|Hc].
Qed.

Lemma hex_fixed_nonzero n : forall z, 0 <= z < 16 ^ Z.of_nat n -> z <> 0 -> drop_zeros (hex_fixed n z) <> "".
Proof.
  induction n as [|n IH]; intros z Hz Hne; [cbn in Hz; lia|]. cbn [hex_fixed]. rewrite drop_zeros_app.
  rewrite pow16_S in Hz. destruct (decide (z / 16 = 0)) as [E|E].
  - assert (z < 16) by (pose proof (Z.div_mod z 16); pose proof (Z.mod_pos_bound z 16); lia).
    rewrite E, hex_fixed_zero, Z.mod_small, hex_digit_zero by lia. done.
  - specialize (IH (z / 16) ltac:(split; [apply Z.div_pos; lia|apply Z.div_lt_upper_bound; lia]) E).
    destruct (drop_zeros (hex_fixed n (z / 16))); [done|]. done.
Qed.

(** ** [format] *)

Lemma hex_go_fixed n : forall z acc, 0 <= z < 16 ^ Z.of_nat n ->
  hex_go n z acc = drop_zeros (hex_fixed n z) +:+ acc.
Proof.
  induction n as [|n IH]; intros z acc Hz; [done|]. cbn [hex_go].
  destruct (Z.eqb_spec z 0) as [->|Hne]; [by rewrite hex_fixed_zero|].
  rewrite pow16_S in Hz.
  rewrite IH by (split; [apply Z.div_pos; lia|apply Z.div_lt_upper_bound; lia]).
  cbn [hex_fixed]. rewrite drop_zeros_app.
  destruct (drop_zeros (hex_fixed n (z / 16))) as [|c s] eqn:E; [|by rewrite string_app_assoc].
  assert (z / 16 = 0) as Ez.
  { destruct (decide (z / 16 = 0)); [done|]. exfalso. revert E. apply hex_fixed_nonzero; [|done].
    split; [apply Z.div_pos; lia|apply Z.div_lt_upper_bound; lia]. }
  pose proof (Z.div_mod z 16). pose proof (Z.mod_pos_bound z 16).
  rewrite hex_digit_zero by lia. done.
Qed.

Lemma hex_fixed_wider n m z : 0 <= z < 16 ^ Z.of_nat n ->
  drop_zeros (hex_fixed (m + n) z) = drop_zeros (hex_fixed n z).
Proof. intros Hz. by rewrite hex_fixed_add, Z.div_small, drop_zeros_app, hex_fixed_zero. Qed.

(** The digits of [format] are the fixed-width ones without leading zeros. *)
Lemma hex_of_Z_fixed n z : 0 <= z < 16 ^ Z.of_nat n ->
  hex_of_Z z = match drop_zeros (hex_fixed n z) with "" => "0" | s => s end.
Proof.
  intros Hz. unfold hex_of_Z. destruct (Z.eqb_spec z 0) as [->|Hne]; [by rewrite hex_fixed_zero|].
  set (f := S (Z.to_nat (Z.log2 z))).
  assert (Hf : z < 16 ^ Z.of_nat f).
  { unfold f. pose proof (Z.log2_spec z ltac:(lia)) as [_ Hl].
    eapply Z.lt_le_trans; [exact Hl|]. rewrite Nat2Z.inj_succ, Z2Nat.id by apply Z.log2_nonneg.
    apply Z.pow_le_mono_l. lia. }
  rewrite hex_go_fixed, string_app_nil_r by lia.
  assert (E : drop_zeros (hex_fixed f z) = drop_zeros (hex_fixed n z)).
  { destruct (Nat.le_ge_cases f n) as [Hle|Hle].
    - rewrite <- (hex_fixed_wider f (n - f) z) by lia. by rewrite Nat.sub_add.
    - rewrite <- (hex_fixed_wider n (f - n) z) by lia. by rewrite Nat.sub_add. }
  rewrite E. revert Hne. intros Hd%(hex_fixed_nonzero n z Hz). revert Hd. by destruct (drop_zeros (hex_fixed n z)).
Qed.

(** ** [bytes.hex] *)

Lemma hex_bytes_fixed b : hex_bytes b = hex_fixed (2 * length b) (int_from_bytes_big b).
Proof.
  induction b as [|x b IH]; [done|]. cbn [hex_bytes length].
  pose proof (int_from_bytes_big_range b) as Hb. pose proof (int_from_bytes_big_one x) as Hx.
  change (x :: b) with ([x] ++ b). rewrite int_from_bytes_big_app.
  replace (2 * S (length b))%nat with (2 + 2 * length b)%nat by lia.
  assert (Hp : 256 ^ Z.of_nat (length b) = 16 ^ Z.of_nat (2 * length b)).
  { rewrite Nat2Z.inj_mul, Z.pow_mul_r by lia. done. }
  rewrite Hp in *. set (q := 16 ^ Z.of_nat (2 * length b)) in *. assert (0 < q) by (unfold q; lia).
  rewrite hex_fixed_add. fold q. rewrite Z.div_add_l, (Z.div_small (int_from_bytes_big b)), Z.add_0_r by lia.
  rewrite <- (hex_fixed_mod (2 * length b)). fold q.
  rewrite (Z.add_comm (_ * q)), Z.mod_add, (Z.mod_small (int_from_bytes_big b)) by lia. rewrite IH.
  change (int_from_bytes_big [x]) with (byte_val x). change (int_from_bytes_big [x]) with (byte_val x) in Hx.
  cbn [hex_fixed]. rewrite (Z.mod_small (byte_val x / 16)) by
    (split; [apply Z.div_pos; lia|apply Z.div_lt_upper_bound; lia]).
  done.
Qed.

Lemma hex_digit_chars d : 0 <= d < 16 ->
  Ascii.eqb (hex_digit d) "@" = false.
Proof.
  intros Hd. assert (Hc : d ∈ seqZ 0 16) by (apply elem_of_seqZ; lia). revert Hc. clear.
  change (seqZ 0 16) with [0; 1; 2; 3; 4; 5; 6; 7; 8; 9; 10; 11; 12; 13; 14; 15].
  rewrite !elem_of_cons, elem_of_nil. intros Hc. by repeat destruct Hc as [->|Hc].
Qed.

Lemma hex_fixed_no_at n : forall z, contains_char "@" (hex_fixed n z) = false.
Proof.
  induction n as [|n IH]; intros z; [done|]. cbn [hex_fixed]. rewrite contains_char_app, IH. cbn.
  rewrite hex_digit_chars; [done|]. apply Z.mod_pos_bound. lia.
Qed.
