(* ===== verification/NativeKeys.v ===== *)
(** * The pure parts of the native connector ([connector.cpp])

    Host lists, native keys, the record cap and the segment plan of the C++ connector, with its
    machine integers: [size_t] and [uint64_t] are taken modulo 2^64, [uint32_t] modulo 2^32, [int]
    has 32 bits.  The theorems compare them with their Python counterparts: records written by
    one connector are found by the other. *)

From S2P Require Import Prelude PyStr Errors Sharding Config Limits Crc32 Keys Hex.

(** The C++ exceptions, and a division by zero (undefined behaviour). *)
Inductive cpp_exc := runtime_error (what : string) | invalid_argument | out_of_range | division_by_zero.

#[global] Instance cpp_exc_eq_dec : EqDecision cpp_exc.
Proof. solve_decision. Defined.

Definition u64 (z : Z) : Z := z mod 2 ^ 64.
Definition u32 (z : Z) : Z := z mod 2 ^ 32.

(** ** Numbers in strings *)

Definition c_isspace (c : ascii) : bool := let z := code c in ((9 <=? z) && (z <=? 13)) || (z =? 32).

Fixpoint c_lstrip (s : string) : string :=
  match s with
  | String c s' => if c_isspace c then c_lstrip s' else s
  | EmptyString => ""
  end.

(** The digits at the start of a string; [found] says whether there was one before. *)
Fixpoint leading_digits (acc : Z) (found : bool) (s : string) : option Z :=
  match s with
  | String c s' =>
      match digit c with
      | Some d => leading_digits (10 * acc + d) true s'
      | None => if found then Some acc else None
      end
  | EmptyString => if found then Some acc else None
  end.

(** [strtol]: spaces, a sign, digits; the rest is ignored. *)
Definition strtol (s : string) : option Z :=
  match c_lstrip s with
  | String "-" s' => Z.opp <$> leading_digits 0 false s'
  | String "+" s' => leading_digits 0 false s'
  | s' => leading_digits 0 false s'
  end.

Definition stoi (s : string) : cpp_exc + Z :=
  match strtol s with
  | None => inl invalid_argument
  | Some z => if (- 2 ^ 31 <=? z) && (z <? 2 ^ 31) then inr z else inl out_of_range
  end.

(** [stoull] negates modulo 2^64. *)
Definition stoull (s : string) : cpp_exc + Z :=
  match strtol s with
  | None => inl invalid_argument
  | Some z => if Z.abs z <? 2 ^ 64 then inr (u64 z) else inl out_of_range
  end.

(** ** Hosts *)

(** The loop of [parse_hosts]; the local [split] is that of [PyStr]. *)
Fixpoint native_host_parts (parts : list string) : cpp_exc + list (string * Z) :=
  match parts with
  | [] => inr []
  | part :: parts =>
      match split_last ":" part with
      | None => inl (runtime_error "hosts must be host:port[,host:port...]")
      | Some (host, port) =>
          if String.eqb host "" || String.eqb port "" then
            inl (runtime_error "hosts must be host:port[,host:port...]")
          else
            let? p := stoi port in
            let? out := native_host_parts parts in inr ((host, p) :: out)
      end
  end.

Definition native_parse_hosts (hosts : string) : cpp_exc + list (string * Z) :=
  let? out := native_host_parts (split "," hosts) in
  match out with [] => inl (runtime_error "hosts must not be empty") | _ => inr out end.

(** ** Keys *)

Definition hex_value (c : ascii) : option Z :=
  let z := code c in
  if (48 <=? z) && (z <=? 57) then Some (z - 48)
  else if (97 <=? z) && (z <=? 102) then Some (z - 97 + 10)
  else if (65 <=? z) && (z <=? 70) then Some (z - 65 + 10)
  else None.

(** [value <<= 4; value |= ...] over the characters. *)
Fixpoint parse_hex_from (value : Z) (hex : string) : cpp_exc + Z :=
  match hex with
  | EmptyString => inr value
  | String c hex =>
      match hex_value c with
      | Some d => parse_hex_from (Z.lor (u64 (Z.shiftl value 4)) d) hex
      | None => inl (runtime_error "invalid hex digit in native key")
      end
  end.

Definition parse_hex_u64 (hex : string) : cpp_exc + Z := parse_hex_from 0 hex.

Definition trim_low_64_hex (hex : string) : string :=
  let hex := if (16 <? String.length hex)%nat then drop_chars (String.length hex - 16) hex else hex in
  match drop_zeros hex with EmptyString => "0" | s => s end.

Definition native_key_to_cache_engine_key (key dtype : string) : cpp_exc + string :=
  let convert (name rank hash salt : string) :=
    let? kv_rank := parse_hex_u64 rank in
    let world_size := Z.land (Z.shiftr kv_rank 24) 0xFF in
    let worker_id := Z.land (Z.shiftr kv_rank 16) 0xFF in
    let world_size := if world_size =? 0 then 1 else world_size in
    inr (name +:+ "@" +:+ string_of_int world_size +:+ "@" +:+ string_of_int worker_id +:+ "@" +:+
         trim_low_64_hex hash +:+ "@" +:+ dtype +:+
         (if String.eqb salt "" then "" else "@cache_salt%" +:+ salt)) in
  match split "@" key with
  | [name; rank; hash] => convert name rank hash ""
  | [name; rank; hash; salt] => convert name rank hash salt
  | _ => inl (runtime_error "native ObjectKey string must have 3 or 4 fields")
  end.

Definition meta_user_key (cache_key : string) : string := cache_key +:+ "|m".

Definition segment_user_key (cache_key : string) (index : Z) : string :=
  cache_key +:+ "|s|" +:+ string_of_int index.

(** ** The record cap and the plan *)

Definition kSafetyMarginBytes : Z := 64 * 1024.
Definition kDefaultRecordCapBytes : Z := 1024 * 1024.

(** What follows the first occurrence of [pat]. *)
Fixpoint find_after (pat s : string) : option string :=
  if startswith s pat then Some (drop_chars (String.length pat) s)
  else match s with String _ s' => find_after pat s' | EmptyString => None end.

Fixpoint first_cap (text : string) (fields : list string) : cpp_exc + Z :=
  match fields with
  | [] => inr kDefaultRecordCapBytes
  | field :: fields =>
      match find_after field text with
      | None => first_cap text fields
      | Some rest =>
          let value := match split_first ";" rest with Some (v, _) => v | None => rest end in
          let? cap := stoull value in
          if 0 <? cap then inr cap else first_cap text fields
      end
  end.

(** [discover_record_cap] on the text of the response. *)
Definition discover_record_cap (text : string) : cpp_exc + Z :=
  first_cap text ["max-record-size="; "write-block-size="].

Record NativeLimits := mkNativeLimits { n_max_record : Z; n_target : Z; n_single : Z }.

(** The limits the constructor keeps, from its arguments and the discovered cap. *)
Definition native_limits (target_segment_bytes discovered : Z) : cpp_exc + NativeLimits :=
  if discovered <=? kSafetyMarginBytes then inl (runtime_error "Aerospike record cap is too small")
  else
    let max_record := discovered - kSafetyMarginBytes in
    let target := if target_segment_bytes =? 0 then max_record
                  else Z.min target_segment_bytes max_record in
    inr (mkNativeLimits max_record target target).

Definition native_plan (l : NativeLimits) (payload_bytes : Z) : cpp_exc + ShardPlan :=
  if (payload_bytes <=? n_single l) && (payload_bytes <=? n_max_record l) then
    inr (mkShardPlan 1 payload_bytes)
  else if n_target l =? 0 then inl division_by_zero
  else
    let nseg := u32 (u64 (payload_bytes + n_target l - 1) / n_target l) in
    if nseg =? 0 then inl division_by_zero
    else
      let seg_b := u64 (payload_bytes + nseg - 1) / nseg in
      if n_max_record l <? seg_b then
        inl (runtime_error "payload cannot be sharded within record cap")
      else inr (mkShardPlan nseg seg_b).

(** ** The plan is the planner's *)

Lemma u64_small z : 0 <= z < 2 ^ 64 -> u64 z = z.
Proof. apply Z.mod_small. Qed.

Lemma u32_small z : 0 <= z < 2 ^ 32 -> u32 z = z.
Proof. apply Z.mod_small. Qed.

Lemma ceildiv_up a b q : 0 < b -> ceildiv a b = inr q -> q = (a + b - 1) / b.
Proof.
  intros Hb Hq. apply ceildiv_spec in Hq; [|done].
  apply (Z.div_unique_pos _ _ _ (a + b - 1 - b * q)); nia.
Qed.

Record native_limits_ok (l : NativeLimits) : Prop := {
  nl_target : 0 < n_target l <= n_max_record l;
  nl_single : n_single l = n_target l;
  nl_max : n_max_record l < 2 ^ 64
}.

Lemma native_limits_good t d l :
  0 <= t -> d < 2 ^ 64 -> native_limits t d = inr l -> native_limits_ok l /\ n_max_record l + 65536 = d.
Proof.
  unfold native_limits, kSafetyMarginBytes. intros Ht Hd. destruct (Z.leb_spec d (64 * 1024)); [done|].
  intros [= <-]. split; [split; cbn; [|done|lia]|cbn; lia].
  destruct (Z.eqb_spec t 0); lia.
Qed.

Lemma native_plan_eq l p :
  native_limits_ok l -> 0 <= p -> p + n_target l <= 2 ^ 64 -> p <= n_target l * (2 ^ 32 - 1) ->
  exists shard, native_plan l p = inr shard /\
    plan p (n_target l) (n_max_record l) 0 (n_single l) = inr shard.
Proof.
  intros [Ht Hs Hm] Hp Hov Hn. rewrite Hs.
  destruct (plan_total p (n_target l) (n_max_record l) 0 (n_target l) Hp Ht) as [shard Hplan].
  exists shard. split; [|done]. revert Hplan. unfold native_plan, plan. rewrite Hs.
  destruct (Z.eqb_spec p 0) as [->|Hp0].
  { intros [= <-]. rewrite (proj2 (Z.leb_le 0 (n_target l))), (proj2 (Z.leb_le 0 (n_max_record l))) by lia. done. }
  rewrite Z.gtb_ltb, (proj2 (Z.ltb_ge _ _)) by lia.
  destruct ((p <=? n_target l) && (p <=? n_max_record l)) eqn:E1; [by intros [= <-]|].
  rewrite (proj2 (Z.eqb_neq (n_target l) 0)) by lia.
  destruct (ceildiv p (n_target l)) as [|n] eqn:En; [done|].
  destruct (ceildiv p n) as [|s] eqn:Es; [done|].
  pose proof (plan_sharded p (n_target l) Hp n s ltac:(lia) ltac:(lia) En Es) as (Hn1 & Hs1 & Hc & Ht1 & _).
  assert (En' : n = (p + n_target l - 1) / n_target l) by (eapply ceildiv_up; [lia|done]).
  assert (Es' : s = (p + n - 1) / n) by (eapply ceildiv_up; [lia|done]).
  assert (Hnb : n < 2 ^ 32).
  { pose proof (proj1 (ceildiv_spec p (n_target l) n ltac:(lia)) En). nia. }
  rewrite (u64_small (p + n_target l - 1)), <- En', (u32_small n) by lia.
  rewrite (proj2 (Z.eqb_neq n 0)) by lia. rewrite (u64_small (p + n - 1)), <- Es' by nia.
  rewrite Z.gtb_ltb. destruct (n_max_record l <? s); [done|].
  rewrite (proj2 (Z.ltb_ge s 0)) by lia. by intros [= <-].
Qed.

(** C36: The C++ planner on machine integers computes the plan of the Python planner (with no
    minimum, and the target as single-record threshold), for every target, record cap and
    payload whose segment count fits 32 bits: no wrap-around, no exception, no division by zero;
    each record stays below the cap by the safety margin. *)
Theorem native_plan_agrees (target_segment_bytes cap payload_bytes : Z) (l : NativeLimits) :
  0 <= target_segment_bytes -> cap < 2 ^ 64 -> native_limits target_segment_bytes cap = inr l ->
  0 <= payload_bytes -> payload_bytes + n_target l <= 2 ^ 64 ->
  payload_bytes <= n_target l * (2 ^ 32 - 1) ->
  exists shard, native_plan l payload_bytes = inr shard /\
    plan payload_bytes (n_target l) (n_max_record l) 0 (n_single l) = inr shard /\
    plan_ok payload_bytes shard /\ seg_b shard + kSafetyMarginBytes <= cap.
Proof.
  intros Ht Hc Hl Hp Hov Hn. destruct (native_limits_good _ _ _ Ht Hc Hl) as [Hok Hcap].
  destruct (native_plan_eq l payload_bytes Hok Hp Hov Hn) as (shard & Hnat & Hplan).
  exists shard. destruct Hok as [Htg _ _].
  destruct (plan_sound payload_bytes (n_target l) (n_max_record l) 0 (n_single l) Hp shard ltac:(lia) Hplan) as [Hpo Hb].
  split_and!; [done..|]. unfold kSafetyMarginBytes. destruct (decide (0 < payload_bytes)); [lia|].
  assert (payload_bytes = 0) as -> by lia. unfold plan in Hplan. cbn in Hplan. injection Hplan as <-. cbn. lia.
Qed.

Lemma native_plan_agrees_witness :
  exists shard, native_plan (mkNativeLimits 983040 65536 65536) 200000 = inr shard /\ nseg shard = 4.
Proof.
  destruct (native_plan_agrees 65536 1048576 200000 (mkNativeLimits 983040 65536 65536))
    as (shard & Hs & _); try (cbn; lia); [reflexivity|].
  exists shard. split; [exact Hs|]. vm_compute in Hs. by injection Hs as <-.
Defined.

(** Above that the 32-bit segment count wraps: a payload of 2^32 times the target divides by
    zero. *)
Lemma native_plan_wraps : native_plan (mkNativeLimits 983040 1 1) (2 ^ 32) = inl division_by_zero.
Proof. reflexivity. Qed.

(** ** Keys *)

(** The text LMCache gives a cache key; the C++ side writes the same format.  A request tag
    ["lmcache.tag.<name>"] is written as [@<name>%<value>]. *)
Definition tag_text (t : string * string) : string :=
  "@" +:+ drop_chars (String.length "lmcache.tag.") (fst t) +:+ "%" +:+ snd t.

Definition key_text (ck : CacheEngineKey) : string :=
  model_name ck +:+ "@" +:+ string_of_int (world_size ck) +:+ "@" +:+ string_of_int (worker_id ck) +:+
  "@" +:+ hex_of_Z (ck_chunk_hash ck) +:+ "@" +:+ Keys.dtype ck +:+
  foldr (fun t s => tag_text t +:+ s) "" (default [] (request_configs ck)).

(** The native text of an object key: name, rank in [width] hexadecimal digits, hash, and the salt
    if there is one. *)
Definition native_object_key (width : nat) (k : ObjectKey) : string :=
  ok_model_name k +:+ "@" +:+ hex_fixed width (kv_rank k) +:+ "@" +:+ hex_bytes (chunk_hash k) +:+
  (if String.eqb (cache_salt k) "" then "" else "@" +:+ cache_salt k).

Lemma hex_value_digit d : 0 <= d < 16 -> hex_value (hex_digit d) = Some d.
Proof.
  intros Hd. assert (Hc : d ∈ seqZ 0 16) by (apply elem_of_seqZ; lia). revert Hc. clear.
  change (seqZ 0 16) with [0; 1; 2; 3; 4; 5; 6; 7; 8; 9; 10; 11; 12; 13; 14; 15].
  rewrite !elem_of_cons, elem_of_nil. intros Hc. by repeat destruct Hc as [->|Hc].
Qed.

Lemma lor_nibble a d : 0 <= d < 16 -> Z.lor (16 * a) d = 16 * a + d.
Proof.
  intros Hd. pose proof (Z.add_lor_land (16 * a) d) as Hadd.
  assert (Hl : Z.land (16 * a) d = 0); [|lia].
  rewrite <- (Z.mod_small d 16) by lia. change 16 with (2 ^ 4) at 2. rewrite <- Z.land_ones by lia.
  rewrite (Z.land_comm d), Z.land_assoc, Z.land_ones by lia. change (2 ^ 4) with 16.
  by rewrite Z.mul_comm, Z.mod_mul, Z.land_0_l.
Qed.

Lemma shift_nibble v d : 0 <= d < 16 -> Z.lor (u64 (Z.shiftl v 4)) d = u64 (16 * v + d).
Proof.
  intros Hd. unfold u64. rewrite Z.shiftl_mul_pow2 by lia. change (2 ^ 4) with 16. rewrite (Z.mul_comm v).
  change (2 ^ 64) with (16 * 2 ^ 60). rewrite Z.mul_mod_distr_l by lia. rewrite lor_nibble by lia.
  rewrite Z.rem_mul_r by lia.
  assert (E1 : (16 * v + d) mod 16 = d) by (rewrite Z.add_comm, Z.mul_comm, Z.mod_add, Z.mod_small; lia).
  assert (E2 : (16 * v + d) / 16 = v) by (rewrite Z.mul_comm, Z.div_add_l, Z.div_small; lia).
  rewrite E1, E2. lia.
Qed.

Lemma parse_hex_app s t v : parse_hex_from v (s +:+ t) =
  match parse_hex_from v s with inr v' => parse_hex_from v' t | inl e => inl e end.
Proof.
  revert v. induction s as [|c s IH]; intros v; [done|].
  change (String c s +:+ t) with (String c (s +:+ t)). cbn [parse_hex_from]. by destruct (hex_value c).
Qed.

Lemma parse_hex_fixed n : forall v z, 0 <= v < 2 ^ 64 ->
  parse_hex_from v (hex_fixed n z) = inr (u64 (v * 16 ^ Z.of_nat n + z mod 16 ^ Z.of_nat n)).
Proof.
  induction n as [|n IH]; intros v z Hv.
  - cbn. rewrite Z.mod_1_r, u64_small by lia. f_equal. lia.
  - cbn [hex_fixed]. rewrite parse_hex_app, IH by done. cbn [parse_hex_from].
    pose proof (Z.mod_pos_bound z 16 ltac:(lia)). rewrite hex_value_digit, shift_nibble by lia. f_equal.
    unfold u64. rewrite <- Z.add_mod_idemp_l, Z.mul_mod_idemp_r, Z.add_mod_idemp_l by lia.
    f_equal. rewrite pow16_S. set (q := 16 ^ Z.of_nat n). assert (0 < q) by (unfold q; lia).
    rewrite (Z.rem_mul_r z 16 q) by lia. lia.
Qed.

(** The low 64 bits of the hash. *)
Lemma trim_hash b :
  trim_low_64_hex (hex_bytes b) = hex_of_Z (Z.land (int_from_bytes_big b) (Z.shiftl 1 64 - 1)).
Proof.
  change (Z.shiftl 1 64 - 1) with (Z.ones 64). rewrite Z.land_ones by lia.
  rewrite hex_bytes_fixed. unfold trim_low_64_hex. rewrite hex_fixed_length.
  pose proof (int_from_bytes_big_range b) as Hb.
  replace (256 ^ Z.of_nat (length b)) with (16 ^ Z.of_nat (2 * length b)) in Hb
    by (rewrite Nat2Z.inj_mul, Z.pow_mul_r by lia; done).
  destruct (Nat.ltb_spec 16 (2 * length b)) as [Hlt|Hge].
  - replace (2 * length b)%nat with ((2 * length b - 16) + 16)%nat at 2 by lia.
    rewrite hex_fixed_add. rewrite <- (hex_fixed_length (2 * length b - 16)
      (int_from_bytes_big b / 16 ^ Z.of_nat 16)) at 1.
    rewrite drop_chars_app, <- hex_fixed_mod. change (16 ^ Z.of_nat 16) with (2 ^ 64).
    symmetry. apply (hex_of_Z_fixed 16). apply Z.mod_pos_bound. lia.
  - rewrite Z.mod_small; [symmetry; by apply hex_of_Z_fixed|]. split; [lia|].
    eapply Z.lt_le_trans; [apply Hb|]. change (2 ^ 64) with (16 ^ 16).
    apply Z.pow_le_mono_r; lia.
Qed.

(** A byte of the rank survives the truncation to 64 bits. *)
Lemma rank_byte z i : 0 <= i <= 24 -> Z.land (Z.shiftr (u64 z) i) 0xFF = Z.land (Z.shiftr z i) 0xFF.
Proof.
  intros Hi. unfold u64. change 0xFF with (Z.ones 8). rewrite <- Z.land_ones by lia.
  apply Z.bits_inj'. intros n Hn. rewrite !Z.land_spec, !Z.shiftr_spec, Z.land_spec by lia.
  destruct (decide (n < 8)).
  - rewrite (Z.ones_spec_low 64), (Z.ones_spec_low 8) by lia. by rewrite andb_true_r.
  - by rewrite (Z.ones_spec_high 8), !andb_false_r by lia.
Qed.

Lemma native_object_key_split width k :
  contains_char "@" (ok_model_name k) = false -> contains_char "@" (cache_salt k) = false ->
  split "@" (native_object_key width k) =
    [ok_model_name k; hex_fixed width (kv_rank k); hex_bytes (chunk_hash k)] ++
    (if String.eqb (cache_salt k) "" then [] else [cache_salt k]).
Proof.
  intros Hm Hs. unfold native_object_key.
  assert (Hh : contains_char "@" (hex_bytes (chunk_hash k)) = false) by (rewrite hex_bytes_fixed; apply hex_fixed_no_at).
  change ("@" +:+ hex_fixed width (kv_rank k) +:+ ?t) with (String "@" (hex_fixed width (kv_rank k) +:+ t)).
  rewrite split_cons by done.
  change ("@" +:+ hex_bytes (chunk_hash k) +:+ ?t) with (String "@" (hex_bytes (chunk_hash k) +:+ t)).
  rewrite split_cons by apply hex_fixed_no_at.
  destruct (String.eqb (cache_salt k) "").
  - by rewrite string_app_nil_r, split_no_sep.
  - change ("@" +:+ cache_salt k) with (String "@" (cache_salt k)). by rewrite split_cons, split_no_sep.
Qed.

(** C37: Interoperability of the keys.  For every object key whose name and salt hold no "@", the
    C++ conversion of its native text (rank in any width of hexadecimal digits) is the text
    LMCache gives the cache key of the Python conversion, so both connectors use the same meta
    and segment records: same world size and worker (64-bit truncation of the rank included),
    same last 64 bits of the hash without leading zeros, same salt tag. *)
Theorem native_keys_agree (to_string : CacheEngineKey -> string) (k : ObjectKey) (width : nat)
    (dtype : string) :
  (forall ck, to_string ck = key_text ck) ->
  contains_char "@" (ok_model_name k) = false -> contains_char "@" (cache_salt k) = false ->
  0 <= kv_rank k < 16 ^ Z.of_nat width ->
  let text := to_string (object_key_to_cache_engine_key k dtype) in
  native_key_to_cache_engine_key (native_object_key width k) dtype = inr text /\
  forall ns set_name i,
    (ns, set_name, meta_user_key text) = meta_key ns set_name text /\
    (ns, set_name, segment_user_key text i) = segment_key ns set_name text i.
Proof.
  intros Hfmt Hm Hs Hr text. split; [|done]. unfold text. rewrite Hfmt.
  unfold native_key_to_cache_engine_key. rewrite native_object_key_split by done.
  assert (Hrank : parse_hex_u64 (hex_fixed width (kv_rank k)) = inr (u64 (kv_rank k))).
  { unfold parse_hex_u64. rewrite parse_hex_fixed, Z.mul_0_l, Z.add_0_l, Z.mod_small by lia. done. }
  assert (Hws : forall z, (if z =? 0 then 1 else z) = (if z <=? 0 then 1 else z) \/ z < 0)
    by (intros z; destruct (Z.eqb_spec z 0), (Z.leb_spec z 0); lia || auto).
  assert (Hpos : 0 <= Z.land (Z.shiftr (kv_rank k) 24) 255) by (apply Z.land_nonneg; lia).
  destruct (String.eqb_spec (cache_salt k) "") as [E|E]; cbn [app]; rewrite Hrank; cbn [u64];
    rewrite !rank_byte, trim_hash by lia;
    (destruct (Hws (Z.land (Z.shiftr (kv_rank k) 24) 255)) as [->|?]; [|lia]);
    unfold key_text, object_key_to_cache_engine_key; cbn [model_name world_size worker_id ck_chunk_hash Keys.dtype request_configs].
  - rewrite E. cbn. done.
  - rewrite (proj2 (String.eqb_neq _ _) E). cbn [default from_option id foldr]. unfold tag_text. cbn [fst snd].
    rewrite string_app_nil_r. done.
Qed.

Definition demo_object_key : ObjectKey :=
  mkObjectKey (String.list_byte_of_string "0123456789") "llama" 0x02010000 "tenant".

Lemma native_keys_agree_witness :
  native_key_to_cache_engine_key "llama@02010000@30313233343536373839@tenant" "bfloat16" =
    inr "llama@2@1@3233343536373839@bfloat16@cache_salt%tenant".
Proof.
  assert (Hr : 0 <= kv_rank demo_object_key < 16 ^ Z.of_nat 8) by (cbn; lia).
  destruct (native_keys_agree key_text demo_object_key 8 "bfloat16" (fun _ => eq_refl) eq_refl eq_refl Hr)
    as [Hn _]. exact Hn.
Defined.

(** ** Hosts *)

Lemma leading_digits_all s : forall acc n b found z m, all_chars is_digit s = true ->
  (found = true \/ s <> "") -> read_digits acc n b s = Some (z, m) -> leading_digits acc found s = Some z.
Proof.
  induction s as [|c s IH]; intros acc n b found z m; cbn [all_chars read_digits leading_digits].
  - intros _ [->|?]; [|done]. by destruct b; intros [= -> _].
  - intros [Hc Hs]%andb_true_iff _. unfold is_digit in Hc. apply bool_decide_eq_true in Hc as [d ->].
    apply IH; [done|by left].
Qed.

Lemma stoi_string_of_int z : 0 <= z < 2 ^ 31 -> stoi (string_of_int z) = inr z.
Proof.
  intros Hz. destruct (string_of_int_digits z ltac:(lia)) as [Hd Hne].
  pose proof (int_of_string_of_int z 10 ltac:(apply Nat.leb_le; done) ltac:(lia)) as Hi.
  unfold int_of_string in Hi. rewrite strip_digits in Hi by done. unfold stoi, strtol.
  revert Hi Hd Hne. generalize (string_of_int z). intros s Hi Hd Hne. destruct s as [|c s]; [done|].
  pose proof Hd as [Hc _]%andb_true_iff. destruct (digit_not_sep _ Hc) as (Hsp & _ & Hm & Hp & _).
  assert (Hl : c_lstrip (String c s) = String c s).
  { cbn. unfold is_space in Hsp. unfold c_isspace. apply orb_false_iff in Hsp as [Hsp _].
    apply orb_false_iff in Hsp as [Hsp _]. apply orb_false_iff in Hsp as [H1 H2]. rewrite H1.
    destruct (Z.eqb_spec (code c) 32) as [E|]; [|done]. rewrite E in H2. done. }
  rewrite Hl.
  assert (Hr : read_nat (String c s) = Some z) by (destruct c as [[] [] [] [] [] [] [] []]; done).
  assert (Hld : leading_digits 0 false (String c s) = Some z).
  { unfold read_nat in Hr. destruct (read_digits 0 0 false (String c s)) as [[z' m]|] eqn:E; [|done].
    destruct (_ <? _)%nat; [done|]. injection Hr as ->.
    eapply leading_digits_all; [done|by right|exact E]. }
  assert (Hcase : (match String c s with
    | String "-" s' => Z.opp <$> leading_digits 0 false s'
    | String "+" s' => leading_digits 0 false s'
    | s' => leading_digits 0 false s' end) = Some z).
  { destruct c as [[] [] [] [] [] [] [] []]; try exact Hld; done. }
  rewrite Hcase. rewrite (proj2 (Z.leb_le _ _)), (proj2 (Z.ltb_lt _ _)) by lia. done.
Qed.

Lemma native_hosts_render hs : hs <> [] -> Forall host_clean hs -> native_parse_hosts (render_hosts hs) = inr hs.
Proof.
  intros Hne Hall. unfold native_parse_hosts.
  assert (Hone : forall h parts, host_clean h -> native_host_parts (render_host h :: parts) =
    let? out := native_host_parts parts in inr (h :: out)).
  { intros [h p] parts (Hh & _ & _ & _ & Hp). cbn [fst snd] in *. cbn [native_host_parts].
    assert (split_last ":" (render_host (h, p)) = Some (h, string_of_int p)) as ->.
    { apply (split_last_spec ":" h (string_of_int p)). apply no_sep_digits; [done|].
      by apply string_of_int_digits; lia. }
    destruct (string_of_int_digits p ltac:(lia)) as [_ Hn].
    rewrite (proj2 (String.eqb_neq _ _) Hh), (proj2 (String.eqb_neq _ _) Hn). cbn [orb].
    by rewrite stoi_string_of_int by lia. }
  assert (Hparts : native_host_parts (split "," (render_hosts hs)) = inr hs).
  { destruct hs as [|h hs]; [done|]. clear Hne. revert h Hall.
    induction hs as [|h' hs IH]; intros h [Hh Hall]%Forall_cons;
      destruct (render_host_parse "" h Hh) as (_ & Hc & _).
    - simpl render_hosts. by rewrite split_no_sep, Hone.
    - change (render_hosts (h :: h' :: hs)) with (render_host h +:+ String "," (render_hosts (h' :: hs))).
      by rewrite split_cons, Hone, IH. }
  rewrite Hparts. by destruct hs.
Qed.

(** Host lists round-trip through both parsers: from the comma-separated [host:port] text of a
    non-empty list of clean hosts with ports in 1..65535, the Python and the C++ parser give the
    list back. *)
Theorem host_lists_roundtrip (hs : list (string * Z)) (fq : string) :
  hs <> [] -> Forall host_clean hs ->
  _parse_hosts (VStr (render_hosts hs)) fq = inr hs /\ native_parse_hosts (render_hosts hs) = inr hs.
Proof. intros Hne Hall. split; [by apply parse_hosts_roundtrip|by apply native_hosts_render]. Qed.

Lemma host_lists_roundtrip_witness :
  native_parse_hosts "10.0.0.1:3000,[::1]:4000" = inr [("10.0.0.1", 3000); ("[::1]", 4000)].
Proof.
  apply (host_lists_roundtrip [("10.0.0.1", 3000); ("[::1]", 4000)] "hosts").
  - discriminate.
  - repeat constructor; simpl; (discriminate || reflexivity || lia).
Defined.

(** Elsewhere the two differ: only the Python parser trims the parts and checks the ports. *)
Lemma native_hosts_lenient :
  native_parse_hosts "a:1, b:70000x" = inr [("a", 1); (" b", 70000)] /\
  _parse_hosts (VStr "a:1, b:70000x") "hosts" = inl (Conn AerospikeConfigError "hosts") /\
  native_parse_hosts "a:1,b:2," = inl (runtime_error "hosts must be host:port[,host:port...]") /\
  _parse_hosts (VStr "a:1,b:2,") "hosts" = inr [("a", 1); ("b", 2)].
Proof. split_and!; vm_compute; reflexivity. Qed.
