(* ===== verification/NativeClient.v ===== *)
(** * The operations of the native connector ([connector.cpp])

    One worker's [do_single_set], [do_single_get], [do_single_exists] and [do_single_delete] over
    the C client library, as functions from the cluster to a result and the cluster; an
    exception is a [cpp_exc].  Keys hold no NUL character.  The library's four calls are a
    class with the laws the connector relies on, on the same records the Python client sees. *)

From S2P Require Import Prelude PyStr Errors Sharding Config Limits Crc32 Keys Hex NativeKeys.
From S2P Require Import Runtime Policies Metrics Serde Engine ClientSpec Store GetFacts Concrete PutFacts.

(** [as_status]: [AEROSPIKE_OK], [AEROSPIKE_ERR_RECORD_NOT_FOUND], the others. *)
Inductive status := Ok | NotFound | Failed (code : Z).

#[global] Instance status_eq_dec : EqDecision status.
Proof. solve_decision. Defined.

(** [aerospike_key_get], [_put], [_exists] and [_remove]; the record of a get may be [NULL]. *)
Class CClient (C : Type) := {
  ckey_get : key -> C -> (status * option bins) * C;
  ckey_put : key -> bin_list -> Z -> C -> status * C;
  ckey_exists : key -> C -> status * C;
  ckey_remove : key -> C -> status * C
}.

(** What a connector keeps for its operations. *)
Record NativeConn := mkNativeConn {
  nc_ns : string; nc_set : string; nc_dtype : string; nc_ttl : Z; nc_limits : NativeLimits
}.

(** ** Bins of a record *)

(** [positive_int_bin] *)
Definition positive_int_bin (b : bins) (name : string) (fallback : Z) : Z :=
  match b !! name with
  | Some (BInt v) => if 0 <? v then v else fallback
  | _ => fallback
  end.

Definition get_bytes (b : bins) : option bytes :=
  match b !! "b" with Some (BBytes p) => Some p | _ => None end.

Section ops.
Context {C : Type} `{CClient C} (nc : NativeConn).

Definition native_key (user_key : string) : key := (nc_ns nc, nc_set nc, user_key).

Definition throw_status (op : string) : cpp_exc := runtime_error op.

(** ** [do_single_set] *)

Definition put_payload_record (user_key : string) (data : bytes) (c : C) : (cpp_exc + unit) * C :=
  let '(s, c) := ckey_put (native_key user_key)
    [("b", BBytes (take (Z.to_nat (u32 (Z.of_nat (length data)))) data))] (nc_ttl nc) c in
  (if decide (s = Ok) then inr tt else inl (throw_status "put-payload"), c).

Definition put_meta_record (user_key : string) (shard : ShardPlan) (total_bytes : Z)
    (inline_buf : option bytes) (now : Z) (c : C) : (cpp_exc + unit) * C :=
  let rec := [("ver", BInt 1); ("state", BStr "ready"); ("nseg", BInt (nseg shard));
    ("seg_b", BInt (seg_b shard)); ("tot_b", BInt total_bytes); ("created_at", BInt now);
    ("pin", BBool false)] ++
    match inline_buf with
    | Some buf => [("b", BBytes (take (Z.to_nat (u32 total_bytes)) buf))]
    | None => []
    end in
  let '(s, c) := ckey_put (native_key user_key) rec (nc_ttl nc) c in
  (if decide (s = Ok) then inr tt else inl (throw_status "put-meta"), c).

(** The loop over the segments: the first failure ends it. *)
Fixpoint put_segments (cache_key : string) (shard : ShardPlan) (buf : bytes) (idx : list Z) (c : C)
    : (cpp_exc + unit) * C :=
  match idx with
  | [] => (inr tt, c)
  | i :: idx =>
      let start := u64 (i * seg_b shard) in
      let chunk_len := Z.min (seg_b shard) (u64 (Z.of_nat (length buf) - start)) in
      let '(r, c) := put_payload_record (segment_user_key cache_key i)
        (slice (Z.to_nat start) (Z.to_nat chunk_len) buf) c in
      match r with inl e => (inl e, c) | inr _ => put_segments cache_key shard buf idx c end
  end.

Definition do_single_set (key : string) (buf : bytes) (now : Z) (c : C) : (cpp_exc + unit) * C :=
  match native_key_to_cache_engine_key key (nc_dtype nc) with
  | inl e => (inl e, c)
  | inr cache_key =>
      let len := Z.of_nat (length buf) in
      match native_plan (nc_limits nc) len with
      | inl e => (inl e, c)
      | inr shard =>
          if nseg shard =? 1 then put_meta_record (meta_user_key cache_key) shard len (Some buf) now c
          else
            let '(r, c) := put_segments cache_key shard buf (seqZ 0 (nseg shard)) c in
            match r with
            | inl e => (inl e, c)
            | inr _ => put_meta_record (meta_user_key cache_key) shard len None now c
            end
      end
  end.

(** ** [do_single_get]

    The buffer is passed along: it may be partly overwritten when the read fails. *)

Definition read_payload_record (user_key : string) (buf : bytes) (offset len : Z) (c : C)
    : (cpp_exc + bool) * bytes * C :=
  let '((s, rec), c) := ckey_get (native_key user_key) c in
  match s, rec with
  | NotFound, _ => (inr false, buf, c)
  | Failed _, _ => (inl (throw_status "get-payload"), buf, c)
  | Ok, None => (inr false, buf, c)
  | Ok, Some b =>
      match get_bytes b with
      | Some p => if Z.of_nat (length p) =? len then (inr true, splice (Z.to_nat offset) p buf, c)
                  else (inr false, buf, c)
      | None => (inr false, buf, c)
      end
  end.

Fixpoint read_parts (cache_key : string) (seg_b len : Z) (idx : list Z) (offset : Z) (buf : bytes) (c : C)
    : (cpp_exc + unit) * bytes * C :=
  match idx with
  | [] => (inr tt, buf, c)
  | i :: idx =>
      let chunk_len := Z.min seg_b (u64 (len - offset)) in
      let '(r, buf, c) := read_payload_record (segment_user_key cache_key i) buf offset chunk_len c in
      match r with
      | inl e => (inl e, buf, c)
      | inr false => (inl (runtime_error "missing segment payload"), buf, c)
      | inr true => read_parts cache_key seg_b len idx (u64 (offset + chunk_len)) buf c
      end
  end.

Definition do_single_get (key : string) (buf : bytes) (c : C) : (cpp_exc + unit) * bytes * C :=
  match native_key_to_cache_engine_key key (nc_dtype nc) with
  | inl e => (inl e, buf, c)
  | inr cache_key =>
      let len := Z.of_nat (length buf) in
      let '((s, rec), c) := ckey_get (native_key (meta_user_key cache_key)) c in
      match s, rec with
      | NotFound, _ | Failed _, _ => (inl (throw_status "get-meta"), buf, c)
      | Ok, None => (inl (runtime_error "get-meta returned no record"), buf, c)
      | Ok, Some b =>
          if negb (is_ready b) then (inl (runtime_error "meta record is not ready"), buf, c)
          else
            let nseg := u32 (positive_int_bin b "nseg" 1) in
            let seg_b := u64 (positive_int_bin b "seg_b" len) in
            let total_b := u64 (positive_int_bin b "tot_b" len) in
            if negb (total_b =? len) then
              (inl (runtime_error "meta record total size mismatch"), buf, c)
            else if nseg =? 1 then
              match get_bytes b with
              | Some p => if Z.of_nat (length p) =? len then (inr tt, p, c)
                          else (inl (runtime_error "single-record payload size mismatch"), buf, c)
              | None => (inl (runtime_error "single-record payload size mismatch"), buf, c)
              end
            else read_parts cache_key seg_b len (seqZ 0 nseg) 0 buf c
      end
  end.

(** ** [do_single_exists] and [do_single_delete] *)

Definition do_single_exists (key : string) (c : C) : (cpp_exc + bool) * C :=
  match native_key_to_cache_engine_key key (nc_dtype nc) with
  | inl e => (inl e, c)
  | inr cache_key =>
      let '(s, c) := ckey_exists (native_key (meta_user_key cache_key)) c in
      (match s with
       | Ok => inr true
       | NotFound => inr false
       | Failed _ => inl (throw_status "exists")
       end, c)
  end.

(** The results of the segment removals are ignored. *)
Fixpoint remove_segment_records (cache_key : string) (idx : list Z) (c : C) : C :=
  match idx with
  | [] => c
  | i :: idx =>
      let '(_, c) := ckey_remove (native_key (segment_user_key cache_key i)) c in
      remove_segment_records cache_key idx c
  end.

Definition do_single_delete (key : string) (c : C) : (cpp_exc + bool) * C :=
  match native_key_to_cache_engine_key key (nc_dtype nc) with
  | inl e => (inl e, c)
  | inr cache_key =>
      let '((s, rec), c) := ckey_get (native_key (meta_user_key cache_key)) c in
      match s with
      | NotFound => (inr false, c)
      | Failed _ => (inl (throw_status "delete-read-meta"), c)
      | Ok =>
          let nseg := match rec with Some b => u32 (positive_int_bin b "nseg" 1) | None => 1 end in
          let '(s, c) := ckey_remove (native_key (meta_user_key cache_key)) c in
          match s with
          | NotFound => (inr false, c)
          | Failed _ => (inl (throw_status "delete-meta"), c)
          | Ok => (inr true, remove_segment_records cache_key (seqZ 0 nseg) c)
          end
      end
  end.
End ops.

(** ** What the library promises *)

Class CClientSpec (C : Type) `{ClientSpec C} `{CClient C} := {
  cget_store k c : store (snd (ckey_get k c)) = store c;
  cget_ok k c b : fst (ckey_get k c) = (Ok, Some b) -> store c !! k = Some b;
  cget_missing k c : fst (fst (ckey_get k c)) = NotFound -> store c !! k = None;
  cput_frame k l ttl c k' : k' <> k -> untouched store k' c (snd (ckey_put k l ttl c));
  cput_ok k l ttl c : fst (ckey_put k l ttl c) = Ok -> written store k l c (snd (ckey_put k l ttl c));
  cput_doubt k l ttl c : untouched store k c (snd (ckey_put k l ttl c)) \/
    written store k l c (snd (ckey_put k l ttl c));
  cexists_store k c : store (snd (ckey_exists k c)) = store c;
  cexists_ok k c : fst (ckey_exists k c) = Ok -> is_Some (store c !! k);
  cexists_missing k c : fst (ckey_exists k c) = NotFound -> store c !! k = None;
  cremove_frame k c k' : k' <> k -> untouched store k' c (snd (ckey_remove k c));
  cremove_gone k c : fst (ckey_remove k c) = Ok \/ fst (ckey_remove k c) = NotFound ->
    store (snd (ckey_remove k c)) !! k = None;
  cremove_doubt k c : untouched store k c (snd (ckey_remove k c)) \/
    store (snd (ckey_remove k c)) !! k = None;
  healthy_cget k c : healthy c ->
    healthy (snd (ckey_get k c)) /\ capacity (snd (ckey_get k c)) = capacity c /\
    match store c !! k with
    | Some b => fst (ckey_get k c) = (Ok, Some b)
    | None => fst (fst (ckey_get k c)) = NotFound
    end;
  healthy_cput k l ttl c : healthy c -> payload_size l <= capacity c ->
    healthy (snd (ckey_put k l ttl c)) /\ capacity (snd (ckey_put k l ttl c)) = capacity c /\
    fst (ckey_put k l ttl c) = Ok;
  healthy_cremove k c : healthy c ->
    healthy (snd (ckey_remove k c)) /\ capacity (snd (ckey_remove k c)) = capacity c /\
    fst (ckey_remove k c) = if store c !! k then Ok else NotFound
}.

(** ** Writing *)

Section theorems.
Context {C : Type} `{AerospikeClient C} `{!ClientSpec C} `{!CClient C} `{!CClientSpec C} `{Env}.
Context {CK : Type} (to_string : CK -> string) `{!Inj (=) (=) to_string} (self : Engine).
Context (nc : NativeConn) (ck : CK) (key : string).

Abbreviation mk := (mk_of to_string self ck).
Abbreviation seg_of := (seg_of to_string self ck).
Abbreviation segs_of := (segs_of to_string self ck).
Abbreviation entry := (entry to_string self).
Abbreviation owns := (owns to_string self).

(** The native key names the same records as the cache key of the Python side. *)
Record same_key : Prop := {
  sk_ns : nc_ns nc = namespace (cfg self);
  sk_set : nc_set nc = set_name (cfg self);
  sk_key : native_key_to_cache_engine_key key (nc_dtype nc) = inr (to_string ck)
}.
Hypothesis Hsame : same_key.

(** The payload is within what 32-bit segment counts and sizes can hold. *)
Record native_fits (payload : bytes) : Prop := {
  nf_limits : native_limits_ok (nc_limits nc);
  nf_max : n_max_record (nc_limits nc) < 2 ^ 32;
  nf_count : Z.of_nat (length payload) <= n_target (nc_limits nc) * (2 ^ 32 - 1)
}.

Lemma native_meta_key : native_key nc (meta_user_key (to_string ck)) = mk.
Proof. unfold native_key. by rewrite (sk_ns Hsame), (sk_set Hsame). Qed.

Lemma native_segment_key i : native_key nc (segment_user_key (to_string ck) i) = seg_of i.
Proof. unfold native_key. by rewrite (sk_ns Hsame), (sk_set Hsame). Qed.

Lemma native_fits_plan payload : native_fits payload ->
  exists shard, native_plan (nc_limits nc) (Z.of_nat (length payload)) = inr shard /\
    plan_ok (Z.of_nat (length payload)) shard /\ seg_b shard <= n_max_record (nc_limits nc) /\
    nseg shard < 2 ^ 32 /\ (nseg shard <> 1 -> 0 < Z.of_nat (length payload)).
Proof.
  intros [Hl Hm Hc]. pose proof (nl_target _ Hl) as Ht.
  destruct (native_plan_eq (nc_limits nc) (Z.of_nat (length payload)) Hl) as (shard & Hn & Hp); [lia|nia|lia|].
  exists shard. destruct (plan_sound (Z.of_nat (length payload)) (n_target (nc_limits nc))
    (n_max_record (nc_limits nc)) 0 (n_single (nc_limits nc)) ltac:(lia) shard ltac:(lia) Hp) as [Hok Hb].
  split_and!; [done|done| | |].
  - destruct (decide (0 < Z.of_nat (length payload))); [lia|].
    assert (E : Z.of_nat (length payload) = 0) by lia. rewrite E in Hp. cbn in Hp. injection Hp as <-. cbn. lia.
  - revert Hn. unfold native_plan. destruct (_ && _); [intros [= <-]; cbn; lia|].
    destruct (_ =? 0); [done|]. destruct (_ =? 0); [done|]. destruct (_ <? _); [done|].
    intros [= <-]. cbn. apply Z.mod_pos_bound. lia.
  - revert Hn. unfold native_plan. destruct (_ && _) eqn:Eb; [by intros [= <-]|]. intros _ _.
    rewrite (nl_single _ Hl) in Eb. apply andb_false_iff in Eb. destruct Eb; zbool; lia.
Qed.

(** The bytes of segment [i]. *)
Definition piece (shard : ShardPlan) (v : bytes) (i : Z) : bytes :=
  slice (Z.to_nat (i * seg_b shard)) (Z.to_nat (seg_b shard)) v.

Lemma piece_native shard v i :
  plan_ok (Z.of_nat (length v)) shard -> 0 <= i < nseg shard ->
  0 < Z.of_nat (length v) < 2 ^ 64 -> seg_b shard < 2 ^ 32 ->
  let start := u64 (i * seg_b shard) in
  let data := slice (Z.to_nat start) (Z.to_nat (Z.min (seg_b shard) (u64 (Z.of_nat (length v) - start)))) v in
  take (Z.to_nat (u32 (Z.of_nat (length data)))) data = piece shard v i.
Proof.
  intros [Hpos Hcov Htight Hsb _] Hi Hlen Hsb32 start data. specialize (Htight ltac:(lia)).
  assert (Hstart : start = i * seg_b shard) by (apply u64_small; nia).
  assert (Hd : data = piece shard v i).
  { unfold data, piece. rewrite Hstart, u64_small by nia. unfold slice.
    destruct (Z.min_spec (seg_b shard) (Z.of_nat (length v) - i * seg_b shard)) as [[? ->]|[? ->]]; [done|].
    rewrite !take_ge; [done| |]; rewrite length_drop; lia. }
  rewrite Hd. rewrite u32_small, take_ge; [done|lia|].
  assert (Hl : (length (piece shard v i) <= Z.to_nat (seg_b shard))%nat) by (apply length_take_le || (unfold piece, slice; rewrite length_take; lia)).
  lia.
Qed.

Lemma run_put_segments shard v : forall idx c,
  plan_ok (Z.of_nat (length v)) shard -> 0 < Z.of_nat (length v) < 2 ^ 64 -> seg_b shard < 2 ^ 32 ->
  (forall i, i ∈ idx -> 0 <= i < nseg shard) -> NoDup idx ->
  let '(r, c') := put_segments nc (to_string ck) shard v idx c in
  (forall k, (forall i, i ∈ idx -> k <> seg_of i) -> store c' !! k = store c !! k) /\
  (r = inr tt -> forall i, i ∈ idx -> seg_data (store c') (seg_of i) = Some (piece shard v i)) /\
  (healthy c -> seg_b shard <= capacity c -> r = inr tt /\ healthy c' /\ capacity c' = capacity c).
Proof.
  intros idx. induction idx as [|i idx IH]; intros c Hp Hlen Hsb Hidx Hnd; cbn [put_segments].
  { split_and!; [done|by intros _ i ?%elem_of_nil|done]. }
  apply NoDup_cons in Hnd as [Hi Hnd]. unfold put_payload_record. rewrite native_segment_key, piece_native;
    [|done|by apply Hidx; left|done|done].
  set (bs := [("b", BBytes (piece shard v i))]).
  pose proof (cput_frame (seg_of i) bs (nc_ttl nc) c) as Hfr. pose proof (cput_ok (seg_of i) bs (nc_ttl nc) c) as Hok.
  pose proof (healthy_cput (seg_of i) bs (nc_ttl nc) c) as Hh.
  destruct (ckey_put (seg_of i) bs (nc_ttl nc) c) as [s c1]. cbn [fst snd] in *. unfold untouched, written in *.
  specialize (IH c1 Hp Hlen Hsb (fun j Hj => Hidx j (list_elem_of_further _ _ _ Hj)) Hnd).
  assert (Hsize : payload_size bs <= seg_b shard).
  { unfold bs, payload_size. cbn. unfold piece, slice. rewrite length_take. destruct Hp. lia. }
  assert (Hdata : s = Ok -> seg_data (store c1) (seg_of i) = Some (piece shard v i)).
  { intros Hs. unfold seg_data. rewrite (Hok Hs), (merged_named _ _ "b" (BBytes (piece shard v i))); done. }
  destruct (decide (s = Ok)) as [Hs|Hs].
  - destruct (put_segments nc (to_string ck) shard v idx c1) as [r c2]. destruct IH as (Hfr2 & Hok2 & Hh2).
    assert (Hi2 : forall j, j ∈ idx -> seg_of i <> seg_of j).
    { intros j Hj E. apply (seg_of_inj to_string self) in E as [_ ->]; [done| |].
      - apply (Hidx i). by left.
      - apply (Hidx j). by right. }
    split_and!.
    + intros k Hk. rewrite Hfr2, Hfr; [done| |]; intros; apply Hk; [by left|by right].
    + intros Hr j [->|Hj]%elem_of_cons; [|by apply Hok2]. unfold seg_data. rewrite Hfr2 by done. by apply Hdata.
    + intros Hc Hcap. destruct (Hh Hc ltac:(lia)) as (Hc1 & Hcap1 & _).
      destruct (Hh2 Hc1 ltac:(lia)) as (? & ? & ?). split_and!; [done|done|congruence].
  - split_and!.
    + intros k Hk. apply Hfr. apply Hk. by left.
    + done.
    + intros Hc Hcap. destruct (Hh Hc ltac:(lia)) as (_ & _ & ?). done.
Qed.

(** The bins [put_meta_record] writes. *)
Record native_written (p : ShardPlan) (payload : bytes) (l : bin_list) : Prop := {
  nw_state : dict_of l !! "state" = Some (BStr "ready");
  nw_nseg : dict_of l !! "nseg" = Some (BInt (nseg p));
  nw_seg : dict_of l !! "seg_b" = Some (BInt (seg_b p));
  nw_tot : dict_of l !! "tot_b" = Some (BInt (Z.of_nat (length payload)));
  nw_b : nseg p = 1 -> dict_of l !! "b" = Some (BBytes payload);
  nw_crc : dict_of l !! "crc32" = None
}.

Lemma native_entry p payload l (old : option bins) st :
  plan_ok (Z.of_nat (length payload)) p -> native_written p payload l ->
  st !! mk = Some (merged old l) ->
  (nseg p <> 1 -> mapM (seg_data st) (segs_of (nseg p)) = Some (cut p payload)) ->
  entry st ck = if crc_fits self (default ∅ old) payload then Some payload else None.
Proof.
  intros Hp [Hs Hn _ _ Hb Hc] Hm Hsegs. unfold Store.entry. rewrite Hm.
  assert (Hr : is_ready (merged old l) = true).
  { unfold is_ready. rewrite (merged_named _ _ _ _ Hs). by apply bool_decide_eq_true. }
  assert (Hpay : payload_of to_string self st ck (merged old l) = Some payload).
  { unfold payload_of, bins_nseg. rewrite (merged_named _ _ _ _ Hn). cbn [bin_int].
    destruct (Z.eqb_spec (nseg p) 1) as [E|E]; [by rewrite (merged_named _ _ _ _ (Hb E))|].
    rewrite Hsegs by done. cbn. by rewrite cut_concat. }
  rewrite Hr, Hpay. unfold crc_fits. by rewrite merged_other.
Qed.

(** The last request of a write. *)
Lemma run_put_meta_record shard v now c :
  plan_ok (Z.of_nat (length v)) shard -> Z.of_nat (length v) < 2 ^ 32 \/ nseg shard <> 1 ->
  let inline := if nseg shard =? 1 then Some v else None in
  let '(r, c') := put_meta_record nc (meta_user_key (to_string ck)) shard (Z.of_nat (length v)) inline now c in
  exists l, native_written shard v l /\
  (forall k, k <> mk -> store c' !! k = store c !! k) /\
  (store c' !! mk = store c !! mk \/ store c' !! mk = Some (merged (store c !! mk) l)) /\
  (r = inr tt -> store c' !! mk = Some (merged (store c !! mk) l)) /\
  (healthy c -> (nseg shard = 1 -> seg_b shard <= capacity c) -> 0 <= capacity c -> r = inr tt /\ healthy c').
Proof.
  intros Hp Hlen inline. unfold put_meta_record. rewrite native_meta_key.
  assert (Hinl : match inline with
    | Some buf => [("b", BBytes (take (Z.to_nat (u32 (Z.of_nat (length v)))) buf))]
    | None => []
    end = if nseg shard =? 1 then [("b", BBytes v)] else []).
  { unfold inline. destruct (Z.eqb_spec (nseg shard) 1) as [E|E]; [|done]. rewrite u32_small, take_ge; [done|lia|].
    destruct Hlen; [lia|done]. }
  rewrite Hinl. clear Hinl inline. set (l := _ ++ _).
  assert (Hw : native_written shard v l).
  { unfold l. destruct (Z.eqb_spec (nseg shard) 1); split; done. }
  assert (Hsize : payload_size l = if nseg shard =? 1 then Z.of_nat (length v) else 0).
  { unfold l. destruct (nseg shard =? 1); unfold payload_size; cbn; lia. }
  pose proof (cput_frame mk l (nc_ttl nc) c) as Hfr. pose proof (cput_ok mk l (nc_ttl nc) c) as Hok.
  pose proof (cput_doubt mk l (nc_ttl nc) c) as Hd. pose proof (healthy_cput mk l (nc_ttl nc) c) as Hh.
  destruct (ckey_put mk l (nc_ttl nc) c) as [s c1]. cbn [fst snd] in *. unfold untouched, written in *.
  exists l. split; [done|]. split; [exact Hfr|]. split; [exact Hd|]. split.
  - destruct (decide (s = Ok)); [auto|done].
  - intros Hc Hcap Hc0. destruct (Hh Hc) as (Hc1 & _ & ->); [|by rewrite decide_True].
    rewrite Hsize. destruct (Z.eqb_spec (nseg shard) 1) as [E|E]; [|done].
    rewrite <- (plan_single _ _ Hp E). by apply Hcap.
Qed.

(** Keys of a segment list. *)
Lemma segs_of_seqZ n : segs_of n = seg_of <$> seqZ 0 n.
Proof. done. Qed.

Lemma pieces_cut st shard v :
  (forall i, i ∈ seqZ 0 (nseg shard) -> seg_data st (seg_of i) = Some (piece shard v i)) ->
  mapM (seg_data st) (segs_of (nseg shard)) = Some (cut shard v).
Proof.
  intros Hs. apply mapM_Some_2. rewrite segs_of_seqZ. unfold cut. apply Forall2_fmap_2, Forall_Forall2_diag.
  by apply Forall_forall.
Qed.

Lemma pieces_of_cut st shard v i :
  mapM (seg_data st) (segs_of (nseg shard)) = Some (cut shard v) -> i ∈ seqZ 0 (nseg shard) ->
  seg_data st (seg_of i) = Some (piece shard v i).
Proof.
  intros Hs%mapM_Some_1. rewrite segs_of_seqZ in Hs. unfold cut in Hs. apply Forall2_fmap in Hs.
  revert Hs. generalize (seqZ 0 (nseg shard)). intros l Hl Hi. induction l as [|j l IH]; [by apply elem_of_nil in Hi|].
  apply Forall2_cons in Hl as [Hj Hl]. apply elem_of_cons in Hi as [->|Hi]; [exact Hj|by apply IH].
Qed.

(** A native write under any faults: it touches only the records of its key, the meta record last,
    and what it leaves when it returns. *)
Lemma run_do_single_set payload now c :
  native_fits payload ->
  let '(r, c') := do_single_set nc key payload now c in
  exists shard l, plan_ok (Z.of_nat (length payload)) shard /\ nseg shard < 2 ^ 32 /\
    seg_b shard <= n_max_record (nc_limits nc) /\ (nseg shard <> 1 -> 0 < Z.of_nat (length payload)) /\
    native_written shard payload l /\
  (forall k, ~ owns ck k -> store c' !! k = store c !! k) /\
  let in_place := store c' !! mk = Some (merged (store c !! mk) l) /\
    (nseg shard <> 1 -> mapM (seg_data (store c')) (segs_of (nseg shard)) = Some (cut shard payload)) in
  (store c' !! mk = store c !! mk \/ in_place) /\ (r = inr tt -> in_place) /\
  (healthy c -> n_max_record (nc_limits nc) <= capacity c -> r = inr tt /\ healthy c').
Proof.
  intros Hf. destruct (native_fits_plan _ Hf) as (shard & Hplan & Hp & Hsb & Hn & Hne). unfold do_single_set.
  rewrite (sk_key Hsame), Hplan. destruct Hf as [Hl Hm Hc]. pose proof (nl_target _ Hl) as Ht.
  assert (Hmeta : forall i, 0 <= i -> mk <> seg_of i) by (intros; by apply mk_of_seg_of).
  destruct (Z.eqb_spec (nseg shard) 1) as [E|E].
  - pose proof (run_put_meta_record shard payload now c Hp) as Hput. rewrite E in Hput. cbn [Z.eqb Pos.eqb] in Hput.
    assert (Hlen : Z.of_nat (length payload) < 2 ^ 32) by (rewrite <- (plan_single _ _ Hp E); lia).
    specialize (Hput (or_introl Hlen)). destruct (put_meta_record _ _ _ _ _ _ _) as [r c1].
    destruct Hput as (l & Hw & Hfr & Hd & Hok & Hh). exists shard, l.
    split_and!; [done..| | | |].
    + intros k Hk. apply Hfr. intros ->. apply Hk. by left.
    + destruct Hd; [by left|right; by split].
    + intros Hr. split; [by apply Hok|done].
    + intros Hc0 Hcap. apply Hh; [done| |]; lia.
  - pose proof (Hne E) as Hlen.
    pose proof (run_put_segments shard payload (seqZ 0 (nseg shard)) c Hp ltac:(nia) ltac:(lia)) as Hseg.
    specialize (Hseg (fun i Hi => ltac:(apply elem_of_seqZ in Hi; lia)) (NoDup_seqZ _ _)).
    destruct (put_segments _ _ _ _ _ _) as [r c1]. destruct Hseg as (Hfr1 & Hok1 & Hh1).
    assert (Hm1 : store c1 !! mk = store c !! mk).
    { apply Hfr1. intros i Hi%elem_of_seqZ. apply Hmeta. lia. }
    assert (Hfr1' : forall k, ~ owns ck k -> store c1 !! k = store c !! k).
    { intros k Hk. apply Hfr1. intros i Hi%elem_of_seqZ ->. apply Hk. right. exists i. split; [lia|done]. }
    pose proof (run_put_meta_record shard payload now c1 Hp (or_intror E)) as Hput.
    rewrite (proj2 (Z.eqb_neq _ _) E) in Hput. cbv zeta in Hput. destruct r as [e|[]].
    { destruct (put_meta_record nc (meta_user_key (to_string ck)) shard (Z.of_nat (length payload)) None now c1)
        as [r2 c2]. destruct Hput as (l & Hw & _).
      exists shard, l. split_and!; [done..|by left|done|]. intros Hc0 Hcap. destruct (Hh1 Hc0 ltac:(lia)) as (? & _). done. }
    destruct (put_meta_record _ _ _ _ _ _ _) as [r2 c2]. destruct Hput as (l & Hw & Hfr & Hd & Hok & Hh).
    assert (Hsegs : mapM (seg_data (store c2)) (segs_of (nseg shard)) = Some (cut shard payload)).
    { apply pieces_cut. intros i Hi. unfold seg_data. rewrite Hfr; [by apply Hok1|].
      apply elem_of_seqZ in Hi. apply not_eq_sym, Hmeta. lia. }
    exists shard, l. split_and!; [done..| | | |].
    + intros k Hk. rewrite Hfr; [by apply Hfr1'|]. intros ->. apply Hk. by left.
    + rewrite Hm1 in Hd. destruct Hd; [by left|right; by split].
    + intros Hr. rewrite <- Hm1. split; [by apply Hok|done].
    + intros Hc0 Hcap. destruct (Hh1 Hc0 ltac:(lia)) as (_ & Hc1 & Ec). apply Hh; [done| |]; lia.
Qed.

(** ** Reading *)

Lemma run_read_payload_record i buf offset len c :
  let '(r, buf', c') := read_payload_record nc (segment_user_key (to_string ck) i) buf offset len c in
  store c' = store c /\ (r <> inr true -> buf' = buf) /\
  (r = inr true -> exists p, seg_data (store c) (seg_of i) = Some p /\ Z.of_nat (length p) = len /\
     buf' = splice (Z.to_nat offset) p buf) /\
  (healthy c -> healthy c' /\ forall p, seg_data (store c) (seg_of i) = Some p ->
     Z.of_nat (length p) = len -> r = inr true).
Proof.
  unfold read_payload_record. rewrite native_segment_key.
  pose proof (cget_store (seg_of i) c) as Hst. pose proof (cget_ok (seg_of i) c) as Hok.
  pose proof (healthy_cget (seg_of i) c) as Hh. unfold seg_data in *.
  destruct (ckey_get (seg_of i) c) as [[s rec] c1]. cbn [fst snd] in *.
  assert (Hhealthy : forall r, (forall b, (s, rec) = (Ok, Some b) -> store c !! seg_of i = Some b ->
      forall p, b !! "b" = Some (BBytes p) -> Z.of_nat (length p) = len -> r = inr true) ->
    healthy c -> healthy c1 /\ forall p, match store c !! seg_of i with
      | Some b => match b !! "b" with Some (BBytes p) => Some p | _ => None end | None => None end = Some p ->
      Z.of_nat (length p) = len -> r = (inr true : cpp_exc + bool)).
  { intros r Hr Hc. destruct (Hh Hc) as (Hc1 & _ & Hres). split; [done|]. intros p.
    destruct (store c !! seg_of i) as [b|] eqn:Eb; [|done]. intros Hp. apply (Hr b); [done|done|].
    destruct (b !! "b") as [[]|]; congruence. }
  destruct s; [destruct rec as [b|]| |].
  - unfold get_bytes. specialize (Hok b eq_refl).
    destruct (b !! "b") as [[z|z|p|z]|] eqn:Eb;
      try (split_and!; [done|done|done|apply Hhealthy; intros ? [= <-] _ ? E; congruence]).
    destruct (Z.eqb_spec (Z.of_nat (length p)) len) as [E|E].
    + split_and!; [done|done| |by apply Hhealthy]. intros _. exists p. by rewrite Hok, Eb.
    + split_and!; [done|done|done|]. apply Hhealthy. intros ? [= <-] _ p' Hp'. rewrite Eb in Hp'.
      by injection Hp' as <-.
  - split_and!; [done|done|done|by apply Hhealthy].
  - split_and!; [done|done|done|by apply Hhealthy].
  - split_and!; [done|done|done|by apply Hhealthy].
Qed.

Lemma splice_length (o : nat) (p buf : bytes) :
  (o + length p <= length buf)%nat -> length (splice o p buf) = length buf.
Proof. intros Hl. unfold splice. rewrite !length_app, length_take, length_drop. lia. Qed.

Lemma splice_take (o : nat) (p buf : bytes) :
  (o + length p <= length buf)%nat -> take (o + length p) (splice o p buf) = take o buf ++ p.
Proof.
  intros Hl. unfold splice. rewrite (app_assoc (take o buf)).
  replace (o + length p)%nat with (length (take o buf ++ p)) by (rewrite length_app, length_take; lia).
  apply take_app_length.
Qed.

(** What the loop over the segments has put into the buffer when it ends well. *)
Lemma run_read_parts sb len : forall idx offset buf c,
  0 <= offset <= len -> len = Z.of_nat (length buf) -> len < 2 ^ 64 -> 0 <= sb ->
  let '(r, buf', c') := read_parts nc (to_string ck) sb len idx offset buf c in
  store c' = store c /\ length buf' = length buf /\
  (r = inr tt -> exists ps, mapM (seg_data (store c)) (seg_of <$> idx) = Some ps /\
     (Z.to_nat offset + length (concat ps) <= length buf)%nat /\
     take (Z.to_nat offset + length (concat ps)) buf' = take (Z.to_nat offset) buf ++ concat ps).
Proof.
  intros idx. induction idx as [|i idx IH]; intros offset buf c Ho Hlen H64 Hsb; cbn [read_parts].
  { split_and!; [done|done|]. intros _. exists []. cbn. rewrite Nat.add_0_r, app_nil_r. split_and!; [done|lia|done]. }
  rewrite (u64_small (len - offset)) by lia. set (cl := Z.min sb (len - offset)).
  pose proof (run_read_payload_record i buf offset cl c) as Hr.
  destruct (read_payload_record _ _ _ _ _ _) as [[r buf1] c1]. destruct Hr as (Hst & Hkeep & Hgot & _).
  destruct r as [e|[]].
  - rewrite Hkeep by done. split_and!; done.
  - destruct (Hgot eq_refl) as (p & Hp & Hpl & ->).
    assert (Hfit : (Z.to_nat offset + length p <= length buf)%nat) by lia.
    rewrite (u64_small (offset + cl)) by lia.
    specialize (IH (offset + cl) (splice (Z.to_nat offset) p buf) c1).
    rewrite splice_length in IH by done. specialize (IH ltac:(lia) Hlen H64 Hsb).
    destruct (read_parts _ _ _ _ _ _ _ _) as [[r buf2] c2]. destruct IH as (Hst2 & Hl2 & Hr2).
    split_and!; [congruence|congruence|]. intros Hr. destruct (Hr2 Hr) as (ps & Hps & Hfit2 & Htake).
    exists (p :: ps). rewrite Hst in Hps. cbn [fmap list_fmap mapM concat]. rewrite Hp. cbn. rewrite Hps. cbn.
    rewrite length_app. replace (Z.to_nat (offset + cl)) with (Z.to_nat offset + length p)%nat in * by lia.
    rewrite splice_take in Htake by done.
    rewrite Nat.add_assoc, app_assoc. split_and!; [done|lia|done].
  - rewrite Hkeep by done. split_and!; done.
Qed.

Lemma length_piece shard v i :
  0 <= i -> 0 <= seg_b shard ->
  Z.of_nat (length (piece shard v i)) = Z.min (seg_b shard) (Z.max 0 (Z.of_nat (length v) - i * seg_b shard)).
Proof. intros Hi Hs. unfold piece, slice. rewrite length_take, length_drop. nia. Qed.

(** On a healthy cluster the loop reads the segments of a plan to their end. *)
Lemma run_read_parts_healthy shard v n : forall i buf c,
  plan_ok (Z.of_nat (length v)) shard -> 0 < Z.of_nat (length v) < 2 ^ 64 ->
  0 <= i -> i + Z.of_nat n = nseg shard -> healthy c ->
  (forall j, 0 <= j < nseg shard -> seg_data (store c) (seg_of j) = Some (piece shard v j)) ->
  let '(r, _, c') := read_parts nc (to_string ck) (seg_b shard) (Z.of_nat (length v)) (seqZ i (Z.of_nat n))
    (Z.min (i * seg_b shard) (Z.of_nat (length v))) buf c in
  r = inr tt /\ healthy c'.
Proof.
  induction n as [|n IH]; intros i buf c Hp Hlen Hi Hn Hc Hsegs; [by rewrite seqZ_nil by lia|].
  destruct Hp as [Hpos Hcov Htight Hsb Hsingle]. specialize (Htight ltac:(lia)).
  rewrite seqZ_cons by lia. cbn [read_parts].
  assert (Hoff : i * seg_b shard <= Z.of_nat (length v)) by nia.
  rewrite (Z.min_l (i * seg_b shard)), (u64_small (Z.of_nat (length v) - _)) by nia.
  set (cl := Z.min (seg_b shard) (Z.of_nat (length v) - i * seg_b shard)).
  pose proof (run_read_payload_record i buf (i * seg_b shard) cl c) as Hr.
  destruct (read_payload_record _ _ _ _ _ _) as [[r buf1] c1]. destruct Hr as (Hst & _ & _ & Hh).
  destruct (Hh Hc) as [Hc1 Hr]. rewrite (Hr (piece shard v i)); [|apply Hsegs; lia|rewrite length_piece; lia].
  rewrite (u64_small (i * seg_b shard + cl)) by lia.
  replace (Z.of_nat (S n) - 1) with (Z.of_nat n) by lia. rewrite Z.pred_succ || idtac.
  assert (Enext : i * seg_b shard + cl = Z.min ((i + 1) * seg_b shard) (Z.of_nat (length v))) by (unfold cl; lia).
  rewrite Enext. replace (Z.succ i) with (i + 1) by lia.
  replace (Z.pred (Z.of_nat (S n))) with (Z.of_nat n) by lia.
  apply IH; [by split|done|lia|lia|done|]. intros j Hj. rewrite Hst. by apply Hsegs.
Qed.

(** ** The layout both connectors write and the native one reads *)

Record laid_out (shard : ShardPlan) (payload : bytes) (st : gmap Keys.key bins) : Prop := {
  lo_meta : exists b, st !! mk = Some b /\ is_ready b = true /\ b !! "nseg" = Some (BInt (nseg shard)) /\
    b !! "seg_b" = Some (BInt (seg_b shard)) /\ b !! "tot_b" = Some (BInt (Z.of_nat (length payload))) /\
    (nseg shard = 1 -> b !! "b" = Some (BBytes payload));
  lo_segs : nseg shard <> 1 -> mapM (seg_data st) (segs_of (nseg shard)) = Some (cut shard payload)
}.

Lemma laid_out_native p payload l old st : native_written p payload l ->
  st !! mk = Some (merged old l) ->
  (nseg p <> 1 -> mapM (seg_data st) (segs_of (nseg p)) = Some (cut p payload)) -> laid_out p payload st.
Proof.
  intros [Hs Hn Hg Ht Hb _] Hm Hsegs. split; [|done]. exists (merged old l).
  split_and!; [done| |by apply merged_named..|intros E; apply merged_named; by apply Hb].
  unfold is_ready. rewrite (merged_named _ _ _ _ Hs). by apply bool_decide_eq_true.
Qed.

Lemma laid_out_python p payload l st st' : meta_written self p payload l ->
  committed to_string self ck p payload l st st' -> laid_out p payload st'.
Proof.
  intros Hw [Hm Hsegs]. pose proof (meta_written_ready self _ _ _ (st !! mk) Hw) as Hr.
  destruct Hw as [Hs Hn Hg Ht Hb _]. split; [|done]. exists (merged (st !! mk) l).
  split_and!; [done|done|by apply merged_named..|intros E; apply merged_named; by apply Hb].
Qed.

Lemma get_bytes_eq b p : b !! "b" = Some (BBytes p) -> get_bytes b = Some p.
Proof. unfold get_bytes. by intros ->. Qed.

(** A native read of what was written reads it all. *)
Lemma native_get_laid_out shard payload buf c :
  plan_ok (Z.of_nat (length payload)) shard -> nseg shard < 2 ^ 32 -> Z.of_nat (length payload) < 2 ^ 64 ->
  (nseg shard <> 1 -> 0 < Z.of_nat (length payload)) ->
  laid_out shard payload (store c) -> healthy c -> length buf = length payload ->
  exists c', do_single_get nc key buf c = (inr tt, payload, c') /\ store c' = store c /\ healthy c'.
Proof.
  intros Hp Hn H64 Hl [(b & Hb & Hr & Hbn & Hbs & Hbt & Hbb) Hsegs] Hc Hlen. unfold do_single_get.
  rewrite (sk_key Hsame), native_meta_key.
  destruct (healthy_cget mk c Hc) as (Hc1 & _ & Hget). rewrite Hb in Hget. pose proof (cget_store mk c) as Hst.
  destruct (ckey_get mk c) as [[s rec] c1]. cbn [fst snd] in *. injection Hget as -> ->. rewrite Hr. cbn [negb].
  pose proof Hp as [Hpos Hcov Htight Hsb Hsingle].
  assert (Epos : forall name v f, b !! name = Some (BInt v) -> positive_int_bin b name f = if 0 <? v then v else f)
    by (intros name v f E; unfold positive_int_bin; by rewrite E).
  rewrite (Epos _ _ _ Hbn), (Epos _ _ _ Hbs), (Epos _ _ _ Hbt), (proj2 (Z.ltb_lt 0 (nseg shard))) by lia.
  rewrite (u32_small (nseg shard)) by lia. rewrite Hlen.
  assert (Etot : u64 (if 0 <? Z.of_nat (length payload) then Z.of_nat (length payload) else Z.of_nat (length payload))
    = Z.of_nat (length payload)) by (rewrite u64_small by (destruct (0 <? _); lia); by destruct (0 <? _)).
  rewrite Etot, Z.eqb_refl. cbn [negb]. destruct (Z.eqb_spec (nseg shard) 1) as [E|E].
  { rewrite (get_bytes_eq _ _ (Hbb E)), Z.eqb_refl. by exists c1. }
  specialize (Hl E). specialize (Htight Hl).
  rewrite (proj2 (Z.ltb_lt 0 (seg_b shard))), (u64_small (seg_b shard)) by nia.
  specialize (Hsegs E).
  assert (Hdata : forall j, 0 <= j < nseg shard -> seg_data (store c1) (seg_of j) = Some (piece shard payload j)).
  { intros j Hj. rewrite Hst. apply (pieces_of_cut _ shard); [done|]. apply elem_of_seqZ. lia. }
  pose proof (run_read_parts_healthy shard payload (Z.to_nat (nseg shard)) 0 buf c1 Hp ltac:(lia) ltac:(lia)
    ltac:(lia) Hc1 Hdata) as Hread.
  pose proof (run_read_parts (seg_b shard) (Z.of_nat (length payload)) (seqZ 0 (nseg shard)) 0 buf c1
    ltac:(lia) ltac:(lia) H64 Hsb) as Hsound.
  rewrite Z2Nat.id, Z.mul_0_l, Z.min_l in Hread by lia.
  destruct (read_parts _ _ _ _ _ _ _ _) as [[r buf'] c2]. destruct Hread as [-> Hc2].
  destruct Hsound as (Hst2 & Hl2 & Hs2). destruct (Hs2 eq_refl) as (ps & Hps & _ & Htake).
  exists c2. split_and!; [|congruence|done]. do 2 f_equal.
  rewrite Hst, <- segs_of_seqZ, Hsegs in Hps. injection Hps as <-. rewrite cut_concat in Htake by done.
  cbn [Z.to_nat Nat.add take app] in Htake. rewrite take_ge in Htake by lia. done.
Qed.

(** What an entry says of its records. *)
Lemma entry_records st p : entry st ck = Some p ->
  exists b n, st !! mk = Some b /\ is_ready b = true /\ bins_nseg b = inr n /\
    (n = 1 -> b !! "b" = Some (BBytes p)) /\
    (n <> 1 -> exists ps, mapM (seg_data st) (segs_of n) = Some ps /\ concat ps = p).
Proof.
  unfold Store.entry. destruct (st !! mk) as [b|]; [|done]. destruct (is_ready b) eqn:Er; [|done].
  unfold payload_of. destruct (bins_nseg b) as [e|n] eqn:En; [done|]. intros He. exists b, n.
  split; [done|]. split; [done|]. split; [done|].
  destruct (Z.eqb_spec n 1) as [E|E]; (split; [intros E'|intros E']); try done.
  - destruct (b !! "b") as [[z|z|q|z]|]; try done. destruct (crc_fits self b q); congruence.
  - destruct (mapM (seg_data st) (segs_of n)) as [ps|]; [|done]. cbn in He.
    destruct (crc_fits self b (concat ps)); [|done]. exists ps. split; [done|]. congruence.
Qed.

(** Under any faults a native read that returns has put the entry of the key, as the Python side
    sees it, at the start of the buffer. *)
Lemma run_do_single_get buf c :
  Z.of_nat (length buf) < 2 ^ 64 ->
  let '(r, buf', c') := do_single_get nc key buf c in
  store c' = store c /\ length buf' = length buf /\
  (r = inr tt -> forall p, entry (store c) ck = Some p ->
     (forall b, store c !! mk = Some b -> wf_meta b /\ positive_int_bin b "nseg" 1 < 2 ^ 32) ->
     (length p <= length buf')%nat /\ take (length p) buf' = p).
Proof.
  intros H64. unfold do_single_get. rewrite (sk_key Hsame), native_meta_key.
  pose proof (cget_store mk c) as Hst. pose proof (cget_ok mk c) as Hok.
  destruct (ckey_get mk c) as [[s rec] c1]. cbn [fst snd] in *.
  destruct s; [destruct rec as [b|]; [|done]|done|done].
  specialize (Hok b eq_refl). destruct (is_ready b); [|done]. cbn [negb].
  destruct (u64 (positive_int_bin b "tot_b" _) =? _); [|done]. cbn [negb].
  assert (Hn : forall p, entry (store c) ck = Some p ->
     (forall b, store c !! mk = Some b -> wf_meta b /\ positive_int_bin b "nseg" 1 < 2 ^ 32) ->
     exists n, u32 (positive_int_bin b "nseg" 1) = n /\ 1 <= n /\ (n = 1 -> b !! "b" = Some (BBytes p)) /\
       (n <> 1 -> exists ps, mapM (seg_data (store c)) (segs_of n) = Some ps /\ concat ps = p)).
  { intros p (b' & n & Hb' & _ & Hn & H1 & H2)%entry_records Hwf. rewrite Hok in Hb'. injection Hb' as <-.
    destruct (Hwf b Hok) as [[Hwn _] Hlt]. unfold bins_nseg in Hn.
    destruct (b !! "nseg") as [v|] eqn:Ev; [|done]. destruct (Hwn v eq_refl) as (n' & -> & Hn').
    cbn in Hn. injection Hn as ->. exists n.
    assert (Ep : positive_int_bin b "nseg" 1 = n).
    { unfold positive_int_bin. rewrite Ev. by rewrite (proj2 (Z.ltb_lt 0 n)) by lia. }
    rewrite Ep in *. by rewrite u32_small by lia. }
  destruct (Z.eqb_spec (u32 (positive_int_bin b "nseg" 1)) 1) as [E|E].
  - unfold get_bytes. destruct (b !! "b") as [[z|z|q|z]|] eqn:Eb; try done.
    destruct (Z.eqb_spec (Z.of_nat (length q)) (Z.of_nat (length buf))) as [El|El]; [|done].
    split_and!; [done|lia|]. intros _ p Hp Hwf. destruct (Hn p Hp Hwf) as (n & Hn' & _ & H1 & _).
    rewrite E in Hn'. specialize (H1 (eq_sym Hn')). assert (q = p) as -> by congruence.
    split; [done|]. by apply take_ge.
  - set (sb := u64 _). assert (Hsb : 0 <= sb) by (apply Z.mod_pos_bound; lia).
    pose proof (run_read_parts sb (Z.of_nat (length buf)) (seqZ 0 (u32 (positive_int_bin b "nseg" 1))) 0 buf c1
      ltac:(lia) eq_refl H64 Hsb) as Hparts.
    destruct (read_parts _ _ _ _ _ _ _ _) as [[r buf'] c2]. destruct Hparts as (Hst2 & Hl & Hr).
    split_and!; [congruence|done|]. intros -> p Hp Hwf. destruct (Hn p Hp Hwf) as (n & <- & _ & _ & H2).
    destruct (H2 E) as (ps & Hps & <-). destruct (Hr eq_refl) as (ps' & Hps' & Hfit & Htake).
    rewrite Hst, <- segs_of_seqZ, Hps in Hps'. injection Hps' as <-. cbn [Z.to_nat Nat.add take app] in *.
    by rewrite Hl.
Qed.

(** ** Deleting *)

Lemma run_remove_segment_records : forall idx c,
  let c' := remove_segment_records nc (to_string ck) idx c in
  (forall k, (forall i, i ∈ idx -> k <> seg_of i) -> store c' !! k = store c !! k) /\
  (forall k, store c !! k = None -> store c' !! k = None) /\
  (healthy c -> healthy c' /\ forall i, i ∈ idx -> store c' !! seg_of i = None).
Proof.
  intros idx. induction idx as [|i idx IH]; intros c; cbn [remove_segment_records].
  { split_and!; [done|done|]. intros Hc. split; [done|]. by intros i ?%elem_of_nil. }
  rewrite native_segment_key.
  pose proof (cremove_frame (seg_of i) c) as Hfr. pose proof (cremove_gone (seg_of i) c) as Hg.
  pose proof (cremove_doubt (seg_of i) c) as Hd. pose proof (healthy_cremove (seg_of i) c) as Hh.
  destruct (ckey_remove (seg_of i) c) as [s c1]. cbn [fst snd] in *. unfold untouched in *.
  destruct (IH c1) as (Hfr1 & Hnone & Hh1).
  assert (Hnone1 : forall k, store c !! k = None -> store c1 !! k = None).
  { intros k Hk. destruct (decide (k = seg_of i)) as [->|Hne]; [|by rewrite Hfr]. destruct Hd; congruence. }
  split_and!.
  - intros k Hk. rewrite Hfr1, Hfr; [done| |]; intros; apply Hk; [by left|by right].
  - intros k Hk. by apply Hnone, Hnone1.
  - intros Hc. destruct (Hh Hc) as (Hc1 & _ & Hs). destruct (Hh1 Hc1) as [Hc2 Hgone]. split; [done|].
    intros j [->|Hj]%elem_of_cons; [|by apply Hgone]. apply Hnone, Hg.
    destruct (store c !! seg_of i); subst; auto.
Qed.

Lemma entry_none st : st !! mk = None -> entry st ck = None.
Proof. intros Hm. unfold Store.entry. by rewrite Hm. Qed.

Lemma run_do_single_delete c :
  let '(r, c') := do_single_delete nc key c in
  (forall k, ~ owns ck k -> store c' !! k = store c !! k) /\
  (forall ok, r = inr ok -> entry (store c') ck = None) /\
  (healthy c -> (r = inr true <-> is_Some (store c !! mk)) /\
     forall b, store c !! mk = Some b -> positive_int_bin b "nseg" 1 < 2 ^ 32 ->
     store c' !! mk = None /\ forall i, 0 <= i < positive_int_bin b "nseg" 1 -> store c' !! seg_of i = None).
Proof.
  unfold do_single_delete. rewrite (sk_key Hsame), native_meta_key.
  pose proof (cget_store mk c) as Hst. pose proof (cget_missing mk c) as Hmiss. pose proof (cget_ok mk c) as Hok.
  pose proof (healthy_cget mk c) as Hh. destruct (ckey_get mk c) as [[s rec] c1]. cbn [fst snd] in *.
  destruct s; cycle 1.
  { specialize (Hmiss eq_refl). split_and!; [by intros; rewrite Hst|intros; apply entry_none; by rewrite Hst|].
    intros Hc. split; [split; [done|]|]; rewrite Hmiss; [by intros [? ?]|done]. }
  { split_and!; [by intros; rewrite Hst|done|]. intros Hc. destruct (Hh Hc) as (_ & _ & Hres).
    destruct (store c !! mk); done. }
  set (n := match rec with Some b => _ | None => _ end).
  pose proof (cremove_frame mk c1) as Hfr. pose proof (cremove_gone mk c1) as Hg.
  pose proof (healthy_cremove mk c1) as Hh1. destruct (ckey_remove mk c1) as [s c2]. cbn [fst snd] in *. unfold untouched in *.
  assert (Hframe : forall k, ~ owns ck k -> store c2 !! k = store c !! k).
  { intros k Hk. rewrite Hfr, Hst; [done|]. intros ->. apply Hk. by left. }
  assert (Hhealthy : healthy c -> exists b, rec = Some b /\ store c !! mk = Some b /\ s = Ok /\ healthy c2).
  { intros Hc. destruct (Hh Hc) as (Hc1 & _ & Hres). destruct (Hh1 Hc1) as (Hc2 & _ & Hs). rewrite Hst in Hs.
    destruct (store c !! mk) as [b|]; [|done]. injection Hres as ->. by exists b. }
  destruct s.
  - specialize (Hg (or_introl eq_refl)).
    destruct (run_remove_segment_records (seqZ 0 n) c2) as (Hfr2 & Hnone & Hh2).
    set (c3 := remove_segment_records _ _ _ _) in *. split_and!.
    + intros k Hk. rewrite Hfr2; [by apply Hframe|]. intros i Hi%elem_of_seqZ ->. apply Hk. right. exists i. split; [lia|done].
    + intros ok _. by apply entry_none, Hnone.
    + intros Hc. destruct (Hhealthy Hc) as (b & Hrec & Hb & _ & Hc2). split; [by rewrite Hb|].
      intros b' Hb' Hlt. assert (b' = b) as -> by congruence. split; [by apply Hnone|]. intros i Hi.
      apply (Hh2 Hc2). apply elem_of_seqZ. unfold n. rewrite Hrec, u32_small by lia. lia.
  - specialize (Hg (or_intror eq_refl)). split_and!; [exact Hframe|intros; by apply entry_none|].
    intros Hc. by destruct (Hhealthy Hc) as (b & _ & _ & ? & _).
  - split_and!; [exact Hframe|done|]. intros Hc. by destruct (Hhealthy Hc) as (b & _ & _ & ? & _).
Qed.
End theorems.

(** ** Properties *)

Section properties.
Context {C : Type} `{AerospikeClient C} `{!ClientSpec C} `{!CClient C} `{!CClientSpec C} `{Env}.
Context {CK : Type} (to_string : CK -> string) `{!Inj (=) (=) to_string} (self : Engine).
Context (nc : NativeConn) (ck : CK) (key : string).
Implicit Types (c : C).

Abbreviation mk := (mk_of to_string self ck).
Abbreviation entry := (entry to_string self).
Abbreviation same_key := (same_key to_string self nc ck key).
Abbreviation st w := (store (w_client w)).

(** C33: A native write and the Python readers.  Under any faults a C++ write of a payload touches
    no other entry; of a new key it leaves no entry or the whole payload; when it returns, the
    Python side sees the payload, except when checksums are on and the record it overwrites
    keeps a checksum that does not fit the new payload: then the entry is lost.  On a healthy
    cluster it returns. *)
Theorem native_set_spec (payload : bytes) (now : Z) (c : C) :
  same_key -> native_fits nc payload ->
  let '(r, c') := do_single_set nc key payload now c in
  (r = inr tt -> entry (store c') ck =
     if crc_fits self (default ∅ (store c !! mk)) payload then Some payload else None) /\
  (forall ck', ck' <> ck -> entry (store c') ck' = entry (store c) ck') /\
  (store c !! mk = None -> entry (store c') ck = None \/ entry (store c') ck = Some payload) /\
  (healthy c -> n_max_record (nc_limits nc) <= capacity c -> r = inr tt).
Proof.
  intros Hs Hf. pose proof (run_do_single_set to_string self nc ck key Hs payload now c Hf) as Hset.
  destruct (do_single_set nc key payload now c) as [r c'].
  destruct Hset as (shard & l & Hp & _ & _ & _ & Hw & Hfr & Hd & Hok & Hh). cbv zeta in Hd, Hok.
  assert (He : forall old, store c !! mk = old ->
    store c' !! mk = Some (merged old l) /\
    (nseg shard <> 1 -> mapM (seg_data (store c')) (segs_of to_string self ck (nseg shard)) = Some (cut shard payload)) ->
    entry (store c') ck = if crc_fits self (default ∅ old) payload then Some payload else None)
    by (intros old _ [Hm Hsegs]; by eapply native_entry).
  split_and!.
  - intros Hr. apply He; [done|]. by apply Hok.
  - intros ck' Hne. by eapply entry_frame_other.
  - intros Hnone. destruct Hd as [Hd|Hd]; [left; apply entry_none; by rewrite Hd|right].
    rewrite (He _ eq_refl Hd), Hnone. unfold crc_fits. by destruct (enable_crc32 (cfg self)).
  - intros Hc Hcap. by apply Hh.
Qed.

(** C32: What either connector has written, the native one reads.  After a Python [put] or a C++
    write that returned, a C++ read of the key into a buffer of the payload's size, on a cluster
    without faults, returns and fills the buffer with the payload. *)
Theorem native_reads_both (payload buf : bytes) :
  same_key -> 0 < Z.of_nat (length payload) < 2 ^ 32 -> length buf = length payload ->
  (forall (w : world C) l m pinned, w_heap w !! l = Some m -> byte_array m = payload -> target_ok self ->
     let '(r, w') := run (put to_string self ck l pinned) w in
     r = inr tt -> healthy (w_client w') ->
     exists c', do_single_get nc key buf (w_client w') = (inr tt, payload, c')) /\
  (forall now c, native_fits nc payload ->
     let '(r, c1) := do_single_set nc key payload now c in
     r = inr tt -> healthy c1 -> exists c', do_single_get nc key buf c1 = (inr tt, payload, c')).
Proof.
  intros Hs Hlen Hbuf. split.
  - intros w l m pinned Hm <- Ht. pose proof (run_put to_string self ck l pinned w m Hm Ht) as Hput.
    destruct (run (put to_string self ck l pinned) w) as [r w'].
    intros -> Hc. destruct Hput as [(_ & _ & _ & Hst) _]. destruct (Hst eq_refl) as (p & bs & Hp & Hw & Hcom).
    pose proof Hp as [Hpos Hcov Htight Hsb Hsingle]. specialize (Htight ltac:(lia)).
    destruct (native_get_laid_out to_string self nc ck key Hs p (byte_array m) buf (w_client w'))
      as (c' & E & _); try done; try lia; [nia|by eapply laid_out_python|by exists c'].
  - intros now c Hf. pose proof (run_do_single_set to_string self nc ck key Hs payload now c Hf) as Hset.
    destruct (do_single_set nc key payload now c) as [r c1]. intros -> Hc.
    destruct Hset as (shard & l & Hp & Hn & _ & Hne & Hw & _ & _ & Hok & _). destruct (Hok eq_refl) as [Hm Hsegs].
    destruct (native_get_laid_out to_string self nc ck key Hs shard payload buf c1)
      as (c' & E & _); try done; try lia; [by eapply laid_out_native|by exists c'].
Qed.

(** A native read under any faults changes no record and not the size of the buffer; when it
    returns, the buffer starts with the entry of the key as the Python side sees it, whatever
    segments the two have written (well-formed meta records below 2^32 segments). *)
Theorem native_get_sound (buf : bytes) (c : C) :
  same_key -> Z.of_nat (length buf) < 2 ^ 64 ->
  let '(r, buf', c') := do_single_get nc key buf c in
  store c' = store c /\ length buf' = length buf /\
  (r = inr tt -> forall p, entry (store c) ck = Some p ->
     (forall b, store c !! mk = Some b -> wf_meta b /\ positive_int_bin b "nseg" 1 < 2 ^ 32) ->
     (length p <= length buf')%nat /\ take (length p) buf' = p).
Proof. intros Hs H64. by apply (run_do_single_get to_string self nc ck key Hs buf c). Qed.

(** C34: A native delete under any faults changes no other entry and, when it answers, true or
    false, the key has no entry; on a healthy cluster it answers true exactly when there was a
    meta record, and then the meta record and every segment it counts are gone. *)
Theorem native_delete_spec (c : C) :
  same_key ->
  let '(r, c') := do_single_delete nc key c in
  (forall ok, r = inr ok -> entry (store c') ck = None) /\
  (forall ck', ck' <> ck -> entry (store c') ck' = entry (store c) ck') /\
  (healthy c -> (r = inr true <-> is_Some (store c !! mk)) /\
     forall b, store c !! mk = Some b -> positive_int_bin b "nseg" 1 < 2 ^ 32 ->
     store c' !! mk = None /\
     forall i, 0 <= i < positive_int_bin b "nseg" 1 -> store c' !! seg_of to_string self ck i = None).
Proof.
  intros Hs. pose proof (run_do_single_delete to_string self nc ck key Hs c) as Hd.
  destruct (do_single_delete nc key c) as [r c']. destruct Hd as (Hfr & Hok & Hh).
  split_and!; [done| |done]. intros ck' Hne. by eapply entry_frame_other.
Qed.

(** [exists] answers by the meta record. *)
Lemma native_exists_spec (c : C) :
  same_key ->
  let '(r, c') := do_single_exists nc key c in
  store c' = store c /\ (r = inr true -> is_Some (store c !! mk)) /\ (r = inr false -> store c !! mk = None).
Proof.
  intros Hs. unfold do_single_exists. rewrite (sk_key _ _ _ _ _ Hs), (native_meta_key to_string self nc ck key Hs).
  pose proof (cexists_store mk c) as Hst. pose proof (cexists_ok mk c) as Hok.
  pose proof (cexists_missing mk c) as Hm. destruct (ckey_exists mk c) as [[| |z] c1]; cbn [fst snd] in *.
  - split_and!; [done|by intros _; apply Hok|done].
  - split_and!; [done|done|by intros _; apply Hm].
  - done.
Qed.
End properties.

(** ** The in-memory cluster through the C library *)

Definition status_of (e : exc) : status :=
  if isinstance e RecordNotFound then NotFound else Failed (default (-1) (exc_code e)).

Definition unit_status (r : result unit) : status := match r with inr _ => Ok | inl e => status_of e end.

#[global] Instance mem_cclient : CClient MemClient := {
  ckey_get k c := let '(r, c) := client_get k c in
    (match r with inr b => (Ok, Some b) | inl e => (status_of e, None) end, c);
  ckey_put k l ttl c := let '(r, c) := client_put k l ttl [] c in (unit_status r, c);
  ckey_exists k c := let '(r, c) := client_select k [] c in
    (match r with inr _ => Ok | inl e => status_of e end, c);
  ckey_remove k c := let '(r, c) := client_remove k c in (unit_status r, c)
}.

Lemma status_of_not_ok e : status_of e <> Ok.
Proof. unfold status_of. by destruct (isinstance e RecordNotFound). Qed.

Lemma status_of_missing e : status_of e = NotFound <-> isinstance e RecordNotFound = true.
Proof. unfold status_of. by destruct (isinstance e RecordNotFound). Qed.

Lemma unit_status_ok r : unit_status r = Ok <-> r = inr tt.
Proof. destruct r as [e|[]]; cbn; [|done]. split; [by intros ?%status_of_not_ok|done]. Qed.

Lemma unit_status_missing r : unit_status r = NotFound <-> exists e, r = inl e /\ isinstance e RecordNotFound = true.
Proof.
  destruct r as [e|[]]; cbn; [rewrite status_of_missing|]; naive_solver.
Qed.

(** Its laws follow from those of the Python client. *)
#[global] Program Instance mem_cclient_spec : CClientSpec MemClient.
Next Obligation. intros k c. cbn [ckey_get ckey_put ckey_exists ckey_remove mem_cclient]. pose proof (get_store k c) as Hg. by destruct (client_get k c) as [[e|b] c']. Qed.
Next Obligation.
  intros k c b. cbn [ckey_get ckey_put ckey_exists ckey_remove mem_cclient]. pose proof (get_ok k c) as Hg. destruct (client_get k c) as [[e|b'] c']; cbn [fst snd].
  - by intros [=].
  - intros [= <-]. by apply Hg.
Qed.
Next Obligation.
  intros k c. cbn [ckey_get ckey_put ckey_exists ckey_remove mem_cclient]. pose proof (get_missing k c) as Hg. destruct (client_get k c) as [[e|b'] c']; cbn [fst snd]; [|done].
  intros E%status_of_missing. by eapply Hg.
Qed.
Next Obligation.
  intros k l ttl c k' Hk. cbn [ckey_get ckey_put ckey_exists ckey_remove mem_cclient]. pose proof (put_frame k l ttl [] c k' Hk) as Hp. by destruct (client_put k l ttl [] c).
Qed.
Next Obligation.
  intros k l ttl c. cbn [ckey_get ckey_put ckey_exists ckey_remove mem_cclient]. pose proof (put_ok k l ttl [] c) as Hp. destruct (client_put k l ttl [] c) as [r c']; cbn [fst snd].
  intros E%unit_status_ok. by apply Hp.
Qed.
Next Obligation.
  intros k l ttl c. cbn [ckey_get ckey_put ckey_exists ckey_remove mem_cclient]. pose proof (put_doubt k l ttl [] c) as Hp. by destruct (client_put k l ttl [] c).
Qed.
Next Obligation.
  intros k c. cbn [ckey_get ckey_put ckey_exists ckey_remove mem_cclient]. pose proof (select_store k [] c) as Hs. by destruct (client_select k [] c).
Qed.
Next Obligation.
  intros k c. cbn [ckey_get ckey_put ckey_exists ckey_remove mem_cclient]. pose proof (select_ok k [] c) as Hs. destruct (client_select k [] c) as [[e|b] c']; cbn [fst snd].
  - by intros E%status_of_not_ok.
  - intros _. destruct (Hs b eq_refl) as (full & Hf & _). by exists full.
Qed.
Next Obligation.
  intros k c. cbn [ckey_get ckey_put ckey_exists ckey_remove mem_cclient]. pose proof (select_missing k [] c) as Hs. destruct (client_select k [] c) as [[e|b] c']; cbn [fst snd]; [|done].
  intros E%status_of_missing. by eapply Hs.
Qed.
Next Obligation.
  intros k c k' Hk. cbn [ckey_get ckey_put ckey_exists ckey_remove mem_cclient]. pose proof (remove_frame k c k' Hk) as Hr. by destruct (client_remove k c).
Qed.
Next Obligation.
  intros k c. cbn [ckey_get ckey_put ckey_exists ckey_remove mem_cclient]. pose proof (remove_ok k c) as Hr. pose proof (remove_missing k c) as Hm.
  destruct (client_remove k c) as [r c']; cbn [fst snd] in *.
  intros [E%unit_status_ok|(e & -> & E)%unit_status_missing]; [by apply Hr|by eapply Hm].
Qed.
Next Obligation.
  intros k c. cbn [ckey_get ckey_put ckey_exists ckey_remove mem_cclient]. pose proof (remove_doubt k c) as Hr. by destruct (client_remove k c).
Qed.
Next Obligation.
  intros k c Hc. pose proof (healthy_get k c Hc) as (Hh & Hcap & Hr).
  cbn [ckey_get mem_cclient]. destruct (client_get k c) as [r c'] eqn:E. cbn [fst snd] in *. split_and!; [done|done|].
  destruct (store c !! k) as [b|]; [by rewrite Hr|]. destruct Hr as (e & -> & He). by apply status_of_missing.
Qed.
Next Obligation.
  intros k l ttl c Hc Hl. pose proof (healthy_put k l ttl [] c Hc Hl) as (Hh & Hcap & Hr).
  cbn [ckey_put mem_cclient]. destruct (client_put k l ttl [] c) as [r c'] eqn:E. cbn [fst snd] in *.
  split_and!; [done|done|]. by apply unit_status_ok.
Qed.
Next Obligation.
  intros k c Hc. pose proof (healthy_remove k c Hc) as (Hh & Hcap & Hr).
  cbn [ckey_remove mem_cclient]. destruct (client_remove k c) as [r c'] eqn:E. cbn [fst snd] in *.
  split_and!; [done|done|]. destruct (store c !! k) as [b|]; [by rewrite Hr|].
  by apply unit_status_missing.
Qed.

(** ** Witnesses *)

Definition native_demo_key : string := "llama@02010000@30313233343536373839@tenant".
Definition native_demo_text : string := "llama@2@1@3233343536373839@bfloat16@cache_salt%tenant".

(** Segments of four bytes, like the demonstration engine. *)
Definition native_demo : NativeConn :=
  mkNativeConn "lmcache" "kv_chunks" "bfloat16" 86400 (mkNativeLimits 4 4 4).

Lemma native_demo_same : same_key demo_str demo_engine native_demo native_demo_text native_demo_key.
Proof. split; vm_compute; reflexivity. Qed.

Lemma native_demo_fits : native_fits native_demo (lit "0123456789").
Proof. split; [split; cbn; lia|cbn; lia|cbn; lia]. Qed.

Definition native_demo_start : MemClient := mkMemClient ∅ 65536 [].

Lemma native_set_spec_witness :
  let '(r, c') := do_single_set native_demo native_demo_key (lit "0123456789") 1700000000 native_demo_start in
  r = inr tt /\ entry demo_str demo_engine (store c') native_demo_text = Some (lit "0123456789").
Proof.
  pose proof (native_set_spec demo_str demo_engine native_demo native_demo_text native_demo_key
    (lit "0123456789") 1700000000 native_demo_start native_demo_same native_demo_fits) as Hs.
  destruct (do_single_set _ _ _ _ _) as [r c']. destruct Hs as (Hok & _ & _ & Hh).
  assert (Hr : r = inr tt) by (apply Hh; [reflexivity|cbn; lia]).
  split; [exact Hr|]. rewrite (Hok Hr). vm_compute. reflexivity.
Defined.

Definition native_demo_world : world MemClient := demo_world ∅ 65536 [] [demo_source].

Lemma native_reads_both_witness :
  exists c', do_single_get native_demo native_demo_key (lit "..........")
    (w_client (snd (run (put demo_str demo_engine native_demo_text 0 false) native_demo_world))) =
    (inr tt, lit "0123456789", c').
Proof.
  destruct (native_reads_both demo_str demo_engine native_demo native_demo_text native_demo_key
    (lit "0123456789") (lit "..........") native_demo_same ltac:(cbn; lia) eq_refl) as [Hp _].
  specialize (Hp native_demo_world 0%nat demo_source false eq_refl eq_refl eq_refl).
  destruct (run _ _) as [r w'] eqn:E. apply Hp.
  - change r with (fst (r, w')). rewrite <- E. vm_compute. reflexivity.
  - change w' with (snd (r, w')). rewrite <- E. vm_compute. reflexivity.
Defined.

(** The second segment's request times out: the buffer is partly overwritten, nothing else. *)
Definition native_demo_timeout : MemClient :=
  mkMemClient (mc_records (w_client (snd (run (put demo_str demo_engine native_demo_text 0 false)
    native_demo_world)))) 65536 [Served; Served; Refused FTimeout].

Lemma native_get_sound_witness :
  let '(r, buf, c') := do_single_get native_demo native_demo_key (lit "..........") native_demo_timeout in
  r = inl (throw_status "get-payload") /\ buf = lit "0123......" /\ store c' = store native_demo_timeout.
Proof.
  pose proof (native_get_sound demo_str demo_engine native_demo native_demo_text native_demo_key
    (lit "..........") native_demo_timeout native_demo_same ltac:(cbn; lia)) as Hg.
  assert (E : fst (do_single_get native_demo native_demo_key (lit "..........") native_demo_timeout) =
    (inl (throw_status "get-payload"), lit "0123......")) by (vm_compute; reflexivity).
  destruct (do_single_get _ _ _ _) as [[r buf] c']. cbn [fst] in E. injection E as -> ->.
  destruct Hg as (Hst & _). split; [reflexivity|]. split; [reflexivity|exact Hst].
Defined.

Lemma native_delete_spec_witness :
  let '(r, c') := do_single_delete native_demo native_demo_key
    (w_client (snd (run (put demo_str demo_engine native_demo_text 0 false) native_demo_world))) in
  r = inr true /\ entry demo_str demo_engine (store c') native_demo_text = None.
Proof.
  pose proof (native_delete_spec demo_str demo_engine native_demo native_demo_text native_demo_key
    (w_client (snd (run (put demo_str demo_engine native_demo_text 0 false) native_demo_world)))
    native_demo_same) as Hd.
  assert (Hh : healthy (w_client (snd (run (put demo_str demo_engine native_demo_text 0 false)
    native_demo_world)))) by (vm_compute; reflexivity).
  assert (Hm : is_Some (store (w_client (snd (run (put demo_str demo_engine native_demo_text 0 false)
    native_demo_world))) !! mk_of demo_str demo_engine native_demo_text)) by (apply (bool_decide_unpack _); vm_compute; exact I).
  destruct (do_single_delete _ _ _) as [r c']. destruct Hd as (Hok & _ & Hr).
  destruct (Hr Hh) as [[_ Hr'] _]. specialize (Hr' Hm). split; [exact Hr'|exact (Hok true Hr')].
Defined.

(** A native write over a Python record with a checksum: it returns, and the entry is lost. *)
Lemma native_overwrite_loses_entry :
  let c := w_client (snd (run (put demo_str demo_engine native_demo_text 0 false) native_demo_world)) in
  let '(r, c') := do_single_set native_demo native_demo_key (lit "ABCDEFGHIJ") 1700000001 c in
  entry demo_str demo_engine (store c) native_demo_text = Some (lit "0123456789") /\
  r = inr tt /\ entry demo_str demo_engine (store c') native_demo_text = None.
Proof. vm_compute. split_and!; reflexivity. Qed.
