(* ===== verification/NativeLifecycle.v ===== *)
(** * The life of a native connector ([connector.cpp])

    Construction, the policies of a worker's connection, and [close].  What the connector asks of
    the C client library is a list of calls; the answers (the credentials, the connection, the
    namespace information) are parameters, and so is the [close] of LMCache's [ConnectorBase],
    which stops the workers and calls [on_workers_stopped] once. *)

From S2P Require Import Prelude PyStr Errors Sharding Config Limits Crc32 Keys Hex NativeKeys.
From S2P Require Import Runtime Policies Metrics Serde Engine ClientSpec Store GetFacts Concrete PutFacts NativeClient.

(** Calls of the C library and of the base class. *)
Inductive lib_call :=
| ConfigInit (thread_pool_size : Z)
| AddHost (host : string) (port : Z)
| SetUser (user password : string)
| AsInit
| AsConnect
| AsInfoAny (request : string)
| StartWorkers
| StopWorkers
| AsClose
| AsDestroy.

#[global] Instance lib_call_eq_dec : EqDecision lib_call.
Proof. solve_decision. Defined.

(** The fields of a connector that live beyond its construction. *)
Record Native := mkNative {
  na_conn : NativeConn;
  na_read_timeout_ms : Z;
  na_write_timeout_ms : Z;
  connected_ : bool;
  closed_native_ : bool
}.

Definition set_connected (b : bool) (s : Native) : Native :=
  mkNative (na_conn s) (na_read_timeout_ms s) (na_write_timeout_ms s) b (closed_native_ s).

Definition set_closed (b : bool) (s : Native) : Native :=
  mkNative (na_conn s) (na_read_timeout_ms s) (na_write_timeout_ms s) (connected_ s) b.

(** A computation that calls the library. *)
Definition lib (A : Type) : Type := (cpp_exc + A) * list lib_call.

Definition lib_then {A B} (p : lib A) (f : A -> lib B) : lib B :=
  match p with
  | (inl e, calls) => (inl e, calls)
  | (inr a, calls) => let '(r, calls') := f a in (r, calls ++ calls')
  end.

Definition calling (cs : list lib_call) : lib unit := (inr tt, cs).
Definition throwing {A} (r : cpp_exc + A) : lib A := (r, []).

Notation "'let*' x := p 'in' q" := (lib_then p (fun x => q))
  (at level 200, x pattern, p at level 100, q at level 200) : model_scope.

Section construction.
(** [as_config_set_user]; [aerospike_connect]; [aerospike_info_any]: its status and the response. *)
Context (as_config_set_user : string -> string -> bool) (aerospike_connect : status)
  (aerospike_info_any : string -> status * option string).

Definition request_of (ns : string) : string := "namespace/" +:+ ns.

(** [discover_record_cap], with its call. *)
Definition ask_record_cap (ns : string) : lib Z :=
  let* _ := calling [AsInfoAny (request_of ns)] in
  match aerospike_info_any (request_of ns) with
  | (Ok, Some text) => throwing (discover_record_cap text)
  | _ => throwing (inl (throw_status "info namespace"))
  end.

(** The constructor.  [as_config_add_host] takes a 16-bit port. *)
Definition native_construct (hosts ns set_name : string) (num_workers read_timeout_ms write_timeout_ms
    default_ttl_seconds : Z) (dtype : string) (target_segment_bytes max_record_bytes : Z)
    (username password : string) : lib Native :=
  let* _ := calling [ConfigInit (u32 (Z.max num_workers 1))] in
  let* hs := throwing (native_parse_hosts hosts) in
  let* _ := calling ((fun '(host, port) => AddHost host (port mod 2 ^ 16)) <$> hs) in
  let* _ :=
    (if String.eqb username "" then calling []
     else
       let* _ := calling [SetUser username password] in
       if as_config_set_user username password then calling []
       else throwing (inl (runtime_error "invalid Aerospike username/password config"))) in
  let* _ := calling [AsInit; AsConnect] in
  let* _ :=
    (if decide (aerospike_connect = Ok) then calling [] else throwing (inl (runtime_error "aerospike_connect failed"))) in
  let* discovered := (if max_record_bytes =? 0 then ask_record_cap ns else throwing (inr max_record_bytes)) in
  let* limits := throwing (native_limits target_segment_bytes discovered) in
  let* _ := calling [StartWorkers] in
  throwing (inr (mkNative (mkNativeConn ns set_name dtype default_ttl_seconds limits) read_timeout_ms write_timeout_ms true false)).
End construction.

(** ** [create_connection] *)

Section policies.
(** The constants of the C headers. *)
Context (as_policy : string -> Z).

Definition native_read_policy (s : Native) : policy :=
  [("total_timeout", na_read_timeout_ms s); ("socket_timeout", na_read_timeout_ms s); ("max_retries", 2);
   ("key", as_policy "AS_POLICY_KEY_DIGEST"); ("replica", as_policy "AS_POLICY_REPLICA_SEQUENCE")].

Definition native_write_policy (s : Native) : policy :=
  [("total_timeout", na_write_timeout_ms s); ("socket_timeout", na_write_timeout_ms s); ("max_retries", 0);
   ("key", as_policy "AS_POLICY_KEY_DIGEST"); ("exists", as_policy "AS_POLICY_EXISTS_IGNORE");
   ("gen", as_policy "AS_POLICY_GEN_IGNORE"); ("commit_level", as_policy "AS_POLICY_COMMIT_LEVEL_ALL");
   ("ttl", nc_ttl (na_conn s))].

Definition native_remove_policy (s : Native) : policy :=
  [("total_timeout", na_write_timeout_ms s); ("socket_timeout", na_write_timeout_ms s); ("max_retries", 0);
   ("key", as_policy "AS_POLICY_KEY_DIGEST")].
End policies.

(** ** [close] *)

Definition on_workers_stopped (s : Native) : Native * list lib_call :=
  if connected_ s then (set_connected false s, [AsClose; AsDestroy]) else (s, []).

Section close.
(** [ConnectorBase::close], with the hook it calls. *)
Context (base_close : (Native -> Native * list lib_call) -> Native -> Native * list lib_call).

Definition native_close (s : Native) : Native * list lib_call :=
  if closed_native_ s then (s, []) else base_close on_workers_stopped (set_closed true s).

(** [n] calls of [close], the destructor's among them. *)
Fixpoint native_closes (n : nat) (s : Native) : Native * list lib_call :=
  match n with
  | O => (s, [])
  | S n => let '(s, calls) := native_close s in let '(s, calls') := native_closes n s in (s, calls ++ calls')
  end.
End close.

Definition count_calls (c : lib_call) (calls : list lib_call) : nat := count (fun c' => bool_decide (c' = c)) calls.

(** ** Theorems *)

Lemma count_calls_app c l1 l2 : count_calls c (l1 ++ l2) = (count_calls c l1 + count_calls c l2)%nat.
Proof. apply count_app. Qed.

Lemma count_calls_none c l : c ∉ l -> count_calls c l = 0%nat.
Proof. intros Hc. apply count_zero. intros x Hx. apply bool_decide_eq_false. by intros ->. Qed.

Section close_theorems.
(** The base class calls the hook once; nothing else of it opens or closes the client. *)
Context (base_close : (Native -> Native * list lib_call) -> Native -> Native * list lib_call).
Hypothesis base_close_spec : forall hook s, exists before after, base_close hook s = (fst (hook s), before ++ snd (hook s) ++ after) /\
  AsClose ∉ before ++ after /\ AsDestroy ∉ before ++ after /\ AsConnect ∉ before ++ after.

Lemma closes_closed n s : closed_native_ s = true -> native_closes base_close n s = (s, []).
Proof. intros Hc. induction n as [|n IH]; cbn; [done|]. unfold native_close. by rewrite Hc, IH. Qed.

Lemma closes_once n s : connected_ s = true -> closed_native_ s = false ->
  let '(s', closing) := native_closes base_close (S n) s in
  connected_ s' = false /\ count_calls AsClose closing = 1%nat /\ count_calls AsDestroy closing = 1%nat /\
  count_calls AsConnect closing = 0%nat.
Proof.
  intros Hc Ho. cbn [native_closes]. unfold native_close. rewrite Ho.
  destruct (base_close_spec on_workers_stopped (set_closed true s)) as (before & after & -> & H1 & H2 & H3).
  unfold on_workers_stopped. cbn [connected_ set_closed]. rewrite Hc. cbn [fst snd]. rewrite closes_closed by done.
  apply not_elem_of_app in H1 as [? ?], H2 as [? ?], H3 as [? ?].
  rewrite !app_nil_r, !count_calls_app, !(count_calls_none _ before), !(count_calls_none _ after) by done. done.
Qed.
End close_theorems.

Lemma lib_then_throwing {A B} (r : cpp_exc + A) (f : A -> lib B) :
  lib_then (throwing r) f = match r with inl e => (inl e, []) | inr a => f a end.
Proof. destruct r as [e|a]; cbn; [done|]. by destruct (f a). Qed.

Lemma lib_then_calling {B} cs (f : unit -> lib B) : lib_then (calling cs) f = (fst (f tt), cs ++ snd (f tt)).
Proof. cbn. by destruct (f tt). Qed.

Section construction_theorems.
Context (as_config_set_user : string -> string -> bool) (aerospike_connect : status)
  (aerospike_info_any : string -> status * option string).
Context (hosts ns set_name : string) (num_workers read_timeout_ms write_timeout_ms default_ttl_seconds : Z)
  (dtype : string) (target_segment_bytes max_record_bytes : Z) (username password : string).

Abbreviation construct := (native_construct as_config_set_user aerospike_connect aerospike_info_any hosts ns set_name
  num_workers read_timeout_ms write_timeout_ms default_ttl_seconds dtype target_segment_bytes max_record_bytes username password).

(** The record cap the constructor goes on with. *)
Definition record_cap : cpp_exc + Z :=
  if max_record_bytes =? 0 then fst (ask_record_cap aerospike_info_any ns) else inr max_record_bytes.

Definition credentials_ok : bool := String.eqb username "" || as_config_set_user username password.

Definition config_calls (hs : list (string * Z)) : list lib_call :=
  ConfigInit (u32 (Z.max num_workers 1)) :: ((fun '(host, port) => AddHost host (port mod 2 ^ 16)) <$> hs) ++
    (if String.eqb username "" then [] else [SetUser username password]).

Definition cap_calls : list lib_call := if max_record_bytes =? 0 then [AsInfoAny (request_of ns)] else [].

Lemma ask_calls : snd (ask_record_cap aerospike_info_any ns) = [AsInfoAny (request_of ns)].
Proof. unfold ask_record_cap. by destruct (aerospike_info_any _) as [[| |c] [t|]]. Qed.

(** The constructor, step by step: the first of its checks that fails decides the exception, and
    the calls made are those before it. *)
Theorem native_construct_spec :
  construct =
  match native_parse_hosts hosts with
  | inl e => (inl e, [ConfigInit (u32 (Z.max num_workers 1))])
  | inr hs =>
      if credentials_ok then
        if decide (aerospike_connect = Ok) then
          match (let? cap := record_cap in native_limits target_segment_bytes cap) with
          | inl e => (inl e, config_calls hs ++ [AsInit; AsConnect] ++ cap_calls)
          | inr limits =>
              (inr (mkNative (mkNativeConn ns set_name dtype default_ttl_seconds limits) read_timeout_ms write_timeout_ms true false),
               config_calls hs ++ [AsInit; AsConnect] ++ cap_calls ++ [StartWorkers])
          end
        else (inl (runtime_error "aerospike_connect failed"), config_calls hs ++ [AsInit; AsConnect])
      else (inl (runtime_error "invalid Aerospike username/password config"), config_calls hs)
  end.
Proof.
  unfold native_construct, credentials_ok, config_calls, record_cap, cap_calls.
  destruct (native_parse_hosts hosts) as [e|hs]; [done|].
  pose proof ask_calls as Ea. destruct (ask_record_cap _ _) as [cap cs]. cbn in Ea. subst cs.
  destruct (String.eqb username ""); destruct (as_config_set_user username password);
    destruct (decide (aerospike_connect = Ok)); destruct (max_record_bytes =? 0); destruct cap as [err|found];
    cbn; try destruct (native_limits target_segment_bytes _); cbn; by rewrite ?app_nil_r, <- ?app_assoc.
Qed.

Lemma config_calls_other c hs : c ∈ [AsConnect; StartWorkers; AsClose; AsDestroy] -> c ∉ config_calls hs.
Proof.
  intros Hc Hx. revert Hx. unfold config_calls.
  rewrite elem_of_cons, elem_of_app, list_elem_of_fmap. intros [->|[([h p] & -> & _)|Hu]];
    [set_solver|set_solver|destruct (String.eqb username ""); set_solver].
Qed.

Lemma config_quiet c hs : c ∈ [AsConnect; StartWorkers; AsClose; AsDestroy] -> count_calls c (config_calls hs) = 0%nat.
Proof. intros Hc. by apply count_calls_none, config_calls_other. Qed.

(** C35: The life of a native connector, whatever the library answers.  A constructor that returns has
    connected once and started the workers, with the limits of the record cap it was given or
    found; then any number of [close] calls close and destroy the client exactly once.  A constructor
    that throws has started no workers; its client stays open exactly when the connection was
    made and the record cap was then refused, and nothing closes it. *)
Theorem native_lifecycle (base_close : (Native -> Native * list lib_call) -> Native -> Native * list lib_call) (n : nat) :
  (forall hook s, exists before after, base_close hook s = (fst (hook s), before ++ snd (hook s) ++ after) /\
     AsClose ∉ before ++ after /\ AsDestroy ∉ before ++ after /\ AsConnect ∉ before ++ after) ->
  let '(r, calls) := construct in
  match r with
  | inr s =>
      connected_ s = true /\ closed_native_ s = false /\ count_calls AsConnect calls = 1%nat /\ count_calls StartWorkers calls = 1%nat /\
      (exists cap, record_cap = inr cap /\ native_limits target_segment_bytes cap = inr (nc_limits (na_conn s))) /\
      let '(s', closing) := native_closes base_close (S n) s in
      connected_ s' = false /\ count_calls AsClose (calls ++ closing) = 1%nat /\ count_calls AsDestroy (calls ++ closing) = 1%nat /\
      count_calls AsConnect closing = 0%nat
  | inl e =>
      count_calls StartWorkers calls = 0%nat /\ count_calls AsClose calls = 0%nat /\
      (AsConnect ∈ calls /\ aerospike_connect = Ok <->
       exists hs, native_parse_hosts hosts = inr hs /\ credentials_ok = true /\ aerospike_connect = Ok /\
         (let? cap := record_cap in native_limits target_segment_bytes cap) = inl e)
  end.
Proof.
  intros Hbase. rewrite native_construct_spec. unfold cap_calls. destruct (native_parse_hosts hosts) as [err|hs] eqn:Ehs.
  { split_and!; [done..|]. split; [by intros [Hin%list_elem_of_singleton _]|by intros (? & ? & _)]. }
  pose proof (config_calls_other AsConnect hs ltac:(set_solver)) as Hnone.
  destruct credentials_ok eqn:Ecr; cycle 1.
  { rewrite !config_quiet by set_solver. split_and!; [done..|]. split; [by intros [?%Hnone _]|by intros (? & _ & ? & _)]. }
  destruct (decide (aerospike_connect = Ok)) as [Hok|Hno]; cycle 1.
  { rewrite !count_calls_app, !config_quiet by set_solver. split_and!; [done..|]. split; [by intros [_ ?]|by intros (? & _ & _ & ? & _)]. }
  assert (Hinfo : forall c, c <> AsInfoAny (request_of ns) -> count_calls c (if max_record_bytes =? 0 then [AsInfoAny (request_of ns)] else []) = 0%nat).
  { intros c Hc. apply count_calls_none. destruct (max_record_bytes =? 0); set_solver. }
  destruct (let? cap := record_cap in native_limits target_segment_bytes cap) as [err|limits] eqn:Elim.
  - rewrite !count_calls_app, !config_quiet, !Hinfo by (done || set_solver). split_and!; [done..|]. split; [|intros _; split; [set_solver|done]].
    intros _. by exists hs.
  - rewrite !count_calls_app, !config_quiet, !Hinfo by (done || set_solver). split_and!; [done..|by destruct record_cap as [|cap]; [|exists cap]|].
    set (s := mkNative _ _ _ _ _). pose proof (closes_once base_close Hbase n s eq_refl eq_refl) as Hcl.
    destruct (native_closes base_close (S n) s) as [s' closing]. destruct Hcl as (Hd & H1 & H2 & H3).
    rewrite !count_calls_app, !config_quiet, !Hinfo, H1, H2 by (done || set_solver). done.
Qed.
End construction_theorems.

(** ** Both connectors ask for the same policies *)

Section policy_theorems.
Context `{Env} (as_policy : string -> Z).

(** The constants of the Python client are those of the C headers. *)
Definition same_constants : Prop :=
  forall n, n ∈ ["KEY_DIGEST"; "REPLICA_SEQUENCE"; "EXISTS_IGNORE"; "GEN_IGNORE"; "COMMIT_LEVEL_ALL"] ->
    aerospike_const ("POLICY_" +:+ n) = Some (as_policy ("AS_POLICY_" +:+ n)).

(** Under the default commit level, replica and key policy, reads and writes of the two connectors
    have the same policy, up to the order of its fields; the native write carries its TTL in it,
    the Python one in the record metadata. *)
Theorem native_policies_agree (cfg : AerospikeConfig) (s : Native) :
  same_constants -> commit_level cfg = "all" -> replica cfg = "sequence" -> send_key cfg = false ->
  read_timeout_ms cfg = na_read_timeout_ms s -> write_timeout_ms cfg = na_write_timeout_ms s ->
  (exists rp, read_policy cfg = inr rp /\ rp ≡ₚ native_read_policy as_policy s) /\
  (exists wp, write_policy cfg = inr wp /\ wp ++ [("ttl", nc_ttl (na_conn s))] ≡ₚ native_write_policy as_policy s).
Proof.
  intros Hc Hcl Hr Hk Ert Ewt.
  assert (Hp : forall n, n ∈ ["KEY_DIGEST"; "REPLICA_SEQUENCE"; "EXISTS_IGNORE"; "GEN_IGNORE"; "COMMIT_LEVEL_ALL"] ->
    _policy_const ("POLICY_" +:+ n) = inr (as_policy ("AS_POLICY_" +:+ n))) by (intros n Hn; unfold _policy_const; by rewrite (Hc n Hn)).
  pose proof (Hp "KEY_DIGEST" ltac:(set_solver)) as Hkey. pose proof (Hp "REPLICA_SEQUENCE" ltac:(set_solver)) as Hrep.
  pose proof (Hp "EXISTS_IGNORE" ltac:(set_solver)) as Hex. pose proof (Hp "GEN_IGNORE" ltac:(set_solver)) as Hgen.
  pose proof (Hp "COMMIT_LEVEL_ALL" ltac:(set_solver)) as Hcom. cbn [String.app] in *. split.
  - unfold read_policy, _replica, _key_policy. rewrite Hr, Hk. cbn [assoc_str _REPLICA]. cbn in Hkey, Hrep |- *. rewrite Hrep, Hkey.
    eexists. split; [done|]. unfold native_read_policy. rewrite Ert. solve_Permutation.
  - unfold write_policy, _commit_level, _key_policy. rewrite Hcl, Hk. cbn in Hkey, Hex, Hgen, Hcom |- *. rewrite Hcom, Hkey, Hex, Hgen.
    eexists. split; [done|]. unfold native_write_policy. rewrite Ewt. cbn. solve_Permutation.
Qed.
End policy_theorems.

(** ** Witnesses *)

Definition demo_base_close (hook : Native -> Native * list lib_call) (s : Native) : Native * list lib_call :=
  (fst (hook s), StopWorkers :: snd (hook s)).

Definition demo_construct (info : string) : lib Native :=
  native_construct (fun _ _ => true) Ok (fun _ => (Ok, Some info)) "db:3000" "lmcache" "kv" 8 1000 2000 86400 "bfloat16" 0 0 "" "".

(** A cap of 1 MiB is accepted, and the client closed by the first [close] of two; one of 1000
    bytes is not, and the client stays open. *)
Lemma native_lifecycle_witness :
  (exists s calls, demo_construct "ns;max-record-size=1048576;" = (inr s, calls) /\
     count_calls AsClose (calls ++ snd (native_closes demo_base_close 2 s)) = 1%nat) /\
  (exists e calls, demo_construct "max-record-size=1000" = (inl e, calls) /\ AsConnect ∈ calls /\ count_calls AsClose calls = 0%nat).
Proof.
  assert (Hb : forall hook s, exists before after, demo_base_close hook s = (fst (hook s), before ++ snd (hook s) ++ after) /\
     AsClose ∉ before ++ after /\ AsDestroy ∉ before ++ after /\ AsConnect ∉ before ++ after).
  { intros hook s. exists [StopWorkers], []. rewrite app_nil_r. split_and!; [done|set_solver..]. }
  split.
  - pose proof (native_lifecycle (fun _ _ => true) Ok (fun _ => (Ok, Some "ns;max-record-size=1048576;")) "db:3000" "lmcache" "kv"
      8 1000 2000 86400 "bfloat16" 0 0 "" "" demo_base_close 1 Hb) as Hl.
    change (native_construct _ _ _ _ _ _ _ _ _ _ _ _ _ _ _) with (demo_construct "ns;max-record-size=1048576;") in Hl.
    destruct (demo_construct _) as [[e|s] calls] eqn:E; [vm_compute in E; discriminate|]. exists s, calls. split; [reflexivity|].
    destruct Hl as (_ & _ & _ & _ & _ & Hl). destruct (native_closes demo_base_close 2 s). apply Hl.
  - pose proof (native_lifecycle (fun _ _ => true) Ok (fun _ => (Ok, Some "max-record-size=1000")) "db:3000" "lmcache" "kv"
      8 1000 2000 86400 "bfloat16" 0 0 "" "" demo_base_close 1 Hb) as Hl.
    change (native_construct _ _ _ _ _ _ _ _ _ _ _ _ _ _ _) with (demo_construct "max-record-size=1000") in Hl.
    destruct (demo_construct _) as [[e|s] calls] eqn:E; [|vm_compute in E; discriminate]. exists e, calls. split; [reflexivity|].
    destruct Hl as (_ & Hn & _). split; [|exact Hn]. vm_compute in E. injection E as _ <-. set_solver.
Defined.
