(* ===== verification/NativeBuild.v ===== *)
(** * Building the native extension ([setup.py])

    [_native_extensions] decides from the environment, the file system and the installed packages
    whether the C++ extension is built and with which directories and libraries.  A path is the
    value of a [pathlib] path: its root and its parts.  The file system is three functions, which
    the script reads and never changes. *)

From S2P Require Import Prelude PyStr Errors.
From stdpp Require Import sorting.

(** ** Paths *)

Record Path := mkPath { root : string; parts : list string }.

(** [Path(s)]: empty parts and ["."] are dropped; two leading slashes, and no more, are kept. *)
Definition py_path (s : string) : Path :=
  mkPath (if startswith s "//" then if startswith s "///" then "/" else "//"
          else if startswith s "/" then "/" else "")
    (filter (fun p => p <> "" /\ p <> ".") (PyStr.split "/"%char s)).

(** [p / name], for a name without slashes. *)
Definition join (p : Path) (name : string) : Path := mkPath (root p) (parts p ++ [name]).

Definition joins (p : Path) (names : list string) : Path := mkPath (root p) (parts p ++ names).

Fixpoint slashed (ps : list string) : string :=
  match ps with
  | [] => ""
  | [p] => p
  | p :: ps => p +:+ "/" +:+ slashed ps
  end.

(** [str(p)]. *)
Definition path_str (p : Path) : string :=
  match parts p with
  | [] => if String.eqb (root p) "" then "." else root p
  | ps => root p +:+ slashed ps
  end.

(** ** The build *)

(** The file system: [Path.exists], [Path.is_dir] and the names in a directory, in the order the
    system lists them. *)
Record FileSystem := mkFileSystem {
  exists_path : Path -> bool;
  is_dir : Path -> bool;
  listdir : Path -> list string
}.

Record Extension := mkExtension {
  ext_name : string;
  sources : list string;
  include_dirs : list string;
  library_dirs : list string;
  libraries : list string;
  extra_objects : list string;
  runtime_library_dirs : list string;
  language : string;
  extra_compile_args : list string;
  extra_link_args : list string
}.

Section build.
(** [Path(__file__).resolve().parent], [os.environ] and [ctypes.util.find_library]. *)
Context (ROOT : Path) (environ : gmap string string) (find_library : string -> option string).
(** [pybind11.get_include()], when [pybind11] can be imported. *)
Context (pybind11 : option string).
Context (fs : FileSystem).

Definition DEPS_CLIENT : Path := joins ROOT [".deps"; "aerospike-client-c"].
Definition DEPS_INSTALL : Path := joins ROOT [".deps"; "aerospike-install"].
Definition DEPS_YAML_LIB : Path :=
  joins ROOT [".deps"; "libyaml-install"; "usr"; "lib"; "x86_64-linux-gnu"].

(** [os.environ.get(var)] when it is not empty, and [os.environ.get(var) == value]. *)
Definition env_path (var : string) : option Path :=
  match environ !! var with
  | Some s => if String.eqb s "" then None else Some (py_path s)
  | None => None
  end.

Definition env_is (var value : string) : bool := bool_decide (environ !! var = Some value).

(** [sorted(DEPS_CLIENT.glob("target/Linux*"))] *)
Definition _local_aerospike_target_dirs : list Path :=
  if is_dir fs DEPS_CLIENT then
    let target := join DEPS_CLIENT "target" in
    join target <$> merge_sort String.le (filter (fun n => startswith n "Linux") (listdir fs target))
  else [].

Definition _lmcache_include_dirs : list string :=
  let candidates := option_list ((fun p => joins p ["csrc"; "storage_backends"]) <$> env_path "LMCACHE_SRC")
    ++ [joins ROOT ["LMCache"; "csrc"; "storage_backends"]] in
  path_str <$> filter (fun p => exists_path fs (join p "connector_base.h")) candidates.

Definition _aerospike_header_path (base : Path) : Path := joins base ["aerospike"; "aerospike.h"].

Definition has_header (base : Path) : bool := exists_path fs (_aerospike_header_path base).

(** The two loops over fixed directories and build trees: the first with the header. *)
Fixpoint first_base (bases : list Path) : option Path :=
  match bases with
  | [] => None
  | base :: bases => if has_header base then Some base else first_base bases
  end.

Fixpoint first_include (targets : list Path) : option Path :=
  match targets with
  | [] => None
  | target :: targets =>
      let include := join target "include" in
      if has_header include then Some include else first_include targets
  end.

Definition _aerospike_include_dir : option Path :=
  let rest :=
    match first_base [joins DEPS_INSTALL ["usr"; "include"]; py_path "/usr/include"; py_path "/usr/local/include"] with
    | Some base => Some base
    | None => first_include _local_aerospike_target_dirs
    end in
  match env_path "AEROSPIKE_INCLUDE_DIR" with
  | Some candidate => if has_header candidate then Some candidate else rest
  | None => rest
  end.

Definition has_library (lib_dir : Path) : bool :=
  exists_path fs (join lib_dir "libaerospike.so") || exists_path fs (join lib_dir "libaerospike.a").

Fixpoint first_lib (targets : list Path) : option Path :=
  match targets with
  | [] => None
  | target :: targets =>
      let lib_dir := join target "lib" in
      if has_library lib_dir then Some lib_dir else first_lib targets
  end.

Definition _aerospike_library_dir : option Path :=
  let rest :=
    match first_lib _local_aerospike_target_dirs with
    | Some lib_dir => Some lib_dir
    | None =>
        let deps_lib := joins DEPS_INSTALL ["usr"; "lib"] in
        if has_library deps_lib then Some deps_lib
        else match find_library "aerospike" with Some _ => None | None => None end
    end in
  match env_path "AEROSPIKE_LIBRARY_DIR" with
  | Some lib_dir => if has_library lib_dir then Some lib_dir else rest
  | None => rest
  end.

Definition _has_aerospike_headers : bool := if _aerospike_include_dir then true else false.
Definition _has_aerospike_library : bool := if _aerospike_library_dir then true else false.

(** Whether the archive is linked by its path. *)
Definition use_static (aerospike_lib_dir : Path) : bool :=
  let static_lib := join aerospike_lib_dir "libaerospike.a" in
  let shared_lib := join aerospike_lib_dir "libaerospike.so" in
  let prefer_static := String.eqb (default "0" (environ !! "AEROSPIKE_STATIC")) "1" in
  let use_static := prefer_static && exists_path fs static_lib && negb (exists_path fs shared_lib) in
  if prefer_static && exists_path fs static_lib && exists_path fs shared_lib then false else use_static.

Definition aerospike_extra_libs : list string :=
  ["ssl"; "crypto"; "pthread"; "z"; "rt"] ++
  (if String.eqb (default "libuv" (environ !! "AEROSPIKE_EVENT_LIB")) "libuv" then ["uv"] else []).

(** [libraries] and [extra_objects]. *)
Definition link_inputs (aerospike_lib_dir : Path) : list string * list string :=
  let yaml_static := join DEPS_YAML_LIB "libyaml.a" in
  let yaml_found := exists_path fs (join DEPS_YAML_LIB "libyaml.so") ||
    match find_library "yaml" with Some s => negb (String.eqb s "") | None => false end in
  if use_static aerospike_lib_dir then
    (aerospike_extra_libs ++ ["yaml"], [path_str (join aerospike_lib_dir "libaerospike.a")])
  else if yaml_found then (["aerospike"; "yaml"] ++ aerospike_extra_libs, [])
  else if exists_path fs yaml_static then ("aerospike" :: aerospike_extra_libs, [path_str yaml_static])
  else ("aerospike" :: aerospike_extra_libs, []).

(** The extension, once every directory is known. *)
Definition native_extension (pybind_include : string) (aerospike_include aerospike_lib_dir : Path)
    (lmcache_includes : list string) : Extension :=
  let yaml_static := join DEPS_YAML_LIB "libyaml.a" in
  let yaml_shared := join DEPS_YAML_LIB "libyaml.so" in
  let shared_lib := join aerospike_lib_dir "libaerospike.so" in
  mkExtension "lmcache_aerospike._native" ["csrc/aerospike/pybind.cpp"; "csrc/aerospike/connector.cpp"]
    ([path_str (joins ROOT ["csrc"; "aerospike"]); pybind_include; path_str aerospike_include]
      ++ lmcache_includes)
    (path_str aerospike_lib_dir ::
      if exists_path fs yaml_static || exists_path fs yaml_shared then [path_str DEPS_YAML_LIB] else [])
    (fst (link_inputs aerospike_lib_dir)) (snd (link_inputs aerospike_lib_dir))
    (if exists_path fs shared_lib && negb (use_static aerospike_lib_dir) then [path_str aerospike_lib_dir]
     else [])
    "c++" ["-O3"; "-std=c++17"] ["-Wl,--no-as-needed"].

Definition _native_extensions : result (list Extension) :=
  if env_is "LMCACHE_AEROSPIKE_NO_NATIVE" "1" then inr []
  else
    let force := env_is "LMCACHE_AEROSPIKE_FORCE_NATIVE" "1" in
    let lmcache_includes := _lmcache_include_dirs in
    let has_aerospike := _has_aerospike_headers && _has_aerospike_library in
    if (bool_decide (lmcache_includes = []) || negb has_aerospike) && negb force then inr []
    else
      match pybind11 with
      | None => if negb force then inr [] else inl (Py ImportError)
      | Some pybind_include =>
          match _aerospike_include_dir, _aerospike_library_dir with
          | Some inc, Some lib => inr [native_extension pybind_include inc lib lmcache_includes]
          | _, _ => if force then inl (Py RuntimeError) else inr []
          end
      end.
End build.

(** ** The searches *)

Section theorems.
Context (ROOT : Path) (environ : gmap string string) (find_library : string -> option string).
Context (pybind11 : option string).

Abbreviation targets fs := (_local_aerospike_target_dirs ROOT fs).
Abbreviation include_dir fs := (_aerospike_include_dir ROOT environ fs).
Abbreviation library_dir fs := (_aerospike_library_dir ROOT environ find_library fs).
Abbreviation lmcache_dirs fs := (_lmcache_include_dirs ROOT environ fs).
Abbreviation build fs := (_native_extensions ROOT environ find_library pybind11 fs).

(** The directories the two searches look at, in order. *)
Definition include_candidates (fs : FileSystem) : list Path :=
  option_list (env_path environ "AEROSPIKE_INCLUDE_DIR") ++
  [joins (DEPS_INSTALL ROOT) ["usr"; "include"]; py_path "/usr/include"; py_path "/usr/local/include"] ++
  ((fun t => join t "include") <$> targets fs).

Definition library_candidates (fs : FileSystem) : list Path :=
  option_list (env_path environ "AEROSPIKE_LIBRARY_DIR") ++
  ((fun t => join t "lib") <$> targets fs) ++ [joins (DEPS_INSTALL ROOT) ["usr"; "lib"]].

Lemma first_of_cons {A} (f : A -> bool) x l :
  head (filter f (x :: l)) = if f x then Some x else head (filter f l).
Proof. rewrite filter_cons. by destruct (f x). Qed.

Lemma head_app {A} (l k : list A) : head (l ++ k) = match head l with Some x => Some x | None => head k end.
Proof. by destruct l. Qed.

Lemma first_base_find fs bases : first_base fs bases = head (filter (has_header fs) bases).
Proof. induction bases as [|b bases IH]; [done|].
  cbn [first_base]. by rewrite IH, (first_of_cons (has_header fs)). Qed.

Lemma first_include_find fs ts :
  first_include fs ts = head (filter (has_header fs) ((fun t => join t "include") <$> ts)).
Proof.
  induction ts as [|t ts IH]; [done|]. cbn [first_include first_lib]. by rewrite IH, fmap_cons, (first_of_cons (has_header fs)).
Qed.

Lemma first_lib_find fs ts :
  first_lib fs ts = head (filter (has_library fs) ((fun t => join t "lib") <$> ts)).
Proof.
  induction ts as [|t ts IH]; [done|]. cbn [first_include first_lib]. by rewrite IH, fmap_cons, (first_of_cons (has_library fs)).
Qed.

Lemma include_dir_find fs : include_dir fs = head (filter (has_header fs) (include_candidates fs)).
Proof.
  unfold _aerospike_include_dir, include_candidates. rewrite first_base_find, first_include_find.
  rewrite !filter_app, !head_app. destruct (env_path environ _) as [c|]; [|done].
  change (option_list (Some c)) with [c]. cbn zeta. rewrite (first_of_cons (has_header fs) c). by destruct (has_header fs c).
Qed.

Lemma library_dir_find fs : library_dir fs = head (filter (has_library fs) (library_candidates fs)).
Proof.
  assert (Er : match first_lib fs (targets fs) with Some d => Some d | None =>
      let deps_lib := joins (DEPS_INSTALL ROOT) ["usr"; "lib"] in
      if has_library fs deps_lib then Some deps_lib
      else match find_library "aerospike" with Some _ => None | None => None end end =
    head (filter (has_library fs) (((fun t => join t "lib") <$> targets fs) ++
      [joins (DEPS_INSTALL ROOT) ["usr"; "lib"]]))).
  { rewrite filter_app, head_app, <- first_lib_find. destruct (first_lib _ _); [done|].
    rewrite (first_of_cons (has_library fs)). cbn zeta. destruct (has_library fs _); [done|]. by destruct (find_library _). }
  unfold _aerospike_library_dir, library_candidates. rewrite filter_app, head_app, <- Er.
  destruct (env_path environ _) as [c|]; [|done].
  change (option_list (Some c)) with [c]. cbn zeta. rewrite (first_of_cons (has_library fs) c). by destruct (has_library fs c).
Qed.

(** Two file systems that differ only in the order in which directories are listed. *)
Record relisted (fs fs' : FileSystem) : Prop := {
  rl_exists : forall p, exists_path fs p = exists_path fs' p;
  rl_is_dir : forall p, is_dir fs p = is_dir fs' p;
  rl_listdir : forall p, listdir fs p ≡ₚ listdir fs' p
}.

Lemma merge_sort_unique (l k : list string) : l ≡ₚ k -> merge_sort String.le l = merge_sort String.le k.
Proof.
  intros Hp. apply (Sorted_unique String.le); [apply Sorted_merge_sort, _|apply Sorted_merge_sort, _|].
  by rewrite !merge_sort_Permutation.
Qed.

Lemma targets_relisted fs fs' : relisted fs fs' -> targets fs = targets fs'.
Proof.
  intros [_ Hd Hl]. unfold _local_aerospike_target_dirs. rewrite Hd. destruct (is_dir fs' _); [|done].
  cbn zeta. f_equal. apply merge_sort_unique. by rewrite Hl.
Qed.

Lemma filter_exists fs fs' (f : FileSystem -> Path -> bool) (l : list Path) :
  (forall p, f fs p = f fs' p) -> filter (f fs) l = filter (f fs') l.
Proof. intros Hf. apply list_filter_iff. intros p. by rewrite Hf. Qed.

Lemma searches_relisted fs fs' : relisted fs fs' ->
  include_dir fs = include_dir fs' /\ library_dir fs = library_dir fs' /\ lmcache_dirs fs = lmcache_dirs fs'.
Proof.
  intros Hr. pose proof (targets_relisted fs fs' Hr) as Ht. destruct Hr as [He _ _]. split_and!.
  - rewrite !include_dir_find. unfold include_candidates. rewrite Ht.
    f_equal. apply (filter_exists fs fs' has_header). intros p. apply He.
  - rewrite !library_dir_find. unfold library_candidates. rewrite Ht.
    f_equal. apply (filter_exists fs fs' has_library). intros p. unfold has_library. by rewrite !He.
  - unfold _lmcache_include_dirs. cbn zeta. f_equal.
    apply (filter_exists fs fs' (fun fs p => exists_path fs (join p "connector_base.h"))). intros p. apply He.
Qed.

(** the searches for the C client take the first directory that has the header (a library) in
    the documented order: the variable of the environment, then the installed copies and the build
    trees (for the library the build trees first).  The order in which the system lists the build
    trees does not matter, neither for the searches nor for the extension that is built. *)
Theorem native_search_order (fs : FileSystem) :
  include_dir fs = head (filter (has_header fs) (include_candidates fs)) /\
  library_dir fs = head (filter (has_library fs) (library_candidates fs)) /\
  forall fs', relisted fs fs' -> build fs = build fs'.
Proof.
  split_and!; [apply include_dir_find|apply library_dir_find|]. intros fs' Hr.
  destruct (searches_relisted fs fs' Hr) as (Hi & Hl & Hm). unfold _native_extensions, _has_aerospike_headers, _has_aerospike_library.
  rewrite Hi, Hl, Hm. repeat (case_match; try done). f_equal. f_equal.
  unfold native_extension, link_inputs, use_static. destruct Hr as [He _ _]. by rewrite !He.
Qed.

(** ** What is built *)

Abbreviation no_native := (env_is environ "LMCACHE_AEROSPIKE_NO_NATIVE" "1").
Abbreviation force := (env_is environ "LMCACHE_AEROSPIKE_FORCE_NATIVE" "1").

(** [s] names a path that exists. *)
Definition names_existing (fs : FileSystem) (f : Path -> Path) (s : string) : Prop :=
  exists p, s = path_str p /\ exists_path fs (f p) = true.

(** An extension the linker and the loader can work with: its directories hold what they are
    listed for, [libaerospike] is linked once, by name or as the archive, and a shared library is
    found again at run time. *)
Record usable (fs : FileSystem) (inc lib : Path) (e : Extension) : Prop := {
  us_header : path_str inc ∈ include_dirs e /\ has_header fs inc = true;
  us_lmcache : Forall (names_existing fs (fun p => join p "connector_base.h")) (drop 3 (include_dirs e));
  us_library : head (library_dirs e) = Some (path_str lib) /\ has_library fs lib = true;
  us_static : "aerospike" ∉ libraries e <->
    environ !! "AEROSPIKE_STATIC" = Some "1" /\ exists_path fs (join lib "libaerospike.so") = false;
  us_archive : "aerospike" ∉ libraries e -> extra_objects e = [path_str (join lib "libaerospike.a")];
  us_first : "aerospike" ∈ libraries e -> head (libraries e) = Some "aerospike";
  us_objects : Forall (names_existing fs (fun p => p)) (extra_objects e);
  us_runtime : runtime_library_dirs e =
    if exists_path fs (join lib "libaerospike.so") then [path_str lib] else []
}.

Lemma lmcache_dirs_exist fs : Forall (names_existing fs (fun p => join p "connector_base.h")) (lmcache_dirs fs).
Proof.
  apply Forall_forall. intros s Hs. unfold _lmcache_include_dirs in Hs.
  apply list_elem_of_fmap in Hs as (p & -> & Hp). apply list_elem_of_filter in Hp as [Hp _].
  exists p. split; [done|]. by apply Is_true_true.
Qed.

Lemma found_ok {A} (f : A -> bool) l x : head (filter f l) = Some x -> f x = true.
Proof.
  intros Hh. assert (Hx : x ∈ filter f l) by (destruct (filter f l); [done|]; injection Hh as ->; by left).
  apply list_elem_of_filter in Hx as [Hx _]. by apply Is_true_true.
Qed.

Lemma use_static_iff fs lib : has_library fs lib = true ->
  use_static environ fs lib = true <->
  environ !! "AEROSPIKE_STATIC" = Some "1" /\ exists_path fs (join lib "libaerospike.so") = false.
Proof.
  unfold has_library, use_static. intros Hl. cbv zeta.
  destruct (exists_path fs (join lib "libaerospike.so")), (exists_path fs (join lib "libaerospike.a")); try done;
    rewrite ?andb_false_r, ?andb_true_r; cbn.
  - destruct (String.eqb _ _); cbn; intuition congruence.
  - intuition congruence.
  - split; [|by intros [-> _]]. destruct (environ !! _) as [v|]; [|done]. cbn. rewrite ?String.eqb_refl.
    destruct (String.eqb_spec v "1") as [->|]; done.
Qed.

Lemma extra_libs_no_aerospike : "aerospike" ∉ aerospike_extra_libs environ.
Proof. unfold aerospike_extra_libs. case_match; set_solver. Qed.

(** The two ways to link. *)
Lemma link_inputs_spec fs lib : has_library fs lib = true ->
  let '(libs, objects) := link_inputs ROOT environ find_library fs lib in
  Forall (names_existing fs (fun p => p)) objects /\
  if use_static environ fs lib then "aerospike" ∉ libs /\ objects = [path_str (join lib "libaerospike.a")]
  else head libs = Some "aerospike".
Proof.
  intros Hl. unfold link_inputs. pose proof (use_static_iff fs lib Hl) as Hs. pose proof extra_libs_no_aerospike as Hx.
  destruct (use_static environ fs lib).
  - destruct Hs as [Hs _]. destruct (Hs eq_refl) as [_ Eso]. unfold has_library in Hl. rewrite Eso in Hl. cbn in Hl.
    split_and!; [|set_solver|done]. apply Forall_cons. split; [by eexists|done].
  - destruct (exists_path fs (join (DEPS_YAML_LIB ROOT) "libyaml.so") || _); [by split|].
    destruct (exists_path fs (join (DEPS_YAML_LIB ROOT) "libyaml.a")) eqn:Ey; [|by split]. split; [|done].
    apply Forall_cons. split; [by eexists|done].
Qed.

Lemma extension_usable fs pi inc lib : include_dir fs = Some inc -> library_dir fs = Some lib ->
  usable fs inc lib (native_extension ROOT environ find_library fs pi inc lib (lmcache_dirs fs)).
Proof.
  rewrite include_dir_find, library_dir_find. intros Hi%found_ok Hl%found_ok.
  pose proof (use_static_iff fs lib Hl) as Hs. pose proof (link_inputs_spec fs lib Hl) as Hk.
  unfold native_extension. destruct (link_inputs _ _ _ _ _) as [libs objects]. destruct Hk as [Ho Hk].
  split; cbn [include_dirs library_dirs libraries extra_objects runtime_library_dirs fst snd];
    [split; [set_solver|done]|apply lmcache_dirs_exist|done|..|done|].
  - rewrite <- Hs. destruct (use_static environ fs lib); [tauto|]. split; [|done].
    intros Hno. destruct libs as [|x libs]; [done|]. injection Hk as ->. set_solver.
  - destruct (use_static environ fs lib); [tauto|]. destruct libs as [|x libs]; [done|].
    injection Hk as ->. set_solver.
  - destruct (use_static environ fs lib); [tauto|done].
  - destruct (use_static environ fs lib) eqn:E.
    + destruct Hs as [Hs _]. by rewrite andb_false_r, (proj2 (Hs eq_refl)).
    + by rewrite andb_true_r.
Qed.

(** every outcome of [_native_extensions].  It raises only when the build is forced:
    [ImportError] without pybind11, [RuntimeError] without headers or library.  It skips the
    extension when that is asked for, or, unforced, exactly when something is missing.  Otherwise
    it builds one extension, with a header, a library and run-time directories that exist; the
    archive is linked by path exactly when it is asked for and there is no shared library. *)
Theorem native_extensions_spec (fs : FileSystem) :
  let missing := pybind11 = None \/ include_dir fs = None \/ library_dir fs = None in
  match build fs with
  | inl e => no_native = false /\ force = true /\
      (e = Py ImportError /\ pybind11 = None \/
       e = Py RuntimeError /\ pybind11 <> None /\ (include_dir fs = None \/ library_dir fs = None))
  | inr [] => no_native = true \/ force = false /\ (missing \/ lmcache_dirs fs = [])
  | inr [e] => no_native = false /\ (force = true \/ lmcache_dirs fs <> []) /\ ~ missing /\
      exists inc lib, include_dir fs = Some inc /\ library_dir fs = Some lib /\ usable fs inc lib e
  | inr _ => False
  end.
Proof.
  cbn zeta. unfold _native_extensions. destruct no_native; [by left|]. cbv zeta.
  unfold _has_aerospike_headers, _has_aerospike_library.
  pose proof (extension_usable fs) as Hu.
  destruct (decide (lmcache_dirs fs = [])) as [Em|Em]; rewrite ?(bool_decide_eq_true_2 _ Em), ?(bool_decide_eq_false_2 _ Em);
    destruct (include_dir fs) as [inc|], (library_dir fs) as [lib|]; cbn [andb orb negb];
    destruct pybind11 as [pi|], force; cbn [andb orb negb]; try (right; by auto); try (split_and!; by auto);
    (split_and!; [done|by auto|intuition congruence|]); exists inc, lib; auto.
Qed.
End theorems.

(** [find_library("aerospike")] is looked up and ignored: a client installed where only the linker
    finds it does not count. *)
Lemma system_library_ignored ROOT environ fl fl' fs :
  _aerospike_library_dir ROOT environ fl fs = _aerospike_library_dir ROOT environ fl' fs.
Proof. by rewrite !library_dir_find. Qed.

(** ** A checkout with two build trees, listed in reverse order *)

Definition demo_root : Path := py_path "/repo".

Definition demo_files : list Path := py_path <$>
  ["/repo/.deps/aerospike-client-c/target/Linux-aarch64/lib/libaerospike.a";
   "/repo/.deps/aerospike-client-c/target/Linux-x86_64/lib/libaerospike.so";
   "/repo/.deps/aerospike-client-c/target/Linux-x86_64/include/aerospike/aerospike.h";
   "/opt/lmcache//csrc/./storage_backends/connector_base.h"].

#[global] Instance path_eq_dec : EqDecision Path.
Proof. solve_decision. Defined.

Definition demo_fs : FileSystem := mkFileSystem (fun p => bool_decide (p ∈ demo_files))
  (fun p => bool_decide (p = DEPS_CLIENT demo_root))
  (fun p => if decide (p = join (DEPS_CLIENT demo_root) "target") then ["Linux-x86_64"; "docs"; "Linux-aarch64"] else []).

Example demo_build :
  match _native_extensions demo_root {["LMCACHE_SRC" := "/opt/lmcache"; "AEROSPIKE_STATIC" := "1"]}
    (fun _ => None) (Some "/py/include") demo_fs with
  | inr [e] =>
      include_dirs e = ["/repo/csrc/aerospike"; "/py/include";
        "/repo/.deps/aerospike-client-c/target/Linux-x86_64/include"; "/opt/lmcache/csrc/storage_backends"] /\
      library_dirs e = ["/repo/.deps/aerospike-client-c/target/Linux-aarch64/lib"] /\
      libraries e = ["ssl"; "crypto"; "pthread"; "z"; "rt"; "uv"; "yaml"] /\ runtime_library_dirs e = []
  | _ => False
  end.
Proof. vm_compute. repeat split. Qed.
