(* ===== verification/Scripts.v ===== *)
(** * The command-line scripts ([scripts/*.py], [benchmarks/l2/bootstrap.py])

    A script prints lines and ends: by returning, by [sys.exit], or by an exception that reaches
    the interpreter.  What it finds out about the installation (imports, programs, files, the
    cluster) is an argument. *)

From S2P Require Import Prelude PyStr Errors Crc32 Keys Runtime Connector NativeBuild.

Inductive line := Out (s : string) | Err (s : string).

Inductive stop := SystemExit (code : Z) | Uncaught (e : exc).

(** How a script ends, and what it has printed until then. *)
Definition script (A : Type) : Type := (stop + A) * list line.

Definition done_ {A} (a : A) : script A := (inr a, []).
Definition stop_ {A} (s : stop) : script A := (inl s, []).
Definition print (s : string) : script unit := (inr tt, [Out s]).

Definition then_ {A B} (p : script A) (f : A -> script B) : script B :=
  match p with
  | (inl s, out) => (inl s, out)
  | (inr a, out) => let '(r, out') := f a in (r, out ++ out')
  end.

Definition call_ {A} (r : result A) : script A :=
  match r with inl e => stop_ (Uncaught e) | inr a => done_ a end.

Definition assert_ (b : bool) : script unit := if b then done_ tt else stop_ (Uncaught (Py AssertionError)).

Declare Scope script_scope.
Delimit Scope script_scope with script.
Notation "'do*' x := p 'in' q" := (then_ p (fun x => q))
  (at level 200, x name, p at level 100, q at level 200) : script_scope.
Notation "p ;;* q" := (then_ p (fun _ => q)) (at level 100, q at level 200, right associativity) : script_scope.
Local Open Scope script_scope.

Fixpoint each {X} (f : X -> script unit) (xs : list X) : script unit :=
  match xs with
  | [] => done_ tt
  | x :: xs => f x ;;* each f xs
  end.

(** [needle in text] *)
Definition in_text (needle text : string) : bool := match String.index 0 needle text with Some _ => true | None => false end.

(** A string in double quotes. *)
Definition quoted (s : string) : string := String (Ascii.ascii_of_nat 34) s +:+ String (Ascii.ascii_of_nat 34) "".

Definition py_bool_str (b : bool) : string := if b then "True" else "False".

(** ** [preflight.py] *)

Section preflight.
(** The imports at the top; the classes of LMCache; the attributes of the client library. *)
Context (imports : result unit) (remote_abstract adapter_abstract : list string) (support : string -> result bool).
Context (extract_plugin_type : string -> result string).
Context (client_attrs br_attrs op_attrs : list string) (constant : string -> option string).
Context (init_remote_metadata_info : Z -> result unit) (get_remote_metadata_bytes : result string).

Definition has (attrs : list string) (name : string) : bool := bool_decide (name ∈ attrs).

Definition need : list string := ["exists"; "exists_sync"; "get"; "put"; "list"; "close"].

Definition client_methods : list string :=
  ["put"; "get"; "select"; "exists"; "remove"; "batch_read"; "batch_write"; "is_connected"; "get_node_names";
   "info_random_node"; "scan"].

Definition legacy : list string := ["exists_many"; "get_many"; "select_many"].

Definition preflight : script unit :=
  call_ imports ;;*
  assert_ (forallb (has remote_abstract) need) ;;*
  (do* b := call_ (support "support_batched_async_contains") in assert_ b) ;;*
  (do* b := call_ (support "support_batched_get_non_blocking") in assert_ b) ;;*
  (do* b := call_ (support "support_batched_contains") in assert_ (negb b)) ;;*
  assert_ (has adapter_abstract "create_connector") ;;*
  (do* t := call_ (extract_plugin_type "aerospike.primary") in assert_ (String.eqb t "aerospike")) ;;*
  each (fun name => assert_ (has client_attrs name)) client_methods ;;*
  each (fun gone => print ("legacy " +:+ gone +:+ " present: " +:+ py_bool_str (has client_attrs gone))) legacy ;;*
  assert_ (forallb (has br_attrs) ["BatchRecords"; "Write"; "Read"; "Remove"]) ;;*
  assert_ (has op_attrs "write" && has op_attrs "read") ;;*
  each (fun c => print (c +:+ " = " +:+ default "MISSING" (constant c)))
    ["TTL_NEVER_EXPIRE"; "TTL_NAMESPACE_DEFAULT"; "TTL_DONT_UPDATE"] ;;*
  call_ (init_remote_metadata_info 1) ;;*
  (do* n := call_ get_remote_metadata_bytes in print ("remote_metadata_bytes = " +:+ n)) ;;*
  print "OK: preflight passed".
End preflight.

(** ** [preflight_l2_bench.py] and [bootstrap.py] *)

Definition _fail (msg : string) : script unit :=
  then_ (inr tt, [Err ("FAIL: " +:+ msg)]) (fun _ => stop_ (SystemExit 1)).

Section bootstrap.
(** [Path(__file__).resolve().parents[2]], the environment, [expanduser().resolve()]; the attributes of
    [lmcache.native_storage_ops]; the file system; loading and running the fallback. *)
Context (ROOT : Path) (environ : gmap string string) (resolve : Path -> Path).
Context (native_storage_ops : result (list string)) (is_file : Path -> bool).
Context (has_loader : Path -> bool) (exec_module install_fallback init_metadata : result unit).

Definition _lmcache_src : Path :=
  match environ !! "LMCACHE_SRC" with
  | Some env => if String.eqb env "" then mkPath (root ROOT) (removelast (parts ROOT) ++ ["LMCache"]) else resolve (py_path env)
  | None => mkPath (root ROOT) (removelast (parts ROOT) ++ ["LMCache"])
  end.

Definition install_native_storage_ops_fallback : result unit :=
  let complete :=
    match native_storage_ops with
    | inr attrs => has attrs "Bitmap" && has attrs "TTLLock"
    | inl _ => false
    end in
  if complete then inr tt
  else
    let utils := joins _lmcache_src ["tests"; "v1"; "storage_backend"; "raw_block_test_utils.py"] in
    if negb (is_file utils) then inl (Py RuntimeError)
    else if negb (has_loader utils) then inl (Py RuntimeError)
    else let? _ := exec_module in install_fallback.

Definition bootstrap : result unit :=
  let? _ := install_native_storage_ops_fallback in init_metadata.
End bootstrap.

Section preflight_l2.
(** [shutil.which], imports of a module and of a name, [str(exc)], the run of a command (return code and
    output), [l2_plugin.L2_MP_AVAILABLE], the import of [bootstrap] and the call [bootstrap()]. *)
Context (which : string -> option string) (import_module : string -> result unit) (import_name : string -> string -> result unit).
Context (exc_str : exc -> string) (subprocess_run : list string -> result (Z * string * string)).
Context (L2_MP_AVAILABLE : bool) (import_bootstrap bootstrapped : result unit).

(** [try: import ... except ImportError as exc: _fail(...)] *)
Definition require_import (r : result unit) (msg : string) : script unit :=
  match r with
  | inr _ => done_ tt
  | inl e => if decide (e = Py ImportError) then _fail (msg +:+ exc_str e) else stop_ (Uncaught e)
  end.

Definition _check_common : script unit :=
  (match which "lmcache" with
   | None => _fail "lmcache CLI not on PATH (install LMCache dev via scripts/setup_l2_bench.sh)"
   | Some _ => done_ tt
   end) ;;*
  require_import (import_name "lmcache.v1.distributed.internal_api" "L2StoreResult")
    "L2StoreResult missing — PyPI lmcache 0.4.x is not enough; install LMCache dev: " ;;*
  require_import (import_module "lmcache.cli.commands.bench.l2_adapter_bench.command")
    "lmcache bench l2 subcommand not found: " ;;*
  require_import (import_module "openai") "openai package required for lmcache CLI: " ;;*
  (do* help := call_ (subprocess_run ["lmcache"; "bench"; "l2"; "--help"]) in
   let '(returncode, stdout, stderr) := help in
   (if returncode =? 0 then done_ tt
    else _fail ("lmcache bench l2 --help failed:" +:+ String (Ascii.ascii_of_nat 10) (if String.eqb stderr "" then stdout else stderr))) ;;*
   (if in_text "--l2-adapter" (stdout +:+ stderr) then done_ tt
    else _fail "lmcache bench l2 --help missing --l2-adapter")).

(** [main], from the parsed options [--resp] and [--native-aerospike]. *)
Definition preflight_l2 (resp native_aerospike : bool) : script unit :=
  call_ import_bootstrap ;;*
  _check_common ;;*
  call_ (import_module "lmcache_aerospike.l2_plugin") ;;*
  (if L2_MP_AVAILABLE then done_ tt
   else _fail "AerospikeL2Plugin L2_MP_AVAILABLE is false after LMCache install") ;;*
  (if resp then
     require_import (import_module "lmcache.lmcache_redis")
       ("lmcache.lmcache_redis not importable — rebuild LMCache from source (pip install -e " +:+ quoted "${LMCACHE_SRC}" +:+ " --no-build-isolation): ")
   else done_ tt) ;;*
  (if native_aerospike then
     require_import (import_module "lmcache_aerospike._native")
       ("lmcache_aerospike._native not importable — install pybind11, LMCache native headers, and libaerospike development files, then reinstall this package with native build enabled: ")
   else done_ tt) ;;*
  call_ bootstrapped ;;*
  print "OK: preflight_l2_bench passed".
End preflight_l2.

(** ** [truncate_aerospike_bench_sets.py] *)

Section truncate.
(** The environment, the import of the client, [str(exc)], and on the cluster: [client(...).connect()],
    [truncate] and [close]. *)
Context (environ : gmap string string) (import_aerospike : result unit) (exc_str : exc -> string) {C : Type}.
Context (connect : string -> Z -> C -> result unit * C) (truncate : string -> string -> Z -> C -> result unit * C)
  (close : C -> result unit * C).

Definition getenv (name default_ : string) : string := default default_ (environ !! name).

Definition bench_sets : list string :=
  [getenv "AEROSPIKE_BENCH_L2_SET" "kv_chunks_bench_l2"; getenv "AEROSPIKE_NATIVE_BENCH_L2_SET" "kv_chunks_bench_l2_native"].

(** One round of the loop: whatever [truncate] raises is printed. *)
Definition truncate_set (namespace set_name : string) (c : C) : list line * C :=
  let '(r, c) := truncate namespace set_name 0 c in
  ([match r with
    | inr _ => Out ("truncated " +:+ namespace +:+ "/" +:+ set_name)
    | inl e => Err ("truncate " +:+ namespace +:+ "/" +:+ set_name +:+ ": " +:+ exc_str e)
    end], c).

Fixpoint truncate_sets (namespace : string) (sets : list string) (c : C) : list line * C :=
  match sets with
  | [] => ([], c)
  | s :: sets =>
      let '(out, c) := truncate_set namespace s c in
      let '(out', c) := truncate_sets namespace sets c in (out ++ out', c)
  end.

Definition truncate_main (c : C) : script Z * C :=
  let host := getenv "AEROSPIKE_TEST_HOST" "127.0.0.1" in
  match int_of_string (getenv "AEROSPIKE_TEST_PORT" "3000") with
  | None => (stop_ (Uncaught (Py ValueError)), c)
  | Some port =>
      let namespace := getenv "AEROSPIKE_TEST_NAMESPACE" "lmcache" in
      match import_aerospike with
      | inl e =>
          if decide (e = Py ImportError) then
            ((inr 0, [Err ("truncate skipped: aerospike package not installed (" +:+ exc_str e +:+ ")")]), c)
          else (stop_ (Uncaught e), c)
      | inr _ =>
          let '(r, c) := connect host port c in
          match r with
          | inl e => (stop_ (Uncaught e), c)
          | inr _ =>
              let '(out, c) := truncate_sets namespace (fromkeys bench_sets) c in
              let '(r, c) := close c in
              match r with
              | inl e => ((inl (Uncaught e), out), c)
              | inr _ => ((inr 0, out), c)
              end
          end
      end
  end.
End truncate.

(** ** When a script passes *)

Definition ends {A} (p : script A) (ok : Prop) : Prop := match fst p with inr _ => ok | inl _ => ~ ok end.

Lemma ends_then {A B} (p : script A) (f : A -> script B) (ok : Prop) (ok' : A -> Prop) :
  (forall a, ends (f a) (ok' a)) ->
  match fst p with inr a => ok <-> ok' a | inl _ => ~ ok end -> ends (then_ p f) ok.
Proof.
  intros Hf Hp. destruct p as [[s|a] out]; cbn in *; [done|]. specialize (Hf a). unfold ends in *. cbn.
  destruct (f a) as [[s|b] out']; cbn in *; tauto.
Qed.

Lemma ends_seq {A B} (p : script A) (q : script B) ok ok' : ends p ok -> ends q ok' -> ends (p ;;* q) (ok /\ ok').
Proof. intros Hp Hq. apply (ends_then _ _ _ (fun _ => ok')); [done|]. unfold ends in Hp. destruct (fst p); tauto. Qed.

Lemma ends_call {A B} (r : result A) (f : A -> script B) ok' :
  (forall a, ends (f a) (ok' a)) -> ends (do* a := call_ r in f a) (exists a, r = inr a /\ ok' a).
Proof.
  intros Hf. apply (ends_then _ _ _ ok'); [done|]. destruct r as [e|a]; cbn.
  - by intros (a & [=] & _).
  - split; [by intros (b & [= ->] & Hb)|by exists a].
Qed.

Lemma ends_result (r : result unit) : ends (call_ r) (r = inr tt).
Proof. by destruct r as [e|[]]. Qed.

Lemma ends_print s : ends (print s) True.
Proof. done. Qed.

Lemma ends_assert b : ends (assert_ b) (b = true).
Proof. by destruct b. Qed.

Lemma ends_iff {A} (p : script A) ok ok' : ends p ok -> (ok <-> ok') -> ends p ok'.
Proof. unfold ends. destruct (fst p); tauto. Qed.

Lemma ends_each {X} (f : X -> script unit) (ok : X -> Prop) xs : (forall x, ends (f x) (ok x)) -> ends (each f xs) (Forall ok xs).
Proof.
  intros Hf. induction xs as [|x xs IH]; cbn [each]; [unfold ends; cbn; constructor|].
  eapply ends_iff; [by apply ends_seq|]. by rewrite Forall_cons.
Qed.

(** Nothing is printed but one complaint, and then the exit code is 1. *)
Definition complains {A} (p : script A) : Prop :=
  match p with
  | (inl (SystemExit c), out) => c = 1 /\ exists msg, out = [Err ("FAIL: " +:+ msg)]
  | (_, out) => out = []
  end.

Lemma complains_then {A B} (p : script A) (f : A -> script B) :
  complains p -> (forall a, complains (f a)) -> complains (then_ p f).
Proof.
  intros Hp Hf. destruct p as [[[c|e]|a] out]; cbn in *; [done|done|]. subst out. specialize (Hf a).
  by destruct (f a) as [[[c|e]|b] out].
Qed.

Lemma complains_call {A} (r : result A) : complains (call_ r).
Proof. by destruct r. Qed.

Lemma complains_fail msg : complains (_fail msg).
Proof. split; [done|]. by exists msg. Qed.

(** A script of such checks and a last line. *)
Definition verdict (p : script unit) (last : string) (ok : Prop) : Prop :=
  match p with
  | (inr _, out) => ok /\ out = [Out last]
  | (inl (SystemExit c), out) => ~ ok /\ c = 1 /\ exists msg, out = [Err ("FAIL: " +:+ msg)]
  | (inl (Uncaught e), out) => ~ ok /\ out = []
  end.

Lemma verdict_print last : verdict (print last) last True.
Proof. done. Qed.

Lemma verdict_seq (p q : script unit) last (ok ok' : Prop) : ends p ok -> complains p -> verdict q last ok' -> verdict (p ;;* q) last (ok /\ ok').
Proof.
  intros He Hc Hq. destruct p as [[[c|e]|[]] out]; cbn in *; [tauto|tauto|]. subst out.
  destruct q as [[[c|e]|[]] out]; cbn in *; tauto.
Qed.

Lemma verdict_iff (p : script unit) last (ok ok' : Prop) : verdict p last ok -> (ok <-> ok') -> verdict p last ok'.
Proof. unfold verdict. destruct p as [[[c|e]|[]] out]; tauto. Qed.

Section bench_theorems.
Context (which : string -> option string) (import_module : string -> result unit) (import_name : string -> string -> result unit).
Context (exc_str : exc -> string) (subprocess_run : list string -> result (Z * string * string)).
Context (L2_MP_AVAILABLE : bool) (import_bootstrap bootstrapped : result unit).

Abbreviation main := (preflight_l2 which import_module import_name exc_str subprocess_run L2_MP_AVAILABLE import_bootstrap bootstrapped).

Lemma require_ends r msg : ends (require_import exc_str r msg) (r = inr tt).
Proof. unfold require_import. destruct r as [e|[]]; [|done]. by case_decide. Qed.

Lemma require_complains r msg : complains (require_import exc_str r msg).
Proof. unfold require_import. destruct r as [e|[]]; [|done]. case_decide; [apply complains_fail|done]. Qed.

(** What has to be installed for the benchmarks, with the optional connectors. *)
Definition installed (resp native_aerospike : bool) : Prop :=
  import_bootstrap = inr tt /\ is_Some (which "lmcache") /\
  import_name "lmcache.v1.distributed.internal_api" "L2StoreResult" = inr tt /\
  import_module "lmcache.cli.commands.bench.l2_adapter_bench.command" = inr tt /\
  import_module "openai" = inr tt /\
  (exists help, subprocess_run ["lmcache"; "bench"; "l2"; "--help"] = inr help /\
     fst (fst help) = 0 /\ in_text "--l2-adapter" (snd (fst help) +:+ snd help) = true) /\
  import_module "lmcache_aerospike.l2_plugin" = inr tt /\ L2_MP_AVAILABLE = true /\
  (resp = true -> import_module "lmcache.lmcache_redis" = inr tt) /\
  (native_aerospike = true -> import_module "lmcache_aerospike._native" = inr tt) /\
  bootstrapped = inr tt.

Lemma check_common_ends : ends (_check_common which import_module import_name exc_str subprocess_run)
  (is_Some (which "lmcache") /\
   import_name "lmcache.v1.distributed.internal_api" "L2StoreResult" = inr tt /\
   import_module "lmcache.cli.commands.bench.l2_adapter_bench.command" = inr tt /\
   import_module "openai" = inr tt /\
   exists help, subprocess_run ["lmcache"; "bench"; "l2"; "--help"] = inr help /\
     fst (fst help) = 0 /\ in_text "--l2-adapter" (snd (fst help) +:+ snd help) = true).
Proof.
  unfold _check_common. repeat (apply ends_seq); try apply require_ends.
  - destruct (which "lmcache"); unfold ends; cbn; [by eexists|by intros [? ?]].
  - apply ends_call. intros [[code out] err]. cbn [fst snd]. apply ends_seq.
    + destruct (Z.eqb_spec code 0); unfold ends; cbn; done.
    + destruct (in_text _ _); unfold ends; cbn; done.
Qed.

Lemma check_common_complains : complains (_check_common which import_module import_name exc_str subprocess_run).
Proof.
  unfold _check_common. apply complains_then; [destruct (which _); [done|apply complains_fail]|]. intros _.
  do 3 (apply complains_then; [apply require_complains|intros _]).
  apply complains_then; [apply complains_call|]. intros [[code out] err].
  apply complains_then; [destruct (_ =? _); [done|apply complains_fail]|]. intros _.
  destruct (in_text _ _); [done|apply complains_fail].
Qed.

(** [preflight_l2_bench.py] returns exactly when everything it is asked for is installed, having
    printed only its last line; otherwise it complains about one thing and exits with 1, or lets
    an exception that is no [ImportError] through without printing. *)
Theorem preflight_l2_spec (resp native_aerospike : bool) :
  match main resp native_aerospike with
  | (inr _, out) => installed resp native_aerospike /\ out = [Out "OK: preflight_l2_bench passed"]
  | (inl (SystemExit c), out) => ~ installed resp native_aerospike /\ c = 1 /\ exists msg, out = [Err ("FAIL: " +:+ msg)]
  | (inl (Uncaught e), out) => ~ installed resp native_aerospike /\ out = []
  end.
Proof.
  change (verdict (main resp native_aerospike) "OK: preflight_l2_bench passed" (installed resp native_aerospike)).
  assert (Hopt : forall (b : bool) r msg, ends (if b then require_import exc_str r msg else done_ tt) (b = true -> r = inr tt)).
  { intros [] r msg; [|done]. eapply ends_iff; [apply require_ends|tauto]. }
  assert (Hoptc : forall (b : bool) r msg, complains (if b then require_import exc_str r msg else done_ tt))
    by (intros [] r msg; [apply require_complains|done]).
  eapply verdict_iff.
  - unfold preflight_l2. apply verdict_seq; [apply ends_result|apply complains_call|].
    apply verdict_seq; [apply check_common_ends|apply check_common_complains|].
    apply verdict_seq; [apply ends_result|apply complains_call|].
    apply verdict_seq with (ok := L2_MP_AVAILABLE = true); [by destruct L2_MP_AVAILABLE|by destruct L2_MP_AVAILABLE; [|apply complains_fail]|].
    apply verdict_seq; [apply Hopt|apply Hoptc|]. apply verdict_seq; [apply Hopt|apply Hoptc|].
    apply verdict_seq; [apply ends_result|apply complains_call|apply verdict_print].
  - unfold installed. tauto.
Qed.
End bench_theorems.

(** A script that never calls [sys.exit], and one that says [l] last when it returns. *)
Definition no_exit {A} (p : script A) : Prop := forall c, fst p <> inl (SystemExit c).

Definition closes {A} (p : script A) (l : line) : Prop := no_exit p /\ forall a, fst p = inr a -> last (snd p) = Some l.

Lemma no_exit_then {A B} (p : script A) (f : A -> script B) : no_exit p -> (forall a, no_exit (f a)) -> no_exit (then_ p f).
Proof.
  intros Hp Hf c. unfold then_. destruct p as [[s|a] out]; [intros E; apply (Hp c); cbn in *; congruence|].
  pose proof (Hf a c) as Ha. by destruct (f a).
Qed.

Lemma no_exit_call {A} (r : result A) : no_exit (call_ r).
Proof. by intros c; destruct r. Qed.

Lemma no_exit_assert b : no_exit (assert_ b).
Proof. by intros c; destruct b. Qed.

Lemma no_exit_print s : no_exit (print s).
Proof. by intros c. Qed.

Lemma no_exit_each {X} (f : X -> script unit) xs : (forall x, no_exit (f x)) -> no_exit (each f xs).
Proof. intros Hf. induction xs as [|x xs IH]; [by intros c|]. cbn [each]. by apply no_exit_then. Qed.

Lemma closes_print s : closes (print s) (Out s).
Proof. split; [apply no_exit_print|done]. Qed.

Lemma closes_seq {A B} (p : script A) (q : script B) l : no_exit p -> closes q l -> closes (p ;;* q) l.
Proof.
  intros Hp [Hq Hl]. split; [by apply no_exit_then|]. intros b. unfold then_.
  destruct p as [[s|a] out]; [done|]. destruct q as [r out'] eqn:Eq. cbn in *. intros ->.
  by rewrite last_app, (Hl b).
Qed.

Ltac no_exit :=
  repeat match goal with
  | |- no_exit (call_ _) => apply no_exit_call
  | |- no_exit (assert_ _) => apply no_exit_assert
  | |- no_exit (print _) => apply no_exit_print
  | |- no_exit (each _ _) => apply no_exit_each; intros ?
  | |- no_exit (then_ _ _) => apply no_exit_then; [|intros ?]
  end.

(** ** What [preflight.py] checks, and what the engine uses *)

(** The method of the client library behind a request of the engine. *)
Definition method_of {X} (e : ev X) : option string :=
  match e with
  | ClientGet _ => Some "get"
  | ClientSelect _ _ => Some "select"
  | ClientPut _ _ _ _ => Some "put"
  | ClientBatchRead _ _ => Some "batch_read"
  | ClientBatchWrite _ => Some "batch_write"
  | ClientRemove _ => Some "remove"
  | ClientTouch _ _ _ => Some "touch"
  | ClientOperate _ _ _ _ => Some "operate"
  | _ => None
  end.

Section preflight_theorems.
Context (imports : result unit) (remote_abstract adapter_abstract : list string) (support : string -> result bool).
Context (extract_plugin_type : string -> result string).
Context (client_attrs br_attrs op_attrs : list string) (constant : string -> option string).
Context (init_remote_metadata_info : Z -> result unit) (get_remote_metadata_bytes : result string).

Abbreviation main := (preflight imports remote_abstract adapter_abstract support extract_plugin_type client_attrs
  br_attrs op_attrs constant init_remote_metadata_info get_remote_metadata_bytes).

Definition suitable : Prop :=
  imports = inr tt /\ (forall n, n ∈ need -> n ∈ remote_abstract) /\
  support "support_batched_async_contains" = inr true /\ support "support_batched_get_non_blocking" = inr true /\
  support "support_batched_contains" = inr false /\ "create_connector" ∈ adapter_abstract /\
  extract_plugin_type "aerospike.primary" = inr "aerospike" /\
  (forall n, n ∈ client_methods -> n ∈ client_attrs) /\
  (forall n, n ∈ ["BatchRecords"; "Write"; "Read"; "Remove"] -> n ∈ br_attrs) /\
  "write" ∈ op_attrs /\ "read" ∈ op_attrs /\
  init_remote_metadata_info 1 = inr tt /\ exists n, get_remote_metadata_bytes = inr n.

Lemma has_all attrs names : forallb (has attrs) names = true <-> forall n, n ∈ names -> n ∈ attrs.
Proof.
  rewrite forallb_forall. unfold has. split.
  - intros Ha n Hn%list_elem_of_In. by apply (bool_decide_eq_true (n ∈ attrs)), Ha.
  - intros Ha n Hn. apply bool_decide_eq_true, Ha. by apply list_elem_of_In.
Qed.

Lemma support_ends name (want : bool) (f : bool -> bool) : (forall b, f b = true <-> b = want) ->
  ends (do* b := call_ (support name) in assert_ (f b)) (support name = inr want).
Proof.
  intros Hf. eapply ends_iff; [apply (ends_call _ _ (fun b => f b = true)); intros b; apply ends_assert|].
  split; [intros (b & -> & ->%Hf); done|]. intros ->. exists want. split; [done|]. by apply Hf.
Qed.

(** [preflight.py] reaches its last line exactly in a suitable installation, and it never calls
    [sys.exit]: a failed check is an [AssertionError], other exceptions are those of what it asks. *)
Theorem preflight_spec :
  match fst main with
  | inr _ => suitable /\ last (snd main) = Some (Out "OK: preflight passed")
  | inl (SystemExit _) => False
  | inl (Uncaught _) => ~ suitable
  end.
Proof.
  assert (He : ends main suitable).
  { eapply ends_iff.
    - unfold preflight. apply ends_seq; [apply ends_result|]. apply ends_seq; [apply ends_assert|].
      apply ends_seq; [apply (support_ends _ true id); by intros []|].
      apply ends_seq; [apply (support_ends _ true id); by intros []|].
      apply ends_seq; [apply (support_ends _ false negb); by intros []|]. apply ends_seq; [apply ends_assert|].
      apply ends_seq; [apply ends_call; intros t; apply ends_assert|].
      apply ends_seq; [apply (ends_each _ (fun n => has client_attrs n = true)); intros n; apply ends_assert|].
      apply ends_seq; [apply (ends_each _ (fun _ => True)); intros n; apply ends_print|].
      apply ends_seq; [apply ends_assert|]. apply ends_seq; [apply ends_assert|].
      apply ends_seq; [apply (ends_each _ (fun _ => True)); intros n; apply ends_print|].
      apply ends_seq; [apply ends_result|].
      apply ends_seq; [apply (ends_call _ _ (fun _ => True)); intros n; apply ends_print|apply ends_print].
    - unfold suitable. rewrite !has_all, andb_true_iff, Forall_forall. unfold has. rewrite !bool_decide_eq_true.
      setoid_rewrite bool_decide_eq_true. setoid_rewrite String.eqb_eq. rewrite !Forall_forall. naive_solver. }
  assert (Hc : closes main (Out "OK: preflight passed")).
  { unfold preflight. repeat (apply closes_seq; [no_exit|]). apply closes_print. }
  destruct Hc as [Hno Hlast]. unfold ends in He. destruct main as [[[c|e]|[]] out]; cbn in *; [by destruct (Hno c)|done|].
  split; [done|]. by apply (Hlast tt).
Qed.

(** A passed check leaves no request of the engine without a method in the client library, except
    the [touch] and [operate] of [unpin], which it does not ask for. *)
Theorem preflight_covers_engine : fst main = inr tt ->
  (forall X (e : ev X) m, method_of e = Some m -> m ∈ client_attrs \/ m ∈ ["touch"; "operate"]) /\
  "touch" ∉ client_methods /\ "operate" ∉ client_methods.
Proof.
  intros Hm. pose proof preflight_spec as Hs. rewrite Hm in Hs. destruct Hs as [Hs _].
  destruct Hs as (_ & _ & _ & _ & _ & _ & _ & Hall & _). split.
  - intros X e m. destruct e; cbn; try done; intros [= <-]; first [right; by repeat constructor | left; apply Hall, (bool_decide_unpack _); vm_compute; exact I].
  - split; intros Hin; apply (bool_decide_eq_true_2 _) in Hin; vm_compute in Hin; discriminate.
Qed.
End preflight_theorems.

(** ** What the truncation does *)

Section truncate_theorems.
Context (environ : gmap string string) (import_aerospike : result unit) (exc_str : exc -> string) {C : Type}.
Context (connect : string -> Z -> C -> result unit * C) (truncate : string -> string -> Z -> C -> result unit * C)
  (close : C -> result unit * C).

Abbreviation main := (truncate_main environ import_aerospike exc_str connect truncate close).
Abbreviation env := (getenv environ).

Lemma truncate_sets_run ns sets : forall c,
  let '(out, c') := truncate_sets exc_str truncate ns sets c in
  length out = length sets /\ c' = foldl (fun c s => snd (truncate ns s 0 c)) c sets.
Proof.
  induction sets as [|s sets IH]; intros c; cbn [truncate_sets foldl]; [done|]. unfold truncate_set.
  destruct (truncate ns s 0 c) as [r c1]. specialize (IH c1). destruct (truncate_sets _ _ ns sets c1) as [out c2].
  destruct IH as [Hl ->]. cbn. by rewrite Hl.
Qed.

(** The cluster is asked for nothing but: one connection, one truncation of each different set, in
    order, whatever the others raise, and one close at the end; one line is printed per set.  A
    port that is no number, a missing client package and a failed connection end the script before
    any truncation; only the missing package is no failure. *)
Theorem truncate_spec (c : C) :
  let '((r, out), c') := main c in
  match int_of_string (env "AEROSPIKE_TEST_PORT" "3000"), import_aerospike with
  | None, _ => r = inl (Uncaught (Py ValueError)) /\ c' = c
  | Some _, inl e => c' = c /\ (r = inr 0 <-> e = Py ImportError)
  | Some port, inr _ =>
      let '(opened, c1) := connect (env "AEROSPIKE_TEST_HOST" "127.0.0.1") port c in
      match opened with
      | inl e => r = inl (Uncaught e) /\ c' = c1 /\ out = []
      | inr _ =>
          let ns := env "AEROSPIKE_TEST_NAMESPACE" "lmcache" in
          exists sets, NoDup sets /\ (forall s, s ∈ sets <-> s ∈ bench_sets environ) /\ length out = length sets /\
            let c2 := foldl (fun c s => snd (truncate ns s 0 c)) c1 sets in
            c' = snd (close c2) /\ (r = inr 0 <-> fst (close c2) = inr tt)
      end
  end.
Proof.
  unfold truncate_main. destruct (int_of_string _) as [port|]; [|done].
  destruct import_aerospike as [e|u].
  { by case_decide. }
  destruct (connect _ port c) as [[e|u'] c1]; [done|].
  pose proof (truncate_sets_run (env "AEROSPIKE_TEST_NAMESPACE" "lmcache") (fromkeys (bench_sets environ)) c1) as Hs.
  destruct (truncate_sets _ _ _ _ c1) as [out c2]. destruct Hs as [Hl ->].
  assert (Hnd : NoDup (fromkeys (bench_sets environ))) by apply NoDup_fromkeys_from.
  assert (Hin : forall s, s ∈ fromkeys (bench_sets environ) <-> s ∈ bench_sets environ)
    by (intros s; unfold fromkeys; rewrite elem_of_fromkeys_from; set_solver).
  destruct (close _) as [[e|[]] c3] eqn:Ec; exists (fromkeys (bench_sets environ)); rewrite Ec; by split_and!.
Qed.
End truncate_theorems.

(** With one name for both sets, the set is truncated once. *)
Example one_set_truncated_once :
  let environ := <["AEROSPIKE_NATIVE_BENCH_L2_SET" := "kv_chunks_bench_l2"]> (∅ : gmap string string) in
  truncate_main environ (inr tt) (fun _ => "boom") (fun host port log => (inr tt, log ++ [host]))
    (fun ns s lut log => (inr tt, log ++ [ns +:+ "/" +:+ s])) (fun log => (inr tt, log ++ ["close"])) [] =
  ((inr 0, [Out "truncated lmcache/kv_chunks_bench_l2"]), ["127.0.0.1"; "lmcache/kv_chunks_bench_l2"; "close"]).
Proof. vm_compute. reflexivity. Qed.
